(** * WasmHeapManager: a shallow embedding and its properties

    The manager of [WasmHeapManager.ts] gives typed access to a heap, an
    [ArrayBuffer] owned by the embedder, through eleven cached typed arrays,
    and hands out reference objects ([Int8Ref], [Pointer32Ref],
    [NullTerminatedUtf8StringRef], [Float64ArrayRef], ...) that remember an
    address and refuse to work once freed.

    The development has three layers:
    - the values of the language the code is written in: numbers, typed
      arrays over shared byte buffers, [Atomics];
    - the manager and the reference classes, one definition per method of
      the source, in a state and exception monad;
    - the properties. *)

From Stdlib Require Import ZArith Lia List Bool.
From coqutil Require Import Byte Word.LittleEndianList.
From stdpp Require Import base option list gmap.

Local Open Scope Z_scope.

(** ** Numbers

    A JavaScript [number] is an IEEE-754 binary64 value.  Every finite
    binary64 or binary32 value is a dyadic rational, so numbers are kept as
    sign, odd mantissa and exponent: the representation does not depend on
    the format the value is stored in, and an integer is a number like any
    other.  The type is wider than binary64: [round_to] brings a value into
    a format. *)

Inductive Num : Type :=
  | NaN
  | Infinity (neg : bool)
  | Zero (neg : bool)
  | Finite (neg : bool) (m : positive) (e : Z).
    (* (-1)^neg * m * 2^e, with m odd *)

(** The number [m * 2^e], with the factors of two moved to the exponent. *)
Fixpoint dyadic (neg : bool) (m : positive) (e : Z) : Num :=
  match m with
  | xO m' => dyadic neg m' (e + 1)
  | _ => Finite neg m e
  end.

Definition of_Z (z : Z) : Num :=
  match z with
  | Z0 => Zero false
  | Zpos p => dyadic false p 0
  | Zneg p => dyadic true p 0
  end.

(** [ToIntegerOrInfinity] followed by the modular conversions of
    [ToInt8] ... [ToUint32]: the fraction is dropped, and NaN and the
    infinities become 0. *)
Definition truncate (n : Num) : Z :=
  match n with
  | Finite neg m e =>
      let a := Z.shiftl (Zpos m) e in if neg then - a else a
  | _ => 0
  end.

(** [n < z] and [n > z] for an integer [z]; both are false on NaN. *)
Definition Num_ltb (n : Num) (z : Z) : bool :=
  match n with
  | NaN => false
  | Infinity neg => neg
  | Zero _ => 0 <? z
  | Finite neg m e =>
      let sm := if neg then Zneg m else Zpos m in
      if 0 <=? e then sm * 2 ^ e <? z else sm <? z * 2 ^ (- e)
  end.

Definition Num_gtb (n : Num) (z : Z) : bool :=
  match n with
  | NaN => false
  | Infinity neg => negb neg
  | Zero _ => z <? 0
  | Finite neg m e =>
      let sm := if neg then Zneg m else Zpos m in
      if 0 <=? e then z <? sm * 2 ^ e else z * 2 ^ (- e) <? sm
  end.

(** Round to the nearest integer, ties to even (the rounding of
    [ToUint8Clamp]), for a positive [m * 2^e]. *)
Definition round_half_even (m : positive) (e : Z) : Z :=
  if 0 <=? e then Zpos m * 2 ^ e
  else
    let k := - e in
    let q := Zpos m / 2 ^ k in
    let r := Zpos m mod 2 ^ k in
    let half := 2 ^ (k - 1) in
    if (half <? r) || ((r =? half) && Z.odd q) then q + 1 else q.

Definition ToUint8Clamp (n : Num) : Z :=
  match n with
  | NaN => 0
  | Infinity neg => if neg then 0 else 255
  | Zero _ => 0
  | Finite true _ _ => 0
  | Finite false m e => Z.min 255 (round_half_even m e)
  end.

(** *** IEEE-754 interchange formats *)

Record format : Type := Format { prec : Z; ebits : Z }.

Definition binary32 : format := Format 24 8.
Definition binary64 : format := Format 53 11.

Definition emax (f : format) : Z := 2 ^ (ebits f - 1).
Definition bias (f : format) : Z := emax f - 1.
(** The exponent of the least significant bit of a subnormal. *)
Definition emin (f : format) : Z := 3 - emax f - prec f.

Definition digits (m : positive) : Z := Zpos (Pos.size m).

(** Round to nearest, ties to even, into the format. *)
Definition round_to (f : format) (n : Num) : Num :=
  match n with
  | Finite neg m e =>
      let d := digits m in
      let e_t := Z.max (e + d - prec f) (emin f) in
      if e_t <=? e then
        if e + d <=? emax f then n else Infinity neg
      else
        let k := e_t - e in
        let q := Zpos m / 2 ^ k in
        let r := Zpos m mod 2 ^ k in
        let half := 2 ^ (k - 1) in
        let q' := if (half <? r) || ((r =? half) && Z.odd q) then q + 1 else q in
        match q' with
        | Zpos p =>
            if e_t + digits p <=? emax f then dyadic neg p e_t else Infinity neg
        | _ => Zero neg
        end
  | _ => n
  end.

Definition sign_bit (f : format) (neg : bool) : Z :=
  if neg then 2 ^ (prec f - 1 + ebits f) else 0.

(** The bit pattern of a number that is in the format. *)
Definition bits_of (f : format) (n : Num) : Z :=
  match n with
  | NaN => (2 ^ ebits f - 1) * 2 ^ (prec f - 1) + 2 ^ (prec f - 2)
  | Infinity neg => sign_bit f neg + (2 ^ ebits f - 1) * 2 ^ (prec f - 1)
  | Zero neg => sign_bit f neg
  | Finite neg m e =>
      let d := digits m in
      let E := e + d - 1 in
      if 2 - emax f <=? E then
        sign_bit f neg + (E + bias f) * 2 ^ (prec f - 1)
        + (Zpos m * 2 ^ (prec f - d) - 2 ^ (prec f - 1))
      else
        sign_bit f neg + Zpos m * 2 ^ (e - emin f)
  end.

(** What storing a number in a [Float32Array] or [Float64Array] cell
    writes. *)
Definition encode_float (f : format) (n : Num) : Z := bits_of f (round_to f n).

(** What reading such a cell returns. *)
Definition decode_float (f : format) (bits : Z) : Num :=
  let mt := bits mod 2 ^ (prec f - 1) in
  let ex := (bits / 2 ^ (prec f - 1)) mod 2 ^ ebits f in
  let neg := Z.odd (bits / 2 ^ (prec f - 1 + ebits f)) in
  if ex =? 2 ^ ebits f - 1 then
    if mt =? 0 then Infinity neg else NaN
  else if ex =? 0 then
    match mt with
    | Zpos p => dyadic neg p (emin f)
    | _ => Zero neg
    end
  else
    match 2 ^ (prec f - 1) + mt with
    | Zpos p => dyadic neg p (ex - bias f - (prec f - 1))
    | _ => NaN
    end.

Definition odd_pos (m : positive) : bool :=
  match m with xO _ => false | _ => true end.

(** The numbers a cell of the format holds exactly. *)
Definition in_format (f : format) (n : Num) : bool :=
  match n with
  | Finite _ m e =>
      odd_pos m && (emin f <=? e) && (digits m <=? prec f)
      && (e + digits m <=? emax f)
  | _ => true
  end.

(** The formats the proofs below cover. *)
Definition well_formed_format (f : format) : Prop := 2 <= prec f /\ 2 <= ebits f.

(** ** Values, errors *)

Inductive Value : Type :=
  | Undefined
  | Number (n : Num)
  | BigInt (z : Z).

(** The errors of the source, by kind, and the two the platform raises. *)
Inductive Error : Type :=
  | UseAfterFree            (* 'Attempt to read a freed WASM heap reference.' *)
  | CapacityExceeded        (* the string does not fit the maximum *)
  | NullTerminatorNotFound  (* 'Couldn't find a null terminator byte ...' *)
  | InvalidBytesPerElement  (* 'Invalid bytes per element' *)
  | InvalidArgument         (* TypeError('Invalid argument type') *)
  | RangeError
  | TypeError.

Inductive Outcome (A : Type) : Type :=
  | Ret (a : A)
  | Throw (e : Error).
Arguments Ret {A} a.
Arguments Throw {A} e.

Definition obind {A B} (o : Outcome A) (k : A -> Outcome B) : Outcome B :=
  match o with
  | Ret a => k a
  | Throw e => Throw e
  end.

Definition ToNumber (v : Value) : Outcome Num :=
  match v with
  | Undefined => Ret NaN
  | Number n => Ret n
  | BigInt _ => Throw TypeError
  end.

Definition ToBigInt (v : Value) : Outcome Z :=
  match v with
  | BigInt z => Ret z
  | _ => Throw TypeError
  end.

(** [Number(v)]: a bigint becomes the nearest binary64 value. *)
Definition NumberOf (v : Value) : Num :=
  match v with
  | Undefined => NaN
  | Number n => n
  | BigInt z => round_to binary64 (of_Z z)
  end.

(** [v < z] and [v > z] as the relational operators compute them. *)
Definition Value_ltb (v : Value) (z : Z) : bool :=
  match v with
  | Undefined => false
  | Number n => Num_ltb n z
  | BigInt b => b <? z
  end.

Definition Value_gtb (v : Value) (z : Z) : bool :=
  match v with
  | Undefined => false
  | Number n => Num_gtb n z
  | BigInt b => z <? b
  end.

(** ** Element kinds of the typed arrays *)

Inductive Kind : Type :=
  | Int8 | Uint8 | Uint8Clamped
  | Int16 | Uint16
  | Int32 | Uint32
  | BigInt64 | BigUint64
  | Float32 | Float64.

Global Instance Kind_eq_dec : EqDecision Kind.
Proof. solve_decision. Defined.

Definition all_kinds : list Kind :=
  [Int8; Uint8; Uint8Clamped; Int16; Uint16; Int32; Uint32;
   BigInt64; BigUint64; Float32; Float64].

Definition BYTES_PER_ELEMENT (k : Kind) : Z :=
  match k with
  | Int8 | Uint8 | Uint8Clamped => 1
  | Int16 | Uint16 => 2
  | Int32 | Uint32 | Float32 => 4
  | BigInt64 | BigUint64 | Float64 => 8
  end.

Definition signed (bits raw : Z) : Z :=
  if raw <? 2 ^ (bits - 1) then raw else raw - 2 ^ bits.

(** The unsigned integer whose little-endian bytes a cell of kind [k]
    receives when [v] is stored in it. *)
Definition to_raw (k : Kind) (v : Value) : Outcome Z :=
  match k with
  | BigInt64 | BigUint64 =>
      obind (ToBigInt v) (fun z => Ret (z mod 2 ^ 64))
  | Float32 => obind (ToNumber v) (fun n => Ret (encode_float binary32 n))
  | Float64 => obind (ToNumber v) (fun n => Ret (encode_float binary64 n))
  | Uint8Clamped => obind (ToNumber v) (fun n => Ret (ToUint8Clamp n))
  | _ =>
      obind (ToNumber v)
        (fun n => Ret (truncate n mod 2 ^ (8 * BYTES_PER_ELEMENT k)))
  end.

(** The value a cell of kind [k] holds when its bytes are those of [raw]. *)
Definition of_raw (k : Kind) (raw : Z) : Value :=
  match k with
  | Int8 | Int16 | Int32 => Number (of_Z (signed (8 * BYTES_PER_ELEMENT k) raw))
  | Uint8 | Uint8Clamped | Uint16 | Uint32 => Number (of_Z raw)
  | BigInt64 => BigInt (signed 64 raw)
  | BigUint64 => BigInt raw
  | Float32 => Number (decode_float binary32 raw)
  | Float64 => Number (decode_float binary64 raw)
  end.

(** The values of kind [k]: those a cell holds exactly. *)
Definition representable (k : Kind) (v : Value) : Prop :=
  match k with
  | Int8 => exists z, - 2 ^ 7 <= z < 2 ^ 7 /\ v = Number (of_Z z)
  | Uint8 | Uint8Clamped => exists z, 0 <= z < 2 ^ 8 /\ v = Number (of_Z z)
  | Int16 => exists z, - 2 ^ 15 <= z < 2 ^ 15 /\ v = Number (of_Z z)
  | Uint16 => exists z, 0 <= z < 2 ^ 16 /\ v = Number (of_Z z)
  | Int32 => exists z, - 2 ^ 31 <= z < 2 ^ 31 /\ v = Number (of_Z z)
  | Uint32 => exists z, 0 <= z < 2 ^ 32 /\ v = Number (of_Z z)
  | BigInt64 => exists z, - 2 ^ 63 <= z < 2 ^ 63 /\ v = BigInt z
  | BigUint64 => exists z, 0 <= z < 2 ^ 64 /\ v = BigInt z
  | Float32 => exists n, in_format binary32 n = true /\ v = Number n
  | Float64 => exists n, in_format binary64 n = true /\ v = Number n
  end.

(** ** Byte buffers

    An [ArrayBuffer] is a mutable object: typed arrays over the same buffer
    see each other's writes, and the embedder replaces or detaches buffers
    behind the manager's back.  Buffers therefore live in a store, and a
    typed array names its buffer. *)

Record Buffer : Type := { data : list byte; detached : bool }.

Definition BufId := nat.

Definition empty_buffer : Buffer := {| data := []; detached := false |}.

Definition buffer_at (bufs : gmap nat Buffer) (b : BufId) : Buffer :=
  default empty_buffer (bufs !! b).

Definition byteLength (bufs : gmap nat Buffer) (b : BufId) : Z :=
  let buf := buffer_at bufs b in
  if detached buf then 0 else Z.of_nat (length (data buf)).

Definition IsDetachedBuffer (bufs : gmap nat Buffer) (b : BufId) : bool :=
  detached (buffer_at bufs b).

(** [w] bytes from byte position [pos], and their replacement. *)
Definition read_bytes (l : list byte) (pos w : Z) : list byte :=
  take (Z.to_nat w) (drop (Z.to_nat pos) l).

Definition write_bytes (l : list byte) (pos : Z) (bs : list byte) : list byte :=
  take (Z.to_nat pos) l ++ bs ++ drop (Z.to_nat pos + length bs) l.

Definition bytes_get (k : Kind) (l : list byte) (pos : Z) : Value :=
  of_raw k (le_combine (read_bytes l pos (BYTES_PER_ELEMENT k))).

Definition bytes_set (k : Kind) (l : list byte) (pos raw : Z) : list byte :=
  write_bytes l pos (le_split (Z.to_nat (BYTES_PER_ELEMENT k)) raw).

(** ** Typed arrays *)

Record TypedArray : Type := {
  ta_kind : Kind;
  ta_buffer : BufId;
  ta_byteOffset : Z;
  ta_length : Z
}.

(** An index computed by the source: [address / bytesPerElement], possibly
    plus an integer.  It is kept as a fraction, since an address that is not
    a multiple of the element width gives an index that is not an integer,
    and the platform treats such an index in its own ways. *)
Record Index : Type := Ratio { numerator : Z; denominator : Z }.

Definition whole (i : Z) : Index := Ratio i 1.
Definition js_div (a w : Z) : Index := Ratio a w.
Definition Index_add (i : Index) (n : Z) : Index :=
  Ratio (numerator i + n * denominator i) (denominator i).
Definition is_integer (i : Index) : bool :=
  numerator i mod denominator i =? 0.
Definition ToIntegerOrInfinity (i : Index) : Z :=
  Z.quot (numerator i) (denominator i).

(** [IsTypedArrayOutOfBounds]: the buffer is detached, or no longer covers
    the array.  No typed array starts before its buffer or has a negative
    length; a record that says so is out of bounds as well. *)
Definition IsTypedArrayOutOfBounds (bufs : gmap nat Buffer) (ta : TypedArray) : bool :=
  IsDetachedBuffer bufs (ta_buffer ta)
  || (ta_byteOffset ta <? 0)
  || (ta_length ta <? 0)
  || (byteLength bufs (ta_buffer ta)
      <? ta_byteOffset ta + ta_length ta * BYTES_PER_ELEMENT (ta_kind ta)).

Definition TypedArrayLength (bufs : gmap nat Buffer) (ta : TypedArray) : Z :=
  if IsTypedArrayOutOfBounds bufs ta then 0 else ta_length ta.

(** [new K(buffer)] *)
Definition new_TypedArray (k : Kind) (bufs : gmap nat Buffer) (b : BufId)
  : Outcome TypedArray :=
  if IsDetachedBuffer bufs b then Throw TypeError
  else if byteLength bufs b mod BYTES_PER_ELEMENT k =? 0 then
    Ret {| ta_kind := k; ta_buffer := b; ta_byteOffset := 0;
           ta_length := byteLength bufs b / BYTES_PER_ELEMENT k |}
  else Throw RangeError.

Definition IsValidIntegerIndex (bufs : gmap nat Buffer) (ta : TypedArray) (i : Index) : bool :=
  is_integer i
  && (0 <=? ToIntegerOrInfinity i)
  && (ToIntegerOrInfinity i <? TypedArrayLength bufs ta).

Definition byte_position (ta : TypedArray) (i : Z) : Z :=
  ta_byteOffset ta + i * BYTES_PER_ELEMENT (ta_kind ta).

(** [ta[i]] *)
Definition TypedArrayGetElement (bufs : gmap nat Buffer) (ta : TypedArray) (i : Index) : Value :=
  if IsValidIntegerIndex bufs ta i then
    bytes_get (ta_kind ta) (data (buffer_at bufs (ta_buffer ta)))
      (byte_position ta (ToIntegerOrInfinity i))
  else Undefined.

Definition store_raw (bufs : gmap nat Buffer) (ta : TypedArray) (i raw : Z) : gmap nat Buffer :=
  let buf := buffer_at bufs (ta_buffer ta) in
  <[ta_buffer ta :=
      {| data := bytes_set (ta_kind ta) (data buf) (byte_position ta i) raw;
         detached := detached buf |}]> bufs.

(** [ta[i] = v]: the value is converted first, and an index that is not
    valid makes the store a no-op. *)
Definition TypedArraySetElement (bufs : gmap nat Buffer) (ta : TypedArray) (i : Index) (v : Value)
  : Outcome (gmap nat Buffer) :=
  obind (to_raw (ta_kind ta) v) (fun raw =>
    if IsValidIntegerIndex bufs ta i then
      Ret (store_raw bufs ta (ToIntegerOrInfinity i) raw)
    else Ret bufs).

(** [ta.subarray(begin, end)] *)
Definition relative_index (len rel : Z) : Z :=
  if rel <? 0 then Z.max (len + rel) 0 else Z.min rel len.

Definition subarray (bufs : gmap nat Buffer) (ta : TypedArray)
    (begin : Index) (end_ : option Index) : Outcome TypedArray :=
  let srcLength := TypedArrayLength bufs ta in
  let beginIndex := relative_index srcLength (ToIntegerOrInfinity begin) in
  let endIndex :=
    match end_ with
    | None => srcLength
    | Some e => relative_index srcLength (ToIntegerOrInfinity e)
    end in
  let newLength := Z.max (endIndex - beginIndex) 0 in
  if IsDetachedBuffer bufs (ta_buffer ta) then Throw TypeError
  else
    Ret {| ta_kind := ta_kind ta; ta_buffer := ta_buffer ta;
           ta_byteOffset := byte_position ta beginIndex;
           ta_length := newLength |}.

(** The elements of the array, in order: as the unsigned integers their
    bytes spell, and as values. *)
Definition raw_elements (bufs : gmap nat Buffer) (ta : TypedArray) : list Z :=
  map (fun i =>
         le_combine
           (read_bytes (data (buffer_at bufs (ta_buffer ta)))
              (byte_position ta (Z.of_nat i)) (BYTES_PER_ELEMENT (ta_kind ta))))
      (seq 0 (Z.to_nat (TypedArrayLength bufs ta))).

Definition elements (bufs : gmap nat Buffer) (ta : TypedArray) : list Value :=
  map (of_raw (ta_kind ta)) (raw_elements bufs ta).

Definition is_zero (v : Value) : bool :=
  match v with
  | Number (Zero _) => true
  | _ => false
  end.

(** [l.indexOf(0)] on the listed elements, counting from [i]. *)
Fixpoint index_of_zero (l : list Value) (i : Z) : Z :=
  match l with
  | [] => -1
  | v :: l' => if is_zero v then i else index_of_zero l' (i + 1)
  end.

(** [ta.indexOf(0)] *)
Definition indexOf0 (bufs : gmap nat Buffer) (ta : TypedArray) : Outcome Z :=
  if IsTypedArrayOutOfBounds bufs ta then Throw TypeError
  else Ret (index_of_zero (elements bufs ta) 0).

(** Consecutive stores of raw elements from index [i] on. *)
Fixpoint store_raws (bufs : gmap nat Buffer) (ta : TypedArray) (i : Z) (raws : list Z)
  : gmap nat Buffer :=
  match raws with
  | [] => bufs
  | r :: raws' => store_raws (store_raw bufs ta i r) ta (i + 1) raws'
  end.

(** [ta.fill(v)] *)
Definition fill (bufs : gmap nat Buffer) (ta : TypedArray) (v : Value)
  : Outcome (gmap nat Buffer) :=
  if IsTypedArrayOutOfBounds bufs ta then Throw TypeError
  else
    obind (to_raw (ta_kind ta) v) (fun raw =>
      Ret (store_raws bufs ta 0
             (replicate (Z.to_nat (TypedArrayLength bufs ta)) raw))).

(** ** Atomics *)

Definition atomic_kind (k : Kind) : bool :=
  match k with
  | Float32 | Float64 | Uint8Clamped => false
  | _ => true
  end.

(** [ValidateIntegerTypedArray] and [ValidateAtomicAccess]: the index the
    operation works on. *)
Definition ValidateAtomicAccess (bufs : gmap nat Buffer) (ta : TypedArray) (i : Index)
  : Outcome Z :=
  if negb (atomic_kind (ta_kind ta)) then Throw TypeError
  else if IsTypedArrayOutOfBounds bufs ta then Throw TypeError
  else
    let accessIndex := ToIntegerOrInfinity i in
    if accessIndex <? 0 then Throw RangeError
    else if TypedArrayLength bufs ta <=? accessIndex then Throw RangeError
    else Ret accessIndex.

(** ** IEEE754Converter

    Two typed arrays over one private buffer: a value stored through the
    float array is read back through the integer array, and the other way
    round.  Each method overwrites the buffer before it reads it, so the
    buffer is not part of the state. *)

Definition scratch (n : nat) : list byte := replicate n Byte.x00.

Definition float32ToUint32 (value : Value) : Outcome Value :=
  obind (to_raw Float32 value) (fun raw =>
    let buffer := bytes_set Float32 (scratch 4) 0 raw in
    Ret (bytes_get Uint32 buffer 0)).

Definition uint32ToFloat32 (value : Value) : Outcome Value :=
  obind (to_raw Uint32 value) (fun raw =>
    let buffer := bytes_set Uint32 (scratch 4) 0 raw in
    Ret (bytes_get Float32 buffer 0)).

Definition float64ToBigUint64 (value : Value) : Outcome Value :=
  obind (to_raw Float64 value) (fun raw =>
    let buffer := bytes_set Float64 (scratch 8) 0 raw in
    Ret (bytes_get BigUint64 buffer 0)).

Definition bigUint64ToFloat64 (value : Value) : Outcome Value :=
  obind (to_raw BigUint64 value) (fun raw =>
    let buffer := bytes_set BigUint64 (scratch 8) 0 raw in
    Ret (bytes_get Float64 buffer 0)).

(** [BigInt(v)] *)
Definition BigIntOf (v : Value) : Outcome Z :=
  match v with
  | Undefined => Throw TypeError
  | BigInt z => Ret z
  | Number (Zero _) => Ret 0
  | Number (Finite neg m e) =>
      if 0 <=? e then Ret (truncate (Finite neg m e)) else Throw RangeError
  | Number _ => Throw RangeError
  end.

(** ** Strings and the text codecs

    A string is its sequence of UTF-16 code units.  The modules
    [./encodings/Ascii.js], [Utf8.js], [Utf16.js] and [Utf32.js] are imported
    by the manager; it uses them through this interface.  An encoder
    working on a destination of [capacity] elements yields the elements it
    produces and the number of code units it consumed. *)

Definition JsString := list Z.

Class Encodings : Type := {
  decodeAscii : list Z -> JsString;
  decodeUtf8 : list Z -> JsString;
  decodeUtf16 : list Z -> JsString;
  decodeUtf32 : list Z -> JsString;
  encodeAsciiInto : JsString -> Z -> list Z * Z;
  encodeUtf8Into : JsString -> Z -> list Z * Z;
  encodeUtf16Into : JsString -> Z -> list Z * Z;
  encodeUtf32Into : JsString -> Z -> list Z * Z;
  encodeUtf8 : JsString -> list Z
}.

(** ** The embedder, the manager and the references *)

Inductive PollingMode : Type := always | whenEmpty | never.

Global Instance PollingMode_eq_dec : EqDecision PollingMode.
Proof. solve_decision. Defined.

(** [WasmHeapManagerOptions]: every property is optional. *)
Record WasmHeapManagerOptions : Type := {
  clearAllocatedRegions : option bool;
  pollingMode : option PollingMode;
  enableGarbageCollection : option bool
}.

Definition defaultWasmHeapManagerOptions : WasmHeapManagerOptions :=
  {| clearAllocatedRegions := Some true;
     pollingMode := Some whenEmpty;
     enableGarbageCollection := Some false |}.

(** [{ ...a, ...b }] *)
Definition spread (a b : WasmHeapManagerOptions) : WasmHeapManagerOptions :=
  {| clearAllocatedRegions :=
       match clearAllocatedRegions b with Some x => Some x | None => clearAllocatedRegions a end;
     pollingMode :=
       match pollingMode b with Some x => Some x | None => pollingMode a end;
     enableGarbageCollection :=
       match enableGarbageCollection b with Some x => Some x | None => enableGarbageCollection a end |}.

Definition no_options : WasmHeapManagerOptions :=
  {| clearAllocatedRegions := None; pollingMode := None;
     enableGarbageCollection := None |}.

Definition truthy (o : option bool) : bool := default false o.

Inductive PointerKind : Type := Pointer32 | Pointer53 | Pointer64.

Inductive Encoding : Type := Ascii | Utf8 | Utf16 | Utf32.

Global Instance Encoding_eq_dec : EqDecision Encoding.
Proof. solve_decision. Defined.

(** The concrete reference classes: [NumericRef Int8] is [Int8Ref],
    [PointerNRef Pointer32] is [Pointer32Ref], [NullTerminatedStringRef Utf8]
    is [NullTerminatedUtf8StringRef], [TypedArrayRef Float64] is
    [Float64ArrayRef], [PointerArrayRef Pointer53] is [Pointer53ArrayRef]. *)
Inductive RefClass : Type :=
  | NumericRef (k : Kind)
  | PointerNRef (p : PointerKind)
  | NullTerminatedStringRef (enc : Encoding)
  | TypedArrayRef (k : Kind)
  | PointerArrayRef (p : PointerKind).

(** A reference object.  [elementCount] is the [allocatedElementCount] of a
    string reference and the [elementCount] of an array reference. *)
Record HeapRef : Type := {
  class : RefClass;
  address : Z;
  elementCount : Z
}.

Definition RefId := nat.

(** What the callbacks and the atomic primitives were asked to do, in
    order. *)
Inductive Event : Type :=
  | HeapGetterCall
  | AllocateCall (size : Z)
  | DeallocateCall (address : Num)
  | AtomicLoad (k : Kind) (buffer : BufId) (index : Z)
  | AtomicStore (k : Kind) (buffer : BufId) (index : Z) (raw : Z).

(** The eleven cached typed arrays of the manager. *)
Record CachedViews : Type := {
  cachedHeapInt8 : TypedArray;
  cachedHeapUint8 : TypedArray;
  cachedHeapUint8Clamped : TypedArray;
  cachedHeapInt16 : TypedArray;
  cachedHeapUint16 : TypedArray;
  cachedHeapInt32 : TypedArray;
  cachedHeapUint32 : TypedArray;
  cachedHeapBigInt64 : TypedArray;
  cachedHeapBigUint64 : TypedArray;
  cachedHeapFloat32 : TypedArray;
  cachedHeapFloat64 : TypedArray
}.

Definition view_of (c : CachedViews) (k : Kind) : TypedArray :=
  match k with
  | Int8 => cachedHeapInt8 c
  | Uint8 => cachedHeapUint8 c
  | Uint8Clamped => cachedHeapUint8Clamped c
  | Int16 => cachedHeapInt16 c
  | Uint16 => cachedHeapUint16 c
  | Int32 => cachedHeapInt32 c
  | Uint32 => cachedHeapUint32 c
  | BigInt64 => cachedHeapBigInt64 c
  | BigUint64 => cachedHeapBigUint64 c
  | Float32 => cachedHeapFloat32 c
  | Float64 => cachedHeapFloat64 c
  end.

Definition set_view (k : Kind) (v : TypedArray) (c : CachedViews) : CachedViews :=
  match k with
  | Int8 =>
      {| cachedHeapInt8 := v;
         cachedHeapUint8 := cachedHeapUint8 c;
         cachedHeapUint8Clamped := cachedHeapUint8Clamped c;
         cachedHeapInt16 := cachedHeapInt16 c;
         cachedHeapUint16 := cachedHeapUint16 c;
         cachedHeapInt32 := cachedHeapInt32 c;
         cachedHeapUint32 := cachedHeapUint32 c;
         cachedHeapBigInt64 := cachedHeapBigInt64 c;
         cachedHeapBigUint64 := cachedHeapBigUint64 c;
         cachedHeapFloat32 := cachedHeapFloat32 c;
         cachedHeapFloat64 := cachedHeapFloat64 c |}
  | Uint8 =>
      {| cachedHeapInt8 := cachedHeapInt8 c;
         cachedHeapUint8 := v;
         cachedHeapUint8Clamped := cachedHeapUint8Clamped c;
         cachedHeapInt16 := cachedHeapInt16 c;
         cachedHeapUint16 := cachedHeapUint16 c;
         cachedHeapInt32 := cachedHeapInt32 c;
         cachedHeapUint32 := cachedHeapUint32 c;
         cachedHeapBigInt64 := cachedHeapBigInt64 c;
         cachedHeapBigUint64 := cachedHeapBigUint64 c;
         cachedHeapFloat32 := cachedHeapFloat32 c;
         cachedHeapFloat64 := cachedHeapFloat64 c |}
  | Uint8Clamped =>
      {| cachedHeapInt8 := cachedHeapInt8 c;
         cachedHeapUint8 := cachedHeapUint8 c;
         cachedHeapUint8Clamped := v;
         cachedHeapInt16 := cachedHeapInt16 c;
         cachedHeapUint16 := cachedHeapUint16 c;
         cachedHeapInt32 := cachedHeapInt32 c;
         cachedHeapUint32 := cachedHeapUint32 c;
         cachedHeapBigInt64 := cachedHeapBigInt64 c;
         cachedHeapBigUint64 := cachedHeapBigUint64 c;
         cachedHeapFloat32 := cachedHeapFloat32 c;
         cachedHeapFloat64 := cachedHeapFloat64 c |}
  | Int16 =>
      {| cachedHeapInt8 := cachedHeapInt8 c;
         cachedHeapUint8 := cachedHeapUint8 c;
         cachedHeapUint8Clamped := cachedHeapUint8Clamped c;
         cachedHeapInt16 := v;
         cachedHeapUint16 := cachedHeapUint16 c;
         cachedHeapInt32 := cachedHeapInt32 c;
         cachedHeapUint32 := cachedHeapUint32 c;
         cachedHeapBigInt64 := cachedHeapBigInt64 c;
         cachedHeapBigUint64 := cachedHeapBigUint64 c;
         cachedHeapFloat32 := cachedHeapFloat32 c;
         cachedHeapFloat64 := cachedHeapFloat64 c |}
  | Uint16 =>
      {| cachedHeapInt8 := cachedHeapInt8 c;
         cachedHeapUint8 := cachedHeapUint8 c;
         cachedHeapUint8Clamped := cachedHeapUint8Clamped c;
         cachedHeapInt16 := cachedHeapInt16 c;
         cachedHeapUint16 := v;
         cachedHeapInt32 := cachedHeapInt32 c;
         cachedHeapUint32 := cachedHeapUint32 c;
         cachedHeapBigInt64 := cachedHeapBigInt64 c;
         cachedHeapBigUint64 := cachedHeapBigUint64 c;
         cachedHeapFloat32 := cachedHeapFloat32 c;
         cachedHeapFloat64 := cachedHeapFloat64 c |}
  | Int32 =>
      {| cachedHeapInt8 := cachedHeapInt8 c;
         cachedHeapUint8 := cachedHeapUint8 c;
         cachedHeapUint8Clamped := cachedHeapUint8Clamped c;
         cachedHeapInt16 := cachedHeapInt16 c;
         cachedHeapUint16 := cachedHeapUint16 c;
         cachedHeapInt32 := v;
         cachedHeapUint32 := cachedHeapUint32 c;
         cachedHeapBigInt64 := cachedHeapBigInt64 c;
         cachedHeapBigUint64 := cachedHeapBigUint64 c;
         cachedHeapFloat32 := cachedHeapFloat32 c;
         cachedHeapFloat64 := cachedHeapFloat64 c |}
  | Uint32 =>
      {| cachedHeapInt8 := cachedHeapInt8 c;
         cachedHeapUint8 := cachedHeapUint8 c;
         cachedHeapUint8Clamped := cachedHeapUint8Clamped c;
         cachedHeapInt16 := cachedHeapInt16 c;
         cachedHeapUint16 := cachedHeapUint16 c;
         cachedHeapInt32 := cachedHeapInt32 c;
         cachedHeapUint32 := v;
         cachedHeapBigInt64 := cachedHeapBigInt64 c;
         cachedHeapBigUint64 := cachedHeapBigUint64 c;
         cachedHeapFloat32 := cachedHeapFloat32 c;
         cachedHeapFloat64 := cachedHeapFloat64 c |}
  | BigInt64 =>
      {| cachedHeapInt8 := cachedHeapInt8 c;
         cachedHeapUint8 := cachedHeapUint8 c;
         cachedHeapUint8Clamped := cachedHeapUint8Clamped c;
         cachedHeapInt16 := cachedHeapInt16 c;
         cachedHeapUint16 := cachedHeapUint16 c;
         cachedHeapInt32 := cachedHeapInt32 c;
         cachedHeapUint32 := cachedHeapUint32 c;
         cachedHeapBigInt64 := v;
         cachedHeapBigUint64 := cachedHeapBigUint64 c;
         cachedHeapFloat32 := cachedHeapFloat32 c;
         cachedHeapFloat64 := cachedHeapFloat64 c |}
  | BigUint64 =>
      {| cachedHeapInt8 := cachedHeapInt8 c;
         cachedHeapUint8 := cachedHeapUint8 c;
         cachedHeapUint8Clamped := cachedHeapUint8Clamped c;
         cachedHeapInt16 := cachedHeapInt16 c;
         cachedHeapUint16 := cachedHeapUint16 c;
         cachedHeapInt32 := cachedHeapInt32 c;
         cachedHeapUint32 := cachedHeapUint32 c;
         cachedHeapBigInt64 := cachedHeapBigInt64 c;
         cachedHeapBigUint64 := v;
         cachedHeapFloat32 := cachedHeapFloat32 c;
         cachedHeapFloat64 := cachedHeapFloat64 c |}
  | Float32 =>
      {| cachedHeapInt8 := cachedHeapInt8 c;
         cachedHeapUint8 := cachedHeapUint8 c;
         cachedHeapUint8Clamped := cachedHeapUint8Clamped c;
         cachedHeapInt16 := cachedHeapInt16 c;
         cachedHeapUint16 := cachedHeapUint16 c;
         cachedHeapInt32 := cachedHeapInt32 c;
         cachedHeapUint32 := cachedHeapUint32 c;
         cachedHeapBigInt64 := cachedHeapBigInt64 c;
         cachedHeapBigUint64 := cachedHeapBigUint64 c;
         cachedHeapFloat32 := v;
         cachedHeapFloat64 := cachedHeapFloat64 c |}
  | Float64 =>
      {| cachedHeapInt8 := cachedHeapInt8 c;
         cachedHeapUint8 := cachedHeapUint8 c;
         cachedHeapUint8Clamped := cachedHeapUint8Clamped c;
         cachedHeapInt16 := cachedHeapInt16 c;
         cachedHeapUint16 := cachedHeapUint16 c;
         cachedHeapInt32 := cachedHeapInt32 c;
         cachedHeapUint32 := cachedHeapUint32 c;
         cachedHeapBigInt64 := cachedHeapBigInt64 c;
         cachedHeapBigUint64 := cachedHeapBigUint64 c;
         cachedHeapFloat32 := cachedHeapFloat32 c;
         cachedHeapFloat64 := v |}
  end.

(** The fields before the constructor has assigned them. *)
Definition unset_view (k : Kind) : TypedArray :=
  {| ta_kind := k; ta_buffer := 0%nat; ta_byteOffset := 0; ta_length := 0 |}.

Definition unset_views : CachedViews :=
  {| cachedHeapInt8 := unset_view Int8;
     cachedHeapUint8 := unset_view Uint8;
     cachedHeapUint8Clamped := unset_view Uint8Clamped;
     cachedHeapInt16 := unset_view Int16;
     cachedHeapUint16 := unset_view Uint16;
     cachedHeapInt32 := unset_view Int32;
     cachedHeapUint32 := unset_view Uint32;
     cachedHeapBigInt64 := unset_view BigInt64;
     cachedHeapBigUint64 := unset_view BigUint64;
     cachedHeapFloat32 := unset_view Float32;
     cachedHeapFloat64 := unset_view Float64 |}.

Section Manager.

Context {Env : Type} `{Encodings}.

(** All that the embedder owns: the buffers, and whatever else its
    allocator keeps. *)
Record World : Type := {
  buffers : gmap nat Buffer;
  env : Env
}.

(** The manager object; its fields [cachedHeapInt8] ... [cachedHeapFloat64]
    are kept together in [cache].  The callbacks are taken to return
    normally. *)
Record WasmHeapManager : Type := {
  heapGetter : World -> BufId * World;
  allocate : Z -> World -> Z * World;
  deallocate : Num -> World -> World;
  options : WasmHeapManagerOptions;
  cachedHeap : BufId;
  cache : CachedViews;
  finalizationRegistry : list (RefId * Z)
}.

Definition cachedHeapView (m : WasmHeapManager) (k : Kind) : TypedArray :=
  view_of (cache m) k.

Record State : Type := {
  world : World;
  log : list Event;
  manager : WasmHeapManager;
  refs : list HeapRef
}.

Definition set_world (w : World) (st : State) : State :=
  {| world := w; log := log st; manager := manager st; refs := refs st |}.
Definition set_buffers (bufs : gmap nat Buffer) (st : State) : State :=
  set_world {| buffers := bufs; env := env (world st) |} st.
Definition add_event (e : Event) (st : State) : State :=
  {| world := world st; log := log st ++ [e]; manager := manager st; refs := refs st |}.
Definition set_manager (m : WasmHeapManager) (st : State) : State :=
  {| world := world st; log := log st; manager := m; refs := refs st |}.
Definition set_refs (r : list HeapRef) (st : State) : State :=
  {| world := world st; log := log st; manager := manager st; refs := r |}.

Definition set_cachedHeap (b : BufId) (m : WasmHeapManager) : WasmHeapManager :=
  {| heapGetter := heapGetter m; allocate := allocate m; deallocate := deallocate m;
     options := options m; cachedHeap := b; cache := cache m;
     finalizationRegistry := finalizationRegistry m |}.
Definition set_cachedHeapView (k : Kind) (v : TypedArray) (m : WasmHeapManager)
  : WasmHeapManager :=
  {| heapGetter := heapGetter m; allocate := allocate m; deallocate := deallocate m;
     options := options m; cachedHeap := cachedHeap m;
     cache := set_view k v (cache m);
     finalizationRegistry := finalizationRegistry m |}.
Definition register (id : RefId) (a : Z) (m : WasmHeapManager) : WasmHeapManager :=
  {| heapGetter := heapGetter m; allocate := allocate m; deallocate := deallocate m;
     options := options m; cachedHeap := cachedHeap m;
     cache := cache m;
     finalizationRegistry := finalizationRegistry m ++ [(id, a)] |}.

(** *** The monad of the methods: state, and exceptions that keep the
    state reached when they were thrown. *)

Definition M (A : Type) : Type := State -> Outcome A * State.

Definition ret {A} (a : A) : M A := fun st => (Ret a, st).
Definition throw {A} (e : Error) : M A := fun st => (Throw e, st).
Definition bind {A B} (m : M A) (k : A -> M B) : M B :=
  fun st =>
    match m st with
    | (Ret a, st') => k a st'
    | (Throw e, st') => (Throw e, st')
    end.
Definition gets {A} (f : State -> A) : M A := fun st => (Ret (f st), st).
Definition modify (f : State -> State) : M unit := fun st => (Ret tt, f st).
Definition lift {A} (o : Outcome A) : M A := fun st => (o, st).

Notation "x <- c1 ;; c2" := (bind c1 (fun x => c2))
  (at level 100, c1 at next level, right associativity).
Notation "c1 ;; c2" := (bind c1 (fun _ => c2))
  (at level 100, right associativity).

(** Calls of the three callbacks, logged. *)
Definition call_heapGetter : M BufId :=
  fun st =>
    let '(b, w) := heapGetter (manager st) (world st) in
    (Ret b, add_event HeapGetterCall (set_world w st)).

Definition call_allocate (size : Z) : M Z :=
  fun st =>
    let '(a, w) := allocate (manager st) size (world st) in
    (Ret a, add_event (AllocateCall size) (set_world w st)).

Definition call_deallocate (a : Num) : M unit :=
  fun st =>
    (Ret tt, add_event (DeallocateCall a)
               (set_world (deallocate (manager st) a (world st)) st)).

(** Typed-array operations on the buffers of the world. *)
Definition get_element (ta : TypedArray) (i : Index) : M Value :=
  gets (fun st => TypedArrayGetElement (buffers (world st)) ta i).

Definition set_element (ta : TypedArray) (i : Index) (v : Value) : M unit :=
  bufs <- gets (fun st => buffers (world st));;
  bufs' <- lift (TypedArraySetElement bufs ta i v);;
  modify (set_buffers bufs').

Definition ta_subarray (ta : TypedArray) (begin : Index) (end_ : option Index)
  : M TypedArray :=
  bufs <- gets (fun st => buffers (world st));;
  lift (subarray bufs ta begin end_).

Definition ta_fill (ta : TypedArray) (v : Value) : M unit :=
  bufs <- gets (fun st => buffers (world st));;
  bufs' <- lift (fill bufs ta v);;
  modify (set_buffers bufs').

Definition ta_indexOf0 (ta : TypedArray) : M Z :=
  bufs <- gets (fun st => buffers (world st));;
  lift (indexOf0 bufs ta).

(** [Atomics.load(ta, i)] *)
Definition Atomics_load (ta : TypedArray) (i : Index) : M Value :=
  bufs <- gets (fun st => buffers (world st));;
  idx <- lift (ValidateAtomicAccess bufs ta i);;
  modify (add_event (AtomicLoad (ta_kind ta) (ta_buffer ta) idx));;
  ret (TypedArrayGetElement bufs ta (whole idx)).

(** [Atomics.store(ta, i, v)]; its result, which the source never uses, is
    dropped. *)
Definition Atomics_store (ta : TypedArray) (i : Index) (v : Value) : M unit :=
  bufs <- gets (fun st => buffers (world st));;
  idx <- lift (ValidateAtomicAccess bufs ta i);;
  raw <- lift (to_raw (ta_kind ta) v);;
  modify (add_event (AtomicStore (ta_kind ta) (ta_buffer ta) idx raw));;
  modify (set_buffers (store_raw bufs ta idx raw)).

(** *** Manage cached heap views *)

Fixpoint assign_views (newHeap : BufId) (ks : list Kind) : M unit :=
  match ks with
  | [] => ret tt
  | k :: ks' =>
      bufs <- gets (fun st => buffers (world st));;
      v <- lift (new_TypedArray k bufs newHeap);;
      modify (fun st => set_manager (set_cachedHeapView k v (manager st)) st);;
      assign_views newHeap ks'
  end.

Definition updateCache (newHeap : BufId) : M unit :=
  modify (fun st => set_manager (set_cachedHeap newHeap (manager st)) st);;
  assign_views newHeap all_kinds.

Definition updateCacheIfNeeded : M unit :=
  pollingMode <- gets (fun st => pollingMode (options (manager st)));;
  cachedLength <- gets (fun st => byteLength (buffers (world st)) (cachedHeap (manager st)));;
  if bool_decide (pollingMode = Some never)
     || (bool_decide (pollingMode = Some whenEmpty) && (0 <? cachedLength))
  then ret tt
  else
    newHeap <- call_heapGetter;;
    newLength <- gets (fun st => byteLength (buffers (world st)) newHeap);;
    if 0 <? newLength then updateCache newHeap else ret tt.

(** The getters [heapInt8] ... [heapFloat64]. *)
Definition heap (k : Kind) : M TypedArray :=
  updateCacheIfNeeded;;
  gets (fun st => cachedHeapView (manager st) k).

Definition heapInt8 := heap Int8.
Definition heapUint8 := heap Uint8.
Definition heapUint8Clamped := heap Uint8Clamped.
Definition heapInt16 := heap Int16.
Definition heapUint16 := heap Uint16.
Definition heapInt32 := heap Int32.
Definition heapUint32 := heap Uint32.
Definition heapBigInt64 := heap BigInt64.
Definition heapBigUint64 := heap BigUint64.
Definition heapFloat32 := heap Float32.
Definition heapFloat64 := heap Float64.

(** The constructor: the manager it builds in a world, or the exception
    thrown on the way. *)
Definition new_WasmHeapManager
    (heapGetter : World -> BufId * World)
    (allocate : Z -> World -> Z * World)
    (deallocate : Num -> World -> World)
    (options : option WasmHeapManagerOptions)
    (w : World) (l : list Event) (r : list HeapRef) : Outcome unit * State :=
  let this :=
    {| heapGetter := heapGetter; allocate := allocate; deallocate := deallocate;
       options := spread defaultWasmHeapManagerOptions (default no_options options);
       cachedHeap := 0%nat;
       cache := unset_views;
       finalizationRegistry := [] |} in
  (newHeap <- call_heapGetter;; updateCache newHeap)
    {| world := w; log := l; manager := this; refs := r |}.

(** *** Reading and writing numeric values

    One definition per method of the source, in its order. *)
Definition readInt8 (address : Z) : M Value :=
  h <- heapInt8;; get_element h (whole address).

Definition readInt8Atomic (address : Z) : M Value :=
  h <- heapInt8;; Atomics_load h (whole address).

Definition writeInt8 (address : Z) (value : Value) : M unit :=
  h <- heapInt8;; set_element h (whole address) value.

Definition writeInt8Atomic (address : Z) (value : Value) : M unit :=
  h <- heapInt8;; Atomics_store h (whole address) value.

Definition viewInt8Array (address elementCount : Z) : M TypedArray :=
  h <- heapInt8;;
  ta_subarray h (whole address) (Some (whole (address + elementCount))).

Definition readUint8 (address : Z) : M Value :=
  h <- heapUint8;; get_element h (whole address).

Definition readUint8Atomic (address : Z) : M Value :=
  h <- heapUint8;; Atomics_load h (whole address).

Definition writeUint8 (address : Z) (value : Value) : M unit :=
  h <- heapUint8;; set_element h (whole address) value.

Definition writeUint8Atomic (address : Z) (value : Value) : M unit :=
  h <- heapUint8;; Atomics_store h (whole address) value.

Definition viewUint8Array (address elementCount : Z) : M TypedArray :=
  h <- heapUint8;;
  ta_subarray h (whole address) (Some (whole (address + elementCount))).

Definition readUint8Clamped (address : Z) : M Value :=
  h <- heapUint8Clamped;; get_element h (whole address).

Definition readUint8ClampedAtomic (address : Z) : M Value :=
  readUint8Atomic address.

Definition writeUint8Clamped (address : Z) (value : Value) : M unit :=
  h <- heapUint8Clamped;; set_element h (whole address) value.

Definition writeUint8ClampedAtomic (address : Z) (value : Value) : M unit :=
  let value :=
    if Value_ltb value 0 then Number (of_Z 0)
    else if Value_gtb value 255 then Number (of_Z 255)
    else value in
  writeUint8Atomic address value.

Definition viewUint8ClampedArray (address elementCount : Z) : M TypedArray :=
  h <- heapUint8Clamped;;
  ta_subarray h (whole address) (Some (whole (address + elementCount))).

Definition readInt16 (address : Z) : M Value :=
  h <- heapInt16;; get_element h (js_div address 2).

Definition readInt16Atomic (address : Z) : M Value :=
  h <- heapInt16;; Atomics_load h (js_div address 2).

Definition writeInt16 (address : Z) (value : Value) : M unit :=
  h <- heapInt16;; set_element h (js_div address 2) value.

Definition writeInt16Atomic (address : Z) (value : Value) : M unit :=
  h <- heapInt16;; Atomics_store h (js_div address 2) value.

Definition viewInt16Array (address elementCount : Z) : M TypedArray :=
  let startIndex := js_div address 2 in
  let endIndex := Index_add startIndex elementCount in
  h <- heapInt16;; ta_subarray h startIndex (Some endIndex).

Definition readUint16 (address : Z) : M Value :=
  h <- heapUint16;; get_element h (js_div address 2).

Definition readUint16Atomic (address : Z) : M Value :=
  h <- heapUint16;; Atomics_load h (js_div address 2).

Definition writeUint16 (address : Z) (value : Value) : M unit :=
  h <- heapUint16;; set_element h (js_div address 2) value.

Definition writeUint16Atomic (address : Z) (value : Value) : M unit :=
  h <- heapUint16;; Atomics_store h (js_div address 2) value.

Definition viewUint16Array (address elementCount : Z) : M TypedArray :=
  let startIndex := js_div address 2 in
  let endIndex := Index_add startIndex elementCount in
  h <- heapUint16;; ta_subarray h startIndex (Some endIndex).

Definition readInt32 (address : Z) : M Value :=
  h <- heapInt32;; get_element h (js_div address 4).

Definition readInt32Atomic (address : Z) : M Value :=
  h <- heapInt32;; Atomics_load h (js_div address 4).

Definition writeInt32 (address : Z) (value : Value) : M unit :=
  h <- heapInt32;; set_element h (js_div address 4) value.

Definition writeInt32Atomic (address : Z) (value : Value) : M unit :=
  h <- heapInt32;; Atomics_store h (js_div address 4) value.

Definition viewInt32Array (address elementCount : Z) : M TypedArray :=
  let startIndex := js_div address 4 in
  let endIndex := Index_add startIndex elementCount in
  h <- heapInt32;; ta_subarray h startIndex (Some endIndex).

Definition readUint32 (address : Z) : M Value :=
  h <- heapUint32;; get_element h (js_div address 4).

Definition readUint32Atomic (address : Z) : M Value :=
  h <- heapUint32;; Atomics_load h (js_div address 4).

Definition writeUint32 (address : Z) (value : Value) : M unit :=
  h <- heapUint32;; set_element h (js_div address 4) value.

Definition writeUint32Atomic (address : Z) (value : Value) : M unit :=
  h <- heapUint32;; Atomics_store h (js_div address 4) value.

Definition viewUint32Array (address elementCount : Z) : M TypedArray :=
  let startIndex := js_div address 4 in
  let endIndex := Index_add startIndex elementCount in
  h <- heapUint32;; ta_subarray h startIndex (Some endIndex).

Definition readBigInt64 (address : Z) : M Value :=
  h <- heapBigInt64;; get_element h (js_div address 8).

Definition readBigInt64Atomic (address : Z) : M Value :=
  h <- heapBigInt64;; Atomics_load h (js_div address 8).

Definition writeBigInt64 (address : Z) (value : Value) : M unit :=
  h <- heapBigInt64;; set_element h (js_div address 8) value.

Definition writeBigInt64Atomic (address : Z) (value : Value) : M unit :=
  h <- heapBigInt64;; Atomics_store h (js_div address 8) value.

Definition viewBigInt64Array (address elementCount : Z) : M TypedArray :=
  let startIndex := js_div address 8 in
  let endIndex := Index_add startIndex elementCount in
  h <- heapBigInt64;; ta_subarray h startIndex (Some endIndex).

Definition readBigUint64 (address : Z) : M Value :=
  h <- heapBigUint64;; get_element h (js_div address 8).

Definition readBigUint64Atomic (address : Z) : M Value :=
  h <- heapBigUint64;; Atomics_load h (js_div address 8).

Definition writeBigUint64 (address : Z) (value : Value) : M unit :=
  h <- heapBigUint64;; set_element h (js_div address 8) value.

Definition writeBigUint64Atomic (address : Z) (value : Value) : M unit :=
  h <- heapBigUint64;; Atomics_store h (js_div address 8) value.

Definition viewBigUint64Array (address elementCount : Z) : M TypedArray :=
  let startIndex := js_div address 8 in
  let endIndex := Index_add startIndex elementCount in
  h <- heapBigUint64;; ta_subarray h startIndex (Some endIndex).

Definition readFloat32 (address : Z) : M Value :=
  h <- heapFloat32;; get_element h (js_div address 4).

Definition readFloat32Atomic (address : Z) : M Value :=
  uint32Value <- readUint32Atomic address;;
  float32Value <- lift (uint32ToFloat32 uint32Value);;
  ret float32Value.

Definition writeFloat32 (address : Z) (value : Value) : M unit :=
  h <- heapFloat32;; set_element h (js_div address 4) value.

Definition writeFloat32Atomic (address : Z) (value : Value) : M unit :=
  let float32Value := value in
  uint32Value <- lift (float32ToUint32 float32Value);;
  writeUint32Atomic address uint32Value.

Definition viewFloat32Array (address elementCount : Z) : M TypedArray :=
  let startIndex := js_div address 4 in
  let endIndex := Index_add startIndex elementCount in
  h <- heapFloat32;; ta_subarray h startIndex (Some endIndex).

Definition readFloat64 (address : Z) : M Value :=
  h <- heapFloat64;; get_element h (js_div address 8).

Definition readFloat64Atomic (address : Z) : M Value :=
  bitUint64Value <- readBigUint64Atomic address;;
  float64Value <- lift (bigUint64ToFloat64 bitUint64Value);;
  ret float64Value.

Definition writeFloat64 (address : Z) (value : Value) : M unit :=
  h <- heapFloat64;; set_element h (js_div address 8) value.

Definition writeFloat64Atomic (address : Z) (value : Value) : M unit :=
  let float64Value := value in
  bigUint64Value <- lift (float64ToBigUint64 float64Value);;
  writeBigUint64Atomic address bigUint64Value.

Definition viewFloat64Array (address elementCount : Z) : M TypedArray :=
  let startIndex := js_div address 8 in
  let endIndex := Index_add startIndex elementCount in
  h <- heapFloat64;; ta_subarray h startIndex (Some endIndex).

(** Extension: pointer types *)

Definition readPointer32 (address : Z) : M Value := readUint32 address.
Definition readPointer32Atomic (address : Z) : M Value := readUint32Atomic address.
Definition writePointer32 (address : Z) (value : Value) : M unit :=
  writeUint32 address value.
Definition writePointer32Atomic (address : Z) (value : Value) : M unit :=
  writeUint32Atomic address value.

Definition viewPointer32Array (address elementCount : Z) : M TypedArray :=
  let startIndex := js_div address 4 in
  let endIndex := Index_add startIndex elementCount in
  h <- heapUint32;; ta_subarray h startIndex (Some endIndex).

Definition readPointer53 (address : Z) : M Value :=
  v <- readBigUint64 address;; ret (Number (NumberOf v)).
Definition readPointer53Atomic (address : Z) : M Value :=
  v <- readBigUint64Atomic address;; ret (Number (NumberOf v)).
Definition writePointer53 (address : Z) (value : Value) : M unit :=
  b <- lift (BigIntOf value);; writeBigUint64 address (BigInt b).
Definition writePointer53Atomic (address : Z) (value : Value) : M unit :=
  b <- lift (BigIntOf value);; writeBigUint64Atomic address (BigInt b).

Definition viewPointer53Array (address elementCount : Z) : M TypedArray :=
  let startIndex := js_div address 8 in
  let endIndex := Index_add startIndex elementCount in
  h <- heapBigUint64;; ta_subarray h startIndex (Some endIndex).

Definition readPointer64 (address : Z) : M Value := readBigUint64 address.
Definition readPointer64Atomic (address : Z) : M Value := readBigUint64Atomic address.
Definition writePointer64 (address : Z) (value : Value) : M unit :=
  writeBigUint64 address value.
Definition writePointer64Atomic (address : Z) (value : Value) : M unit :=
  writeBigUint64Atomic address value.

Definition viewPointer64Array (address elementCount : Z) : M TypedArray :=
  let startIndex := js_div address 8 in
  let endIndex := Index_add startIndex elementCount in
  h <- heapBigUint64;; ta_subarray h startIndex (Some endIndex).

(** The method of each kind, by kind: what the reference classes, one per
    kind and all of one shape, call. *)
Definition read_kind (k : Kind) (address : Z) : M Value :=
  match k with
  | Int8 => readInt8 address
  | Uint8 => readUint8 address
  | Uint8Clamped => readUint8Clamped address
  | Int16 => readInt16 address
  | Uint16 => readUint16 address
  | Int32 => readInt32 address
  | Uint32 => readUint32 address
  | BigInt64 => readBigInt64 address
  | BigUint64 => readBigUint64 address
  | Float32 => readFloat32 address
  | Float64 => readFloat64 address
  end.

Definition readAtomic_kind (k : Kind) (address : Z) : M Value :=
  match k with
  | Int8 => readInt8Atomic address
  | Uint8 => readUint8Atomic address
  | Uint8Clamped => readUint8ClampedAtomic address
  | Int16 => readInt16Atomic address
  | Uint16 => readUint16Atomic address
  | Int32 => readInt32Atomic address
  | Uint32 => readUint32Atomic address
  | BigInt64 => readBigInt64Atomic address
  | BigUint64 => readBigUint64Atomic address
  | Float32 => readFloat32Atomic address
  | Float64 => readFloat64Atomic address
  end.

Definition write_kind (k : Kind) (address : Z) (value : Value) : M unit :=
  match k with
  | Int8 => writeInt8 address value
  | Uint8 => writeUint8 address value
  | Uint8Clamped => writeUint8Clamped address value
  | Int16 => writeInt16 address value
  | Uint16 => writeUint16 address value
  | Int32 => writeInt32 address value
  | Uint32 => writeUint32 address value
  | BigInt64 => writeBigInt64 address value
  | BigUint64 => writeBigUint64 address value
  | Float32 => writeFloat32 address value
  | Float64 => writeFloat64 address value
  end.

Definition writeAtomic_kind (k : Kind) (address : Z) (value : Value) : M unit :=
  match k with
  | Int8 => writeInt8Atomic address value
  | Uint8 => writeUint8Atomic address value
  | Uint8Clamped => writeUint8ClampedAtomic address value
  | Int16 => writeInt16Atomic address value
  | Uint16 => writeUint16Atomic address value
  | Int32 => writeInt32Atomic address value
  | Uint32 => writeUint32Atomic address value
  | BigInt64 => writeBigInt64Atomic address value
  | BigUint64 => writeBigUint64Atomic address value
  | Float32 => writeFloat32Atomic address value
  | Float64 => writeFloat64Atomic address value
  end.

Definition view_kind (k : Kind) (address elementCount : Z) : M TypedArray :=
  match k with
  | Int8 => viewInt8Array address elementCount
  | Uint8 => viewUint8Array address elementCount
  | Uint8Clamped => viewUint8ClampedArray address elementCount
  | Int16 => viewInt16Array address elementCount
  | Uint16 => viewUint16Array address elementCount
  | Int32 => viewInt32Array address elementCount
  | Uint32 => viewUint32Array address elementCount
  | BigInt64 => viewBigInt64Array address elementCount
  | BigUint64 => viewBigUint64Array address elementCount
  | Float32 => viewFloat32Array address elementCount
  | Float64 => viewFloat64Array address elementCount
  end.

Definition readPointer (p : PointerKind) (address : Z) : M Value :=
  match p with
  | Pointer32 => readPointer32 address
  | Pointer53 => readPointer53 address
  | Pointer64 => readPointer64 address
  end.

Definition readPointerAtomic (p : PointerKind) (address : Z) : M Value :=
  match p with
  | Pointer32 => readPointer32Atomic address
  | Pointer53 => readPointer53Atomic address
  | Pointer64 => readPointer64Atomic address
  end.

Definition writePointer (p : PointerKind) (address : Z) (value : Value) : M unit :=
  match p with
  | Pointer32 => writePointer32 address value
  | Pointer53 => writePointer53 address value
  | Pointer64 => writePointer64 address value
  end.

Definition writePointerAtomic (p : PointerKind) (address : Z) (value : Value) : M unit :=
  match p with
  | Pointer32 => writePointer32Atomic address value
  | Pointer53 => writePointer53Atomic address value
  | Pointer64 => writePointer64Atomic address value
  end.

Definition pointer_bytes (p : PointerKind) : Z :=
  match p with Pointer32 => 4 | Pointer53 | Pointer64 => 8 end.

(** *** Extension: read and write 128 and 256 bit, unsigned, little-endian
    integers *)

(** [a | b], [a << b], [a & b] and [a >> b] of two BigInts; anything else
    with a BigInt is a TypeError. *)
Definition BigInt_op (f : Z -> Z -> Z) (a b : Value) : Outcome Value :=
  match a, b with
  | BigInt x, BigInt y => Ret (BigInt (f x y))
  | _, _ => Throw TypeError
  end.

Definition readBigUint128LE (address : Z) : M Value :=
  heapBigUint64 <- heapBigUint64;;
  let index := js_div address 8 in
  e0 <- get_element heapBigUint64 index;;
  e1 <- get_element heapBigUint64 (Index_add index 1);;
  lift (obind (BigInt_op Z.shiftl e1 (BigInt 64)) (fun hi => BigInt_op Z.lor e0 hi)).

Definition writeBigUint128LE (address : Z) (value : Z) : M unit :=
  heapBigUint64 <- heapBigUint64;;
  let index := js_div address 8 in
  set_element heapBigUint64 index (BigInt (Z.land value 0xffffffffffffffff));;
  set_element heapBigUint64 (Index_add index 1) (BigInt (Z.shiftr value 64)).

Definition readBigUint256LE (address : Z) : M Value :=
  heapBigUint64 <- heapBigUint64;;
  let index := js_div address 8 in
  e0 <- get_element heapBigUint64 index;;
  e1 <- get_element heapBigUint64 (Index_add index 1);;
  e2 <- get_element heapBigUint64 (Index_add index 2);;
  e3 <- get_element heapBigUint64 (Index_add index 3);;
  lift (obind (BigInt_op Z.shiftl e1 (BigInt 64)) (fun s1 =>
        obind (BigInt_op Z.lor e0 s1) (fun v1 =>
        obind (BigInt_op Z.shiftl e2 (BigInt 128)) (fun s2 =>
        obind (BigInt_op Z.lor v1 s2) (fun v2 =>
        obind (BigInt_op Z.shiftl e3 (BigInt 192)) (fun s3 =>
        BigInt_op Z.lor v2 s3)))))).

Definition writeBigUint256LE (address : Z) (value : Z) : M unit :=
  heapBigUint64 <- heapBigUint64;;
  let index := js_div address 8 in
  set_element heapBigUint64 index (BigInt (Z.land value 0xffffffffffffffff));;
  set_element heapBigUint64 (Index_add index 1)
    (BigInt (Z.land (Z.shiftr value 64) 0xffffffffffffffff));;
  set_element heapBigUint64 (Index_add index 2)
    (BigInt (Z.land (Z.shiftr value 128) 0xffffffffffffffff));;
  set_element heapBigUint64 (Index_add index 3)
    (BigInt (Z.land (Z.shiftr value 192) 0xffffffffffffffff)).

(** *** Null-terminated strings *)

Definition ta_raw_elements (ta : TypedArray) : M (list Z) :=
  gets (fun st => raw_elements (buffers (world st)) ta).

Fixpoint set_elements (ta : TypedArray) (i : Z) (es : list Z) : M unit :=
  match es with
  | [] => ret tt
  | e :: es' =>
      set_element ta (whole i) (Number (of_Z e));;
      set_elements ta (i + 1) es'
  end.

(** An encoder run on a destination: the elements it produces are stored
    from the start of the destination; the result is [(written, read)]. *)
Definition encode_into (encoder : JsString -> Z -> list Z * Z)
    (value : JsString) (destination : TypedArray) : M (Z * Z) :=
  capacity <- gets (fun st => TypedArrayLength (buffers (world st)) destination);;
  let '(es, read) := encoder value capacity in
  set_elements destination 0 es;;
  ret (Z.of_nat (length es), read).

(** [ta.set(source)] *)
Definition ta_set (ta : TypedArray) (source : list Z) : M unit :=
  len <- gets (fun st => TypedArrayLength (buffers (world st)) ta);;
  if len <? Z.of_nat (length source) then throw RangeError
  else set_elements ta 0 source.

(** [ta.set(elements)] for a typed array [elements] of the same kind,
    given by its values. *)
Fixpoint set_values (ta : TypedArray) (i : Z) (vs : list Value) : M unit :=
  match vs with
  | [] => ret tt
  | v :: vs' =>
      set_element ta (whole i) v;;
      set_values ta (i + 1) vs'
  end.

Definition ta_set_values (ta : TypedArray) (source : list Value) : M unit :=
  len <- gets (fun st => TypedArrayLength (buffers (world st)) ta);;
  if len <? Z.of_nat (length source) then throw RangeError
  else set_values ta 0 source.

Definition getElementCountOfNullTerminatedString
    (address bytesPerElement : Z) (maxElementCount : option Z) : M Z :=
  let startIndex := js_div address bytesPerElement in
  let endIndex :=
    match maxElementCount with
    | Some m => Some (Index_add startIndex m)
    | None => None
    end in
  memoryRegionToScan <-
    (if bytesPerElement =? 1 then
       h <- heapUint8;; ta_subarray h startIndex endIndex
     else if bytesPerElement =? 2 then
       h <- heapUint16;; ta_subarray h startIndex endIndex
     else if bytesPerElement =? 4 then
       h <- heapUint32;; ta_subarray h startIndex endIndex
     else throw InvalidBytesPerElement);;
  result <- ta_indexOf0 memoryRegionToScan;;
  if result =? -1 then throw NullTerminatorNotFound
  else ret result.

Definition readNullTerminatedAsciiString (address : Z) (maxElementCount : option Z)
  : M JsString :=
  stringElementCount <- getElementCountOfNullTerminatedString address 1 maxElementCount;;
  h <- heapUint8;;
  encodedString <- ta_subarray h (whole address) (Some (whole (address + stringElementCount)));;
  es <- ta_raw_elements encodedString;;
  ret (decodeAscii es).

Definition writeNullTerminatedAsciiString (address : Z) (value : JsString) : M unit :=
  heapUint8 <- heapUint8;;
  let charCount := Z.of_nat (length value) in
  memoryRegion <- ta_subarray heapUint8 (whole address) (Some (whole (address + charCount)));;
  wr <- encode_into encodeAsciiInto value memoryRegion;;
  let '(written, read) := wr in
  set_element heapUint8 (whole (address + written)) (Number (of_Z 0)).

Definition readNullTerminatedUtf8String (address : Z) (maxElementCount : option Z)
  : M JsString :=
  stringElementCount <- getElementCountOfNullTerminatedString address 1 maxElementCount;;
  h <- heapUint8;;
  encodedString <- ta_subarray h (whole address) (Some (whole (address + stringElementCount)));;
  es <- ta_raw_elements encodedString;;
  ret (decodeUtf8 es).

Definition writeNullTerminatedUtf8String (address : Z) (value : JsString)
    (maxElementCount : Z) : M Z :=
  heapUint8 <- heapUint8;;
  memoryRegion <-
    ta_subarray heapUint8 (whole address) (Some (whole ((address + maxElementCount) - 1)));;
  wr <- encode_into encodeUtf8Into value memoryRegion;;
  let '(written, read) := wr in
  if read <? Z.of_nat (length value) then throw CapacityExceeded
  else
    set_element heapUint8 (whole (address + written)) (Number (of_Z 0));;
    ret written.

Definition readNullTerminatedUtf16String (address : Z) (maxElementCount : option Z)
  : M JsString :=
  stringElementCount <- getElementCountOfNullTerminatedString address 2 maxElementCount;;
  let addressAsIndex := js_div address 2 in
  h <- heapUint16;;
  encodedString <-
    ta_subarray h addressAsIndex (Some (Index_add addressAsIndex stringElementCount));;
  es <- ta_raw_elements encodedString;;
  ret (decodeUtf16 es).

(** [maxElementCount && stringElementCount + 1 > maxElementCount] *)
Definition exceeds (maxElementCount : option Z) (stringElementCount : Z) : bool :=
  match maxElementCount with
  | Some m => negb (m =? 0) && (m <? stringElementCount + 1)
  | None => false
  end.

Definition writeNullTerminatedUtf16String (address : Z) (value : JsString)
    (maxElementCount : option Z) : M unit :=
  heapUint16 <- heapUint16;;
  let stringElementCount := Z.of_nat (length value) in
  if exceeds maxElementCount stringElementCount then throw CapacityExceeded
  else
    let addressAsIndex := js_div address 2 in
    memoryRegion <-
      ta_subarray heapUint16 addressAsIndex
        (Some (Index_add addressAsIndex stringElementCount));;
    wr <- encode_into encodeUtf16Into value memoryRegion;;
    let '(written, read) := wr in
    set_element heapUint16 (Index_add addressAsIndex written) (Number (of_Z 0)).

Definition readNullTerminatedUtf32String (address : Z) (maxElementCount : option Z)
  : M JsString :=
  stringElementCount <- getElementCountOfNullTerminatedString address 4 maxElementCount;;
  let addressAsIndex := js_div address 4 in
  h <- heapUint32;;
  encodedString <-
    ta_subarray h addressAsIndex (Some (Index_add addressAsIndex stringElementCount));;
  es <- ta_raw_elements encodedString;;
  ret (decodeUtf32 es).

Definition writeNullTerminatedUtf32String (address : Z) (value : JsString)
    (maxElementCount : option Z) : M unit :=
  heapUint32 <- heapUint32;;
  let stringElementCount := Z.of_nat (length value) in
  if exceeds maxElementCount stringElementCount then throw CapacityExceeded
  else
    let addressAsIndex := js_div address 4 in
    memoryRegion <-
      ta_subarray heapUint32 addressAsIndex
        (Some (Index_add addressAsIndex stringElementCount));;
    wr <- encode_into encodeUtf32Into value memoryRegion;;
    let '(written, read) := wr in
    set_element heapUint32 (Index_add addressAsIndex written) (Number (of_Z 0)).

(** *** Allocate and free using the allocator and deallocator provided on
    initialization *)

Definition alloc (allocatedByteCount : Z) : M Z :=
  address <- call_allocate allocatedByteCount;;
  clear <- gets (fun st => clearAllocatedRegions (options (manager st)));;
  (if truthy clear then
     v <- viewUint8Array address allocatedByteCount;;
     ta_fill v (Number (of_Z 0))
   else ret tt);;
  ret address.

(** A reference object, by its identity. *)
Definition this (id : RefId) : M HeapRef :=
  r <- gets (fun st => refs st !! id);;
  match r with
  | Some r => ret r
  | None => throw TypeError
  end.

Definition set_address (id : RefId) (a : Z) : M unit :=
  r <- this id;;
  modify (fun st =>
    set_refs (<[id := {| class := class r; address := a;
                         elementCount := elementCount r |}]> (refs st)) st).

Definition isFreed (id : RefId) : M bool :=
  r <- this id;; ret (address r =? 0).

(** What [free] of the manager is called with. *)
Inductive FreeArgument : Type :=
  | AnAddress (a : Num)
  | AReference (id : RefId)
  | SomethingElse.

Definition free (addressOrHeapReference : FreeArgument) : M unit :=
  match addressOrHeapReference with
  | AnAddress address => call_deallocate address
  | AReference heapReference =>
      freed <- isFreed heapReference;;
      if freed then ret tt
      else
        r <- this heapReference;;
        call_deallocate (of_Z (address r));;
        set_address heapReference 0
  | SomethingElse => throw InvalidArgument
  end.

Definition registerFinalizerIfEnabled (ref : RefId) : M unit :=
  enabled <- gets (fun st => enableGarbageCollection (options (manager st)));;
  if truthy enabled then
    r <- this ref;;
    modify (fun st => set_manager (register ref (address r) (manager st)) st)
  else ret tt.

(** [new C(address, elementCount, manager)] *)
Definition new_ref (c : RefClass) (address elementCount : Z) : M RefId :=
  id <- gets (fun st => length (refs st));;
  modify (fun st =>
    set_refs (refs st ++ [{| class := c; address := address;
                             elementCount := elementCount |}]) st);;
  ret id.

(** [wrapInt8] ... [wrapFloat64], [wrapPointer32] ... [wrapPointer64],
    [wrapInt8Array] ... [wrapFloat64Array], [wrapPointer32Array] ...
    [wrapPointer64Array]. *)
Definition wrapNumeric (k : Kind) (address : Z) : M RefId :=
  new_ref (NumericRef k) address 0.
Definition wrapPointer (p : PointerKind) (address : Z) : M RefId :=
  new_ref (PointerNRef p) address 0.
Definition wrapArray (k : Kind) (address elementCount : Z) : M RefId :=
  new_ref (TypedArrayRef k) address elementCount.
Definition wrapPointerArray (p : PointerKind) (address elementCount : Z) : M RefId :=
  new_ref (PointerArrayRef p) address elementCount.

Definition wrapNullTerminatedAsciiString (address : Z) (maxElementCount : option Z)
  : M RefId :=
  maxElementCount <-
    match maxElementCount with
    | Some m => ret m
    | None => getElementCountOfNullTerminatedString address 1 None
    end;;
  new_ref (NullTerminatedStringRef Ascii) address maxElementCount.

Definition wrapNullTerminatedUtf8String (address : Z) (maxElementCount : option Z)
  : M RefId :=
  maxElementCount <-
    match maxElementCount with
    | Some m => ret m
    | None => getElementCountOfNullTerminatedString address 1 None
    end;;
  new_ref (NullTerminatedStringRef Utf8) address maxElementCount.

Definition wrapNullTerminatedUtf16String (address : Z) (maxElementCount : option Z)
  : M RefId :=
  maxElementCount <-
    match maxElementCount with
    | Some m => ret m
    | None => getElementCountOfNullTerminatedString address 2 None
    end;;
  new_ref (NullTerminatedStringRef Utf16) address maxElementCount.

Definition wrapNullTerminatedUtf32String (address : Z) (maxElementCount : option Z)
  : M RefId :=
  maxElementCount <-
    match maxElementCount with
    | Some m => ret m
    | None => getElementCountOfNullTerminatedString address 4 None
    end;;
  new_ref (NullTerminatedStringRef Utf32) address maxElementCount.

(** *** Generic heap reference class *)

Definition assertNotFreed (id : RefId) : M unit :=
  freed <- isFreed id;;
  if freed then throw UseAfterFree else ret tt.

Definition HeapRef_free (id : RefId) : M unit := free (AReference id).

Definition bytesPerElement (enc : Encoding) : Z :=
  match enc with
  | Ascii | Utf8 => 1
  | Utf16 => 2
  | Utf32 => 4
  end.

Definition allocatedByteCount (id : RefId) : M Z :=
  r <- this id;;
  ret match class r with
      | NumericRef k => BYTES_PER_ELEMENT k
      | PointerNRef p => pointer_bytes p
      | NullTerminatedStringRef enc => elementCount r * bytesPerElement enc
      | TypedArrayRef k => elementCount r * BYTES_PER_ELEMENT k
      | PointerArrayRef p => elementCount r * pointer_bytes p
      end.

Definition allocatedBytesView (id : RefId) : M TypedArray :=
  r <- this id;;
  n <- allocatedByteCount id;;
  viewUint8Array (address r) n.

Definition clear (id : RefId) : M unit :=
  assertNotFreed id;;
  v <- allocatedBytesView id;;
  ta_fill v (Number (of_Z 0)).

(** *** Numeric references and pointer references

    [Int8Ref] ... [Float64Ref] and [Pointer32Ref], [Pointer53Ref],
    [Pointer64Ref] all extend [NumericRef] and have the four methods
    below, each calling the manager's method of its kind. *)

Definition NumericRef_read (id : RefId) : M Value :=
  assertNotFreed id;;
  r <- this id;;
  match class r with
  | NumericRef k => read_kind k (address r)
  | PointerNRef p => readPointer p (address r)
  | _ => throw TypeError
  end.

Definition NumericRef_readAtomic (id : RefId) : M Value :=
  assertNotFreed id;;
  r <- this id;;
  match class r with
  | NumericRef k => readAtomic_kind k (address r)
  | PointerNRef p => readPointerAtomic p (address r)
  | _ => throw TypeError
  end.

Definition NumericRef_write (id : RefId) (newValue : Value) : M unit :=
  assertNotFreed id;;
  r <- this id;;
  match class r with
  | NumericRef k => write_kind k (address r) newValue
  | PointerNRef p => writePointer p (address r) newValue
  | _ => throw TypeError
  end.

Definition NumericRef_writeAtomic (id : RefId) (newValue : Value) : M unit :=
  assertNotFreed id;;
  r <- this id;;
  match class r with
  | NumericRef k => writeAtomic_kind k (address r) newValue
  | PointerNRef p => writePointerAtomic p (address r) newValue
  | _ => throw TypeError
  end.

Definition NumericRef_get_value (id : RefId) : M Value :=
  assertNotFreed id;; NumericRef_read id.

Definition NumericRef_set_value (id : RefId) (newValue : Value) : M unit :=
  assertNotFreed id;; NumericRef_write id newValue.

(** The argument of the [free] methods that take options. *)
Record FreeOptions : Type := {
  freePointedAddress : option bool;
  freeElements : option bool
}.

(** [options?.field] as a condition *)
Definition requested (field : FreeOptions -> option bool)
    (options : option FreeOptions) : bool :=
  match options with
  | Some o => truthy (field o)
  | None => false
  end.

(** The abstract class [PointerRef]: no class of the source extends it. *)
Definition PointerRef_free (id : RefId) (options : option FreeOptions) : M unit :=
  (if requested freePointedAddress options then
     v <- NumericRef_read id;;
     let pointedAddress := NumberOf v in
     free (AnAddress pointedAddress)
   else ret tt);;
  HeapRef_free id.

(** *** String references *)

Definition encodedElementCount (id : RefId) : M Z :=
  assertNotFreed id;;
  r <- this id;;
  match class r with
  | NullTerminatedStringRef enc =>
      getElementCountOfNullTerminatedString (address r) (bytesPerElement enc)
        (Some (elementCount r))
  | _ => throw TypeError
  end.

Definition encodedByteCount (id : RefId) : M Z :=
  n <- encodedElementCount id;;
  r <- this id;;
  match class r with
  | NullTerminatedStringRef enc => ret (n * bytesPerElement enc)
  | _ => throw TypeError
  end.

Definition encodedBytesView (id : RefId) : M TypedArray :=
  assertNotFreed id;;
  h <- heapUint8;;
  r <- this id;;
  n <- encodedByteCount id;;
  ta_subarray h (whole (address r)) (Some (whole (address r + n))).

Definition StringRef_read (id : RefId) : M JsString :=
  assertNotFreed id;;
  r <- this id;;
  match class r with
  | NullTerminatedStringRef Ascii =>
      readNullTerminatedAsciiString (address r) (Some (elementCount r))
  | NullTerminatedStringRef Utf8 =>
      readNullTerminatedUtf8String (address r) (Some (elementCount r))
  | NullTerminatedStringRef Utf16 =>
      readNullTerminatedUtf16String (address r) (Some (elementCount r))
  | NullTerminatedStringRef Utf32 =>
      readNullTerminatedUtf32String (address r) (Some (elementCount r))
  | _ => throw TypeError
  end.

Definition StringRef_write (id : RefId) (newValue : JsString) : M unit :=
  assertNotFreed id;;
  r <- this id;;
  match class r with
  | NullTerminatedStringRef Ascii =>
      writeNullTerminatedAsciiString (address r) newValue
  | NullTerminatedStringRef Utf8 =>
      writeNullTerminatedUtf8String (address r) newValue (elementCount r);;
      ret tt
  | NullTerminatedStringRef Utf16 =>
      writeNullTerminatedUtf16String (address r) newValue None
  | NullTerminatedStringRef Utf32 =>
      writeNullTerminatedUtf32String (address r) newValue None
  | _ => throw TypeError
  end.

Definition StringRef_get_value (id : RefId) : M JsString :=
  assertNotFreed id;; StringRef_read id.

Definition StringRef_set_value (id : RefId) (newValue : JsString) : M unit :=
  assertNotFreed id;; StringRef_write id newValue.

Definition allocatedElementsView (id : RefId) : M TypedArray :=
  r <- this id;;
  match class r with
  | NullTerminatedStringRef Ascii => allocatedBytesView id
  | NullTerminatedStringRef Utf8 => allocatedBytesView id
  | NullTerminatedStringRef Utf16 =>
      assertNotFreed id;; viewUint16Array (address r) (elementCount r)
  | NullTerminatedStringRef Utf32 =>
      assertNotFreed id;; viewUint32Array (address r) (elementCount r)
  | _ => throw TypeError
  end.

Definition encodedElementsView (id : RefId) : M TypedArray :=
  r <- this id;;
  match class r with
  | NullTerminatedStringRef Ascii => encodedBytesView id
  | NullTerminatedStringRef Utf8 => assertNotFreed id;; encodedBytesView id
  | NullTerminatedStringRef Utf16 =>
      assertNotFreed id;;
      let addressAsIndex := js_div (address r) 2 in
      h <- heapUint16;;
      n <- encodedElementCount id;;
      ta_subarray h addressAsIndex (Some (Index_add addressAsIndex n))
  | NullTerminatedStringRef Utf32 =>
      assertNotFreed id;;
      let addressAsIndex := js_div (address r) 4 in
      h <- heapUint32;;
      n <- encodedElementCount id;;
      ta_subarray h addressAsIndex (Some (Index_add addressAsIndex n))
  | _ => throw TypeError
  end.

(** *** Typed array references *)

Definition view (id : RefId) : M TypedArray :=
  assertNotFreed id;;
  r <- this id;;
  match class r with
  | TypedArrayRef k => view_kind k (address r) (elementCount r)
  | PointerArrayRef Pointer32 => viewUint32Array (address r) (elementCount r)
  | PointerArrayRef _ => viewBigUint64Array (address r) (elementCount r)
  | _ => throw TypeError
  end.

Definition readAt (id : RefId) (index : Z) : M Value :=
  assertNotFreed id;;
  r <- this id;;
  match class r with
  | TypedArrayRef k => read_kind k (address r + index * BYTES_PER_ELEMENT k)
  | PointerArrayRef p => readPointer p (address r + index * pointer_bytes p)
  | _ => throw TypeError
  end.

Definition readAtomicAt (id : RefId) (index : Z) : M Value :=
  assertNotFreed id;;
  r <- this id;;
  match class r with
  | TypedArrayRef k => readAtomic_kind k (address r + index * BYTES_PER_ELEMENT k)
  | PointerArrayRef p => readPointerAtomic p (address r + index * pointer_bytes p)
  | _ => throw TypeError
  end.

Definition writeAt (id : RefId) (index : Z) (value : Value) : M unit :=
  assertNotFreed id;;
  r <- this id;;
  match class r with
  | TypedArrayRef k => write_kind k (address r + index * BYTES_PER_ELEMENT k) value
  | PointerArrayRef p => writePointer p (address r + index * pointer_bytes p) value
  | _ => throw TypeError
  end.

Definition writeAtomicAt (id : RefId) (index : Z) (value : Value) : M unit :=
  assertNotFreed id;;
  r <- this id;;
  match class r with
  | TypedArrayRef k =>
      writeAtomic_kind k (address r + index * BYTES_PER_ELEMENT k) value
  | PointerArrayRef p =>
      writePointerAtomic p (address r + index * pointer_bytes p) value
  | _ => throw TypeError
  end.

Fixpoint free_elements (id : RefId) (indices : list nat) : M unit :=
  match indices with
  | [] => ret tt
  | i :: indices' =>
      v <- readAt id (Z.of_nat i);;
      let element := NumberOf v in
      free (AnAddress element);;
      free_elements id indices'
  end.

(** [PointerArrayRef.free], which [Pointer53ArrayRef] repeats. *)
Definition PointerArrayRef_free (id : RefId) (options : option FreeOptions) : M unit :=
  (if requested freeElements options then
     assertNotFreed id;;
     r <- this id;;
     free_elements id (seq 0 (Z.to_nat (elementCount r)))
   else ret tt);;
  HeapRef_free id.

(** [ref.free(options)], by the class of the reference: the pointer array
    classes have a [free] of their own, every other class inherits
    [HeapRef.free], which takes no argument. *)
Definition Ref_free (id : RefId) (options : option FreeOptions) : M unit :=
  r <- this id;;
  match class r with
  | PointerArrayRef _ => PointerArrayRef_free id options
  | _ => HeapRef_free id
  end.

(** *** Allocating references *)

(** [allocInt8] ... [allocFloat64] *)
Definition allocNumeric (k : Kind) (initialValue : option Value) : M RefId :=
  address <- alloc (BYTES_PER_ELEMENT k);;
  ref <- wrapNumeric k address;;
  match initialValue with
  | Some v => NumericRef_write ref v
  | None => ret tt
  end;;
  registerFinalizerIfEnabled ref;;
  ret ref.

(** [allocPointer32], [allocPointer53], [allocPointer64] *)
Definition allocPointer (p : PointerKind) (initialValue : option Value) : M RefId :=
  address <- alloc (pointer_bytes p);;
  ref <- wrapPointer p address;;
  match initialValue with
  | Some v => NumericRef_write ref v
  | None => ret tt
  end;;
  registerFinalizerIfEnabled ref;;
  ret ref.

(** The argument of the array allocators: an element count or a typed
    array of elements. *)
Inductive CountOrElements : Type :=
  | ACount (elementCount : Z)
  | SomeElements (elements : list Value).

(** [allocInt8Array] ... [allocFloat64Array]; with elements, the method
    calls itself with their count first. *)
Definition allocArray_count (k : Kind) (elementCount : Z) : M RefId :=
  address <- alloc (elementCount * BYTES_PER_ELEMENT k);;
  ref <- wrapArray k address elementCount;;
  registerFinalizerIfEnabled ref;;
  ret ref.

Definition allocArray (k : Kind) (countOrElements : CountOrElements) : M RefId :=
  ref <-
    match countOrElements with
    | ACount elementCount =>
        address <- alloc (elementCount * BYTES_PER_ELEMENT k);;
        wrapArray k address elementCount
    | SomeElements elements =>
        let elementCount := Z.of_nat (length elements) in
        ref <- allocArray_count k elementCount;;
        v <- view ref;;
        ta_set_values v elements;;
        ret ref
    end;;
  registerFinalizerIfEnabled ref;;
  ret ref.

(** [allocPointer32Array], [allocPointer53Array], [allocPointer64Array] *)
Definition allocPointerArray_count (p : PointerKind) (elementCount : Z) : M RefId :=
  address <- alloc (elementCount * pointer_bytes p);;
  ref <- wrapPointerArray p address elementCount;;
  registerFinalizerIfEnabled ref;;
  ret ref.

Definition allocPointerArray (p : PointerKind) (countOrElements : CountOrElements)
  : M RefId :=
  ref <-
    match countOrElements with
    | ACount elementCount =>
        address <- alloc (elementCount * pointer_bytes p);;
        wrapPointerArray p address elementCount
    | SomeElements elements =>
        let elementCount := Z.of_nat (length elements) in
        ref <- allocPointerArray_count p elementCount;;
        v <- view ref;;
        ta_set_values v elements;;
        ret ref
    end;;
  registerFinalizerIfEnabled ref;;
  ret ref.

(** The argument of the string allocators: a maximum element count or a
    string. *)
Inductive StringOrNumber : Type :=
  | AString (value : JsString)
  | ANumber (maxElementCount : Z).

Definition allocNullTerminatedAsciiString (valueOrMaxElementCount : StringOrNumber)
  : M RefId :=
  ref <-
    match valueOrMaxElementCount with
    | ANumber maxElementCount =>
        let allocatedElementCount := maxElementCount + 1 in
        address <- alloc allocatedElementCount;;
        wrapNullTerminatedAsciiString address (Some allocatedElementCount)
    | AString value =>
        let allocatedElementCount := Z.of_nat (length value) + 1 in
        address <- alloc allocatedElementCount;;
        ref <- wrapNullTerminatedAsciiString address (Some allocatedElementCount);;
        StringRef_write ref value;;
        ret ref
    end;;
  registerFinalizerIfEnabled ref;;
  ret ref.

Definition allocNullTerminatedUtf8String (valueOrMaxElementCount : StringOrNumber)
  : M RefId :=
  ref <-
    match valueOrMaxElementCount with
    | ANumber maxElementCount =>
        let allocatedElementCount := maxElementCount + 1 in
        address <- alloc allocatedElementCount;;
        wrapNullTerminatedAsciiString address (Some allocatedElementCount)
    | AString value =>
        let encodedString := encodeUtf8 value in
        let allocatedElementCount := Z.of_nat (length encodedString) + 1 in
        address <- alloc allocatedElementCount;;
        ref <- wrapNullTerminatedUtf8String address (Some allocatedElementCount);;
        allocatedElementsView1 <- allocatedElementsView ref;;
        allocatedElementsView2 <- allocatedElementsView ref;;
        ta_set allocatedElementsView2 encodedString;;
        set_element allocatedElementsView1
          (whole (Z.of_nat (length encodedString))) (Number (of_Z 0));;
        ret ref
    end;;
  registerFinalizerIfEnabled ref;;
  ret ref.

Definition allocNullTerminatedUtf16String (valueOrMaxElementCount : StringOrNumber)
  : M RefId :=
  ref <-
    match valueOrMaxElementCount with
    | ANumber maxElementCount =>
        let allocatedElementCount := maxElementCount + 1 in
        address <- alloc (allocatedElementCount * 2);;
        wrapNullTerminatedUtf16String address (Some allocatedElementCount)
    | AString value =>
        let allocatedElementCount := Z.of_nat (length value) + 1 in
        address <- alloc (allocatedElementCount * 2);;
        ref <- wrapNullTerminatedUtf16String address (Some allocatedElementCount);;
        StringRef_write ref value;;
        ret ref
    end;;
  registerFinalizerIfEnabled ref;;
  ret ref.

Definition allocNullTerminatedUtf32String (valueOrMaxElementCount : StringOrNumber)
  : M RefId :=
  ref <-
    match valueOrMaxElementCount with
    | ANumber maxElementCount =>
        let allocatedElementCount := maxElementCount + 1 in
        address <- alloc (allocatedElementCount * 4);;
        wrapNullTerminatedUtf32String address (Some allocatedElementCount)
    | AString value =>
        let allocatedElementCount := Z.of_nat (length value) + 1 in
        address <- alloc (allocatedElementCount * 4);;
        ref <- wrapNullTerminatedUtf32String address (Some allocatedElementCount);;
        StringRef_write ref value;;
        ret ref
    end;;
  registerFinalizerIfEnabled ref;;
  ret ref.

End Manager.

(** ** The text codecs, concretely *)

Definition is_high_surrogate (c : Z) : bool := (0xD800 <=? c) && (c <=? 0xDBFF).
Definition is_low_surrogate (c : Z) : bool := (0xDC00 <=? c) && (c <=? 0xDFFF).

(** The code points of a string, each with the number of code units it
    takes; a surrogate without its partner stands for itself. *)
Fixpoint code_points (s : JsString) : list (Z * Z) :=
  match s with
  | [] => []
  | c :: s' =>
      if is_high_surrogate c then
        match s' with
        | d :: s'' =>
            if is_low_surrogate d then
              (0x10000 + (c - 0xD800) * 0x400 + (d - 0xDC00), 2) :: code_points s''
            else (c, 1) :: code_points s'
        | [] => [(c, 1)]
        end
      else (c, 1) :: code_points s'
  end.

Definition code_units (cp : Z) : list Z :=
  if cp <? 0x10000 then [cp]
  else [0xD800 + (cp - 0x10000) / 0x400; 0xDC00 + (cp - 0x10000) mod 0x400].

Definition utf8_bytes (cp : Z) : list Z :=
  let cp := if is_high_surrogate cp || is_low_surrogate cp then 0xFFFD else cp in
  if cp <? 0x80 then [cp]
  else if cp <? 0x800 then [0xC0 + cp / 0x40; 0x80 + cp mod 0x40]
  else if cp <? 0x10000 then
    [0xE0 + cp / 0x1000; 0x80 + (cp / 0x40) mod 0x40; 0x80 + cp mod 0x40]
  else
    [0xF0 + cp / 0x40000; 0x80 + (cp / 0x1000) mod 0x40;
     0x80 + (cp / 0x40) mod 0x40; 0x80 + cp mod 0x40].

(** Encode code point after code point while the elements still fit. *)
Fixpoint encode_while_fits (f : Z -> list Z) (cps : list (Z * Z)) (capacity : Z)
  : list Z * Z :=
  match cps with
  | [] => ([], 0)
  | (cp, n) :: cps' =>
      let es := f cp in
      let len := Z.of_nat (length es) in
      if len <=? capacity then
        let '(es', read) := encode_while_fits f cps' (capacity - len) in
        (es ++ es', n + read)
      else ([], 0)
  end.

Definition is_continuation (b : Z) : bool := (0x80 <=? b) && (b <=? 0xBF).

(** The code points of a byte sequence; a byte that starts no well-formed
    sequence gives U+FFFD. *)
Fixpoint utf8_code_points (bs : list Z) : list Z :=
  match bs with
  | [] => []
  | b0 :: r1 =>
      if b0 <? 0x80 then b0 :: utf8_code_points r1
      else
        match r1 with
        | b1 :: r2 =>
            if (0xC2 <=? b0) && (b0 <=? 0xDF) && is_continuation b1 then
              ((b0 - 0xC0) * 0x40 + (b1 - 0x80)) :: utf8_code_points r2
            else
              match r2 with
              | b2 :: r3 =>
                  if (0xE0 <=? b0) && (b0 <=? 0xEF)
                     && is_continuation b1 && is_continuation b2 then
                    ((b0 - 0xE0) * 0x1000 + (b1 - 0x80) * 0x40 + (b2 - 0x80))
                      :: utf8_code_points r3
                  else
                    match r3 with
                    | b3 :: r4 =>
                        if (0xF0 <=? b0) && (b0 <=? 0xF4) && is_continuation b1
                           && is_continuation b2 && is_continuation b3 then
                          ((b0 - 0xF0) * 0x40000 + (b1 - 0x80) * 0x1000
                           + (b2 - 0x80) * 0x40 + (b3 - 0x80))
                            :: utf8_code_points r4
                        else 0xFFFD :: utf8_code_points r1
                    | [] => 0xFFFD :: utf8_code_points r1
                    end
              | [] => 0xFFFD :: utf8_code_points r1
              end
        | [] => [0xFFFD]
        end
  end.

(** Modelled from the spec: the modules [./encodings/Ascii.js], [Utf8.js],
    [Utf16.js] and [Utf32.js] are missing from the sources.  The spec has
    ASCII with one byte per element and values restricted to 0-127, UTF-8
    with one byte per element and variable width, UTF-16 with two bytes and
    UTF-32 with four bytes per element; [decode] consumes exactly the given
    span; [encodeInto] encodes as many source characters as fit in the
    destination and reports how many source characters it consumed and how
    many elements it produced. *)
Global Instance spec_encodings : Encodings := {|
  decodeAscii es := map (fun e => Z.land e 0x7F) es;
  decodeUtf8 es := concat (map code_units (utf8_code_points es));
  decodeUtf16 es := es;
  decodeUtf32 es := concat (map code_units es);
  encodeAsciiInto value capacity :=
    let es := take (Z.to_nat capacity) (map (fun c => Z.land c 0x7F) value) in
    (es, Z.of_nat (length es));
  encodeUtf8Into value capacity :=
    encode_while_fits utf8_bytes (code_points value) capacity;
  encodeUtf16Into value capacity :=
    let es := take (Z.to_nat capacity) value in
    (es, Z.of_nat (length es));
  encodeUtf32Into value capacity :=
    encode_while_fits (fun cp => [cp]) (code_points value) capacity;
  encodeUtf8 value := concat (map (fun c => utf8_bytes (fst c)) (code_points value))
|}.

(** ** ArrayBufferArenaAllocator

    The arena allocator of the repository over a plain [ArrayBuffer]; the
    tests build their managers on it.  It is the embedder of the worked
    examples below. *)

(** [alignToNextMultiple] on whole numbers, in exact arithmetic.  The
    source computes in binary64; for a value that is not negative and a
    positive constant whose sum is at most 2^53 every step of it is exact
    and this is what it returns, as is proved further on. *)
Definition alignToNextMultiple (value alignmentConstant : Z) : Z :=
  let alignmentRemainder := value mod alignmentConstant in
  if 0 <? alignmentRemainder then value + (alignmentConstant - alignmentRemainder)
  else value.

(** The binary64 number nearest to a whole number. *)
Definition Number_of (z : Z) : Num := round_to binary64 (of_Z z).

(** [alignToNextMultiple] as the source computes it, in binary64, for two
    whole numbers that binary64 holds.  The remainder [%] of two whole
    numbers is exact and has the sign of the dividend; for the divisor 0 it
    is NaN, and [NaN > 0] is false.  The difference and the sum are rounded
    to the nearest binary64 number. *)
Definition alignToNextMultiple_binary64 (value alignmentConstant : Z) : Num :=
  if alignmentConstant =? 0 then of_Z value
  else
    let alignmentRemainder := Z.rem value alignmentConstant in
    if 0 <? alignmentRemainder then
      match Number_of (alignmentConstant - alignmentRemainder) with
      | Infinity neg => Infinity neg
      | padding => Number_of (value + truncate padding)
      end
    else of_Z value.

Record ArrayBufferArenaAllocator : Type := {
  arena_heap : BufId;
  alignmentConstant : Z;
  currentAllocationAddress : Z
}.

Definition ArenaWorld := @World ArrayBufferArenaAllocator.

(** [new ArrayBuffer(n)]: a buffer no one has seen before. *)
Definition fresh_buffer (bufs : gmap nat Buffer) : BufId :=
  S (map_fold (fun k _ acc => Nat.max k acc) 0%nat bufs).

Definition new_ArrayBuffer (n : Z) (bufs : gmap nat Buffer) : BufId * gmap nat Buffer :=
  let b := fresh_buffer bufs in
  (b, <[b := {| data := replicate (Z.to_nat n) Byte.x00; detached := false |}]> bufs).

Definition new_ArrayBufferArenaAllocator (initialCapacity alignmentConstant : Z)
    (bufs : gmap nat Buffer) : ArenaWorld :=
  let '(b, bufs') := new_ArrayBuffer initialCapacity bufs in
  {| buffers := bufs';
     env := {| arena_heap := b; alignmentConstant := alignmentConstant;
               currentAllocationAddress := alignmentConstant |} |}.

Definition arena_capacity (w : ArenaWorld) : Z :=
  byteLength (buffers w) (arena_heap (env w)).

Definition arena_allocate (requestedByteSize : Z) (w : ArenaWorld) : Z * ArenaWorld :=
  let startAddress := currentAllocationAddress (env w) in
  let endAddress := startAddress + requestedByteSize in
  let endAddress := alignToNextMultiple endAddress (alignmentConstant (env w)) in
  let '(heap', bufs') :=
    if arena_capacity w <? endAddress then
      let '(largerHeap, bufs1) := new_ArrayBuffer (endAddress * 2) (buffers w) in
      let old := data (buffer_at (buffers w) (arena_heap (env w))) in
      let larger := data (buffer_at bufs1 largerHeap) in
      (largerHeap,
       <[largerHeap := {| data := old ++ drop (length old) larger;
                          detached := false |}]> bufs1)
    else (arena_heap (env w), buffers w) in
  (startAddress,
   {| buffers := bufs';
      env := {| arena_heap := heap'; alignmentConstant := alignmentConstant (env w);
                currentAllocationAddress := endAddress |} |}).

Definition arena_deallocate (a : Num) (w : ArenaWorld) : ArenaWorld := w.

Definition arena_heapGetter (w : ArenaWorld) : BufId * ArenaWorld :=
  (arena_heap (env w), w).

(** The manager of [initArrayBufferHeap] in the tests, over an arena of
    [capacity] bytes, with the given options. *)
Definition arena_manager (capacity : Z) (options : option WasmHeapManagerOptions)
  : Outcome unit * @State ArrayBufferArenaAllocator :=
  new_WasmHeapManager arena_heapGetter arena_allocate arena_deallocate options
    (new_ArrayBufferArenaAllocator capacity 8 ∅) [] [].

Definition state_after {Env A} (m : @M Env A) (st : @State Env) : @State Env :=
  snd (m st).
Definition outcome_of {Env A} (m : @M Env A) (st : @State Env) : Outcome A :=
  fst (m st).

(** The bytes of buffer [b], as numbers. *)
Definition bytes_of {Env} (st : @State Env) (b : BufId) : list Z :=
  map byte.unsigned (data (buffer_at (buffers (world st)) b)).

(** ** Notions the properties are stated with *)

(** [address] is a multiple of the element width of [h] and names a cell
    inside [h]. *)
Definition in_bounds (bufs : gmap nat Buffer) (h : TypedArray) (address : Z) : Prop :=
  0 <= address
  /\ address mod BYTES_PER_ELEMENT (ta_kind h) = 0
  /\ address / BYTES_PER_ELEMENT (ta_kind h) < TypedArrayLength bufs h.

(** The view the atomic methods of a kind go through. *)
Definition atomic_view_kind (k : Kind) : Kind :=
  match k with
  | Uint8Clamped => Uint8
  | Float32 => Uint32
  | Float64 => BigUint64
  | _ => k
  end.

(** The options of [initArrayBufferHeap] in the tests, but for the
    zero-fill, left at its default. *)
Definition always_polling : WasmHeapManagerOptions :=
  {| clearAllocatedRegions := None; pollingMode := Some always;
     enableGarbageCollection := None |}.

Definition arena_state (capacity : Z) (options : option WasmHeapManagerOptions)
  : @State ArrayBufferArenaAllocator :=
  snd (arena_manager capacity options).

(** A reference is live while its address is not the sentinel 0. *)
Definition live {Env} (st : @State Env) (id : RefId) : Prop :=
  exists r, refs st !! id = Some r /\ address r <> 0.

Definition freed {Env} (st : @State Env) (id : RefId) : Prop :=
  exists r, refs st !! id = Some r /\ address r = 0.

Definition freed_ref (r : HeapRef) : HeapRef :=
  {| class := class r; address := 0; elementCount := elementCount r |}.

(** [{ freePointedAddress: true }] *)
Definition cascade : option FreeOptions :=
  Some {| freePointedAddress := Some true; freeElements := None |}.

(** A target cell at address 8 and a pointer cell of flavour [p] at address
    16 that holds the address 8, on a fresh arena: the pointer is reference
    1. *)
Definition pointer_value (p : PointerKind) (a : Z) : Value :=
  match p with
  | Pointer64 => BigInt a
  | _ => Number (of_Z a)
  end.

Definition pointer_scene (p : PointerKind) : @State ArrayBufferArenaAllocator :=
  state_after
    (bind (allocNumeric Int32 None)
       (fun _ => allocPointer p (Some (pointer_value p 8))))
    (arena_state 64 None).

(** ** The cache refresh, as the specification words it *)

(** The view [new K(buffer)] gives over a buffer of [len] bytes. *)
Definition whole_view (k : Kind) (b : BufId) (len : Z) : TypedArray :=
  {| ta_kind := k; ta_buffer := b; ta_byteOffset := 0;
     ta_length := len / BYTES_PER_ELEMENT k |}.

Section Claimed.

Context {Env : Type}.

(** The refresh step of the specification: 'never' keeps the views;
    'whenEmpty' fetches when the cached buffer has length 0 and rebuilds when
    the fetched buffer has nonzero length; 'always' fetches, and rebuilds
    when the fetched buffer differs in length from the cached one. *)
Definition claimed_updateCacheIfNeeded : @M Env unit :=
  bind (gets (fun st => pollingMode (options (manager st)))) (fun pollingMode =>
  bind (gets (fun st => byteLength (buffers (world st)) (cachedHeap (manager st))))
    (fun cachedLength =>
  match pollingMode with
  | Some never => ret tt
  | Some whenEmpty =>
      if cachedLength =? 0 then
        bind call_heapGetter (fun newHeap =>
        bind (gets (fun st => byteLength (buffers (world st)) newHeap)) (fun newLength =>
        if negb (newLength =? 0) then updateCache newHeap else ret tt))
      else ret tt
  | _ =>
      bind call_heapGetter (fun newHeap =>
      bind (gets (fun st => byteLength (buffers (world st)) newHeap)) (fun newLength =>
      if negb (newLength =? cachedLength) then updateCache newHeap else ret tt))
  end)).

End Claimed.

(** An embedder whose heap is the buffer its state names: buffers 1 and 2
    have eight bytes each, buffer 3 is detached. *)
Definition swap_buffers : gmap nat Buffer :=
  {[ 1%nat := {| data := replicate 8 Byte.x00; detached := false |};
     2%nat := {| data := replicate 8 Byte.xff; detached := false |};
     3%nat := {| data := []; detached := true |} ]}.

Definition swap_heapGetter (w : @World BufId) : BufId * @World BufId := (env w, w).
Definition swap_allocate (n : Z) (w : @World BufId) : Z * @World BufId := (8, w).
Definition swap_deallocate (a : Num) (w : @World BufId) : @World BufId := w.

(** A manager built with [pollingMode: 'always'] while the heap is buffer
    1; afterwards the embedder makes buffer [b] its heap. *)
Definition swapped_to (b : BufId) : @State BufId :=
  set_world {| buffers := swap_buffers; env := b |}
    (snd (new_WasmHeapManager swap_heapGetter swap_allocate swap_deallocate
            (Some always_polling)
            {| buffers := swap_buffers; env := 1%nat |} [] [])).

(** The span of [byteSize] bytes from [address] lies inside the byte view
    [h], and [h] inside its buffer. *)
Definition span_in_view (bufs : gmap nat Buffer) (h : TypedArray)
    (address byteSize : Z) : Prop :=
  IsTypedArrayOutOfBounds bufs h = false
  /\ 0 <= address /\ 0 <= byteSize /\ address + byteSize <= ta_length h.

(** Byte [j] of buffer [b]. *)
Definition heap_byte {Env} (st : @State Env) (b : BufId) (j : nat) : option byte :=
  data (buffer_at (buffers (world st)) b) !! j.


(** The unsigned integer that the bytes of cell [i] of [h] spell. *)
Definition cell_raw (bufs : gmap nat Buffer) (h : TypedArray) (i : Z) : Z :=
  le_combine
    (read_bytes (data (buffer_at bufs (ta_buffer h))) (byte_position h i)
       (BYTES_PER_ELEMENT (ta_kind h))).

(** The state after one native atomic store, and after one native atomic
    load, on cell [i] of [h]. *)
Definition after_atomic_store {Env} (h : TypedArray) (i raw : Z) (st : @State Env)
  : @State Env :=
  set_buffers (store_raw (buffers (world st)) h i raw)
    (add_event (AtomicStore (ta_kind h) (ta_buffer h) i raw) st).

Definition after_atomic_load {Env} (h : TypedArray) (i : Z) (st : @State Env)
  : @State Env :=
  add_event (AtomicLoad (ta_kind h) (ta_buffer h) i) st.

(** ** Null-terminator discovery, as the specification words it *)

(** The unsigned view of element width [w]. *)
Definition unsigned_kind (w : Z) : Kind :=
  if w =? 1 then Uint8 else if w =? 2 then Uint16 else Uint32.

(** The span scanned from element [start] of [h]: [maxElementCount]
    elements when a maximum is given, the elements up to the end of the heap
    otherwise, and in no case more than the heap has. *)
Definition scanned_span (bufs : gmap nat Buffer) (h : TypedArray) (start : Z)
    (maxElementCount : option Z) : list Z :=
  let available := Z.max 0 (TypedArrayLength bufs h - start) in
  let count :=
    match maxElementCount with
    | Some m => Z.min m available
    | None => available
    end in
  map (fun i => cell_raw bufs h (start + Z.of_nat i)) (seq 0 (Z.to_nat count)).

(** The number of elements strictly before the first zero. *)
Fixpoint first_zero (l : list Z) : option nat :=
  match l with
  | [] => None
  | x :: l' => if x =? 0 then Some 0%nat else S <$> first_zero l'
  end.

(** ** Scenes for the string references *)

(** The arena with every byte of its heap set to 0xFF, so that a write
    shows. *)
Definition dirty_arena (capacity : Z) : @State ArrayBufferArenaAllocator :=
  set_buffers
    {[ 1%nat := {| data := replicate (Z.to_nat capacity) Byte.xff; detached := false |} ]}
    (arena_state capacity None).

(** [wrapNullTerminatedAsciiString] ... [wrapNullTerminatedUtf32String], by
    encoding. *)
Definition wrapNullTerminatedString (enc : Encoding) (address : Z)
    (maxElementCount : option Z) : @M ArrayBufferArenaAllocator RefId :=
  match enc with
  | Ascii => wrapNullTerminatedAsciiString address maxElementCount
  | Utf8 => wrapNullTerminatedUtf8String address maxElementCount
  | Utf16 => wrapNullTerminatedUtf16String address maxElementCount
  | Utf32 => wrapNullTerminatedUtf32String address maxElementCount
  end.

(** A string reference of the encoding, reference 0, at address 8 with a
    capacity of [capacity] elements, on a dirty arena of 32 bytes. *)
Definition string_scene (enc : Encoding) (capacity : Z)
  : @State ArrayBufferArenaAllocator :=
  state_after (wrapNullTerminatedString enc 8 (Some capacity)) (dirty_arena 32).

(** "abc", "abcdef" and "é" *)
Definition abc : JsString := [97; 98; 99].
Definition abcdef : JsString := [97; 98; 99; 100; 101; 102].
Definition e_acute : JsString := [233].

(** ** Generations of views *)

(** Every buffer holds a whole number of 8-byte words, so a whole number
    of elements of each kind: the data model leaves this to the embedder. *)
Definition sized (bufs : gmap nat Buffer) : Prop :=
  forall b, Z.of_nat (length (data (buffer_at bufs b))) mod 8 = 0.

Section Generation.

Context {Env : Type} `{Encodings}.

(** What the embedder keeps true of its world: the sizes, and an
    invariant [J] of its own state. *)
Definition kept (J : Env -> Prop) (w : @World Env) : Prop :=
  sized (buffers w) /\ J (env w).

Definition keeps_sizes (J : Env -> Prop)
    (heapGetter : @World Env -> BufId * @World Env)
    (allocate : Z -> @World Env -> Z * @World Env)
    (deallocate : Num -> @World Env -> @World Env) : Prop :=
  (forall w, kept J w -> kept J (snd (heapGetter w)))
  /\ (forall size w, kept J w -> kept J (snd (allocate size w)))
  /\ (forall a w, kept J w -> kept J (deallocate a w)).

(** One generation: the eleven cached views are the views of the cached
    buffer, all over the same [len] bytes. *)
Definition one_generation (m : @WasmHeapManager Env) : Prop :=
  exists len, forall k, cachedHeapView m k = whole_view k (cachedHeap m) len.

(** The methods a caller can invoke, on the manager and on the references
    it hands out, with their arguments. *)
Inductive method : forall A : Type, @M Env A -> Prop :=
  | call_heap k : method _ (heap k)
  | call_read k address : method _ (read_kind k address)
  | call_readAtomic k address : method _ (readAtomic_kind k address)
  | call_write k address value : method _ (write_kind k address value)
  | call_writeAtomic k address value : method _ (writeAtomic_kind k address value)
  | call_view k address n : method _ (view_kind k address n)
  | call_readPointer p address : method _ (readPointer p address)
  | call_readPointerAtomic p address : method _ (readPointerAtomic p address)
  | call_writePointer p address value : method _ (writePointer p address value)
  | call_writePointerAtomic p address value :
      method _ (writePointerAtomic p address value)
  | call_viewPointer32Array address n : method _ (viewPointer32Array address n)
  | call_viewPointer53Array address n : method _ (viewPointer53Array address n)
  | call_viewPointer64Array address n : method _ (viewPointer64Array address n)
  | call_readBigUint128LE address : method _ (readBigUint128LE address)
  | call_writeBigUint128LE address value : method _ (writeBigUint128LE address value)
  | call_readBigUint256LE address : method _ (readBigUint256LE address)
  | call_writeBigUint256LE address value : method _ (writeBigUint256LE address value)
  | call_getElementCount address w n :
      method _ (getElementCountOfNullTerminatedString address w n)
  | call_readAscii address n : method _ (readNullTerminatedAsciiString address n)
  | call_writeAscii address value : method _ (writeNullTerminatedAsciiString address value)
  | call_readUtf8 address n : method _ (readNullTerminatedUtf8String address n)
  | call_writeUtf8 address value n :
      method _ (writeNullTerminatedUtf8String address value n)
  | call_readUtf16 address n : method _ (readNullTerminatedUtf16String address n)
  | call_writeUtf16 address value n :
      method _ (writeNullTerminatedUtf16String address value n)
  | call_readUtf32 address n : method _ (readNullTerminatedUtf32String address n)
  | call_writeUtf32 address value n :
      method _ (writeNullTerminatedUtf32String address value n)
  | call_free argument : method _ (free argument)
  | call_wrapNumeric k address : method _ (wrapNumeric k address)
  | call_wrapPointer p address : method _ (wrapPointer p address)
  | call_wrapArray k address n : method _ (wrapArray k address n)
  | call_wrapPointerArray p address n : method _ (wrapPointerArray p address n)
  | call_wrapAscii address n : method _ (wrapNullTerminatedAsciiString address n)
  | call_wrapUtf8 address n : method _ (wrapNullTerminatedUtf8String address n)
  | call_wrapUtf16 address n : method _ (wrapNullTerminatedUtf16String address n)
  | call_wrapUtf32 address n : method _ (wrapNullTerminatedUtf32String address n)
  | call_allocNumeric k value : method _ (allocNumeric k value)
  | call_allocPointer p value : method _ (allocPointer p value)
  | call_allocArray k x : method _ (allocArray k x)
  | call_allocPointerArray p x : method _ (allocPointerArray p x)
  | call_allocAscii x : method _ (allocNullTerminatedAsciiString x)
  | call_allocUtf8 x : method _ (allocNullTerminatedUtf8String x)
  | call_allocUtf16 x : method _ (allocNullTerminatedUtf16String x)
  | call_allocUtf32 x : method _ (allocNullTerminatedUtf32String x)
  | call_isFreed id : method _ (isFreed id)
  | call_allocatedByteCount id : method _ (allocatedByteCount id)
  | call_allocatedBytesView id : method _ (allocatedBytesView id)
  | call_clear id : method _ (clear id)
  | call_NumericRef_read id : method _ (NumericRef_read id)
  | call_NumericRef_readAtomic id : method _ (NumericRef_readAtomic id)
  | call_NumericRef_write id value : method _ (NumericRef_write id value)
  | call_NumericRef_writeAtomic id value : method _ (NumericRef_writeAtomic id value)
  | call_NumericRef_get_value id : method _ (NumericRef_get_value id)
  | call_NumericRef_set_value id value : method _ (NumericRef_set_value id value)
  | call_encodedElementCount id : method _ (encodedElementCount id)
  | call_encodedByteCount id : method _ (encodedByteCount id)
  | call_encodedBytesView id : method _ (encodedBytesView id)
  | call_StringRef_read id : method _ (StringRef_read id)
  | call_StringRef_write id value : method _ (StringRef_write id value)
  | call_StringRef_get_value id : method _ (StringRef_get_value id)
  | call_StringRef_set_value id value : method _ (StringRef_set_value id value)
  | call_allocatedElementsView id : method _ (allocatedElementsView id)
  | call_encodedElementsView id : method _ (encodedElementsView id)
  | call_ref_view id : method _ (view id)
  | call_readAt id index : method _ (readAt id index)
  | call_readAtomicAt id index : method _ (readAtomicAt id index)
  | call_writeAt id index value : method _ (writeAt id index value)
  | call_writeAtomicAt id index value : method _ (writeAtomicAt id index value)
  | call_Ref_free id options : method _ (Ref_free id options).

(** The observation points: the state the constructor leaves when it
    returns, and from there on the state after any method, or after the
    embedder has changed its world (grown, replaced or detached buffers,
    written to them). *)
Inductive observable (J : Env -> Prop)
    (heapGetter : @World Env -> BufId * @World Env)
    (allocate : Z -> @World Env -> Z * @World Env)
    (deallocate : Num -> @World Env -> @World Env) : @State Env -> Prop :=
  | constructed options w l r st :
      kept J w ->
      new_WasmHeapManager heapGetter allocate deallocate options w l r = (Ret tt, st) ->
      observable J heapGetter allocate deallocate st
  | invoked A (m : @M Env A) st :
      observable J heapGetter allocate deallocate st ->
      method A m ->
      observable J heapGetter allocate deallocate (snd (m st))
  | embedder_acts st w :
      observable J heapGetter allocate deallocate st ->
      kept J w ->
      observable J heapGetter allocate deallocate (set_world w st).

(** The invariant behind it. *)
Definition generation_invariant (J : Env -> Prop) (st : @State Env) : Prop :=
  kept J (world st)
  /\ keeps_sizes J (heapGetter (manager st)) (allocate (manager st))
       (deallocate (manager st))
  /\ one_generation (manager st).

Definition preserves (J : Env -> Prop) {A} (m : @M Env A) : Prop :=
  forall st, generation_invariant J st -> generation_invariant J (snd (m st)).

End Generation.

(** What the arena keeps true of itself. *)
Definition arena_aligned (a : ArrayBufferArenaAllocator) : Prop :=
  0 < alignmentConstant a /\ alignmentConstant a mod 4 = 0.

(** A world outside the data model: an embedder whose state is the buffer
    it currently uses, and which replaces a heap of 16 bytes (buffer 1, then
    detached) by one of 12 bytes (buffer 2). *)
Definition current_buffer (w : @World BufId) : BufId * @World BufId := (env w, w).

Definition unsized_scene : @State BufId :=
  let zeros n := {| data := replicate n Byte.x00; detached := false |} in
  let st :=
    snd (new_WasmHeapManager current_buffer (fun _ w => (8, w)) (fun _ w => w) None
           {| buffers := {[ 1%nat := zeros 16%nat ]}; env := 1%nat |} [] []) in
  set_world
    {| buffers := {[ 1%nat := {| data := []; detached := true |}; 2%nat := zeros 12%nat ]};
       env := 2%nat |}
    st.

(** ** Utilities

    [concatTypedArrays] over typed arrays of the kind of the constructor,
    in the buffers of the embedder. *)

(** [target.set(source, targetOffset)] for a typed array [source] of the
    kind of [target]: a RangeError for a negative offset, a TypeError where
    either array is out of bounds, as every array is once its buffer is
    detached, a RangeError where the source does not fit; otherwise the
    elements of the source, read before any is stored, are stored from the
    offset on. *)
Definition TypedArray_set (bufs : gmap nat Buffer) (target source : TypedArray)
    (targetOffset : Z) : Outcome (gmap nat Buffer) :=
  if targetOffset <? 0 then Throw RangeError
  else if IsTypedArrayOutOfBounds bufs target then Throw TypeError
  else if IsTypedArrayOutOfBounds bufs source then Throw TypeError
  else if TypedArrayLength bufs target <? TypedArrayLength bufs source + targetOffset
  then Throw RangeError
  else Ret (store_raws bufs target targetOffset (raw_elements bufs source)).

(** [new TypedArrayConstructor(length)]: a view of a new buffer of zeros. *)
Definition new_TypedArray_of_length (k : Kind) (length : Z) (bufs : gmap nat Buffer)
  : TypedArray * gmap nat Buffer :=
  let '(b, bufs') := new_ArrayBuffer (length * BYTES_PER_ELEMENT k) bufs in
  ({| ta_kind := k; ta_buffer := b; ta_byteOffset := 0; ta_length := length |}, bufs').

(** The second loop of [concatTypedArrays]: each array is [set] into the
    result at the write offset, which then moves on by the length of the
    array; an error ends the loop. *)
Fixpoint set_each (result : TypedArray) (arrays : list TypedArray) (writeOffset : Z)
    (bufs : gmap nat Buffer) : Outcome unit * gmap nat Buffer :=
  match arrays with
  | [] => (Ret tt, bufs)
  | array :: arrays' =>
      match TypedArray_set bufs result array writeOffset with
      | Ret bufs' =>
          set_each result arrays' (writeOffset + TypedArrayLength bufs' array) bufs'
      | Throw e => (Throw e, bufs)
      end
  end.

Definition concatTypedArrays (k : Kind) (arrays : list TypedArray)
    (bufs : gmap nat Buffer) : Outcome TypedArray * gmap nat Buffer :=
  let totalLength :=
    fold_left (fun totalLength array => totalLength + TypedArrayLength bufs array)
      arrays 0 in
  let '(result, bufs0) := new_TypedArray_of_length k totalLength bufs in
  match set_each result arrays 0 bufs0 with
  | (Ret _, bufs') => (Ret result, bufs')
  | (Throw e, bufs') => (Throw e, bufs')
  end.

Definition concatUint8Arrays (arrays : list TypedArray) (bufs : gmap nat Buffer)
  : Outcome TypedArray * gmap nat Buffer :=
  concatTypedArrays Uint8 arrays bufs.

(** Two views of a buffer of eight bytes, 1 to 8: the bytes 0 to 2 and the
    bytes 4 and 5; and the same after the buffer has been detached. *)
Definition eight_bytes : gmap nat Buffer :=
  {[ 1%nat := {| data := map byte.of_Z [1; 2; 3; 4; 5; 6; 7; 8]; detached := false |} ]}.

Definition eight_bytes_detached : gmap nat Buffer :=
  {[ 1%nat := {| data := map byte.of_Z [1; 2; 3; 4; 5; 6; 7; 8]; detached := true |} ]}.

Definition two_views : list TypedArray :=
  [ {| ta_kind := Uint8; ta_buffer := 1%nat; ta_byteOffset := 0; ta_length := 3 |};
    {| ta_kind := Uint8; ta_buffer := 1%nat; ta_byteOffset := 4; ta_length := 2 |} ].

(** The buffers in which the result of a concatenation is being filled:
    the result has its [total] elements, and every other buffer is as in
    [bufs]. *)
Definition filling_result (bufs : gmap nat Buffer) (result : TypedArray) (total : Z)
    (cur : gmap nat Buffer) : Prop :=
  IsTypedArrayOutOfBounds cur result = false
  /\ TypedArrayLength cur result = total
  /\ (forall b, b <> ta_buffer result ->
        cur !! b = bufs !! b /\ buffer_at cur b = buffer_at bufs b).

(** [ArrayBufferArenaAllocator.reset] *)
Definition arena_reset (w : ArenaWorld) : ArenaWorld :=
  {| buffers := buffers w;
     env := {| arena_heap := arena_heap (env w);
               alignmentConstant := alignmentConstant (env w);
               currentAllocationAddress := alignmentConstant (env w) |} |}.

(** ** Invariants of the methods

    [keeps P m]: the method [m] keeps the property [P] of the state.  The
    methods change the state through ten steps only; [steps_keep P] says
    that each of them keeps [P]. *)

Section Steps.

Context {Env : Type} `{Encodings}.

Definition keeps (P : @State Env -> Prop) {A} (m : @M Env A) : Prop :=
  forall st, P st -> P (snd (m st)).

Definition steps_keep (P : @State Env -> Prop) : Prop :=
  (forall ta i v, keeps P (set_element ta i v))
  /\ (forall ta v, keeps P (ta_fill ta v))
  /\ (forall ta i v, keeps P (Atomics_store ta i v))
  /\ (forall ta i, keeps P (Atomics_load ta i))
  /\ (forall size, keeps P (call_allocate size))
  /\ (forall a, keeps P (call_deallocate a))
  /\ keeps P updateCacheIfNeeded
  /\ (forall id, keeps P (set_address id 0))
  /\ (forall c address elementCount, keeps P (new_ref c address elementCount))
  /\ (forall ref, keeps P (registerFinalizerIfEnabled ref)).

(** The number of calls of the heap getter on the log. *)
Definition heapGetter_calls (st : @State Env) : nat :=
  list_sum
    (map (fun e => match e with HeapGetterCall => 1%nat | _ => 0%nat end) (log st)).

End Steps.

(** Every reference of [before] is still a reference of the state, of the
    same class and element count, and at the same address unless it has
    been freed. *)
Definition succeeds {Env} (before : list HeapRef) (st : @State Env) : Prop :=
  forall id r,
    before !! id = Some r ->
    exists r',
      refs st !! id = Some r'
      /\ class r' = class r /\ elementCount r' = elementCount r
      /\ (address r' = address r \/ address r' = 0).

(** The configuration of a manager: its options and its three callbacks. *)
Definition configured_as {Env} (st0 st : @State Env) : Prop :=
  options (manager st) = options (manager st0)
  /\ heapGetter (manager st) = heapGetter (manager st0)
  /\ allocate (manager st) = allocate (manager st0)
  /\ deallocate (manager st) = deallocate (manager st0).

(** Options for the worked examples: garbage collection enabled, and the
    polling mode 'never'. *)
Definition collecting : WasmHeapManagerOptions :=
  {| clearAllocatedRegions := None; pollingMode := None;
     enableGarbageCollection := Some true |}.

Definition never_polling : WasmHeapManagerOptions :=
  {| clearAllocatedRegions := None; pollingMode := Some never;
     enableGarbageCollection := None |}.

(** [wrapNullTerminatedAsciiString] ... [wrapNullTerminatedUtf32String], by
    encoding, for any embedder. *)
Definition wrapNullTerminated {Env} `{Encodings} (enc : Encoding) (address : Z)
    (maxElementCount : option Z) : @M Env RefId :=
  match enc with
  | Ascii => wrapNullTerminatedAsciiString address maxElementCount
  | Utf8 => wrapNullTerminatedUtf8String address maxElementCount
  | Utf16 => wrapNullTerminatedUtf16String address maxElementCount
  | Utf32 => wrapNullTerminatedUtf32String address maxElementCount
  end.

(** An embedder over one heap of 64 bytes whose allocator fails the way a
    C allocator does, by returning the address 0. *)
Definition failing_manager : @State unit :=
  snd (new_WasmHeapManager (fun w => (1%nat, w)) (fun _ w => (0, w)) (fun _ w => w) None
         {| buffers := {[ 1%nat := {| data := replicate 64 Byte.x00; detached := false |} ]};
            env := tt |} [] []).

(** Between two states, the bytes outside the positions [lo, hi) of the
    buffer [b0] are what they were, and so are the log, the manager and the
    references. *)
Definition unchanged_outside {Env} (b0 : BufId) (lo hi : Z) (st st' : @State Env) : Prop :=
  log st' = log st /\ manager st' = manager st /\ refs st' = refs st
  /\ (forall ta, TypedArrayLength (buffers (world st')) ta
                 = TypedArrayLength (buffers (world st)) ta)
  /\ forall b (j : nat),
       ~ (b = b0 /\ lo <= Z.of_nat j < hi) ->
       heap_byte st' b j = heap_byte st b j.

(** No refresh of the cache is due: the polling mode is 'never', or it is
    'whenEmpty' and the cached buffer is not empty. *)
Definition no_refresh_due {Env} (st : @State Env) : Prop :=
  pollingMode (options (manager st)) = Some never
  \/ (pollingMode (options (manager st)) = Some whenEmpty
      /\ 0 < byteLength (buffers (world st)) (cachedHeap (manager st))).

(** The states that differ from [st] in the contents of the buffers and
    nothing else. *)
Definition same_but_contents {Env} (st st' : @State Env) : Prop :=
  log st' = log st /\ manager st' = manager st /\ refs st' = refs st
  /\ env (world st') = env (world st)
  /\ forall b, byteLength (buffers (world st')) b = byteLength (buffers (world st)) b
               /\ IsDetachedBuffer (buffers (world st')) b
                  = IsDetachedBuffer (buffers (world st)) b.

(** The cells of [h] from [start] on hold [es]. *)
Definition cells_hold (bufs : gmap nat Buffer) (h : TypedArray) (start : Z) (es : list Z)
  : Prop :=
  forall (j : nat) e, es !! j = Some e -> cell_raw bufs h (start + Z.of_nat j) = e.

(** What the round trip of a string asks of the heap and of the codec, and
    what it gives. *)

(** The cached view of element width [w] is in place, and the string of
    [n] code units fits it at [address], terminator included. *)
Definition has_room {Env} (st : @State Env) (w address n : Z) : Prop :=
  let h := cachedHeapView (manager st) (unsigned_kind w) in
  ta_kind h = unsigned_kind w
  /\ IsTypedArrayOutOfBounds (buffers (world st)) h = false
  /\ 0 <= address /\ address mod w = 0
  /\ address / w + n < TypedArrayLength (buffers (world st)) h.

(** The encoder turns [value] into the elements [es], none of them zero,
    at most one per code unit, and the decoder turns them back. *)
Definition encodes_as (encoder : JsString -> Z -> list Z * Z)
    (decoder : list Z -> JsString) (w : Z) (value : JsString) (es : list Z) : Prop :=
  let n := Z.of_nat (length value) in
  fst (encoder value n) = es
  /\ Z.of_nat (length es) <= n
  /\ Forall (fun e => 0 < e < 2 ^ (8 * w)) es
  /\ decoder es = value.

(** The write returns and changes the contents of the buffers only, and
    the read then returns the string: without a maximum, and with any
    maximum above the number of elements. *)
Definition written_and_read_back {Env} (write : @M Env unit)
    (read : option Z -> @M Env JsString) (value : JsString) (es : list Z)
    (st : @State Env) : Prop :=
  let st2 := state_after write st in
  outcome_of write st = Ret tt
  /\ same_but_contents st st2
  /\ read None st2 = (Ret value, st2)
  /\ forall m, Z.of_nat (length es) < m -> read (Some m) st2 = (Ret value, st2).

(** Two states with the same manager, references and buffers: what the
    log and the allocator's own state hold may differ. *)
Definition same_heap {Env} (s s' : @State Env) : Prop :=
  manager s' = manager s /\ refs s' = refs s
  /\ buffers (world s') = buffers (world s).

(** [{ freeElements: true }] *)
Definition with_its_elements : option FreeOptions :=
  Some {| freePointedAddress := None; freeElements := Some true |}.

(** The state has the references, the registrations and the options of
    [st0]. *)
Definition as_registered {Env} (st0 st : @State Env) : Prop :=
  refs st = refs st0
  /\ finalizationRegistry (manager st) = finalizationRegistry (manager st0)
  /\ options (manager st) = options (manager st0).

(** ** WasmMemoryArenaAllocator

    The arena allocator of the repository over a [WebAssembly.Memory]. *)

(** [Math.ceil] of a quotient with a positive denominator. *)
Definition Math_ceil (i : Index) : Z := - ((- numerator i) / denominator i).

Module WasmMemoryArena.

(** A [WebAssembly.Memory]: the buffer it has now, and the number of pages
    beyond which the engine refuses to grow it, which is the maximum it was
    declared with, or less. *)
Record Memory : Type := {
  buffer : BufId;
  limit : Z
}.

Record WasmMemoryArenaAllocator : Type := {
  wasmMemory : Memory;
  alignmentConstant : Z;
  currentAllocationAddress : Z
}.

(** The allocator, and the capacities [console.log] was called with. *)
Record Embedder : Type := {
  allocator : WasmMemoryArenaAllocator;
  console : list Z
}.

Definition WasmWorld := @World Embedder.

Definition new_WasmMemoryArenaAllocator (wasmMemory : Memory) (alignmentConstant : Z)
  : WasmMemoryArenaAllocator :=
  {| wasmMemory := wasmMemory; alignmentConstant := alignmentConstant;
     currentAllocationAddress := alignmentConstant |}.

(** [get heap()] and [get capacity()] *)
Definition heap (w : WasmWorld) : BufId := buffer (wasmMemory (allocator (env w))).

Definition capacity (w : WasmWorld) : Z := byteLength (buffers w) (heap w).

Definition capacityPages (w : WasmWorld) : Index := js_div (capacity w) (2 ^ 16).

(** [wasmMemory.grow(delta)]: beyond the limit a [RangeError]; otherwise
    the buffer of the memory is detached, the memory gets a new buffer
    with the bytes of the old one and [delta] pages of zeros, and the
    number of pages it had is returned. *)
Definition grow (delta : Z) (w : WasmWorld) : Outcome Z * WasmWorld :=
  let memory := wasmMemory (allocator (env w)) in
  let old := buffer memory in
  let bytes := data (buffer_at (buffers w) old) in
  let pages := Z.of_nat (length bytes) / 2 ^ 16 in
  if limit memory <? pages + delta then (Throw RangeError, w)
  else
    let bufs1 := <[old := {| data := bytes; detached := true |}]> (buffers w) in
    let b := fresh_buffer bufs1 in
    (Ret pages,
     {| buffers :=
          <[b := {| data := bytes ++ replicate (Z.to_nat (delta * 2 ^ 16)) Byte.x00;
                    detached := false |}]> bufs1;
        env := {| allocator :=
                    {| wasmMemory := {| buffer := b; limit := limit memory |};
                       alignmentConstant := alignmentConstant (allocator (env w));
                       currentAllocationAddress :=
                         currentAllocationAddress (allocator (env w)) |};
                  console := console (env w) |} |}).

(** What [allocate] comes to: the start address, or the error 'Couldn't
    grow wasm memory capacity from ... bytes to ... bytes'. *)
Inductive Allocation : Type :=
  | Address (startAddress : Z)
  | CouldNotGrow (fromBytes toBytes : Z).

Definition console_log (capacity : Z) (w : WasmWorld) : WasmWorld :=
  {| buffers := buffers w;
     env := {| allocator := allocator (env w);
               console := console (env w) ++ [capacity] |} |}.

Definition set_currentAllocationAddress (a : Z) (w : WasmWorld) : WasmWorld :=
  {| buffers := buffers w;
     env := {| allocator :=
                 {| wasmMemory := wasmMemory (allocator (env w));
                    alignmentConstant := alignmentConstant (allocator (env w));
                    currentAllocationAddress := a |};
               console := console (env w) |} |}.

(** [allocate(requestedByteSize)], for a whole number of bytes, of which
    [Math.ceil] is the number itself. *)
Definition allocate (requestedByteSize : Z) (w : WasmWorld) : Allocation * WasmWorld :=
  let startAddress := currentAllocationAddress (allocator (env w)) in
  let endAddress := startAddress + requestedByteSize in
  let endAddress := alignToNextMultiple endAddress (alignmentConstant (allocator (env w))) in
  if capacity w <? endAddress then
    let additionalRequiredCapacity := endAddress - capacity w in
    let additionalRequiredPages :=
      Math_ceil (js_div additionalRequiredCapacity (2 ^ 16)) + 1 in
    match grow additionalRequiredPages w with
    | (Ret _, w1) =>
        let w2 := console_log (capacity w1) w1 in
        (Address startAddress, set_currentAllocationAddress endAddress w2)
    | (Throw _, w1) =>
        (CouldNotGrow (capacity w1) (capacity w1 + additionalRequiredCapacity), w1)
    end
  else (Address startAddress, set_currentAllocationAddress endAddress w).

(** [deallocate()]: 'Do nothing. It never frees memory.' *)
Definition deallocate (w : WasmWorld) : WasmWorld := w.

Definition reset (w : WasmWorld) : WasmWorld :=
  set_currentAllocationAddress (alignmentConstant (allocator (env w))) w.

(** [() => allocator.heap], the heap getter of [initWasmHeap] in the
    tests. *)
Definition heapGetter (w : WasmWorld) : BufId * WasmWorld := (heap w, w).

End WasmMemoryArena.

(** The memory of [initWasmHeap] in the tests, one page with a maximum of
    [2 ** 16] pages, and the allocator over it. *)
Definition one_page : WasmMemoryArena.WasmWorld :=
  {| buffers := {[ 1%nat := {| data := replicate (Z.to_nat (2 ^ 16)) Byte.x00;
                               detached := false |} ]};
     env := {| WasmMemoryArena.allocator :=
                 WasmMemoryArena.new_WasmMemoryArenaAllocator
                   {| WasmMemoryArena.buffer := 1%nat; WasmMemoryArena.limit := 2 ^ 16 |} 8;
               WasmMemoryArena.console := [] |} |}.

(** A manager over the memory [one_page] with the options of
    [initWasmHeap] in the tests.  Its [allocate] stands for the callback of
    the tests where the arena returns an address; the arena is called
    directly where its error matters. *)
Definition wasm_manager_options : WasmHeapManagerOptions :=
  {| clearAllocatedRegions := Some false; pollingMode := Some whenEmpty;
     enableGarbageCollection := None |}.

Definition wasm_state : @State WasmMemoryArena.Embedder :=
  snd (new_WasmHeapManager WasmMemoryArena.heapGetter
         (fun requestedByteSize w =>
            match WasmMemoryArena.allocate requestedByteSize w with
            | (WasmMemoryArena.Address a, w') => (a, w')
            | (WasmMemoryArena.CouldNotGrow _ _, w') => (0, w')
            end)
         (fun _ w => WasmMemoryArena.deallocate w)
         (Some wasm_manager_options) one_page [] []).

(* ===================================================================== *)
(** * Properties *)
(* ===================================================================== *)

(** ** Numbers: sanity checks of the encodings *)

Example float64_one : encode_float binary64 (of_Z 1) = 0x3FF0000000000000.
Proof. reflexivity. Qed.

Example float32_tenth :
  encode_float binary32 (Finite false 3602879701896397 (-55)) = 0x3DCCCCCD.
Proof. vm_compute. reflexivity. Qed.

Example float32_max_overflows :
  encode_float binary32 (of_Z (2 ^ 128)) = 0x7F800000.
Proof. vm_compute. reflexivity. Qed.

Example float64_minus_three_halves :
  decode_float binary64 0xBFF8000000000000 = Finite true 3 (-1).
Proof. vm_compute. reflexivity. Qed.

Example float32_smallest_subnormal :
  decode_float binary32 1 = Finite false 1 (-149)
  /\ encode_float binary32 (Finite false 1 (-149)) = 1.
Proof. vm_compute. split; reflexivity. Qed.

(** ** Numbers: encodings and conversions *)

Lemma dyadic_spec neg p : forall e0,
  exists m e, dyadic neg p e0 = Finite neg m e /\ odd_pos m = true /\ e0 <= e
              /\ Zpos p = Zpos m * 2 ^ (e - e0).
Proof.
  induction p as [p IH | p IH |]; intros e0.
  - exists (p~1)%positive, e0. rewrite Z.sub_diag. simpl. repeat split; lia.
  - destruct (IH (e0 + 1)) as (m & e & Hd & Ho & Hle & Hp).
    exists m, e. simpl. repeat split; try assumption; try lia.
    replace (e - e0) with (Z.succ (e - (e0 + 1))) by lia.
    rewrite Z.pow_succ_r by lia. rewrite Pos2Z.inj_xO, Hp. ring.
  - exists 1%positive, e0. rewrite Z.sub_diag. simpl. repeat split; lia.
Qed.

Lemma dyadic_odd neg m e : odd_pos m = true -> dyadic neg m e = Finite neg m e.
Proof. destruct m; simpl; intros; congruence. Qed.

Lemma dyadic_shift neg m e k :
  odd_pos m = true -> 0 <= k ->
  forall p, Zpos p = Zpos m * 2 ^ k -> dyadic neg p (e - k) = Finite neg m e.
Proof.
  intros Ho Hk. revert e. pattern k. apply natlike_ind; [| | exact Hk].
  - intros e p Hp. rewrite Z.pow_0_r, Z.mul_1_r in Hp. injection Hp as ->.
    rewrite Z.sub_0_r. apply dyadic_odd; assumption.
  - intros x Hx IH e p Hp. rewrite Z.pow_succ_r in Hp by lia.
    destruct p as [p | p |].
    + exfalso. rewrite Pos2Z.inj_xI in Hp.
      assert (0 < 2 ^ x) by (apply Z.pow_pos_nonneg; lia). nia.
    + simpl. replace (e - Z.succ x + 1) with (e - x) by lia.
      apply IH. rewrite Pos2Z.inj_xO in Hp. nia.
    + exfalso. assert (0 < 2 ^ x) by (apply Z.pow_pos_nonneg; lia). nia.
Qed.

Lemma truncate_of_Z z : truncate (of_Z z) = z.
Proof.
  destruct z as [| p | p]; simpl; [reflexivity | |].
  - destruct (dyadic_spec false p 0) as (m & e & -> & _ & He & Hp).
    simpl. rewrite Z.shiftl_mul_pow2 by lia. rewrite Z.sub_0_r in Hp. lia.
  - destruct (dyadic_spec true p 0) as (m & e & -> & _ & He & Hp).
    simpl. rewrite Z.shiftl_mul_pow2 by lia. rewrite Z.sub_0_r in Hp. lia.
Qed.

Lemma Num_ltb_of_Z z c : Num_ltb (of_Z z) c = (z <? c).
Proof.
  destruct z as [| p | p]; simpl; [reflexivity | |].
  - destruct (dyadic_spec false p 0) as (m & e & -> & _ & He & Hp).
    simpl. rewrite Z.sub_0_r in Hp. destruct (Z.leb_spec 0 e); [| lia].
    rewrite <- Hp. reflexivity.
  - destruct (dyadic_spec true p 0) as (m & e & -> & _ & He & Hp).
    simpl. rewrite Z.sub_0_r in Hp. destruct (Z.leb_spec 0 e); [| lia].
    rewrite <- (Pos2Z.opp_pos m), Z.mul_opp_l, <- Hp. reflexivity.
Qed.

Lemma Num_gtb_of_Z z c : Num_gtb (of_Z z) c = (c <? z).
Proof.
  destruct z as [| p | p]; simpl; [reflexivity | |].
  - destruct (dyadic_spec false p 0) as (m & e & -> & _ & He & Hp).
    simpl. rewrite Z.sub_0_r in Hp. destruct (Z.leb_spec 0 e); [| lia].
    rewrite <- Hp. reflexivity.
  - destruct (dyadic_spec true p 0) as (m & e & -> & _ & He & Hp).
    simpl. rewrite Z.sub_0_r in Hp. destruct (Z.leb_spec 0 e); [| lia].
    rewrite <- (Pos2Z.opp_pos m), Z.mul_opp_l, <- Hp. reflexivity.
Qed.

Lemma digits_bounds m : 2 ^ (digits m - 1) <= Zpos m < 2 ^ digits m.
Proof.
  unfold digits. split.
  - pose proof (Pos.size_le m) as H.
    assert (Hs : Zpos (2 ^ Pos.size m) <= Zpos (m~0)) by (apply Pos2Z.pos_le_pos; exact H).
    rewrite Pos2Z.inj_pow in Hs. rewrite Pos2Z.inj_xO in Hs.
    assert (Hp : 2 ^ Zpos (Pos.size m) = 2 * 2 ^ (Zpos (Pos.size m) - 1)).
    { rewrite <- Z.pow_succ_r by lia. f_equal. lia. }
    lia.
  - pose proof (Pos.size_gt m) as H.
    assert (Hs : Zpos m < Zpos (2 ^ Pos.size m)) by (apply Pos2Z.pos_lt_pos; exact H).
    rewrite Pos2Z.inj_pow in Hs. exact Hs.
Qed.

Lemma fields (P X : Z) (s : bool) (exf mf : Z) :
  0 < P -> 0 < X -> 0 <= mf < P -> 0 <= exf < X ->
  let bits := (if s then P * X else 0) + exf * P + mf in
  bits mod P = mf /\ (bits / P) mod X = exf /\ Z.odd (bits / (P * X)) = s
  /\ 0 <= bits < 2 * (P * X).
Proof.
  intros HP HX Hm He bits.
  set (sz := if s then 1 else 0).
  assert (Hb : bits = (sz * X + exf) * P + mf) by (unfold bits, sz; destruct s; ring).
  assert (Hdiv : bits / P = sz * X + exf).
  { symmetry. apply Z.div_unique with mf; [lia | rewrite Hb; ring]. }
  assert (Hsz : 0 <= sz <= 1) by (unfold sz; destruct s; lia).
  repeat split.
  - symmetry. apply Z.mod_unique with (sz * X + exf); [lia | rewrite Hb; ring].
  - rewrite Hdiv. symmetry. apply Z.mod_unique with sz; [lia | ring].
  - assert (Hq : bits / (P * X) = sz).
    { symmetry. apply Z.div_unique with (exf * P + mf); [nia | rewrite Hb; ring]. }
    rewrite Hq. unfold sz. destruct s; reflexivity.
  - nia.
  - nia.
Qed.

Lemma decode_fields f s exf mf :
  well_formed_format f ->
  0 <= mf < 2 ^ (prec f - 1) -> 0 <= exf < 2 ^ ebits f ->
  let bits := sign_bit f s + exf * 2 ^ (prec f - 1) + mf in
  decode_float f bits =
    (if exf =? 2 ^ ebits f - 1 then
       if mf =? 0 then Infinity s else NaN
     else if exf =? 0 then
       match mf with
       | Zpos p => dyadic s p (emin f)
       | _ => Zero s
       end
     else
       match 2 ^ (prec f - 1) + mf with
       | Zpos p => dyadic s p (exf - bias f - (prec f - 1))
       | _ => NaN
       end)
  /\ 0 <= bits < 2 ^ (prec f + ebits f).
Proof.
  intros [Hp He] Hm Hx bits.
  assert (HP : 0 < 2 ^ (prec f - 1)) by (apply Z.pow_pos_nonneg; lia).
  assert (HX : 0 < 2 ^ ebits f) by (apply Z.pow_pos_nonneg; lia).
  assert (HPX : 2 ^ (prec f - 1 + ebits f) = 2 ^ (prec f - 1) * 2 ^ ebits f)
    by (apply Z.pow_add_r; lia).
  assert (Hall : 2 ^ (prec f + ebits f) = 2 * (2 ^ (prec f - 1) * 2 ^ ebits f)).
  { rewrite <- HPX, <- Z.pow_succ_r by lia. f_equal. lia. }
  destruct (fields (2 ^ (prec f - 1)) (2 ^ ebits f) s exf mf HP HX Hm Hx)
    as (H1 & H2 & H3 & H4).
  assert (Hbits : bits = (if s then 2 ^ (prec f - 1) * 2 ^ ebits f else 0)
                         + exf * 2 ^ (prec f - 1) + mf).
  { unfold bits, sign_bit. rewrite HPX. reflexivity. }
  split; [| rewrite Hall, Hbits; exact H4].
  unfold decode_float. rewrite HPX, Hbits, H1, H2, H3. reflexivity.
Qed.

Lemma float_roundtrip f n :
  well_formed_format f -> in_format f n = true ->
  decode_float f (encode_float f n) = n
  /\ 0 <= encode_float f n < 2 ^ (prec f + ebits f).
Proof.
  intros Hwf Hin. pose proof Hwf as [Hp He].
  assert (HP : 0 < 2 ^ (prec f - 1)) by (apply Z.pow_pos_nonneg; lia).
  assert (HX : 2 ^ ebits f = 2 * emax f).
  { unfold emax. rewrite <- Z.pow_succ_r by lia. f_equal. lia. }
  assert (Hemax : 2 <= emax f).
  { unfold emax. change 2 with (2 ^ 1) at 1. apply Z.pow_le_mono_r; lia. }
  assert (Hq : 2 ^ (prec f - 1) = 2 * 2 ^ (prec f - 2)).
  { rewrite <- Z.pow_succ_r by lia. f_equal. lia. }
  assert (HQ : 0 < 2 ^ (prec f - 2)) by (apply Z.pow_pos_nonneg; lia).
  unfold encode_float.
  destruct n as [| s | s | s m e]; simpl round_to.
  - (* NaN *)
    pose proof (decode_fields f false (2 ^ ebits f - 1) (2 ^ (prec f - 2)) Hwf) as H.
    cbv zeta in H. unfold sign_bit in H. rewrite Z.add_0_l in H.
    destruct H as [H1 H2]; [lia | lia |].
    unfold bits_of. split; [| exact H2].
    rewrite H1. rewrite Z.eqb_refl. destruct (Z.eqb_spec (2 ^ (prec f - 2)) 0); [lia | reflexivity].
  - (* Infinity *)
    pose proof (decode_fields f s (2 ^ ebits f - 1) 0 Hwf) as H.
    cbv zeta in H. rewrite Z.add_0_r in H.
    destruct H as [H1 H2]; [lia | lia |].
    unfold bits_of. split; [| exact H2].
    rewrite H1. rewrite Z.eqb_refl. reflexivity.
  - (* Zero *)
    pose proof (decode_fields f s 0 0 Hwf) as H.
    cbv zeta in H. rewrite Z.mul_0_l, !Z.add_0_r in H.
    destruct H as [H1 H2]; [lia | lia |].
    unfold bits_of. split; [| exact H2].
    rewrite H1. destruct (Z.eqb_spec 0 (2 ^ ebits f - 1)); [lia | reflexivity].
  - (* Finite *)
    simpl in Hin.
    apply andb_prop in Hin as [Hin H4]. apply andb_prop in Hin as [Hin H3].
    apply andb_prop in Hin as [H1 H2].
    apply Z.leb_le in H2, H3, H4.
    pose proof (digits_bounds m) as [Hd1 Hd2].
    assert (Hd : 1 <= digits m) by (unfold digits; lia).
    destruct (Z.leb_spec (Z.max (e + digits m - prec f) (emin f)) e) as [_ | ?]; [| lia].
    destruct (Z.leb_spec (e + digits m) (emax f)) as [_ | ?]; [| lia].
    unfold bits_of.
    destruct (Z.leb_spec (2 - emax f) (e + digits m - 1)) as [Hn | Hs].
    + (* normal *)
      assert (Hk : 0 <= prec f - digits m) by lia.
      assert (Hpow : 2 ^ (prec f - 1) = 2 ^ (digits m - 1) * 2 ^ (prec f - digits m)).
      { rewrite <- Z.pow_add_r by lia. f_equal. lia. }
      assert (Hpow2 : 2 * 2 ^ (prec f - 1) = 2 ^ digits m * 2 ^ (prec f - digits m)).
      { rewrite <- Z.pow_add_r by lia. rewrite <- Z.pow_succ_r by lia. f_equal. lia. }
      assert (HK : 0 < 2 ^ (prec f - digits m)) by (apply Z.pow_pos_nonneg; lia).
      pose proof (decode_fields f s (e + digits m - 1 + bias f)
                    (Zpos m * 2 ^ (prec f - digits m) - 2 ^ (prec f - 1)) Hwf) as HF.
      cbv zeta in HF.
      destruct HF as [E1 E2]; [nia | unfold bias; lia |].
      split; [| exact E2].
      rewrite E1.
      destruct (Z.eqb_spec (e + digits m - 1 + bias f) (2 ^ ebits f - 1));
        [unfold bias in *; lia |].
      destruct (Z.eqb_spec (e + digits m - 1 + bias f) 0); [unfold bias in *; lia |].
      replace (2 ^ (prec f - 1) + (Zpos m * 2 ^ (prec f - digits m) - 2 ^ (prec f - 1)))
        with (Zpos m * 2 ^ (prec f - digits m)) by lia.
      destruct (Zpos m * 2 ^ (prec f - digits m)) as [| p | p] eqn:Ep; [nia | | nia].
      replace (e + digits m - 1 + bias f - bias f - (prec f - 1))
        with (e - (prec f - digits m)) by lia.
      apply dyadic_shift; [assumption | lia | symmetry; exact Ep].
    + (* subnormal *)
      assert (Hk : 0 <= e - emin f) by lia.
      assert (HK : 0 < 2 ^ (e - emin f)) by (apply Z.pow_pos_nonneg; lia).
      assert (Hlt : Zpos m * 2 ^ (e - emin f) < 2 ^ (prec f - 1)).
      { apply Z.lt_le_trans with (2 ^ digits m * 2 ^ (e - emin f)); [nia |].
        rewrite <- Z.pow_add_r by lia. apply Z.pow_le_mono_r; [lia |].
        unfold emin. lia. }
      pose proof (decode_fields f s 0 (Zpos m * 2 ^ (e - emin f)) Hwf) as HF.
      cbv zeta in HF. rewrite Z.mul_0_l, Z.add_0_r in HF.
      destruct HF as [E1 E2]; [nia | lia |].
      split; [| exact E2].
      rewrite E1.
      destruct (Z.eqb_spec 0 (2 ^ ebits f - 1)); [lia |].
      destruct (Zpos m * 2 ^ (e - emin f)) as [| p | p] eqn:Ep; [nia | | nia].
      replace (emin f) with (e - (e - emin f)) at 1 by lia.
      apply dyadic_shift; [assumption | lia | symmetry; exact Ep].
Qed.

Lemma binary32_well_formed : well_formed_format binary32.
Proof. split; simpl; lia. Qed.
Lemma binary64_well_formed : well_formed_format binary64.
Proof. split; simpl; lia. Qed.

Lemma signed_mod bits z :
  0 < bits -> - 2 ^ (bits - 1) <= z < 2 ^ (bits - 1) ->
  signed bits (z mod 2 ^ bits) = z.
Proof.
  intros Hb Hz.
  assert (Hp : 2 ^ bits = 2 * 2 ^ (bits - 1)).
  { rewrite <- Z.pow_succ_r by lia. f_equal. lia. }
  assert (0 < 2 ^ (bits - 1)) by (apply Z.pow_pos_nonneg; lia).
  unfold signed. destruct (Z_lt_le_dec z 0) as [Hneg | Hpos].
  - assert (Hm : z mod 2 ^ bits = z + 2 ^ bits).
    { symmetry. apply Z.mod_unique with (-1); lia. }
    rewrite Hm. destruct (Z.ltb_spec (z + 2 ^ bits) (2 ^ (bits - 1))); lia.
  - rewrite Z.mod_small by lia.
    destruct (Z.ltb_spec z (2 ^ (bits - 1))); lia.
Qed.

Lemma ToUint8Clamp_of_Z z : 0 <= z < 2 ^ 8 -> ToUint8Clamp (of_Z z) = z.
Proof.
  intros Hz. destruct z as [| p | p]; [reflexivity | | lia].
  simpl. destruct (dyadic_spec false p 0) as (m & e & -> & _ & He & Hp).
  simpl. unfold round_half_even. rewrite Z.sub_0_r in Hp.
  destruct (Z.leb_spec 0 e); [| lia]. rewrite <- Hp. change (2 ^ 8) with 256 in Hz. lia.
Qed.

Lemma raw_roundtrip k v :
  representable k v ->
  exists raw, to_raw k v = Ret raw
              /\ 0 <= raw < 2 ^ (8 * BYTES_PER_ELEMENT k)
              /\ of_raw k raw = v.
Proof.
  assert (Hmod : forall b z, 0 < b -> 0 <= z mod 2 ^ b < 2 ^ b).
  { intros b z Hb. apply Z.mod_pos_bound. apply Z.pow_pos_nonneg; lia. }
  destruct k; simpl; intros (z & Hz & ->); simpl.
  - exists (z mod 2 ^ 8). rewrite truncate_of_Z. repeat split; try apply Hmod; try lia.
    change (8 * 1) with 8. rewrite signed_mod; [reflexivity | lia | exact Hz].
  - exists z. rewrite truncate_of_Z, Z.mod_small by exact Hz. repeat split; lia.
  - exists z. rewrite ToUint8Clamp_of_Z by exact Hz. repeat split; lia.
  - exists (z mod 2 ^ 16). rewrite truncate_of_Z. repeat split; try apply Hmod; try lia.
    change (8 * 2) with 16. rewrite signed_mod; [reflexivity | lia | exact Hz].
  - exists z. rewrite truncate_of_Z, Z.mod_small by exact Hz. repeat split; lia.
  - exists (z mod 2 ^ 32). rewrite truncate_of_Z. repeat split; try apply Hmod; try lia.
    change (8 * 4) with 32. rewrite signed_mod; [reflexivity | lia | exact Hz].
  - exists z. rewrite truncate_of_Z, Z.mod_small by exact Hz. repeat split; lia.
  - exists (z mod 2 ^ 64). repeat split; try apply Hmod; try lia.
    rewrite signed_mod; [reflexivity | lia | exact Hz].
  - exists z. rewrite Z.mod_small by exact Hz. repeat split; lia.
  - destruct (float_roundtrip binary32 z binary32_well_formed Hz) as [Hr Hb].
    exists (encode_float binary32 z). rewrite Hr. repeat split; apply Hb.
  - destruct (float_roundtrip binary64 z binary64_well_formed Hz) as [Hr Hb].
    exists (encode_float binary64 z). rewrite Hr. repeat split; apply Hb.
Qed.

Lemma read_write_bytes (l : list byte) pos bs :
  0 <= pos -> (Z.to_nat pos + length bs <= length l)%nat ->
  read_bytes (write_bytes l pos bs) pos (Z.of_nat (length bs)) = bs.
Proof.
  intros Hpos Hlen. unfold read_bytes, write_bytes.
  rewrite Nat2Z.id.
  rewrite drop_app_length' by (rewrite length_take; lia).
  rewrite take_app_length. reflexivity.
Qed.

Lemma length_write_bytes (l : list byte) pos bs :
  (Z.to_nat pos + length bs <= length l)%nat ->
  length (write_bytes l pos bs) = length l.
Proof.
  intros Hlen. unfold write_bytes.
  rewrite !length_app, length_take, length_drop. lia.
Qed.

Lemma bytes_get_set k (l : list byte) pos raw :
  0 <= pos -> pos + BYTES_PER_ELEMENT k <= Z.of_nat (length l) ->
  0 <= raw < 2 ^ (8 * BYTES_PER_ELEMENT k) ->
  bytes_get k (bytes_set k l pos raw) pos = of_raw k raw.
Proof.
  intros Hpos Hlen Hraw. unfold bytes_get, bytes_set.
  assert (Hw : 0 < BYTES_PER_ELEMENT k) by (destruct k; simpl; lia).
  set (w := Z.to_nat (BYTES_PER_ELEMENT k)).
  replace (BYTES_PER_ELEMENT k) with (Z.of_nat (length (le_split w raw))) at 1
    by (rewrite length_le_split; unfold w; lia).
  rewrite read_write_bytes; [| lia | rewrite length_le_split; unfold w; lia].
  rewrite le_combine_split. rewrite Z.mod_small; [reflexivity |].
  replace (Z.of_nat w * 8) with (8 * BYTES_PER_ELEMENT k) by (unfold w; lia).
  exact Hraw.
Qed.

(** ** Typed arrays: a stored element is read back *)

Lemma buffer_at_insert (bufs : gmap nat Buffer) b x b' :
  buffer_at (<[b := x]> bufs) b' = if decide (b = b') then x else buffer_at bufs b'.
Proof.
  unfold buffer_at. rewrite lookup_insert. destruct (decide (b = b')); reflexivity.
Qed.

Lemma valid_index_in_data bufs ta i :
  0 <= i < TypedArrayLength bufs ta ->
  detached (buffer_at bufs (ta_buffer ta)) = false
  /\ 0 <= byte_position ta i
  /\ byte_position ta i + BYTES_PER_ELEMENT (ta_kind ta)
     <= Z.of_nat (length (data (buffer_at bufs (ta_buffer ta)))).
Proof.
  intros Hi. unfold TypedArrayLength, IsTypedArrayOutOfBounds in Hi.
  unfold IsDetachedBuffer, byteLength in Hi. unfold byte_position.
  assert (Hw : 0 < BYTES_PER_ELEMENT (ta_kind ta)) by (destruct (ta_kind ta); simpl; lia).
  destruct (detached (buffer_at bufs (ta_buffer ta))); simpl in Hi; [lia |].
  destruct (Z.ltb_spec (ta_byteOffset ta) 0); simpl in Hi; [lia |].
  destruct (Z.ltb_spec (ta_length ta) 0); simpl in Hi; [lia |].
  destruct (Z.ltb_spec (Z.of_nat (length (data (buffer_at bufs (ta_buffer ta)))))
              (ta_byteOffset ta + ta_length ta * BYTES_PER_ELEMENT (ta_kind ta))); [lia |].
  repeat split; nia.
Qed.

Lemma byteLength_store_raw bufs ta i raw b :
  0 <= i < TypedArrayLength bufs ta ->
  byteLength (store_raw bufs ta i raw) b = byteLength bufs b
  /\ IsDetachedBuffer (store_raw bufs ta i raw) b = IsDetachedBuffer bufs b.
Proof.
  intros Hi.
  destruct (valid_index_in_data bufs ta i Hi) as (Hd & Hp & Hlen).
  unfold byteLength, IsDetachedBuffer, store_raw. rewrite buffer_at_insert.
  destruct (decide (ta_buffer ta = b)) as [<- |]; [| split; reflexivity].
  simpl. split; [| reflexivity].
  rewrite Hd. unfold bytes_set. rewrite length_write_bytes; [reflexivity |].
  rewrite length_le_split.
  assert (Hw : 0 < BYTES_PER_ELEMENT (ta_kind ta)) by (destruct (ta_kind ta); simpl; lia).
  lia.
Qed.

Lemma TypedArrayLength_store_raw bufs ta i raw ta' :
  0 <= i < TypedArrayLength bufs ta ->
  TypedArrayLength (store_raw bufs ta i raw) ta' = TypedArrayLength bufs ta'.
Proof.
  intros Hi. unfold TypedArrayLength, IsTypedArrayOutOfBounds.
  destruct (byteLength_store_raw bufs ta i raw (ta_buffer ta') Hi) as [-> ->].
  reflexivity.
Qed.

Lemma whole_index i : is_integer (whole i) = true /\ ToIntegerOrInfinity (whole i) = i.
Proof.
  unfold is_integer, ToIntegerOrInfinity, whole. simpl.
  rewrite Z.mod_1_r, Z.quot_1_r. split; reflexivity.
Qed.

Lemma aligned_index a w :
  0 < w -> 0 <= a -> a mod w = 0 ->
  is_integer (js_div a w) = true /\ ToIntegerOrInfinity (js_div a w) = a / w.
Proof.
  intros Hw Ha Hm. unfold is_integer, ToIntegerOrInfinity, js_div. simpl.
  rewrite Hm. split; [reflexivity |]. apply Z.quot_div_nonneg; lia.
Qed.

Lemma valid_integer_index bufs ta idx i :
  is_integer idx = true -> ToIntegerOrInfinity idx = i ->
  0 <= i < TypedArrayLength bufs ta ->
  IsValidIntegerIndex bufs ta idx = true.
Proof.
  intros Hint Hto Hi. unfold IsValidIntegerIndex. rewrite Hint, Hto. simpl.
  destruct (Z.leb_spec 0 i); [| lia]. destruct (Z.ltb_spec i (TypedArrayLength bufs ta)); [| lia].
  reflexivity.
Qed.

Lemma get_store_raw bufs ta idx i raw :
  is_integer idx = true -> ToIntegerOrInfinity idx = i ->
  0 <= i < TypedArrayLength bufs ta ->
  0 <= raw < 2 ^ (8 * BYTES_PER_ELEMENT (ta_kind ta)) ->
  TypedArrayGetElement (store_raw bufs ta i raw) ta idx = of_raw (ta_kind ta) raw.
Proof.
  intros Hint Hto Hi Hraw.
  destruct (valid_index_in_data bufs ta i Hi) as (Hd & Hp & Hlen).
  unfold TypedArrayGetElement.
  rewrite (valid_integer_index _ ta idx i Hint Hto)
    by (rewrite TypedArrayLength_store_raw; assumption).
  rewrite Hto. unfold store_raw. rewrite buffer_at_insert.
  destruct (decide (ta_buffer ta = ta_buffer ta)); [| congruence].
  simpl. apply bytes_get_set; assumption.
Qed.

Lemma set_element_valid bufs ta idx i v raw :
  to_raw (ta_kind ta) v = Ret raw ->
  is_integer idx = true -> ToIntegerOrInfinity idx = i ->
  0 <= i < TypedArrayLength bufs ta ->
  TypedArraySetElement bufs ta idx v = Ret (store_raw bufs ta i raw).
Proof.
  intros Hraw Hint Hto Hi. unfold TypedArraySetElement. rewrite Hraw. simpl.
  rewrite (valid_integer_index bufs ta idx i Hint Hto Hi). rewrite Hto. reflexivity.
Qed.

(** ** The monad *)

Section Monad.

Context {Env : Type}.

Lemma bind_ret {A B} (m : @M Env A) (k : A -> @M Env B) st a st' :
  m st = (Ret a, st') -> bind m k st = k a st'.
Proof. intros Hm. unfold bind. rewrite Hm. reflexivity. Qed.

Lemma bind_throw {A B} (m : @M Env A) (k : A -> @M Env B) st e st' :
  m st = (Throw e, st') -> bind m k st = (Throw e, st').
Proof. intros Hm. unfold bind. rewrite Hm. reflexivity. Qed.

Lemma run_ret {A} (m : @M Env A) st a :
  fst (m st) = Ret a -> m st = (Ret a, snd (m st)).
Proof. destruct (m st) as [o st']. simpl. intros ->. reflexivity. Qed.

Lemma bind_gets {A B} (f : @State Env -> A) (k : A -> @M Env B) st :
  bind (gets f) k st = k (f st) st.
Proof. reflexivity. Qed.

Lemma bind_lift_ret {A B} (o : Outcome A) (k : A -> @M Env B) st a :
  o = Ret a -> bind (lift o) k st = k a st.
Proof. intros ->. reflexivity. Qed.

Lemma bind_modify {B} (f : @State Env -> @State Env) (k : unit -> @M Env B) st :
  bind (modify f) k st = k tt (f st).
Proof. reflexivity. Qed.

Lemma bind_ret_l {A B} (a : A) (k : A -> @M Env B) st :
  bind (ret a) k st = k a st.
Proof. reflexivity. Qed.

Lemma bind_assoc {A B C} (m : @M Env A) (k : A -> @M Env B) (k' : B -> @M Env C) st :
  bind (bind m k) k' st = bind m (fun a => bind (k a) k') st.
Proof. unfold bind. destruct (m st) as [[a | e] st']; reflexivity. Qed.

Lemma bind_ret_r {A} (m : @M Env A) st : bind m ret st = m st.
Proof. unfold bind, ret. destruct (m st) as [[a | e] st']; reflexivity. Qed.

(** *** The typed-array operations in the monad *)

Lemma set_element_run (h : TypedArray) idx i v raw (st : @State Env) :
  to_raw (ta_kind h) v = Ret raw ->
  is_integer idx = true -> ToIntegerOrInfinity idx = i ->
  0 <= i < TypedArrayLength (buffers (world st)) h ->
  set_element h idx v st
  = (Ret tt, set_buffers (store_raw (buffers (world st)) h i raw) st).
Proof.
  intros Hraw Hint Hto Hi. unfold set_element, bind, gets, lift, modify.
  rewrite (set_element_valid _ h idx i v raw Hraw Hint Hto Hi). reflexivity.
Qed.

Lemma validate_atomic_access bufs (h : TypedArray) idx i :
  atomic_kind (ta_kind h) = true ->
  ToIntegerOrInfinity idx = i -> 0 <= i < TypedArrayLength bufs h ->
  ValidateAtomicAccess bufs h idx = Ret i.
Proof.
  intros Hk Hto Hi. unfold ValidateAtomicAccess. rewrite Hk, Hto. simpl.
  unfold TypedArrayLength in *.
  destruct (IsTypedArrayOutOfBounds bufs h); [lia |].
  destruct (Z.ltb_spec i 0); [lia |].
  destruct (Z.leb_spec (ta_length h) i); [lia | reflexivity].
Qed.

Lemma Atomics_store_run (h : TypedArray) idx i v raw (st : @State Env) :
  atomic_kind (ta_kind h) = true ->
  to_raw (ta_kind h) v = Ret raw ->
  ToIntegerOrInfinity idx = i ->
  0 <= i < TypedArrayLength (buffers (world st)) h ->
  Atomics_store h idx v st
  = (Ret tt,
     set_buffers (store_raw (buffers (world st)) h i raw)
       (add_event (AtomicStore (ta_kind h) (ta_buffer h) i raw) st)).
Proof.
  intros Hk Hraw Hto Hi. unfold Atomics_store, bind, gets, lift, modify.
  rewrite (validate_atomic_access _ h idx i Hk Hto Hi), Hraw. reflexivity.
Qed.

Lemma Atomics_load_run (h : TypedArray) idx i (st : @State Env) :
  atomic_kind (ta_kind h) = true ->
  ToIntegerOrInfinity idx = i ->
  0 <= i < TypedArrayLength (buffers (world st)) h ->
  Atomics_load h idx st
  = (Ret (TypedArrayGetElement (buffers (world st)) h (whole i)),
     add_event (AtomicLoad (ta_kind h) (ta_buffer h) i) st).
Proof.
  intros Hk Hto Hi. unfold Atomics_load, bind, gets, lift, modify, ret.
  rewrite (validate_atomic_access _ h idx i Hk Hto Hi). reflexivity.
Qed.

(** *** The methods of a kind, in one shape *)

Lemma read_kind_eq k address :
  @read_kind Env k address
  = bind (heap k) (fun h => get_element h (js_div address (BYTES_PER_ELEMENT k))).
Proof. destruct k; reflexivity. Qed.

Lemma write_kind_eq k address v :
  @write_kind Env k address v
  = bind (heap k) (fun h => set_element h (js_div address (BYTES_PER_ELEMENT k)) v).
Proof. destruct k; reflexivity. Qed.

Lemma readAtomic_kind_eq k address :
  atomic_kind k = true ->
  @readAtomic_kind Env k address
  = bind (heap k) (fun h => Atomics_load h (js_div address (BYTES_PER_ELEMENT k))).
Proof. destruct k; intros Hk; try discriminate Hk; reflexivity. Qed.

Lemma writeAtomic_kind_eq k address v :
  atomic_kind k = true ->
  @writeAtomic_kind Env k address v
  = bind (heap k) (fun h => Atomics_store h (js_div address (BYTES_PER_ELEMENT k)) v).
Proof. destruct k; intros Hk; try discriminate Hk; reflexivity. Qed.

End Monad.

(** ** Round trip of the numeric kinds *)

Lemma bytes_get_set_width k k' (l : list byte) pos raw :
  BYTES_PER_ELEMENT k' = BYTES_PER_ELEMENT k ->
  0 <= pos -> pos + BYTES_PER_ELEMENT k <= Z.of_nat (length l) ->
  0 <= raw < 2 ^ (8 * BYTES_PER_ELEMENT k) ->
  bytes_get k' (bytes_set k l pos raw) pos = of_raw k' raw.
Proof.
  intros Hw Hpos Hlen Hraw.
  assert (Hb : bytes_set k l pos raw = bytes_set k' l pos raw)
    by (unfold bytes_set; rewrite Hw; reflexivity).
  rewrite Hb. apply bytes_get_set; rewrite ?Hw; assumption.
Qed.

Lemma float32ToUint32_bits n :
  in_format binary32 n = true ->
  float32ToUint32 (Number n) = Ret (Number (of_Z (encode_float binary32 n)))
  /\ 0 <= encode_float binary32 n < 2 ^ 32.
Proof.
  intros Hin. destruct (float_roundtrip binary32 n binary32_well_formed Hin) as [_ Hb].
  split; [| exact Hb]. unfold float32ToUint32, to_raw, ToNumber, obind.
  rewrite (bytes_get_set_width Float32 Uint32); simpl; try reflexivity; lia || exact Hb.
Qed.

Lemma uint32ToFloat32_bits n :
  in_format binary32 n = true ->
  uint32ToFloat32 (Number (of_Z (encode_float binary32 n))) = Ret (Number n).
Proof.
  intros Hin. destruct (float_roundtrip binary32 n binary32_well_formed Hin) as [Hr Hb].
  unfold uint32ToFloat32, to_raw, ToNumber, obind. rewrite truncate_of_Z.
  change (8 * BYTES_PER_ELEMENT Uint32) with 32. rewrite Z.mod_small by exact Hb.
  rewrite (bytes_get_set_width Uint32 Float32); simpl; try reflexivity; try lia; [| exact Hb].
  rewrite Hr. reflexivity.
Qed.

Lemma float64ToBigUint64_bits n :
  in_format binary64 n = true ->
  float64ToBigUint64 (Number n) = Ret (BigInt (encode_float binary64 n))
  /\ 0 <= encode_float binary64 n < 2 ^ 64.
Proof.
  intros Hin. destruct (float_roundtrip binary64 n binary64_well_formed Hin) as [_ Hb].
  split; [| exact Hb]. unfold float64ToBigUint64, to_raw, ToNumber, obind.
  rewrite (bytes_get_set_width Float64 BigUint64); simpl; try reflexivity; lia || exact Hb.
Qed.

Lemma bigUint64ToFloat64_bits n :
  in_format binary64 n = true ->
  bigUint64ToFloat64 (BigInt (encode_float binary64 n)) = Ret (Number n).
Proof.
  intros Hin. destruct (float_roundtrip binary64 n binary64_well_formed Hin) as [Hr Hb].
  unfold bigUint64ToFloat64, to_raw, ToBigInt, obind.
  rewrite Z.mod_small by exact Hb.
  rewrite (bytes_get_set_width BigUint64 Float64); simpl; try reflexivity; try lia; [| exact Hb].
  rewrite Hr. reflexivity.
Qed.

Section RoundTrip.

Context {Env : Type}.

Lemma plain_round_trip k v address (st : @State Env) h st1 :
  representable k v ->
  ta_kind h = k ->
  heap k st = (Ret h, st1) ->
  in_bounds (buffers (world st1)) h address ->
  exists st2,
    write_kind k address v st = (Ret tt, st2)
    /\ forall st3,
         heap k st2 = (Ret h, st3) ->
         buffers (world st3) = buffers (world st2) ->
         read_kind k address st2 = (Ret v, st3).
Proof.
  intros Hrep Hk Hheap (Ha & Hal & Hlt). subst k.
  destruct (raw_roundtrip _ v Hrep) as (raw & Hraw & Hrange & Hof).
  assert (Hw : 0 < BYTES_PER_ELEMENT (ta_kind h)) by (destruct (ta_kind h); simpl; lia).
  destruct (aligned_index address _ Hw Ha Hal) as [Hint Hto].
  assert (Hi : 0 <= address / BYTES_PER_ELEMENT (ta_kind h)
               < TypedArrayLength (buffers (world st1)) h).
  { split; [apply Z.div_pos; lia | exact Hlt]. }
  eexists. split.
  - rewrite write_kind_eq. rewrite (bind_ret _ _ _ _ _ Hheap).
    apply (set_element_run h _ _ v raw st1 Hraw Hint Hto Hi).
  - intros st3 Hheap3 Hbufs.
    rewrite read_kind_eq. rewrite (bind_ret _ _ _ _ _ Hheap3).
    unfold get_element, gets. rewrite Hbufs. simpl.
    rewrite (get_store_raw _ h _ _ raw Hint Hto Hi Hrange), Hof. reflexivity.
Qed.

Lemma atomic_round_trip k v address (st : @State Env) h st1 :
  atomic_kind k = true ->
  representable k v ->
  ta_kind h = k ->
  heap k st = (Ret h, st1) ->
  in_bounds (buffers (world st1)) h address ->
  exists st2,
    writeAtomic_kind k address v st = (Ret tt, st2)
    /\ forall st3,
         heap k st2 = (Ret h, st3) ->
         buffers (world st3) = buffers (world st2) ->
         readAtomic_kind k address st2
         = (Ret v, add_event (AtomicLoad k (ta_buffer h) (address / BYTES_PER_ELEMENT k)) st3).
Proof.
  intros Hat Hrep Hk Hheap (Ha & Hal & Hlt). subst k.
  destruct (raw_roundtrip _ v Hrep) as (raw & Hraw & Hrange & Hof).
  assert (Hw : 0 < BYTES_PER_ELEMENT (ta_kind h)) by (destruct (ta_kind h); simpl; lia).
  destruct (aligned_index address _ Hw Ha Hal) as [Hint Hto].
  assert (Hi : 0 <= address / BYTES_PER_ELEMENT (ta_kind h)
               < TypedArrayLength (buffers (world st1)) h).
  { split; [apply Z.div_pos; lia | exact Hlt]. }
  eexists. split.
  - rewrite (writeAtomic_kind_eq _ _ _ Hat). rewrite (bind_ret _ _ _ _ _ Hheap).
    apply (Atomics_store_run h _ _ v raw st1 Hat Hraw Hto Hi).
  - intros st3 Hheap3 Hbufs.
    rewrite (readAtomic_kind_eq _ _ Hat). rewrite (bind_ret _ _ _ _ _ Hheap3).
    assert (Hlen3 : TypedArrayLength (buffers (world st3)) h
                    = TypedArrayLength (buffers (world st1)) h).
    { rewrite Hbufs. simpl. apply TypedArrayLength_store_raw; assumption. }
    rewrite (Atomics_load_run h _ _ st3 Hat Hto) by (rewrite Hlen3; exact Hi).
    rewrite Hbufs. simpl.
    destruct (whole_index (address / BYTES_PER_ELEMENT (ta_kind h))) as [Hwi Hwt].
    rewrite (get_store_raw _ h _ _ raw Hwi Hwt Hi Hrange), Hof. reflexivity.
Qed.

(** C3. For every numeric kind and every value the kind holds exactly:
    written at an address that is a multiple of the element width and
    inside the view, the value is what a read of the same address returns
    while the heap stays in place, through [read]/[write] and through
    [readAtomic]/[writeAtomic]. *)
Theorem write_then_read_returns_the_value k v address :
  representable k v ->
  (forall (st : @State Env) h st1,
     ta_kind h = k ->
     heap k st = (Ret h, st1) ->
     in_bounds (buffers (world st1)) h address ->
     let st2 := state_after (write_kind k address v) st in
     outcome_of (write_kind k address v) st = Ret tt
     /\ forall st3,
          heap k st2 = (Ret h, st3) ->
          buffers (world st3) = buffers (world st2) ->
          read_kind k address st2 = (Ret v, st3))
  /\ (forall (st : @State Env) h st1,
        ta_kind h = atomic_view_kind k ->
        heap (atomic_view_kind k) st = (Ret h, st1) ->
        in_bounds (buffers (world st1)) h address ->
        let st2 := state_after (writeAtomic_kind k address v) st in
        outcome_of (writeAtomic_kind k address v) st = Ret tt
        /\ forall st3,
             heap (atomic_view_kind k) st2 = (Ret h, st3) ->
             buffers (world st3) = buffers (world st2) ->
             outcome_of (readAtomic_kind k address) st2 = Ret v).
Proof.
  intros Hrep.
  assert (Hatomic : forall (st : @State Env) h st1,
        ta_kind h = atomic_view_kind k ->
        heap (atomic_view_kind k) st = (Ret h, st1) ->
        in_bounds (buffers (world st1)) h address ->
        exists st2,
          writeAtomic_kind k address v st = (Ret tt, st2)
          /\ forall st3,
               heap (atomic_view_kind k) st2 = (Ret h, st3) ->
               buffers (world st3) = buffers (world st2) ->
               exists st4, readAtomic_kind k address st2 = (Ret v, st4)).
  { intros st h st1 Hk Hheap Hin.
    destruct (atomic_kind k) eqn:Hat.
    + (* the integer kinds: the platform's own atomics *)
      assert (Hv : atomic_view_kind k = k) by (destruct k; try discriminate Hat; reflexivity).
      rewrite Hv in *.
      destruct (atomic_round_trip k v address st h st1 Hat Hrep Hk Hheap Hin)
        as (st2 & Hw & Hr).
      exists st2. split; [exact Hw |]. intros st3 H3 Hb. eexists. exact (Hr st3 H3 Hb).
    + destruct k; try discriminate Hat; simpl atomic_view_kind in *.
      * (* Uint8Clamped *)
        destruct Hrep as (z & Hz & ->).
        assert (Hrep8 : representable Uint8 (Number (of_Z z))) by (exists z; split; [exact Hz | reflexivity]).
        destruct (atomic_round_trip Uint8 _ address st h st1 eq_refl Hrep8 Hk Hheap Hin)
          as (st2 & Hw & Hr).
        exists st2. split.
        -- simpl writeAtomic_kind. unfold writeUint8ClampedAtomic. simpl Value_ltb. simpl Value_gtb.
           rewrite Num_ltb_of_Z, Num_gtb_of_Z.
           change (2 ^ 8) with 256 in Hz.
           destruct (Z.ltb_spec z 0); [lia |]. destruct (Z.ltb_spec 255 z); [lia |].
           exact Hw.
        -- intros st3 H3 Hb. eexists. simpl readAtomic_kind. unfold readUint8ClampedAtomic.
           exact (Hr st3 H3 Hb).
      * (* Float32 *)
        destruct Hrep as (n & Hn & ->).
        destruct (float32ToUint32_bits n Hn) as [Hconv Hb].
        assert (Hrep32 : representable Uint32 (Number (of_Z (encode_float binary32 n))))
          by (eexists; split; [exact Hb | reflexivity]).
        destruct (atomic_round_trip Uint32 _ address st h st1 eq_refl Hrep32 Hk Hheap Hin)
          as (st2 & Hw & Hr).
        exists st2. split.
        -- simpl writeAtomic_kind. unfold writeFloat32Atomic.
           unfold bind at 1. unfold lift. rewrite Hconv. exact Hw.
        -- intros st3 H3 Hbufs. eexists. simpl readAtomic_kind. unfold readFloat32Atomic.
           rewrite (bind_ret _ _ _ _ _ (Hr st3 H3 Hbufs)).
           unfold bind, lift, ret. rewrite (uint32ToFloat32_bits n Hn). reflexivity.
      * (* Float64 *)
        destruct Hrep as (n & Hn & ->).
        destruct (float64ToBigUint64_bits n Hn) as [Hconv Hb].
        assert (Hrep64 : representable BigUint64 (BigInt (encode_float binary64 n)))
          by (eexists; split; [exact Hb | reflexivity]).
        destruct (atomic_round_trip BigUint64 _ address st h st1 eq_refl Hrep64 Hk Hheap Hin)
          as (st2 & Hw & Hr).
        exists st2. split.
        -- simpl writeAtomic_kind. unfold writeFloat64Atomic.
           unfold bind at 1. unfold lift. rewrite Hconv. exact Hw.
        -- intros st3 H3 Hbufs. eexists. simpl readAtomic_kind. unfold readFloat64Atomic.
           rewrite (bind_ret _ _ _ _ _ (Hr st3 H3 Hbufs)).
           unfold bind, lift, ret. rewrite (bigUint64ToFloat64_bits n Hn). reflexivity. }
  split.
  - intros st h st1 Hk Hheap Hin.
    destruct (plain_round_trip k v address st h st1 Hrep Hk Hheap Hin) as (st2 & Hw & Hr).
    unfold state_after, outcome_of. rewrite Hw. simpl. split; [reflexivity | exact Hr].
  - intros st h st1 Hk Hheap Hin.
    destruct (Hatomic st h st1 Hk Hheap Hin) as (st2 & Hw & Hr).
    unfold state_after, outcome_of. rewrite Hw. simpl. split; [reflexivity |].
    intros st3 H3 Hb. destruct (Hr st3 H3 Hb) as (st4 & ->). reflexivity.
Qed.

End RoundTrip.

Lemma write_then_read_witness :
  let v := Number (Finite true 3 (-1)) in
  let st := arena_state 64 (Some always_polling) in
  representable Float64 v
  /\ outcome_of (read_kind Float64 8) (state_after (write_kind Float64 8 v) st) = Ret v
  /\ outcome_of (readAtomic_kind Float64 8) (state_after (writeAtomic_kind Float64 8 v) st)
     = Ret v.
Proof.
  intros v st.
  assert (Hrep : representable Float64 v)
    by (exists (Finite true 3 (-1)); split; reflexivity).
  split; [exact Hrep |].
  destruct (write_then_read_returns_the_value (Env := ArrayBufferArenaAllocator)
              Float64 v 8 Hrep) as [Hplain Hatomic].
  split.
  - destruct (Hplain st {| ta_kind := Float64; ta_buffer := 1%nat;
                           ta_byteOffset := 0; ta_length := 8 |}
                (snd (heap Float64 st))) as [_ Hr].
    + reflexivity.
    + apply run_ret. vm_compute. reflexivity.
    + repeat split; vm_compute; congruence.
    + unfold outcome_of.
      rewrite (Hr (snd (heap Float64 (state_after (write_kind Float64 8 v) st)))).
      * reflexivity.
      * apply run_ret. vm_compute. reflexivity.
      * vm_compute. reflexivity.
  - destruct (Hatomic st {| ta_kind := BigUint64; ta_buffer := 1%nat;
                            ta_byteOffset := 0; ta_length := 8 |}
                (snd (heap BigUint64 st))) as [_ Hr].
    + reflexivity.
    + apply run_ret. vm_compute. reflexivity.
    + repeat split; vm_compute; congruence.
    + apply (Hr (snd (heap BigUint64 (state_after (writeAtomic_kind Float64 8 v) st)))).
      * apply run_ret. vm_compute. reflexivity.
      * vm_compute. reflexivity.
Defined.

(** ** Freeing a reference, and using it afterwards *)

Section UseAfterFree.

Context {Env : Type} `{Encodings}.

Lemma this_run (st : @State Env) id r :
  refs st !! id = Some r -> this id st = (Ret r, st).
Proof. intros Hr. unfold this, bind, gets. rewrite Hr. reflexivity. Qed.

Lemma isFreed_run (st : @State Env) id r :
  refs st !! id = Some r -> isFreed id st = (Ret (address r =? 0), st).
Proof.
  intros Hr. unfold isFreed. rewrite (bind_ret _ _ _ _ _ (this_run st id r Hr)).
  reflexivity.
Qed.

Lemma assertNotFreed_freed (st : @State Env) id :
  freed st id -> assertNotFreed id st = (Throw UseAfterFree, st).
Proof.
  intros (r & Hr & Ha). unfold assertNotFreed.
  rewrite (bind_ret _ _ _ _ _ (isFreed_run st id r Hr)).
  rewrite Ha. reflexivity.
Qed.

Lemma assertNotFreed_live (st : @State Env) id :
  live st id -> assertNotFreed id st = (Ret tt, st).
Proof.
  intros (r & Hr & Ha). unfold assertNotFreed.
  rewrite (bind_ret _ _ _ _ _ (isFreed_run st id r Hr)).
  destruct (Z.eqb_spec (address r) 0); [contradiction | reflexivity].
Qed.

(** A method that starts with [assertNotFreed] throws on a freed
    reference, and the state is as it was. *)
Lemma guarded_throws {A} (k : @M Env A) (st : @State Env) id :
  freed st id ->
  bind (assertNotFreed id) (fun _ => k) st = (Throw UseAfterFree, st).
Proof. intros Hf. apply bind_throw. apply assertNotFreed_freed. exact Hf. Qed.

Lemma HeapRef_free_live (st : @State Env) id r :
  refs st !! id = Some r -> address r <> 0 ->
  HeapRef_free id st
  = (Ret tt,
     set_refs (<[id := freed_ref r]> (refs st))
       (add_event (DeallocateCall (of_Z (address r)))
          (set_world (deallocate (manager st) (of_Z (address r)) (world st)) st))).
Proof.
  intros Hr Ha. unfold HeapRef_free, free.
  rewrite (bind_ret _ _ _ _ _ (isFreed_run st id r Hr)).
  destruct (Z.eqb_spec (address r) 0); [contradiction |].
  rewrite (bind_ret _ _ _ _ _ (this_run st id r Hr)).
  unfold bind at 1. unfold call_deallocate.
  unfold set_address. erewrite bind_ret by (apply this_run; simpl; exact Hr).
  reflexivity.
Qed.

Lemma HeapRef_free_freed (st : @State Env) id :
  freed st id -> HeapRef_free id st = (Ret tt, st).
Proof.
  intros (r & Hr & Ha). unfold HeapRef_free, free.
  rewrite (bind_ret _ _ _ _ _ (isFreed_run st id r Hr)).
  rewrite Ha. reflexivity.
Qed.

(** [free()] without options is [HeapRef.free] in every class. *)
Lemma Ref_free_no_options (st : @State Env) id r :
  refs st !! id = Some r -> Ref_free id None st = HeapRef_free id st.
Proof.
  intros Hr. unfold Ref_free. rewrite (bind_ret _ _ _ _ _ (this_run st id r Hr)).
  destruct (class r); reflexivity.
Qed.

(** Freeing a live reference calls [deallocate] once, with the address
    of the reference, and sets the address to 0; freeing it again does
    nothing; and from then on the methods that begin with
    [assertNotFreed], which are [read], [write], their atomic versions,
    [view] and the indexed accesses, throw UseAfterFree and leave the
    state, the heap included, as it was.  The view accessors that have no
    such guard are the subject of the theorem after this one. *)
Theorem free_then_use_after_free (st : @State Env) id r :
  refs st !! id = Some r ->
  address r <> 0 ->
  let st1 := state_after (Ref_free id None) st in
  outcome_of (Ref_free id None) st = Ret tt
  /\ log st1 = log st ++ [DeallocateCall (of_Z (address r))]
  /\ world st1 = deallocate (manager st) (of_Z (address r)) (world st)
  /\ refs st1 = <[id := freed_ref r]> (refs st)
  /\ manager st1 = manager st
  /\ freed st1 id
  /\ (forall st2 : @State Env, freed st2 id ->
        Ref_free id None st2 = (Ret tt, st2)
        /\ NumericRef_read id st2 = (Throw UseAfterFree, st2)
        /\ NumericRef_readAtomic id st2 = (Throw UseAfterFree, st2)
        /\ (forall v, NumericRef_write id v st2 = (Throw UseAfterFree, st2))
        /\ (forall v, NumericRef_writeAtomic id v st2 = (Throw UseAfterFree, st2))
        /\ StringRef_read id st2 = (Throw UseAfterFree, st2)
        /\ (forall s, StringRef_write id s st2 = (Throw UseAfterFree, st2))
        /\ view id st2 = (Throw UseAfterFree, st2)
        /\ (forall i, readAt id i st2 = (Throw UseAfterFree, st2))
        /\ (forall i, readAtomicAt id i st2 = (Throw UseAfterFree, st2))
        /\ (forall i v, writeAt id i v st2 = (Throw UseAfterFree, st2))
        /\ (forall i v, writeAtomicAt id i v st2 = (Throw UseAfterFree, st2))).
Proof.
  intros Hr Ha st1.
  assert (Hfree : Ref_free id None st = _)
    by (rewrite (Ref_free_no_options st id r Hr); apply (HeapRef_free_live st id r Hr Ha)).
  unfold st1, state_after, outcome_of. rewrite Hfree. simpl.
  assert (Hlt : (id < length (refs st))%nat) by (apply lookup_lt_Some with r; exact Hr).
  assert (Hfreed : forall st2 : @State Env, freed st2 id ->
            Ref_free id None st2 = (Ret tt, st2)).
  { intros st2 Hf. pose proof Hf as (r2 & Hr2 & _).
    rewrite (Ref_free_no_options st2 id r2 Hr2). apply HeapRef_free_freed. exact Hf. }
  do 5 (split; [reflexivity |]).
  split.
  { exists (freed_ref r). split; [| reflexivity].
    apply list_lookup_insert_eq. exact Hlt. }
  intros st2 Hf.
  split; [exact (Hfreed st2 Hf) |].
  repeat split; intros; apply guarded_throws; exact Hf.
Qed.

End UseAfterFree.

Lemma free_then_use_after_free_witness :
  let st := state_after (allocNumeric Int32 None) (arena_state 64 None) in
  let r := {| class := NumericRef Int32; address := 8; elementCount := 0 |} in
  let st1 := state_after (Ref_free 0%nat None) st in
  refs st !! 0%nat = Some r
  /\ address r <> 0
  /\ log st1 = log st ++ [DeallocateCall (of_Z 8)]
  /\ outcome_of (Ref_free 0%nat None) st1 = Ret tt
  /\ log (state_after (Ref_free 0%nat None) st1) = log st1
  /\ outcome_of (NumericRef_read 0%nat) st1 = Throw UseAfterFree.
Proof.
  intros st r st1.
  assert (Hr : refs st !! 0%nat = Some r) by (vm_compute; reflexivity).
  assert (Ha : address r <> 0) by (simpl; lia).
  destruct (free_then_use_after_free st 0%nat r Hr Ha)
    as (_ & Hlog & _ & _ & _ & Hfreed & Hafter).
  destruct (Hafter _ Hfreed) as (Hagain & Hread & _).
  subst st1.
  split; [exact Hr |]. split; [exact Ha |]. split; [exact Hlog |].
  split; [unfold outcome_of; rewrite Hagain; reflexivity |].
  split; [unfold state_after at 1; rewrite Hagain; reflexivity |].
  unfold outcome_of. rewrite Hread. reflexivity.
Defined.

(** [allocatedBytesView] reads the address of the reference without
    asking whether it is freed, in every class. *)
Lemma allocatedBytesView_unguarded {Env} (st : @State Env) id r :
  refs st !! id = Some r ->
  allocatedBytesView id st
  = bind (allocatedByteCount id) (fun n => viewUint8Array (address r) n) st.
Proof.
  intros Hr. unfold allocatedBytesView.
  rewrite (bind_ret _ _ _ _ _ (this_run st id r Hr)). reflexivity.
Qed.

(** C1 (the code departs from the claim). The byte view of the allocation,
    [allocatedBytesView], has no guard in any class, and neither has
    [allocatedElementsView] of the ASCII and the UTF-8 string references:
    on a freed reference they do not throw UseAfterFree but return a view
    of the heap at address 0, through which the heap is read and written.
    Here a number, a pointer, an array and two strings are allocated on an
    arena of 64 bytes and freed: the guarded accesses throw, the view
    accessors return the view of as many bytes as were allocated, from byte
    0 of the heap on, and a store through the view of the ASCII string
    changes byte 0 of the heap. *)
Theorem freed_references_still_give_views :
  let freed_after (allocation : @M ArrayBufferArenaAllocator RefId) :=
    state_after (Ref_free 0%nat None) (state_after allocation (arena_state 64 None)) in
  let bytes_from_0 n :=
    {| ta_kind := Uint8; ta_buffer := 1%nat; ta_byteOffset := 0; ta_length := n |} in
  (let st := freed_after (allocNumeric Int32 None) in
   outcome_of (isFreed 0%nat) st = Ret true
   /\ outcome_of (NumericRef_read 0%nat) st = Throw UseAfterFree
   /\ outcome_of (allocatedBytesView 0%nat) st = Ret (bytes_from_0 4))
  /\ (let st := freed_after (allocPointer Pointer64 None) in
      outcome_of (isFreed 0%nat) st = Ret true
      /\ outcome_of (NumericRef_read 0%nat) st = Throw UseAfterFree
      /\ outcome_of (allocatedBytesView 0%nat) st = Ret (bytes_from_0 8))
  /\ (let st := freed_after (allocArray Int32 (ACount 2)) in
      outcome_of (isFreed 0%nat) st = Ret true
      /\ outcome_of (view 0%nat) st = Throw UseAfterFree
      /\ outcome_of (allocatedBytesView 0%nat) st = Ret (bytes_from_0 8))
  /\ (let st := freed_after (allocNullTerminatedAsciiString (ANumber 3)) in
      outcome_of (isFreed 0%nat) st = Ret true
      /\ outcome_of (StringRef_read 0%nat) st = Throw UseAfterFree
      /\ outcome_of (allocatedBytesView 0%nat) st = Ret (bytes_from_0 4)
      /\ outcome_of (allocatedElementsView 0%nat) st = Ret (bytes_from_0 4)
      /\ heap_byte st 1%nat 0 = Some Byte.x00
      /\ heap_byte
           (state_after
              (bind (allocatedElementsView 0%nat)
                 (fun v => set_element v (whole 0) (Number (of_Z 255)))) st)
           1%nat 0
         = Some Byte.xff)
  /\ (let st := freed_after (allocNullTerminatedUtf8String (AString abc)) in
      outcome_of (isFreed 0%nat) st = Ret true
      /\ outcome_of (StringRef_read 0%nat) st = Throw UseAfterFree
      /\ outcome_of (allocatedBytesView 0%nat) st = Ret (bytes_from_0 4)
      /\ outcome_of (allocatedElementsView 0%nat) st = Ret (bytes_from_0 4)).
Proof.
  intros freed_after bytes_from_0.
  split; [| split; [| split; [| split]]].
  - cbv zeta. split; [| split]; vm_compute; reflexivity.
  - cbv zeta. split; [| split]; vm_compute; reflexivity.
  - cbv zeta. split; [| split]; vm_compute; reflexivity.
  - cbv zeta. split; [| split; [| split; [| split; [| split]]]]; vm_compute; reflexivity.
  - cbv zeta. split; [| split; [| split]]; vm_compute; reflexivity.
Qed.

(** ** Freeing a pointer reference *)

Section PointerFree.

Context {Env : Type} `{Encodings}.

(** [Pointer32Ref], [Pointer53Ref] and [Pointer64Ref] extend [NumericRef]:
    their [free] is [HeapRef.free], whatever it is called with. *)
Lemma pointer_free_ignores_its_argument (st : @State Env) id r p options :
  refs st !! id = Some r -> class r = PointerNRef p ->
  Ref_free id options st = HeapRef_free id st.
Proof.
  intros Hr Hc. unfold Ref_free. rewrite (bind_ret _ _ _ _ _ (this_run st id r Hr)).
  rewrite Hc. reflexivity.
Qed.

End PointerFree.

(** C4 (the code departs from the claim). A pointer reference of each of
    the three flavours, holding the address 8 in the cell at address 16, is
    freed with [{ freePointedAddress: true }]: [deallocate] is called once,
    with 16, and never with 8. *)
Theorem pointer_free_with_freePointedAddress_deallocates_once :
  forall p,
    let st := pointer_scene p in
    refs st !! 1%nat = Some {| class := PointerNRef p; address := 16; elementCount := 0 |}
    /\ outcome_of (NumericRef_read 1%nat) st = Ret (pointer_value p 8)
    /\ outcome_of (Ref_free 1%nat cascade) st = Ret tt
    /\ log (state_after (Ref_free 1%nat cascade) st)
       = log st ++ [DeallocateCall (of_Z 16)].
Proof.
  intros p. destruct p; vm_compute; repeat split; reflexivity.
Qed.

(** What the claim describes is the [free] of the abstract class
    [PointerRef], which no class extends: run on the same references it
    deallocates 8, then 16. *)
Example PointerRef_free_cascades :
  forall p,
    let st := pointer_scene p in
    log (state_after (PointerRef_free 1%nat cascade) st)
    = log st ++ [DeallocateCall (of_Z 8); DeallocateCall (of_Z 16)].
Proof.
  intros p. destruct p; vm_compute; reflexivity.
Qed.

(** ** The cache refresh *)

Section Refresh.

Context {Env : Type}.

Lemma multiple_of_eight len k :
  len mod 8 = 0 -> len mod BYTES_PER_ELEMENT k = 0.
Proof.
  intros H8. apply Z.mod_divide in H8; [| lia]. destruct H8 as [q ->].
  destruct k; simpl.
  1-3: apply Z.mod_1_r.
  1-2: replace (q * 8) with ((q * 4) * 2) by lia; apply Z.mod_mul; lia.
  1-2: replace (q * 8) with ((q * 2) * 4) by lia; apply Z.mod_mul; lia.
  1-2: apply Z.mod_mul; lia.
  - replace (q * 8) with ((q * 2) * 4) by lia. apply Z.mod_mul. lia.
  - apply Z.mod_mul. lia.
Qed.

Lemma new_TypedArray_whole bufs b k :
  0 < byteLength bufs b -> byteLength bufs b mod 8 = 0 ->
  new_TypedArray k bufs b = Ret (whole_view k b (byteLength bufs b)).
Proof.
  intros Hpos H8. unfold new_TypedArray.
  assert (Hd : IsDetachedBuffer bufs b = false).
  { unfold IsDetachedBuffer. unfold byteLength in Hpos.
    destruct (detached (buffer_at bufs b)); [lia | reflexivity]. }
  rewrite Hd, (multiple_of_eight _ k H8). reflexivity.
Qed.

(** What [updateCache] touches: the cache alone. *)
Lemma assign_views_frame b ks (st : @State Env) :
  let st' := snd (assign_views b ks st) in
  world st' = world st /\ log st' = log st /\ refs st' = refs st
  /\ cachedHeap (manager st') = cachedHeap (manager st)
  /\ options (manager st') = options (manager st)
  /\ heapGetter (manager st') = heapGetter (manager st)
  /\ allocate (manager st') = allocate (manager st)
  /\ deallocate (manager st') = deallocate (manager st)
  /\ finalizationRegistry (manager st') = finalizationRegistry (manager st).
Proof.
  revert st. induction ks as [| k ks IH]; intros st; simpl.
  - repeat split.
  - unfold bind, gets, lift, modify.
    destruct (new_TypedArray k (buffers (world st)) b) as [v | e]; simpl.
    + specialize (IH (set_manager (set_cachedHeapView k v (manager st)) st)).
      simpl in IH. exact IH.
    + repeat split.
Qed.

Lemma assign_views_run b ks (st : @State Env) :
  0 < byteLength (buffers (world st)) b ->
  byteLength (buffers (world st)) b mod 8 = 0 ->
  fst (assign_views b ks st) = Ret tt
  /\ cache (manager (snd (assign_views b ks st)))
     = fold_left
         (fun c k => set_view k (whole_view k b (byteLength (buffers (world st)) b)) c)
         ks (cache (manager st)).
Proof.
  revert st. induction ks as [| k ks IH]; intros st Hpos H8; simpl.
  - split; reflexivity.
  - unfold bind, gets, lift, modify.
    rewrite (new_TypedArray_whole _ b k Hpos H8). simpl.
    apply (IH (set_manager (set_cachedHeapView k _ (manager st)) st)); assumption.
Qed.

Lemma updateCache_frame b (st : @State Env) :
  let st' := snd (updateCache b st) in
  world st' = world st /\ log st' = log st /\ refs st' = refs st
  /\ cachedHeap (manager st') = b
  /\ options (manager st') = options (manager st)
  /\ heapGetter (manager st') = heapGetter (manager st)
  /\ allocate (manager st') = allocate (manager st)
  /\ deallocate (manager st') = deallocate (manager st)
  /\ finalizationRegistry (manager st') = finalizationRegistry (manager st).
Proof.
  change (updateCache b st)
    with (assign_views b all_kinds (set_manager (set_cachedHeap b (manager st)) st)).
  exact (assign_views_frame b all_kinds
           (set_manager (set_cachedHeap b (manager st)) st)).
Qed.

Lemma updateCache_run b (st : @State Env) :
  0 < byteLength (buffers (world st)) b ->
  byteLength (buffers (world st)) b mod 8 = 0 ->
  fst (updateCache b st) = Ret tt
  /\ forall k, cachedHeapView (manager (snd (updateCache b st))) k
               = whole_view k b (byteLength (buffers (world st)) b).
Proof.
  intros Hpos H8.
  change (updateCache b st)
    with (assign_views b all_kinds (set_manager (set_cachedHeap b (manager st)) st)).
  destruct (assign_views_run b all_kinds
              (set_manager (set_cachedHeap b (manager st)) st) Hpos H8) as [Ho Hc].
  split; [exact Ho |].
  intros k. unfold cachedHeapView. rewrite Hc. simpl. destruct k; reflexivity.
Qed.

Lemma updateCacheIfNeeded_eq (st : @State Env) :
  updateCacheIfNeeded st
  = if bool_decide (pollingMode (options (manager st)) = Some never)
       || (bool_decide (pollingMode (options (manager st)) = Some whenEmpty)
           && (0 <? byteLength (buffers (world st)) (cachedHeap (manager st))))
    then (Ret tt, st)
    else
      let st1 :=
        add_event HeapGetterCall (set_world (snd (heapGetter (manager st) (world st))) st) in
      let b := fst (heapGetter (manager st) (world st)) in
      if 0 <? byteLength (buffers (world st1)) b then updateCache b st1
      else (Ret tt, st1).
Proof.
  unfold updateCacheIfNeeded, bind, gets, call_heapGetter.
  destruct (bool_decide (pollingMode (options (manager st)) = Some never)
            || (bool_decide (pollingMode (options (manager st)) = Some whenEmpty)
                && (0 <? byteLength (buffers (world st)) (cachedHeap (manager st)))));
    [reflexivity |].
  destruct (heapGetter (manager st) (world st)) as [b w]. simpl.
  destruct (0 <? byteLength (buffers w) b); reflexivity.
Qed.

(** C5, as the code has it. The refresh before an access, by polling mode:
    with 'never' nothing happens; with 'whenEmpty' nothing happens while
    the cached buffer has a nonzero length, and otherwise the buffer is
    fetched; with 'always' the buffer is fetched.  A fetch is one call of
    the heap getter; the views are rebuilt from the fetched buffer when its
    length is nonzero (all eleven, when that length is a multiple of 8), and
    the manager stays as it is when the length is 0. *)
Theorem cache_refresh_by_polling_mode (st : @State Env) :
  let m := manager st in
  let cachedLength := byteLength (buffers (world st)) (cachedHeap m) in
  let fetched := fst (heapGetter m (world st)) in
  let w' := snd (heapGetter m (world st)) in
  let newLength := byteLength (buffers w') fetched in
  let st' := state_after updateCacheIfNeeded st in
  let skipped := updateCacheIfNeeded st = (Ret tt, st) in
  let fetches :=
    log st' = log st ++ [HeapGetterCall] /\ world st' = w' /\ refs st' = refs st
    /\ (if 0 <? newLength then
          cachedHeap (manager st') = fetched
          /\ (newLength mod 8 = 0 ->
              outcome_of updateCacheIfNeeded st = Ret tt
              /\ forall k, cachedHeapView (manager st') k = whole_view k fetched newLength)
        else
          outcome_of updateCacheIfNeeded st = Ret tt /\ manager st' = manager st) in
  match pollingMode (options m) with
  | Some never => skipped
  | Some whenEmpty => if 0 <? cachedLength then skipped else fetches
  | _ => fetches
  end.
Proof.
  intros m cachedLength fetched w' newLength st' skipped fetches.
  assert (Hfetch :
    (bool_decide (pollingMode (options m) = Some never)
     || (bool_decide (pollingMode (options m) = Some whenEmpty) && (0 <? cachedLength)))
    = false -> fetches).
  { intros Hcond. unfold fetches, st', state_after, outcome_of.
    rewrite updateCacheIfNeeded_eq. fold m. fold cachedLength. rewrite Hcond.
    fold w'. fold fetched. cbv zeta.
    set (st1 := add_event HeapGetterCall (set_world w' st)).
    change (byteLength (buffers (world st1)) fetched) with newLength.
    destruct (0 <? newLength) eqn:Hpos.
    - destruct (updateCache_frame fetched st1) as (Hwd & Hlg & Hrf & Hch & _).
      rewrite Hwd, Hlg, Hrf, Hch. repeat split.
      + apply (updateCache_run fetched st1); [apply Z.ltb_lt; exact Hpos | assumption].
      + apply (updateCache_run fetched st1); [apply Z.ltb_lt; exact Hpos | assumption].
    - repeat split. }
  subst skipped cachedLength m.
  destruct (pollingMode (options (manager st))) as [[ | | ] |] eqn:Hmode.
  - apply Hfetch. reflexivity.
  - destruct (0 <? byteLength (buffers (world st)) (cachedHeap (manager st))) eqn:Hc.
    + rewrite updateCacheIfNeeded_eq, Hmode, Hc. reflexivity.
    + apply Hfetch. reflexivity.
  - rewrite updateCacheIfNeeded_eq, Hmode. reflexivity.
  - apply Hfetch. reflexivity.
Qed.

End Refresh.

(** C5, as the claim has it, fails for 'always'.  The cached buffer and the
    fetched buffer are different buffers of eight bytes: the code rebuilds
    the views from the fetched one, the refresh of the claim keeps the old
    ones.  The fetched buffer is detached, of length 0, while the cached one
    has eight bytes: the code keeps the old views, the refresh of the claim
    rebuilds. *)
Lemma always_does_not_compare_lengths :
  pollingMode (options (manager (swapped_to 2%nat))) = Some always
  /\ byteLength swap_buffers 1%nat = byteLength swap_buffers 2%nat
  /\ cachedHeap (manager (swapped_to 2%nat)) = 1%nat
  /\ cachedHeap (manager (state_after updateCacheIfNeeded (swapped_to 2%nat))) = 2%nat
  /\ cachedHeap (manager (state_after claimed_updateCacheIfNeeded (swapped_to 2%nat)))
     = 1%nat
  /\ byteLength swap_buffers 3%nat <> byteLength swap_buffers 1%nat
  /\ cachedHeap (manager (state_after updateCacheIfNeeded (swapped_to 3%nat))) = 1%nat
  /\ cachedHeap (manager (state_after claimed_updateCacheIfNeeded (swapped_to 3%nat)))
     = 3%nat.
Proof. vm_compute. repeat split; congruence. Qed.

(** ** Allocation *)

Lemma bytes_set_Uint8 (l : list byte) pos raw :
  0 <= pos -> (Z.to_nat pos < length l)%nat ->
  bytes_set Uint8 l pos raw = <[Z.to_nat pos := byte.of_Z raw]> l.
Proof.
  intros Hpos Hlt. unfold bytes_set, write_bytes. simpl.
  rewrite insert_take_drop by exact Hlt.
  replace (Z.to_nat pos + 1)%nat with (S (Z.to_nat pos)) by lia. reflexivity.
Qed.

Lemma store_raw_Uint8_lookup bufs ta i raw b (j : nat) :
  ta_kind ta = Uint8 -> 0 <= i < TypedArrayLength bufs ta ->
  data (buffer_at (store_raw bufs ta i raw) b) !! j
  = if decide (b = ta_buffer ta /\ j = Z.to_nat (byte_position ta i))
    then Some (byte.of_Z raw)
    else data (buffer_at bufs b) !! j.
Proof.
  intros Hk Hi.
  destruct (valid_index_in_data bufs ta i Hi) as (Hd & Hp & Hlen).
  rewrite Hk in Hlen. simpl in Hlen.
  unfold store_raw. rewrite buffer_at_insert.
  destruct (decide (ta_buffer ta = b)) as [<- | Hne].
  - simpl. rewrite Hk. rewrite bytes_set_Uint8 by lia.
    destruct (decide (j = Z.to_nat (byte_position ta i))) as [-> | Hj].
    + rewrite decide_True by (split; reflexivity).
      apply list_lookup_insert_eq. lia.
    + rewrite decide_False by (intros [_ ?]; contradiction).
      apply list_lookup_insert_ne. congruence.
  - rewrite decide_False by (intros [? _]; congruence). reflexivity.
Qed.

Lemma store_raws_Uint8_lookup ta raws : forall bufs i b (j : nat),
  ta_kind ta = Uint8 -> 0 <= i ->
  i + Z.of_nat (length raws) <= TypedArrayLength bufs ta ->
  TypedArrayLength (store_raws bufs ta i raws) ta = TypedArrayLength bufs ta
  /\ data (buffer_at (store_raws bufs ta i raws) b) !! j
     = if decide (b = ta_buffer ta
                  /\ (Z.to_nat (byte_position ta i) <= j
                      < Z.to_nat (byte_position ta i) + length raws)%nat)
       then byte.of_Z <$> raws !! (j - Z.to_nat (byte_position ta i))%nat
       else data (buffer_at bufs b) !! j.
Proof.
  induction raws as [| r raws IH]; intros bufs i b j Hk Hi Hlen; simpl.
  - split; [reflexivity |]. rewrite decide_False by lia. reflexivity.
  - simpl in Hlen.
    assert (Hv : 0 <= i < TypedArrayLength bufs ta) by lia.
    destruct (valid_index_in_data bufs ta i Hv) as (_ & Hp & _).
    assert (Hnext : byte_position ta (i + 1) = byte_position ta i + 1)
      by (unfold byte_position; rewrite Hk; simpl; lia).
    destruct (IH (store_raw bufs ta i r) (i + 1) b j Hk) as [IHl IHd];
      [lia | rewrite TypedArrayLength_store_raw by exact Hv; lia |].
    split; [rewrite IHl; apply TypedArrayLength_store_raw; exact Hv |].
    rewrite IHd, Hnext, (store_raw_Uint8_lookup bufs ta i r b j Hk Hv).
    replace (Z.to_nat (byte_position ta i + 1)) with (S (Z.to_nat (byte_position ta i)))
      by lia.
    destruct (decide (b = ta_buffer ta)) as [-> | Hb].
    + destruct (decide (j = Z.to_nat (byte_position ta i))) as [-> | Hj].
      * rewrite decide_False by lia. rewrite decide_True by (split; [reflexivity | reflexivity]).
        rewrite decide_True by (split; [reflexivity | lia]).
        rewrite Nat.sub_diag. reflexivity.
      * destruct (decide (S (Z.to_nat (byte_position ta i)) <= j
                          < S (Z.to_nat (byte_position ta i)) + length raws)%nat) as [Hin | Hout].
        -- rewrite decide_True by (split; [reflexivity | exact Hin]).
           rewrite decide_True by (split; [reflexivity | lia]).
           replace (j - Z.to_nat (byte_position ta i))%nat
             with (S (j - S (Z.to_nat (byte_position ta i)))) by lia.
           reflexivity.
        -- rewrite decide_False by (intros [_ ?]; contradiction).
           rewrite decide_False by (intros [_ ?]; contradiction).
           rewrite decide_False by (intros [_ ?]; lia). reflexivity.
    + rewrite !decide_False by (intros [? _]; contradiction). reflexivity.
Qed.

Lemma in_bounds_view bufs h :
  IsTypedArrayOutOfBounds bufs h = false ->
  IsDetachedBuffer bufs (ta_buffer h) = false
  /\ 0 <= ta_byteOffset h
  /\ ta_byteOffset h + ta_length h * BYTES_PER_ELEMENT (ta_kind h)
     <= byteLength bufs (ta_buffer h)
  /\ TypedArrayLength bufs h = ta_length h
  /\ 0 <= ta_length h.
Proof.
  intros Hoob. unfold TypedArrayLength. rewrite Hoob.
  unfold IsTypedArrayOutOfBounds in Hoob.
  apply orb_false_elim in Hoob as [Hoob H4]. apply orb_false_elim in Hoob as [Hoob H3].
  apply orb_false_elim in Hoob as [H1 H2].
  apply Z.ltb_ge in H2, H3, H4. repeat split; assumption.
Qed.

Lemma subarray_span bufs h address byteSize :
  ta_kind h = Uint8 -> span_in_view bufs h address byteSize ->
  subarray bufs h (whole address) (Some (whole (address + byteSize)))
  = Ret {| ta_kind := Uint8; ta_buffer := ta_buffer h;
           ta_byteOffset := ta_byteOffset h + address; ta_length := byteSize |}.
Proof.
  intros Hk (Hoob & Ha & Hn & Hle).
  destruct (in_bounds_view bufs h Hoob) as (Hd & Hoff & Hlen & HL & HL0).
  unfold subarray. rewrite HL, Hd.
  destruct (whole_index address) as [_ ->].
  destruct (whole_index (address + byteSize)) as [_ ->].
  unfold relative_index, byte_position. rewrite Hk. simpl.
  destruct (Z.ltb_spec address 0); [lia |].
  destruct (Z.ltb_spec (address + byteSize) 0); [lia |].
  do 2 f_equal; lia.
Qed.

Lemma fill_zero_span bufs h address byteSize :
  ta_kind h = Uint8 -> span_in_view bufs h address byteSize ->
  let sub := {| ta_kind := Uint8; ta_buffer := ta_buffer h;
                ta_byteOffset := ta_byteOffset h + address; ta_length := byteSize |} in
  exists bufs',
    fill bufs sub (Number (of_Z 0)) = Ret bufs'
    /\ forall b (j : nat),
         data (buffer_at bufs' b) !! j
         = if decide (b = ta_buffer h
                      /\ (Z.to_nat (ta_byteOffset h + address) <= j
                          < Z.to_nat (ta_byteOffset h + address + byteSize))%nat)
           then Some Byte.x00
           else data (buffer_at bufs b) !! j.
Proof.
  intros Hk (Hoob & Ha & Hn & Hle) sub.
  destruct (in_bounds_view bufs h Hoob) as (Hd & Hoff & Hlen & HL & HL0).
  rewrite Hk in Hlen. simpl in Hlen.
  assert (Hsub : IsTypedArrayOutOfBounds bufs sub = false).
  { unfold IsTypedArrayOutOfBounds, sub. simpl. rewrite Hd. simpl.
    destruct (Z.ltb_spec (ta_byteOffset h + address) 0); [lia |].
    destruct (Z.ltb_spec byteSize 0); [lia |].
    destruct (Z.ltb_spec (byteLength bufs (ta_buffer h))
                (ta_byteOffset h + address + byteSize * 1)); [lia | reflexivity]. }
  assert (HLs : TypedArrayLength bufs sub = byteSize)
    by (unfold TypedArrayLength; rewrite Hsub; reflexivity).
  eexists. split.
  - unfold fill. rewrite Hsub. simpl. rewrite HLs. reflexivity.
  - intros b j.
    destruct (store_raws_Uint8_lookup sub (replicate (Z.to_nat byteSize) 0) bufs 0 b j)
      as [_ Hlook]; [reflexivity | lia | rewrite length_replicate, HLs; lia |].
    change (0 mod 2 ^ (8 * 1)) with 0.
    rewrite Hlook. rewrite length_replicate.
    unfold byte_position, sub. simpl. rewrite Z.add_0_r.
    replace (Z.to_nat (ta_byteOffset h + address + byteSize))
      with (Z.to_nat (ta_byteOffset h + address) + Z.to_nat byteSize)%nat by lia.
    destruct (decide (b = ta_buffer h
                      /\ (Z.to_nat (ta_byteOffset h + address) <= j
                          < Z.to_nat (ta_byteOffset h + address) + Z.to_nat byteSize)%nat))
      as [[_ Hj] |]; [| reflexivity].
    rewrite lookup_replicate_2 by lia. reflexivity.
Qed.

(** [h.subarray(address, address + byteSize)] of a byte view, for an
    address and a size that are not negative: the part of the span that
    lies inside the view. *)
Lemma subarray_clipped bufs h address byteSize :
  ta_kind h = Uint8 ->
  IsTypedArrayOutOfBounds bufs h = false ->
  0 <= address -> 0 <= byteSize ->
  let lo := Z.min address (ta_length h) in
  let hi := Z.min (address + byteSize) (ta_length h) in
  subarray bufs h (whole address) (Some (whole (address + byteSize)))
  = Ret {| ta_kind := Uint8; ta_buffer := ta_buffer h;
           ta_byteOffset := ta_byteOffset h + lo; ta_length := hi - lo |}
  /\ span_in_view bufs h lo (hi - lo).
Proof.
  intros Hk Hoob Ha Hn lo hi.
  destruct (in_bounds_view bufs h Hoob) as (Hd & Hoff & Hlen & HL & HL0).
  split.
  - unfold subarray. rewrite HL, Hd.
    destruct (whole_index address) as [_ ->].
    destruct (whole_index (address + byteSize)) as [_ ->].
    unfold relative_index, byte_position. rewrite Hk. simpl.
    destruct (Z.ltb_spec address 0); [lia |].
    destruct (Z.ltb_spec (address + byteSize) 0); [lia |].
    fold lo. fold hi. do 2 f_equal; lia.
  - unfold span_in_view. split; [exact Hoob |]. unfold lo, hi. lia.
Qed.

Section Alloc.

Context {Env : Type}.

(** What a refresh adds to the log: nothing, or one call of the heap
    getter. *)
Lemma refresh_log (st : @State Env) :
  let st' := snd (updateCacheIfNeeded st) in
  log st' = log st \/ log st' = log st ++ [HeapGetterCall].
Proof.
  simpl. rewrite updateCacheIfNeeded_eq.
  destruct (_ || _); [left; reflexivity |]. right. cbv zeta.
  destruct (0 <? _); [| reflexivity].
  destruct (updateCache_frame
              (fst (heapGetter (manager st) (world st)))
              (add_event HeapGetterCall
                 (set_world (snd (heapGetter (manager st) (world st))) st)))
    as (_ & Hl & _).
  rewrite Hl. reflexivity.
Qed.

Lemma constructor_options hg al de o (w : @World Env) l r :
  options (manager (snd (new_WasmHeapManager hg al de o w l r)))
  = spread defaultWasmHeapManagerOptions (default no_options o).
Proof.
  unfold new_WasmHeapManager, bind, call_heapGetter. simpl.
  destruct (hg w) as [b w1]. simpl.
  match goal with
  | |- context [updateCache b ?s] =>
      destruct (updateCache_frame b s) as (_ & _ & _ & _ & Ho & _);
      destruct (updateCache b s) as [[[] | e] s'] eqn:Hu; simpl in *; exact Ho
  end.
Qed.

(** What a heap getter adds to the log, whether it returns or throws. *)
Lemma heap_log k (st : @State Env) :
  let st' := snd (heap k st) in
  log st' = log st \/ log st' = log st ++ [HeapGetterCall].
Proof.
  pose proof (refresh_log st) as Hlog. cbv zeta in *.
  unfold heap, bind. destruct (updateCacheIfNeeded st) as [[[] | e] s]; exact Hlog.
Qed.

(** C9 (amended). [alloc(byteSize)] calls [allocate] once, with
    [byteSize], and what it returns is the address [allocate] gave; the
    only other call it can make is one of the heap getter.  With
    [clearAllocatedRegions] off, nothing else is done.  With it on, which
    is the default, the zero-fill goes through the byte view the cache
    holds after the refresh: for an address and a size that are not
    negative, the bytes of the span that lie inside that view are set to
    zero, all of them when the span lies inside it, and no other byte of
    any buffer changes.  Whether that view is a view of the heap the
    embedder has now is for the polling mode to see to. *)
Theorem alloc_calls_allocate_and_zero_fills (st : @State Env) byteSize :
  let address := fst (allocate (manager st) byteSize (world st)) in
  let st1 :=
    add_event (AllocateCall byteSize)
      (set_world (snd (allocate (manager st) byteSize (world st))) st) in
  let st3 := state_after (alloc byteSize) st in
  (forall a, outcome_of (alloc byteSize) st = Ret a -> a = address)
  /\ (log st3 = log st ++ [AllocateCall byteSize]
      \/ log st3 = log st ++ [AllocateCall byteSize; HeapGetterCall])
  /\ (truthy (clearAllocatedRegions (options (manager st))) = false ->
      alloc byteSize st = (Ret address, st1))
  /\ (truthy (clearAllocatedRegions (options (manager st))) = true ->
      forall h st2,
        heapUint8 st1 = (Ret h, st2) ->
        ta_kind h = Uint8 ->
        IsTypedArrayOutOfBounds (buffers (world st2)) h = false ->
        0 <= address -> 0 <= byteSize ->
        let lo := Z.min address (ta_length h) in
        let hi := Z.min (address + byteSize) (ta_length h) in
        outcome_of (alloc byteSize) st = Ret address
        /\ log st3 = log st2 /\ manager st3 = manager st2 /\ refs st3 = refs st2
        /\ env (world st3) = env (world st2)
        /\ forall b j,
             heap_byte st3 b j
             = if decide (b = ta_buffer h
                          /\ (Z.to_nat (ta_byteOffset h + lo) <= j
                              < Z.to_nat (ta_byteOffset h + hi))%nat)
               then Some Byte.x00
               else heap_byte st2 b j)
  /\ clearAllocatedRegions defaultWasmHeapManagerOptions = Some true
  /\ (forall hg al de (w : @World Env) l r,
        clearAllocatedRegions
          (options (manager (snd (new_WasmHeapManager hg al de None w l r))))
        = Some true).
Proof.
  intros address st1 st3.
  assert (Hcall : call_allocate byteSize st = (Ret address, st1)).
  { unfold call_allocate, address, st1.
    destruct (allocate (manager st) byteSize (world st)); reflexivity. }
  assert (Hlog1 : log st1 = log st ++ [AllocateCall byteSize]) by reflexivity.
  assert (Hany : (forall a, outcome_of (alloc byteSize) st = Ret a -> a = address)
                 /\ (log st3 = log st1 \/ log st3 = log st1 ++ [HeapGetterCall])).
  { unfold st3, state_after, outcome_of, alloc.
    rewrite (bind_ret _ _ _ _ _ Hcall). rewrite bind_gets.
    destruct (truthy (clearAllocatedRegions (options (manager st1)))).
    - unfold viewUint8Array. rewrite !bind_assoc.
      pose proof (heap_log Uint8 st1) as Hheap. cbv zeta in Hheap.
      destruct (heap Uint8 st1) as [[h | e] st2] eqn:Hh; cbn [snd] in Hheap.
      2: { rewrite (bind_throw _ _ _ _ _ Hh). cbn [fst snd].
           split; [discriminate | exact Hheap]. }
      rewrite (bind_ret _ _ _ _ _ Hh).
      destruct (subarray (buffers (world st2)) h (whole address)
                  (Some (whole (address + byteSize)))) as [sub | e] eqn:Hsub.
      2: { rewrite (bind_throw _ _ st2 e st2)
             by (unfold ta_subarray, bind, gets, lift; rewrite Hsub; reflexivity).
           cbn [fst snd]. split; [discriminate | exact Hheap]. }
      rewrite (bind_ret _ _ st2 sub st2)
        by (unfold ta_subarray, bind, gets, lift; rewrite Hsub; reflexivity).
      assert (Hl : log (snd (ta_fill sub (Number (of_Z 0)) st2)) = log st2).
      { unfold ta_fill, bind, gets, lift, modify.
        destruct (fill (buffers (world st2)) sub (Number (of_Z 0))); reflexivity. }
      destruct (ta_fill sub (Number (of_Z 0)) st2) as [[[] | e] s] eqn:Hfill;
        cbn [snd] in Hl.
      + rewrite (bind_ret _ _ _ _ _ Hfill). cbn [fst snd ret].
        split; [| rewrite Hl; exact Hheap].
        intros a Ha. injection Ha as <-. reflexivity.
      + rewrite (bind_throw _ _ _ _ _ Hfill). cbn [fst snd].
        split; [discriminate | rewrite Hl; exact Hheap].
    - cbn [fst snd]. split; [| left; reflexivity].
      intros a Ha. injection Ha as <-. reflexivity. }
  split; [exact (proj1 Hany) |]. split.
  { destruct (proj2 Hany) as [-> | ->]; [left; exact Hlog1 | right].
    rewrite Hlog1, <- app_assoc. reflexivity. }
  split; [| split; [| split]].
  - intros Hoff. unfold alloc. rewrite (bind_ret _ _ _ _ _ Hcall). rewrite bind_gets.
    change (options (manager st1)) with (options (manager st)).
    rewrite Hoff. reflexivity.
  - intros Hon h st2 Hheap Hk Hoob Ha Hn lo hi.
    destruct (subarray_clipped _ h address byteSize Hk Hoob Ha Hn) as [Hsub Hspan].
    fold lo in Hsub, Hspan. fold hi in Hsub, Hspan.
    destruct (fill_zero_span _ h lo (hi - lo) Hk Hspan) as (bufs' & Hfill & Hbytes).
    assert (Hrun : alloc byteSize st = (Ret address, set_buffers bufs' st2)).
    { unfold alloc. rewrite (bind_ret _ _ _ _ _ Hcall). rewrite bind_gets.
      change (options (manager st1)) with (options (manager st)). rewrite Hon.
      unfold viewUint8Array. rewrite !bind_assoc. rewrite (bind_ret _ _ _ _ _ Hheap).
      unfold ta_subarray. rewrite bind_assoc, bind_gets.
      rewrite (bind_lift_ret _ _ _ _ Hsub).
      unfold ta_fill. rewrite bind_assoc, bind_gets.
      rewrite bind_assoc, (bind_lift_ret _ _ _ _ Hfill). reflexivity. }
    unfold st3, state_after, outcome_of. rewrite Hrun. simpl.
    do 5 (split; [reflexivity |]).
    intros b j. unfold heap_byte. simpl. rewrite Hbytes.
    replace (ta_byteOffset h + lo + (hi - lo)) with (ta_byteOffset h + hi) by lia.
    reflexivity.
  - reflexivity.
  - intros hg al de w l r. rewrite constructor_options. reflexivity.
Qed.

End Alloc.

(** On the arena: sixteen bytes are allocated at address 8 of a heap whose
    bytes the embedder had set to 0xFF; with the default options they read
    zero afterwards and the bytes around them are untouched. *)
Example alloc_on_the_arena :
  let dirty (st : @State ArrayBufferArenaAllocator) :=
    set_buffers {[ 1%nat := {| data := replicate 32 Byte.xff; detached := false |} ]} st in
  let st := dirty (arena_state 32 None) in
  outcome_of (alloc 16) st = Ret 8
  /\ log (state_after (alloc 16) st) = log st ++ [AllocateCall 16]
  /\ bytes_of (state_after (alloc 16) st) 1%nat
     = replicate 8 255 ++ replicate 16 0 ++ replicate 8 255.
Proof. vm_compute. repeat split; reflexivity. Qed.

(** C9, as the claim has it, fails where the cached byte view is no longer
    a view of the heap.  The arena has a dirty heap of 64 bytes, the
    options are the default ones: [alloc(100)] returns the address 8, and
    the arena has moved on to a larger heap, buffer 2, which starts with
    the bytes of the old one.  The zero-fill went through the cached view
    of buffer 1 and stopped at its end: the bytes 8 to 63 of the heap are
    still 0xFF. *)
Lemma alloc_fills_the_cached_view_only :
  truthy (clearAllocatedRegions (options (manager (dirty_arena 64)))) = true
  /\ outcome_of (alloc 100) (dirty_arena 64) = Ret 8
  /\ fst (heapGetter (manager (state_after (alloc 100) (dirty_arena 64)))
           (world (state_after (alloc 100) (dirty_arena 64)))) = 2%nat
  /\ heap_byte (state_after (alloc 100) (dirty_arena 64)) 2%nat 8 = Some Byte.xff
  /\ heap_byte (state_after (alloc 100) (dirty_arena 64)) 2%nat 63 = Some Byte.xff
  /\ heap_byte (state_after (alloc 100) (dirty_arena 64)) 1%nat 8 = Some Byte.x00
  /\ heap_byte (state_after (alloc 100) (dirty_arena 64)) 1%nat 63 = Some Byte.x00.
Proof.
  split; [| split; [| split; [| split; [| split; [| split]]]]]; vm_compute; reflexivity.
Qed.

(** ** The emulated atomic accesses *)

Lemma get_element_cell bufs h idx i :
  is_integer idx = true -> ToIntegerOrInfinity idx = i ->
  0 <= i < TypedArrayLength bufs h ->
  TypedArrayGetElement bufs h idx = of_raw (ta_kind h) (cell_raw bufs h i)
  /\ 0 <= cell_raw bufs h i < 2 ^ (8 * BYTES_PER_ELEMENT (ta_kind h)).
Proof.
  intros Hint Hto Hi.
  destruct (valid_index_in_data bufs h i Hi) as (Hd & Hp & Hlen).
  split.
  - unfold TypedArrayGetElement. rewrite (valid_integer_index bufs h idx i Hint Hto Hi).
    rewrite Hto. reflexivity.
  - unfold cell_raw.
    assert (Hw : 0 < BYTES_PER_ELEMENT (ta_kind h)) by (destruct (ta_kind h); simpl; lia).
    pose proof (le_combine_bound
                  (read_bytes (data (buffer_at bufs (ta_buffer h))) (byte_position h i)
                     (BYTES_PER_ELEMENT (ta_kind h)))) as Hb.
    replace (8 * Z.of_nat (length (read_bytes (data (buffer_at bufs (ta_buffer h)))
                                     (byte_position h i) (BYTES_PER_ELEMENT (ta_kind h)))))
      with (8 * BYTES_PER_ELEMENT (ta_kind h)) in Hb; [exact Hb |].
    unfold read_bytes. rewrite length_take, length_drop. lia.
Qed.



Section EmulatedAtomics.

Context {Env : Type}.





End EmulatedAtomics.

(** On the arena: 300 stored atomically in a clamped cell is one atomic
    store of 255; -1.5 stored atomically in a float64 cell is one atomic
    store of its bit pattern, and the atomic load gives it back. *)
Example emulated_atomics_on_the_arena :
  let st := arena_state 64 None in
  log (state_after (writeUint8ClampedAtomic 9 (Number (of_Z 300))) st)
  = log st ++ [AtomicStore Uint8 1%nat 9 255]
  /\ log (state_after (writeFloat64Atomic 16 (Number (Finite true 3 (-1)))) st)
     = log st ++ [AtomicStore BigUint64 1%nat 2 0xBFF8000000000000]
  /\ log (state_after
            (bind (writeFloat64Atomic 16 (Number (Finite true 3 (-1))))
               (fun _ => readFloat64Atomic 16)) st)
     = log st ++ [AtomicStore BigUint64 1%nat 2 0xBFF8000000000000;
                  AtomicLoad BigUint64 1%nat 2].
Proof. vm_compute. repeat split; reflexivity. Qed.

(** ** Null-terminator discovery *)

Lemma is_zero_of_Z z : is_zero (Number (of_Z z)) = (z =? 0).
Proof.
  destruct z as [| p | p]; simpl; [reflexivity | |].
  - destruct (dyadic_spec false p 0) as (m & e & -> & _). reflexivity.
  - destruct (dyadic_spec true p 0) as (m & e & -> & _). reflexivity.
Qed.

Lemma first_zero_spec l :
  match first_zero l with
  | Some n => l !! n = Some 0 /\ (forall j, (j < n)%nat -> l !! j <> Some 0)
  | None => forall j, l !! j <> Some 0
  end.
Proof.
  induction l as [| x l IH]; simpl.
  - intros j. rewrite lookup_nil. discriminate.
  - destruct (Z.eqb_spec x 0) as [-> | Hx].
    + split; [reflexivity |]. intros j Hj. lia.
    + destruct (first_zero l) as [n |]; simpl.
      * destruct IH as [Hn Hb]. split; [exact Hn |].
        intros [| j] Hj; simpl; [congruence | apply Hb; lia].
      * intros [| j]; simpl; [congruence | apply IH].
Qed.

Lemma index_of_zero_first_zero k raws i :
  k = Uint8 \/ k = Uint16 \/ k = Uint32 ->
  index_of_zero (map (of_raw k) raws) i
  = match first_zero raws with
    | Some n => i + Z.of_nat n
    | None => -1
    end.
Proof.
  intros Hk. revert i. induction raws as [| x raws IH]; intros i; simpl; [reflexivity |].
  assert (Hz : is_zero (of_raw k x) = (x =? 0))
    by (destruct Hk as [-> | [-> | ->]]; apply is_zero_of_Z).
  rewrite Hz. destruct (Z.eqb_spec x 0); [lia |].
  rewrite IH. destruct (first_zero raws); simpl; lia.
Qed.

Lemma first_zero_lt l n : first_zero l = Some n -> (n < length l)%nat.
Proof.
  intros Hn. pose proof (first_zero_spec l) as Hs. rewrite Hn in Hs.
  destruct Hs as [Hl _]. apply lookup_lt_Some in Hl. exact Hl.
Qed.

(** The region the code scans holds the span of the specification. *)
Lemma scanned_region bufs h address w maxElementCount :
  IsTypedArrayOutOfBounds bufs h = false ->
  BYTES_PER_ELEMENT (ta_kind h) = w ->
  0 <= address -> address mod w = 0 ->
  (forall m, maxElementCount = Some m -> 0 <= m) ->
  exists region,
    subarray bufs h (js_div address w)
      (match maxElementCount with
       | Some m => Some (Index_add (js_div address w) m)
       | None => None
       end) = Ret region
    /\ ta_kind region = ta_kind h
    /\ IsTypedArrayOutOfBounds bufs region = false
    /\ raw_elements bufs region = scanned_span bufs h (address / w) maxElementCount.
Proof.
  intros Hoob Hw Ha Hal Hmax.
  destruct (in_bounds_view bufs h Hoob) as (Hd & Hoff & Hlen & HL & HLpos).
  assert (Hwpos : 0 < w) by (rewrite <- Hw; destruct (ta_kind h); simpl; lia).
  destruct (aligned_index address w Hwpos Ha Hal) as [_ Hto].
  assert (Hstart : 0 <= address / w) by (apply Z.div_pos; lia).
  set (start := address / w) in *.
  set (L := ta_length h) in *.
  assert (HL0 : 0 <= L) by exact HLpos.
  set (first := Z.min start L).
  set (last := match maxElementCount with
               | Some m => Z.min (start + m) L
               | None => L
               end).
  assert (Hlast : first <= last <= L).
  { unfold first, last. destruct maxElementCount as [m |]; [| lia].
    specialize (Hmax m eq_refl). lia. }
  exists {| ta_kind := ta_kind h; ta_buffer := ta_buffer h;
            ta_byteOffset := byte_position h first; ta_length := last - first |}.
  assert (Hsub : subarray bufs h (js_div address w)
                   (match maxElementCount with
                    | Some m => Some (Index_add (js_div address w) m)
                    | None => None
                    end)
                 = Ret {| ta_kind := ta_kind h; ta_buffer := ta_buffer h;
                          ta_byteOffset := byte_position h first;
                          ta_length := last - first |}).
  { unfold subarray. rewrite HL, Hd, Hto. fold L.
    assert (Hb : relative_index L start = first).
    { unfold relative_index. destruct (Z.ltb_spec start 0); [lia | reflexivity]. }
    rewrite Hb.
    assert (He : match maxElementCount with
                 | Some m => relative_index L (ToIntegerOrInfinity (Index_add (js_div address w) m))
                 | None => L
                 end = last).
    { unfold last. destruct maxElementCount as [m |]; [| reflexivity].
      specialize (Hmax m eq_refl).
      unfold ToIntegerOrInfinity, Index_add, js_div. simpl.
      assert (Hq : (address + m * w) ÷ w = start + m).
      { rewrite Z.quot_div_nonneg by nia. unfold start. rewrite Z.div_add by lia. reflexivity. }
      rewrite Hq. unfold relative_index.
      destruct (Z.ltb_spec (start + m) 0); [lia | reflexivity]. }
    assert (He' : match
                    match maxElementCount with
                    | Some m => Some (Index_add (js_div address w) m)
                    | None => None
                    end
                  with
                  | Some e => relative_index L (ToIntegerOrInfinity e)
                  | None => L
                  end = last).
    { rewrite <- He. destruct maxElementCount; reflexivity. }
    rewrite He'. rewrite Z.max_l by lia. reflexivity. }
  split; [exact Hsub |]. split; [reflexivity |].
  assert (Hfirst : 0 <= first) by (unfold first; lia).
  assert (Hroob : IsTypedArrayOutOfBounds bufs
                    {| ta_kind := ta_kind h; ta_buffer := ta_buffer h;
                       ta_byteOffset := byte_position h first;
                       ta_length := last - first |} = false).
  { unfold IsTypedArrayOutOfBounds, byte_position. simpl. rewrite Hd, Hw. simpl.
    rewrite Hw in Hlen.
    destruct (Z.ltb_spec (ta_byteOffset h + first * w) 0); [nia |].
    destruct (Z.ltb_spec (last - first) 0); [lia |].
    destruct (Z.ltb_spec (byteLength bufs (ta_buffer h))
                (ta_byteOffset h + first * w + (last - first) * w)); [nia | reflexivity]. }
  split; [exact Hroob |].
  unfold raw_elements, scanned_span, TypedArrayLength. rewrite Hroob, Hoob. simpl ta_length.
  fold L. fold start.
  assert (Hcount : match maxElementCount with
                   | Some m => Z.min m (Z.max 0 (L - start))
                   | None => Z.max 0 (L - start)
                   end = last - first).
  { unfold last, first. destruct maxElementCount as [m |]; [| lia].
    specialize (Hmax m eq_refl). lia. }
  rewrite Hcount.
  apply map_ext_in. intros i Hi. apply in_seq in Hi.
  unfold cell_raw. simpl. f_equal. f_equal.
  unfold byte_position. simpl.
  assert (Hf : first = start) by (unfold first; lia).
  rewrite Hf. ring.
Qed.


Section NullTerminator.

Context {Env : Type} `{Encodings}.

Lemma getElementCount_run address w maxElementCount (st : @State Env) h st1 :
  w = 1 \/ w = 2 \/ w = 4 ->
  heap (unsigned_kind w) st = (Ret h, st1) ->
  ta_kind h = unsigned_kind w ->
  IsTypedArrayOutOfBounds (buffers (world st1)) h = false ->
  0 <= address -> address mod w = 0 ->
  (forall m, maxElementCount = Some m -> 0 <= m) ->
  getElementCountOfNullTerminatedString address w maxElementCount st
  = match first_zero (scanned_span (buffers (world st1)) h (address / w) maxElementCount) with
    | Some n => (Ret (Z.of_nat n), st1)
    | None => (Throw NullTerminatorNotFound, st1)
    end.
Proof.
  intros Hw Hheap Hk Hoob Ha Hal Hmax.
  assert (Hwidth : BYTES_PER_ELEMENT (ta_kind h) = w)
    by (rewrite Hk; destruct Hw as [-> | [-> | ->]]; reflexivity).
  assert (Hkind : ta_kind h = Uint8 \/ ta_kind h = Uint16 \/ ta_kind h = Uint32)
    by (rewrite Hk; destruct Hw as [-> | [-> | ->]]; auto).
  destruct (scanned_region (buffers (world st1)) h address w maxElementCount
              Hoob Hwidth Ha Hal Hmax) as (region & Hsub & Hrk & Hroob & Hraw).
  unfold getElementCountOfNullTerminatedString.
  set (endIndex := match maxElementCount with
                   | Some m => Some (Index_add (js_div address w) m)
                   | None => None
                   end) in *.
  assert (Hregion :
    (if w =? 1 then bind heapUint8 (fun h => ta_subarray h (js_div address w) endIndex)
     else if w =? 2 then bind heapUint16 (fun h => ta_subarray h (js_div address w) endIndex)
     else if w =? 4 then bind heapUint32 (fun h => ta_subarray h (js_div address w) endIndex)
     else throw InvalidBytesPerElement) st
    = (Ret region, st1)).
  { assert (Hsame :
      (if w =? 1 then bind heapUint8 (fun h => ta_subarray h (js_div address w) endIndex)
       else if w =? 2 then bind heapUint16 (fun h => ta_subarray h (js_div address w) endIndex)
       else if w =? 4 then bind heapUint32 (fun h => ta_subarray h (js_div address w) endIndex)
       else throw InvalidBytesPerElement)
      = (bind (heap (unsigned_kind w))
           (fun h => ta_subarray h (js_div address w) endIndex) : @M Env TypedArray))
      by (destruct Hw as [-> | [-> | ->]]; reflexivity).
    rewrite Hsame, (bind_ret _ _ _ _ _ Hheap).
    unfold ta_subarray. rewrite bind_gets. unfold lift. rewrite Hsub. reflexivity. }
  rewrite (bind_ret _ _ _ _ _ Hregion).
  unfold ta_indexOf0. rewrite bind_assoc, bind_gets.
  unfold indexOf0. rewrite Hroob. unfold elements. rewrite Hraw, Hrk.
  rewrite (index_of_zero_first_zero _ _ 0 Hkind).
  destruct (first_zero _) as [n |]; [| reflexivity].
  unfold bind, lift. destruct (Z.eqb_spec (0 + Z.of_nat n) (-1)); [lia |].
  rewrite Z.add_0_l. reflexivity.
Qed.


End NullTerminator.

(** On the arena: "hey" as UTF-16 in a reference of capacity 6 at address
    8; the scan finds the terminator after three elements, and a capacity
    of 3 gives a span without terminator. *)
Example null_terminator_on_the_arena :
  let st := state_after (allocNullTerminatedUtf16String (ANumber 5)) (arena_state 64 None) in
  let st := state_after (StringRef_write 0%nat [104; 101; 121]) st in
  outcome_of (encodedElementCount 0%nat) st = Ret 3
  /\ outcome_of (getElementCountOfNullTerminatedString 8 2 (Some 6)) st = Ret 3
  /\ outcome_of (getElementCountOfNullTerminatedString 8 2 None) st = Ret 3
  /\ outcome_of (getElementCountOfNullTerminatedString 8 2 (Some 3)) st
     = Throw NullTerminatorNotFound.
Proof. vm_compute. repeat split; reflexivity. Qed.

(** ** The theorems above, at work on the arena *)


Lemma alloc_witness :
  let st := dirty_arena 32 in
  outcome_of (alloc 16) st = Ret 8
  /\ heap_byte (state_after (alloc 16) st) 1%nat 7 = Some Byte.xff
  /\ heap_byte (state_after (alloc 16) st) 1%nat 8 = Some Byte.x00
  /\ heap_byte (state_after (alloc 16) st) 1%nat 23 = Some Byte.x00
  /\ heap_byte (state_after (alloc 16) st) 1%nat 24 = Some Byte.xff.
Proof.
  intros st.
  pose proof (alloc_calls_allocate_and_zero_fills st 16) as Halloc.
  cbv zeta in Halloc. destruct Halloc as (_ & _ & _ & Hfill & _).
  set (h := {| ta_kind := Uint8; ta_buffer := 1%nat; ta_byteOffset := 0; ta_length := 32 |}).
  set (st1 := add_event (AllocateCall 16)
                (set_world (snd (allocate (manager st) 16 (world st))) st)) in *.
  assert (Ha : fst (allocate (manager st) 16 (world st)) = 8) by (vm_compute; reflexivity).
  rewrite Ha in Hfill.
  assert (Hon : truthy (clearAllocatedRegions (options (manager st))) = true)
    by (vm_compute; reflexivity).
  assert (Hheap : heapUint8 st1 = (Ret h, snd (heapUint8 st1))).
  { apply (run_ret heapUint8 st1 h). vm_compute. reflexivity. }
  assert (Hoob : IsTypedArrayOutOfBounds (buffers (world (snd (heapUint8 st1)))) h = false)
    by (vm_compute; reflexivity).
  destruct (Hfill Hon h (snd (heapUint8 st1)) Hheap eq_refl Hoob ltac:(lia) ltac:(lia))
    as (Hout & _ & _ & _ & _ & Hbytes).
  split; [exact Hout |].
  rewrite (Hbytes 1%nat 7%nat), (Hbytes 1%nat 8%nat), (Hbytes 1%nat 23%nat),
    (Hbytes 1%nat 24%nat).
  split; [| split; [| split]]; vm_compute; reflexivity.
Defined.

Lemma log_after_atomic_store {Env} h i raw (st : @State Env) :
  log (after_atomic_store h i raw st)
  = log st ++ [AtomicStore (ta_kind h) (ta_buffer h) i raw].
Proof. reflexivity. Qed.


(** ** Writing a string that does not fit *)

(** C2 (the code departs from the claim). References of capacity 2 at
    address 8; "abc" takes three elements, so four with the terminator.
    The ASCII, UTF-16 and UTF-32 references write it without an error:
    the third element and the terminator land at and beyond the capacity
    boundary (byte 10, 12 and 16).  The UTF-8 reference alone throws and
    leaves the bytes from the boundary on as they were. *)
Theorem string_write_beyond_capacity :
  (outcome_of (StringRef_write 0%nat abc) (string_scene Ascii 2) = Ret tt
   /\ bytes_of (state_after (StringRef_write 0%nat abc) (string_scene Ascii 2)) 1%nat
      = replicate 8 255 ++ [97; 98] ++ [99; 0] ++ replicate 20 255)
  /\ (outcome_of (StringRef_write 0%nat abc) (string_scene Utf16 2) = Ret tt
      /\ bytes_of (state_after (StringRef_write 0%nat abc) (string_scene Utf16 2)) 1%nat
         = replicate 8 255 ++ [97; 0; 98; 0] ++ [99; 0; 0; 0] ++ replicate 16 255)
  /\ (outcome_of (StringRef_write 0%nat abc) (string_scene Utf32 2) = Ret tt
      /\ bytes_of (state_after (StringRef_write 0%nat abc) (string_scene Utf32 2)) 1%nat
         = replicate 8 255 ++ [97; 0; 0; 0; 98; 0; 0; 0]
           ++ [99; 0; 0; 0; 0; 0; 0; 0] ++ replicate 8 255)
  /\ (outcome_of (StringRef_write 0%nat abc) (string_scene Utf8 2) = Throw CapacityExceeded
      /\ bytes_of (state_after (StringRef_write 0%nat abc) (string_scene Utf8 2)) 1%nat
         = replicate 8 255 ++ [97; 255] ++ replicate 22 255).
Proof. vm_compute. repeat split; reflexivity. Qed.

(** ** The UTF-8 allocator called with a number *)

(** C10 (the code departs from the claim). Called with a number,
    [allocNullTerminatedUtf8String] is [allocNullTerminatedAsciiString]:
    the reference is a [NullTerminatedAsciiStringRef].  With a maximum of
    3, so a capacity of 4: "abcdef" is written without an error where a
    UTF-8 reference of that capacity throws, and "é" is stored as one
    element where a UTF-8 reference stores the two bytes C3 A9. *)
Theorem allocNullTerminatedUtf8String_of_a_number :
  (forall Env (E : Encodings) n (st : @State Env),
     allocNullTerminatedUtf8String (ANumber n) st
     = allocNullTerminatedAsciiString (ANumber n) st)
  /\ (let st := state_after (allocNullTerminatedUtf8String (ANumber 3)) (dirty_arena 32) in
      refs st !! 0%nat
      = Some {| class := NullTerminatedStringRef Ascii; address := 8; elementCount := 4 |}
      /\ outcome_of (StringRef_write 0%nat abcdef) st = Ret tt
      /\ bytes_of (state_after (StringRef_write 0%nat abcdef) st) 1%nat
         = replicate 8 255 ++ [97; 98; 99; 100] ++ [101; 102; 0] ++ replicate 17 255
      /\ outcome_of (StringRef_write 0%nat abcdef) (string_scene Utf8 4)
         = Throw CapacityExceeded
      /\ outcome_of (bind (StringRef_write 0%nat e_acute)
                       (fun _ => encodedElementCount 0%nat)) st = Ret 1
      /\ outcome_of (bind (StringRef_write 0%nat e_acute)
                       (fun _ => encodedElementCount 0%nat)) (string_scene Utf8 4) = Ret 2
      /\ bytes_of (state_after (StringRef_write 0%nat e_acute) (string_scene Utf8 4)) 1%nat
         = replicate 8 255 ++ [0xC3; 0xA9; 0] ++ replicate 21 255).
Proof.
  split; [reflexivity |]. vm_compute. repeat split; reflexivity.
Qed.

(** The string overload gives a [NullTerminatedUtf8StringRef]. *)
Example allocNullTerminatedUtf8String_of_a_string :
  let st := state_after (allocNullTerminatedUtf8String (AString e_acute)) (dirty_arena 32) in
  refs st !! 0%nat
  = Some {| class := NullTerminatedStringRef Utf8; address := 8; elementCount := 3 |}
  /\ outcome_of (StringRef_read 0%nat) st = Ret e_acute.
Proof. vm_compute. repeat split; reflexivity. Qed.

(** ** One generation of views *)

(** Stores keep the size of every buffer. *)
Lemma data_length_store_raw bufs ta i raw b :
  0 <= i < TypedArrayLength bufs ta ->
  length (data (buffer_at (store_raw bufs ta i raw) b))
  = length (data (buffer_at bufs b)).
Proof.
  intros Hi.
  destruct (valid_index_in_data bufs ta i Hi) as (Hd & Hp & Hlen).
  unfold store_raw. rewrite buffer_at_insert.
  destruct (decide (ta_buffer ta = b)) as [<- |]; [| reflexivity].
  simpl. unfold bytes_set. rewrite length_write_bytes; [reflexivity |].
  rewrite length_le_split.
  assert (Hw : 0 < BYTES_PER_ELEMENT (ta_kind ta)) by (destruct (ta_kind ta); simpl; lia).
  lia.
Qed.

Lemma sized_store_raw bufs ta i raw :
  sized bufs -> 0 <= i < TypedArrayLength bufs ta -> sized (store_raw bufs ta i raw).
Proof.
  intros Hs Hi b. rewrite (data_length_store_raw bufs ta i raw b Hi). apply Hs.
Qed.

Lemma sized_store_raws ta raws : forall bufs i,
  sized bufs -> 0 <= i -> i + Z.of_nat (length raws) <= TypedArrayLength bufs ta ->
  sized (store_raws bufs ta i raws).
Proof.
  induction raws as [| r raws IH]; intros bufs i Hs Hi Hlen; simpl.
  - exact Hs.
  - simpl length in Hlen.
    assert (Hin : 0 <= i < TypedArrayLength bufs ta) by lia.
    apply IH.
    + apply sized_store_raw; assumption.
    + lia.
    + rewrite (TypedArrayLength_store_raw bufs ta i r ta Hin). lia.
Qed.

Lemma sized_TypedArraySetElement bufs ta i v bufs' :
  sized bufs -> TypedArraySetElement bufs ta i v = Ret bufs' -> sized bufs'.
Proof.
  intros Hs. unfold TypedArraySetElement.
  destruct (to_raw (ta_kind ta) v) as [raw | e]; simpl; [| discriminate].
  destruct (IsValidIntegerIndex bufs ta i) eqn:Hv; intros Heq; inversion Heq; subst;
    [| exact Hs].
  apply sized_store_raw; [exact Hs |].
  unfold IsValidIntegerIndex in Hv.
  apply andb_true_iff in Hv. destruct Hv as [Hv Hlt].
  apply andb_true_iff in Hv. destruct Hv as [_ Hle].
  apply Z.leb_le in Hle. apply Z.ltb_lt in Hlt. lia.
Qed.

Lemma sized_fill bufs ta v bufs' :
  sized bufs -> fill bufs ta v = Ret bufs' -> sized bufs'.
Proof.
  intros Hs. unfold fill.
  destruct (IsTypedArrayOutOfBounds bufs ta) eqn:Ho; [discriminate |].
  destruct (to_raw (ta_kind ta) v) as [raw | e]; simpl; [| discriminate].
  intros Heq. inversion Heq; subst.
  destruct (in_bounds_view bufs ta Ho) as (_ & _ & _ & HL & HL0).
  apply sized_store_raws; [exact Hs | lia |].
  rewrite length_replicate, HL. lia.
Qed.

Lemma validated_index bufs ta i idx :
  ValidateAtomicAccess bufs ta i = Ret idx -> 0 <= idx < TypedArrayLength bufs ta.
Proof.
  unfold ValidateAtomicAccess.
  destruct (negb (atomic_kind (ta_kind ta))); [discriminate |].
  destruct (IsTypedArrayOutOfBounds bufs ta); [discriminate |].
  cbv zeta.
  destruct (Z.ltb_spec (ToIntegerOrInfinity i) 0); [discriminate |].
  destruct (Z.leb_spec (TypedArrayLength bufs ta) (ToIntegerOrInfinity i)); [discriminate |].
  intros Heq. inversion Heq; subst. lia.
Qed.

Lemma sized_byteLength bufs b : sized bufs -> byteLength bufs b mod 8 = 0.
Proof.
  intros Hs. unfold byteLength. cbv zeta.
  destruct (detached (buffer_at bufs b)); [reflexivity | apply Hs].
Qed.

Lemma new_TypedArray_attached bufs b k :
  IsDetachedBuffer bufs b = false -> byteLength bufs b mod 8 = 0 ->
  new_TypedArray k bufs b = Ret (whole_view k b (byteLength bufs b)).
Proof.
  intros Hd H8. unfold new_TypedArray.
  rewrite Hd, (multiple_of_eight _ k H8). reflexivity.
Qed.

Section OneGeneration.

Context {Env : Type} `{Encodings}.
Variable J : Env -> Prop.

Lemma Inv_set_buffers bufs (st : @State Env) :
  generation_invariant J st -> sized bufs -> generation_invariant J (set_buffers bufs st).
Proof.
  intros ((Hs & HJ) & Hk & Hg) Hb. split; [split |]; [exact Hb | exact HJ |].
  split; [exact Hk | exact Hg].
Qed.

Lemma Inv_set_world w (st : @State Env) :
  generation_invariant J st -> kept J w -> generation_invariant J (set_world w st).
Proof.
  intros (_ & Hk & Hg) Hw. split; [exact Hw |]. split; [exact Hk | exact Hg].
Qed.

Lemma Inv_add_event e (st : @State Env) : generation_invariant J st -> generation_invariant J (add_event e st).
Proof. intros Hi. exact Hi. Qed.

Lemma Inv_set_refs r (st : @State Env) : generation_invariant J st -> generation_invariant J (set_refs r st).
Proof. intros Hi. exact Hi. Qed.

Lemma Inv_register id a (st : @State Env) :
  generation_invariant J st -> generation_invariant J (set_manager (register id a (manager st)) st).
Proof. intros Hi. exact Hi. Qed.

(** *** The monad *)

Lemma preserves_ret {A} (a : A) : preserves J (ret a).
Proof. intros st Hi. exact Hi. Qed.

Lemma preserves_throw {A} e : preserves J (@throw Env A e).
Proof. intros st Hi. exact Hi. Qed.

Lemma preserves_gets {A} (f : @State Env -> A) : preserves J (gets f).
Proof. intros st Hi. exact Hi. Qed.

Lemma preserves_lift {A} (o : Outcome A) : preserves J (@lift Env A o).
Proof. intros st Hi. exact Hi. Qed.

Lemma preserves_modify (f : @State Env -> @State Env) :
  (forall st, generation_invariant J st -> generation_invariant J (f st)) -> preserves J (modify f).
Proof. intros Hf st Hi. exact (Hf st Hi). Qed.

Lemma preserves_bind {A B} (m : @M Env A) (k : A -> @M Env B) :
  preserves J m -> (forall a, preserves J (k a)) -> preserves J (bind m k).
Proof.
  intros Hm Hk st Hi. unfold bind.
  specialize (Hm st Hi). destruct (m st) as [[a | e] st']; simpl in Hm.
  - exact (Hk a st' Hm).
  - exact Hm.
Qed.

(** *** Typed arrays and the callbacks *)

Lemma preserves_set_element ta i v : preserves J (@set_element Env ta i v).
Proof.
  intros st Hi. unfold set_element, bind, gets, lift, modify.
  destruct (TypedArraySetElement (buffers (world st)) ta i v) as [bufs' | e] eqn:Hset;
    simpl; [| exact Hi].
  apply Inv_set_buffers; [exact Hi |].
  apply (sized_TypedArraySetElement _ _ _ _ _ (proj1 (proj1 Hi)) Hset).
Qed.

Lemma preserves_ta_fill ta v : preserves J (@ta_fill Env ta v).
Proof.
  intros st Hi. unfold ta_fill, bind, gets, lift, modify.
  destruct (fill (buffers (world st)) ta v) as [bufs' | e] eqn:Hfill; simpl; [| exact Hi].
  apply Inv_set_buffers; [exact Hi |].
  apply (sized_fill _ _ _ _ (proj1 (proj1 Hi)) Hfill).
Qed.

Lemma preserves_Atomics_store ta i v : preserves J (@Atomics_store Env ta i v).
Proof.
  intros st Hi. unfold Atomics_store, bind, gets, lift, modify.
  destruct (ValidateAtomicAccess (buffers (world st)) ta i) as [idx | e] eqn:Hv;
    simpl; [| exact Hi].
  destruct (to_raw (ta_kind ta) v) as [raw | e]; simpl; [| exact Hi].
  apply Inv_set_buffers; [exact Hi |].
  apply sized_store_raw; [exact (proj1 (proj1 Hi)) | exact (validated_index _ _ _ _ Hv)].
Qed.

Lemma preserves_Atomics_load ta i : preserves J (@Atomics_load Env ta i).
Proof.
  intros st Hi. unfold Atomics_load, bind, gets, lift, modify, ret.
  destruct (ValidateAtomicAccess (buffers (world st)) ta i) as [idx | e]; simpl; exact Hi.
Qed.

Lemma preserves_ta_subarray ta b e : preserves J (@ta_subarray Env ta b e).
Proof.
  intros st Hi. unfold ta_subarray, bind, gets, lift.
  destruct (subarray (buffers (world st)) ta b e); exact Hi.
Qed.

Lemma preserves_ta_indexOf0 ta : preserves J (@ta_indexOf0 Env ta).
Proof.
  intros st Hi. unfold ta_indexOf0, bind, gets, lift.
  destruct (indexOf0 (buffers (world st)) ta); exact Hi.
Qed.

Lemma preserves_call_allocate size : preserves J (@call_allocate Env size).
Proof.
  intros st Hi. unfold call_allocate.
  destruct Hi as (Hw & Hk & Hg).
  pose proof (proj1 (proj2 Hk) size (world st) Hw) as Hw'.
  destruct (allocate (manager st) size (world st)) as [a w']. simpl in *.
  split; [exact Hw' |]. split; [exact Hk | exact Hg].
Qed.

Lemma preserves_call_deallocate a : preserves J (@call_deallocate Env a).
Proof.
  intros st (Hw & Hk & Hg). unfold call_deallocate. simpl.
  split; [exact (proj2 (proj2 Hk) a (world st) Hw) |]. split; [exact Hk | exact Hg].
Qed.

Lemma preserves_set_elements ta es : forall i, preserves J (@set_elements Env ta i es).
Proof.
  induction es as [| e es IH]; intros i; simpl.
  - apply preserves_ret.
  - apply preserves_bind; [apply preserves_set_element | intros _; apply IH].
Qed.

Lemma preserves_set_values ta vs : forall i, preserves J (@set_values Env ta i vs).
Proof.
  induction vs as [| v vs IH]; intros i; cbn [set_values].
  - apply preserves_ret.
  - apply preserves_bind; [apply preserves_set_element | intros _; apply IH].
Qed.

(** *** The refresh *)

Lemma assign_views_attached b ks (st : @State Env) :
  IsDetachedBuffer (buffers (world st)) b = false ->
  byteLength (buffers (world st)) b mod 8 = 0 ->
  fst (assign_views b ks st) = Ret tt
  /\ cache (manager (snd (assign_views b ks st)))
     = fold_left
         (fun c k => set_view k (whole_view k b (byteLength (buffers (world st)) b)) c)
         ks (cache (manager st)).
Proof.
  revert st. induction ks as [| k ks IH]; intros st Hd H8; simpl.
  - split; reflexivity.
  - unfold bind, gets, lift, modify.
    rewrite (new_TypedArray_attached _ b k Hd H8). simpl.
    apply (IH (set_manager (set_cachedHeapView k _ (manager st)) st)); assumption.
Qed.

Lemma updateCache_attached b (st : @State Env) :
  IsDetachedBuffer (buffers (world st)) b = false ->
  byteLength (buffers (world st)) b mod 8 = 0 ->
  fst (updateCache b st) = Ret tt
  /\ forall k, cachedHeapView (manager (snd (updateCache b st))) k
               = whole_view k b (byteLength (buffers (world st)) b).
Proof.
  intros Hd H8.
  change (updateCache b st)
    with (assign_views b all_kinds (set_manager (set_cachedHeap b (manager st)) st)).
  destruct (assign_views_attached b all_kinds
              (set_manager (set_cachedHeap b (manager st)) st) Hd H8) as [Ho Hc].
  split; [exact Ho |].
  intros k. unfold cachedHeapView. rewrite Hc. simpl. destruct k; reflexivity.
Qed.

(** On a detached buffer the first view already fails. *)
Lemma updateCache_detached b (st : @State Env) :
  IsDetachedBuffer (buffers (world st)) b = true ->
  fst (updateCache b st) = Throw TypeError.
Proof.
  intros Hd.
  change (updateCache b st)
    with (assign_views b all_kinds (set_manager (set_cachedHeap b (manager st)) st)).
  unfold all_kinds. cbn [assign_views]. unfold bind at 1. unfold gets at 1.
  unfold bind at 1. unfold lift at 1. unfold new_TypedArray at 1.
  cbn [world set_manager].
  rewrite Hd. reflexivity.
Qed.

(** After an [updateCache] that returned, the invariant holds. *)
Lemma updateCache_generation b (st : @State Env) :
  kept J (world st) ->
  keeps_sizes J (heapGetter (manager st)) (allocate (manager st)) (deallocate (manager st)) ->
  fst (updateCache b st) = Ret tt ->
  generation_invariant J (snd (updateCache b st)).
Proof.
  intros Hw Hk Hret.
  destruct (IsDetachedBuffer (buffers (world st)) b) eqn:Hd.
  { rewrite (updateCache_detached b st Hd) in Hret. discriminate. }
  destruct (updateCache_frame b st) as (Hwd & _ & _ & Hch & _ & Hhg & Hal & Hde & _).
  destruct (updateCache_attached b st Hd (sized_byteLength _ b (proj1 Hw))) as [_ Hviews].
  split; [rewrite Hwd; exact Hw |]. split.
  - rewrite Hhg, Hal, Hde. exact Hk.
  - exists (byteLength (buffers (world st)) b). intros k. rewrite Hch. apply Hviews.
Qed.

Lemma positive_length_attached bufs b :
  0 < byteLength bufs b -> IsDetachedBuffer bufs b = false.
Proof.
  unfold byteLength, IsDetachedBuffer. cbv zeta.
  destruct (detached (buffer_at bufs b)); [lia | reflexivity].
Qed.

Lemma updateCacheIfNeeded_generation (st : @State Env) :
  generation_invariant J st ->
  fst (updateCacheIfNeeded st) = Ret tt
  /\ generation_invariant J (snd (updateCacheIfNeeded st)).
Proof.
  intros Hi. rewrite updateCacheIfNeeded_eq.
  destruct (bool_decide (pollingMode (options (manager st)) = Some never)
            || (bool_decide (pollingMode (options (manager st)) = Some whenEmpty)
                && (0 <? byteLength (buffers (world st)) (cachedHeap (manager st)))));
    [split; [reflexivity | exact Hi] |].
  cbv zeta.
  set (w' := snd (heapGetter (manager st) (world st))).
  set (b := fst (heapGetter (manager st) (world st))).
  set (st1 := add_event HeapGetterCall (set_world w' st)).
  assert (Hw' : kept J w').
  { destruct Hi as (Hw & Hk & _). exact (proj1 Hk (world st) Hw). }
  assert (Hi1 : generation_invariant J st1).
  { apply Inv_add_event. apply Inv_set_world; assumption. }
  destruct (0 <? byteLength (buffers (world st1)) b) eqn:Hpos; [| split; [reflexivity | exact Hi1]].
  apply Z.ltb_lt in Hpos.
  destruct (updateCache_attached b st1 (positive_length_attached _ _ Hpos)
              (sized_byteLength _ b (proj1 Hw'))) as [Hret _].
  split; [exact Hret |].
  apply updateCache_generation; [exact Hw' | exact (proj1 (proj2 Hi1)) | exact Hret].
Qed.

Lemma preserves_updateCacheIfNeeded : preserves J (@updateCacheIfNeeded Env).
Proof. intros st Hi. exact (proj2 (updateCacheIfNeeded_generation st Hi)). Qed.

Lemma preserves_heap k : preserves J (@heap Env k).
Proof.
  unfold heap. apply preserves_bind; [exact preserves_updateCacheIfNeeded |].
  intros _. apply preserves_gets.
Qed.

(** A getter returns the cached view of the state it leaves. *)
Lemma heap_returns k (st : @State Env) :
  generation_invariant J st ->
  fst (heap k st) = Ret (cachedHeapView (manager (snd (heap k st))) k).
Proof.
  intros Hi. destruct (updateCacheIfNeeded_generation st Hi) as [Hret _].
  unfold heap, bind, gets.
  destruct (updateCacheIfNeeded st) as [[[] | e] st']; simpl in *; [reflexivity | discriminate].
Qed.

(** *** The methods

    Every method is built with [bind] from the steps above; [preserve]
    takes it apart, unfolding the method at the head as it goes. *)

Ltac head_of t :=
  match t with
  | ?f _ => head_of f
  | _ => t
  end.

Ltac preserve_by extra :=
  repeat first
    [ extra
    | match goal with
      | |- preserves _ (ret _) => apply preserves_ret
      | |- preserves _ (throw _) => apply preserves_throw
      | |- preserves _ (gets _) => apply preserves_gets
      | |- preserves _ (lift _) => apply preserves_lift
      | |- preserves _ (heap _) => apply preserves_heap
      | |- preserves _ (set_element _ _ _) => apply preserves_set_element
      | |- preserves _ (ta_fill _ _) => apply preserves_ta_fill
      | |- preserves _ (Atomics_store _ _ _) => apply preserves_Atomics_store
      | |- preserves _ (Atomics_load _ _) => apply preserves_Atomics_load
      | |- preserves _ (ta_subarray _ _ _) => apply preserves_ta_subarray
      | |- preserves _ (ta_indexOf0 _) => apply preserves_ta_indexOf0
      | |- preserves _ (call_allocate _) => apply preserves_call_allocate
      | |- preserves _ (call_deallocate _) => apply preserves_call_deallocate
      | |- preserves _ (set_elements _ _ _) => apply preserves_set_elements
      | |- preserves _ (set_values _ _ _) => apply preserves_set_values
      | |- preserves _ (modify _) =>
          apply preserves_modify; intros ? ?;
          first [apply Inv_set_refs | apply Inv_register | apply Inv_add_event];
          assumption
      | |- preserves _ (bind _ _) => apply preserves_bind; [| intros ?]
      | |- preserves _ (match ?x with _ => _ end) => destruct x
      | |- preserves _ ?m => let h := head_of m in unfold h
      end ].

Lemma preserves_free argument : preserves J (@free Env argument).
Proof. preserve_by fail. Qed.

Lemma preserves_readAt id index : preserves J (@readAt Env id index).
Proof. preserve_by fail. Qed.

Lemma preserves_free_elements id indices : preserves J (@free_elements Env id indices).
Proof.
  induction indices as [| i indices IH]; cbn [free_elements].
  - apply preserves_ret.
  - apply preserves_bind; [apply preserves_readAt | intros v].
    apply preserves_bind; [apply preserves_free | intros _; exact IH].
Qed.

Ltac preserve :=
  preserve_by
    ltac:(idtac;
          match goal with
          | |- preserves _ (free_elements _ _) => apply preserves_free_elements
          end).

Lemma method_preserves A (m : @M Env A) : method A m -> preserves J m.
Proof. intros Hm. destruct Hm; preserve. Qed.

Lemma constructed_generation hg al de options w l r (st : @State Env) :
  keeps_sizes J hg al de -> kept J w ->
  new_WasmHeapManager hg al de options w l r = (Ret tt, st) ->
  generation_invariant J st
  /\ heapGetter (manager st) = hg /\ allocate (manager st) = al
  /\ deallocate (manager st) = de.
Proof.
  intros Hk Hw. unfold new_WasmHeapManager, bind, call_heapGetter. cbn [manager world heapGetter].
  pose proof (proj1 Hk w Hw) as Hw1.
  destruct (hg w) as [b w1]. cbn [snd] in Hw1.
  set (st1 := add_event HeapGetterCall (set_world w1 _)).
  intros Heq.
  assert (Hret : fst (updateCache b st1) = Ret tt) by (rewrite Heq; reflexivity).
  assert (Hst : st = snd (updateCache b st1)) by (rewrite Heq; reflexivity).
  subst st.
  destruct (updateCache_frame b st1) as (_ & _ & _ & _ & _ & Hhg & Hal & Hde & _).
  split; [| split; [exact Hhg | split; [exact Hal | exact Hde]]].
  apply updateCache_generation; [exact Hw1 | exact Hk | exact Hret].
Qed.

Lemma observable_generation hg al de (st : @State Env) :
  keeps_sizes J hg al de ->
  observable J hg al de st ->
  generation_invariant J st.
Proof.
  intros Hk Hobs. induction Hobs as [options w l r st Hw Hnew | A m st _ IH Hm | st w _ IH Hw].
  - exact (proj1 (constructed_generation hg al de options w l r st Hk Hw Hnew)).
  - exact (method_preserves A m Hm st IH).
  - apply Inv_set_world; assumption.
Qed.

(** C7. Where the embedder keeps the size of every buffer a multiple of 8
    (the data model makes the element widths its duty), at every
    observation point (after the constructor has returned, after any
    method, after any change the embedder makes to its world) the eleven
    cached views are the views of one buffer, the cached one, over the same
    bytes: any two of them are on the same buffer.  A getter returns, and
    what it returns is the cached view of the state it leaves, where the
    eleven are again one generation: a rebuild has replaced them all
    before the getter hands one out. *)
Theorem cached_views_are_one_generation hg al de (st : @State Env) :
  keeps_sizes J hg al de ->
  observable J hg al de st ->
  one_generation (manager st)
  /\ (forall k, ta_buffer (cachedHeapView (manager st) k) = cachedHeap (manager st))
  /\ (forall k1 k2,
        ta_buffer (cachedHeapView (manager st) k1)
        = ta_buffer (cachedHeapView (manager st) k2))
  /\ forall k,
       outcome_of (heap k) st
       = Ret (cachedHeapView (manager (state_after (heap k) st)) k)
       /\ one_generation (manager (state_after (heap k) st)).
Proof.
  intros Hk Hobs.
  pose proof (observable_generation hg al de st Hk Hobs) as Hi.
  assert (Hgen : one_generation (manager st)) by exact (proj2 (proj2 Hi)).
  assert (Hbuf : forall k, ta_buffer (cachedHeapView (manager st) k) = cachedHeap (manager st)).
  { destruct Hgen as [len Hviews]. intros k. rewrite Hviews. reflexivity. }
  split; [exact Hgen |]. split; [exact Hbuf |]. split.
  - intros k1 k2. rewrite (Hbuf k1), (Hbuf k2). reflexivity.
  - intros k. split.
    + exact (heap_returns k st Hi).
    + exact (proj2 (proj2 (preserves_heap k st Hi))).
Qed.

End OneGeneration.

(** The arena keeps its buffers sized: a larger heap has twice an aligned
    end address for its length. *)
Lemma alignToNextMultiple_aligned value c :
  0 < c -> alignToNextMultiple value c mod c = 0.
Proof.
  intros Hc. unfold alignToNextMultiple. cbv zeta.
  pose proof (Z.mod_pos_bound value c Hc) as Hr.
  destruct (Z.ltb_spec 0 (value mod c)).
  - replace (value + (c - value mod c)) with (value - value mod c + 1 * c) by lia.
    rewrite Z.mod_add by lia.
    rewrite (Z.div_mod value c) at 1 by lia.
    replace (c * (value / c) + value mod c - value mod c) with ((value / c) * c) by lia.
    apply Z.mod_mul. lia.
  - lia.
Qed.

Lemma alignToNextMultiple_bounds value c :
  0 < c ->
  alignToNextMultiple value c mod c = 0
  /\ value <= alignToNextMultiple value c
  /\ alignToNextMultiple value c < value + c.
Proof.
  intros Hc. split; [apply alignToNextMultiple_aligned; exact Hc |].
  unfold alignToNextMultiple. cbv zeta.
  pose proof (Z.mod_pos_bound value c Hc) as Hr.
  destruct (Z.ltb_spec 0 (value mod c)); lia.
Qed.

Lemma arena_keeps_sizes :
  keeps_sizes arena_aligned arena_heapGetter arena_allocate arena_deallocate.
Proof.
  split; [| split].
  - intros w Hw. exact Hw.
  - intros size w [Hs [Hc H4]]. unfold arena_allocate. cbv zeta.
    set (endAddress := alignToNextMultiple _ _).
    destruct (arena_capacity w <? endAddress) eqn:Hgrow.
    + unfold new_ArrayBuffer. cbv zeta. cbn [snd buffers env].
      split; [| split; assumption].
      intros b. cbn [snd buffers env]. rewrite buffer_at_insert.
      destruct (decide (fresh_buffer (buffers w) = b)) as [_ | Hb].
      2: { rewrite buffer_at_insert.
           destruct (decide (fresh_buffer (buffers w) = b)); [contradiction | apply Hs]. }
      cbn [data]. rewrite buffer_at_insert.
      destruct (decide (fresh_buffer (buffers w) = fresh_buffer (buffers w)));
        [| congruence].
      cbn [data]. rewrite length_app, length_drop, length_replicate.
      assert (H8 : (endAddress * 2) mod 8 = 0).
      { pose proof (alignToNextMultiple_aligned
                      (currentAllocationAddress (env w) + size) _ Hc) as Ha.
        fold endAddress in Ha.
        apply Z.mod_divide in Ha; [| lia]. destruct Ha as [q Hq].
        apply Z.mod_divide in H4; [| lia]. destruct H4 as [p Hp].
        rewrite Hq, Hp. replace (q * (p * 4) * 2) with ((q * p) * 8) by lia.
        apply Z.mod_mul. lia. }
      pose proof (Hs (arena_heap (env w))) as Hold.
      set (old := length (data (buffer_at (buffers w) (arena_heap (env w))))) in *.
      destruct (Nat.le_gt_cases old (Z.to_nat (endAddress * 2))).
      * replace (old + (Z.to_nat (endAddress * 2) - old))%nat
          with (Z.to_nat (endAddress * 2)) by lia.
        destruct (Z.le_gt_cases 0 (endAddress * 2)).
        -- rewrite Z2Nat.id by assumption. exact H8.
        -- replace (Z.to_nat (endAddress * 2)) with 0%nat by lia. reflexivity.
      * replace (old + (Z.to_nat (endAddress * 2) - old))%nat with old by lia.
        exact Hold.
    + cbn [snd buffers env]. split; [exact Hs | split; assumption].
  - intros a w Hw. exact Hw.
Qed.

Lemma pair_of_fst {A B} (p : A * B) a : fst p = a -> p = (a, snd p).
Proof. intros <-. destruct p; reflexivity. Qed.

Lemma arena_world_kept capacity :
  0 <= capacity -> capacity mod 8 = 0 ->
  kept arena_aligned (new_ArrayBufferArenaAllocator capacity 8 ∅).
Proof.
  intros H0 H8. unfold new_ArrayBufferArenaAllocator, new_ArrayBuffer. cbv zeta.
  split; [| split; [cbn; lia | reflexivity]].
  intros b. cbn [buffers]. rewrite buffer_at_insert.
  destruct (decide (fresh_buffer ∅ = b)).
  - cbn [data]. rewrite length_replicate, Z2Nat.id by assumption. exact H8.
  - reflexivity.
Qed.

(** The theorem at work on the arena of the tests: after the constructor
    and a write. *)
Lemma cached_views_are_one_generation_witness :
  let st := state_after (write_kind Int32 8 (Number (of_Z 5))) (arena_state 64 None) in
  one_generation (manager st)
  /\ (forall k, ta_buffer (cachedHeapView (manager st) k) = cachedHeap (manager st))
  /\ (forall k1 k2,
        ta_buffer (cachedHeapView (manager st) k1)
        = ta_buffer (cachedHeapView (manager st) k2))
  /\ forall k,
       outcome_of (heap k) st
       = Ret (cachedHeapView (manager (state_after (heap k) st)) k)
       /\ one_generation (manager (state_after (heap k) st)).
Proof.
  apply (cached_views_are_one_generation arena_aligned
           arena_heapGetter arena_allocate arena_deallocate).
  - exact arena_keeps_sizes.
  - apply invoked; [| apply call_write].
    apply (constructed arena_aligned arena_heapGetter arena_allocate arena_deallocate
             None (new_ArrayBufferArenaAllocator 64 8 ∅) [] []).
    + apply arena_world_kept; [lia | reflexivity].
    + apply (pair_of_fst (arena_manager 64 None)). vm_compute. reflexivity.
Defined.

(** Sizes are the embedder's duty.  Where it hands out a heap of 12 bytes,
    the rebuild stops at the first view of 8-byte elements: the getter
    throws, the cached buffer and the views up to [Uint32] are of the new
    buffer, and the views from [BigInt64] on are still of the old one, as
    the next getters show. *)
Example a_heap_of_twelve_bytes :
  outcome_of (heap Int32) unsized_scene = Throw RangeError
  /\ (let st := state_after (heap Int32) unsized_scene in
      cachedHeap (manager st) = 2%nat
      /\ option_map ta_buffer
           (match outcome_of (heap Int32) st with Ret v => Some v | Throw _ => None end)
         = Some 2%nat
      /\ option_map ta_buffer
           (match outcome_of (heap Float64) st with Ret v => Some v | Throw _ => None end)
         = Some 1%nat).
Proof. vm_compute. repeat split; reflexivity. Qed.

(** The wide integers and the array allocator, on the arena: what is
    written is read back, and a read that runs off the heap mixes a BigInt
    with [undefined]. *)
Example wide_integers_on_the_arena :
  outcome_of (bind (writeBigUint128LE 8 (2 ^ 100 + 5)) (fun _ => readBigUint128LE 8))
    (arena_state 64 None) = Ret (BigInt (2 ^ 100 + 5))
  /\ outcome_of (bind (writeBigUint256LE 16 (2 ^ 200 + 2 ^ 70 + 9))
                   (fun _ => readBigUint256LE 16))
       (arena_state 64 None) = Ret (BigInt (2 ^ 200 + 2 ^ 70 + 9))
  /\ outcome_of (readBigUint128LE 56) (arena_state 64 None) = Throw TypeError
  /\ outcome_of
       (bind (allocArray Int16 (SomeElements [Number (of_Z 7); Number (of_Z (-2))]))
          (fun ref => readAt ref 1))
       (arena_state 64 None) = Ret (Number (of_Z (-2))).
Proof. vm_compute. repeat split; reflexivity. Qed.

(** The refresh on the arena of the tests, polled always: the heap getter
    is called and the eleven views are rebuilt over the 64 bytes of the
    heap. *)
Lemma cache_refresh_by_polling_mode_witness :
  let st := arena_state 64 (Some always_polling) in
  log (state_after updateCacheIfNeeded st) = log st ++ [HeapGetterCall]
  /\ outcome_of updateCacheIfNeeded st = Ret tt
  /\ forall k,
       cachedHeapView (manager (state_after updateCacheIfNeeded st)) k
       = whole_view k 1%nat 64.
Proof.
  intros st.
  pose proof (cache_refresh_by_polling_mode st) as Hrefresh.
  cbv zeta in Hrefresh.
  replace (pollingMode (options (manager st))) with (Some always) in Hrefresh
    by (vm_compute; reflexivity).
  destruct Hrefresh as (Hlog & _ & _ & Hviews).
  replace (heapGetter (manager st) (world st)) with (1%nat, world st) in Hviews
    by (vm_compute; reflexivity).
  cbn [fst snd] in Hviews.
  replace (byteLength (buffers (world st)) 1%nat) with 64 in Hviews by (vm_compute; reflexivity).
  cbn [Z.ltb Z.compare Pos.compare Pos.compare_cont] in Hviews.
  destruct Hviews as [_ Hviews]. specialize (Hviews eq_refl).
  split; [exact Hlog | exact Hviews].
Defined.

(* ===================================================================== *)
(** * Further properties of the code *)
(* ===================================================================== *)

(** ** Utilities *)

Lemma round_to_in_format f n : in_format f n = true -> round_to f n = n.
Proof.
  destruct n as [| s | s | s m e]; try reflexivity.
  intros Hin. simpl in Hin.
  apply andb_prop in Hin as [Hin H4]. apply andb_prop in Hin as [Hin H3].
  apply andb_prop in Hin as [_ H2].
  apply Z.leb_le in H2, H3, H4.
  unfold round_to. cbv zeta.
  destruct (Z.leb_spec (Z.max (e + digits m - prec f) (emin f)) e) as [_ | Hgt]; [| lia].
  destruct (Z.leb_spec (e + digits m) (emax f)) as [_ | Hgt]; [reflexivity | lia].
Qed.

Lemma safe_integer_in_format z :
  - 2 ^ 53 < z < 2 ^ 53 -> in_format binary64 (of_Z z) = true.
Proof.
  intros Hz.
  assert (Hp : forall neg p, Zpos p < 2 ^ 53 -> in_format binary64 (dyadic neg p 0) = true).
  { intros neg p Hlt.
    destruct (dyadic_spec neg p 0) as (m & e & -> & Hodd & He & Hpm).
    rewrite Z.sub_0_r in Hpm.
    pose proof (digits_bounds m) as [Hd1 Hd2].
    assert (Hd : 1 <= digits m) by (unfold digits; lia).
    assert (Hpow : 2 ^ (digits m - 1 + e) < 2 ^ 53).
    { rewrite Z.pow_add_r by lia.
      assert (0 < 2 ^ e) by (apply Z.pow_pos_nonneg; lia). nia. }
    apply Z.pow_lt_mono_r_iff in Hpow; [| lia | lia].
    simpl. rewrite Hodd. cbn [andb].
    apply andb_true_intro. split; [apply andb_true_intro; split |]; apply Z.leb_le.
    - unfold emin, emax. cbn. lia.
    - cbn. lia.
    - unfold emax. cbn. lia. }
  destruct z as [| p | p]; [reflexivity | |]; apply Hp; lia.
Qed.

Lemma Number_of_safe_integer z :
  - 2 ^ 53 < z < 2 ^ 53 -> Number_of z = of_Z z.
Proof.
  intros Hz. unfold Number_of. apply round_to_in_format.
  apply safe_integer_in_format. exact Hz.
Qed.

Lemma of_Z_finite z : forall neg, of_Z z <> Infinity neg.
Proof.
  intros neg. destruct z as [| p | p]; simpl; [discriminate | |].
  - destruct (dyadic_spec false p 0) as (m & e & -> & _). discriminate.
  - destruct (dyadic_spec true p 0) as (m & e & -> & _). discriminate.
Qed.

(** [alignToNextMultiple], for a whole value that is not negative and a
    positive whole alignment constant whose sum is at most 2^53: the
    binary64 arithmetic of the source is exact, and the result is the least
    multiple of the constant that is not below the value. *)
Theorem alignToNextMultiple_least_multiple value c :
  0 <= value -> 0 < c -> value + c <= 2 ^ 53 ->
  alignToNextMultiple_binary64 value c = of_Z (alignToNextMultiple value c)
  /\ alignToNextMultiple value c mod c = 0
  /\ value <= alignToNextMultiple value c < value + c
  /\ forall m, m mod c = 0 -> value <= m -> alignToNextMultiple value c <= m.
Proof.
  intros Hv Hc Hsafe.
  pose proof (alignToNextMultiple_aligned value c Hc) as Hal.
  pose proof (Z.mod_pos_bound value c Hc) as Hr.
  assert (Hb : value <= alignToNextMultiple value c < value + c).
  { unfold alignToNextMultiple. cbv zeta.
    destruct (Z.ltb_spec 0 (value mod c)); lia. }
  split.
  { unfold alignToNextMultiple_binary64, alignToNextMultiple. cbv zeta.
    destruct (Z.eqb_spec c 0); [lia |].
    rewrite Z.rem_mod_nonneg by lia.
    destruct (Z.ltb_spec 0 (value mod c)); [| reflexivity].
    rewrite (Number_of_safe_integer (c - value mod c)) by lia.
    pose proof (of_Z_finite (c - value mod c)) as Hfin.
    pose proof (truncate_of_Z (c - value mod c)) as Htr.
    destruct (of_Z (c - value mod c)) as [| neg | neg | neg m e];
      [| exfalso; exact (Hfin neg eq_refl) | |];
      rewrite Htr; apply Number_of_safe_integer; lia. }
  split; [exact Hal |]. split; [exact Hb |].
  intros m Hm Hle.
  apply Z.mod_divide in Hm; [| lia]. destruct Hm as [q ->].
  apply Z.mod_divide in Hal; [| lia]. destruct Hal as [p Hp].
  rewrite Hp in *.
  assert (Hpq : p < q + 1) by (apply (Z.mul_lt_mono_pos_r c); lia).
  apply Z.mul_le_mono_nonneg_r; lia.
Qed.

Lemma alignToNextMultiple_least_multiple_witness :
  alignToNextMultiple_binary64 13 8 = of_Z 16
  /\ forall m, m mod 8 = 0 -> 13 <= m -> alignToNextMultiple 13 8 <= m.
Proof.
  pose proof (alignToNextMultiple_least_multiple 13 8 ltac:(lia) ltac:(lia) ltac:(lia))
    as (Hrun & _ & _ & Hleast).
  split; [exact Hrun | exact Hleast].
Defined.

(** Past 2^53 the sum is rounded: for the value 2^53 - 1 and the constant
    3 the source returns 2^53, which is not a multiple of 3, where the
    exact sum is 2^53 + 1. *)
Example alignToNextMultiple_past_the_safe_integers :
  alignToNextMultiple_binary64 (2 ^ 53 - 1) 3 = of_Z (2 ^ 53)
  /\ 2 ^ 53 mod 3 = 2
  /\ alignToNextMultiple (2 ^ 53 - 1) 3 = 2 ^ 53 + 1.
Proof. vm_compute. repeat split; reflexivity. Qed.

(** ** ArrayBufferArenaAllocator *)

Lemma fresh_buffer_is_fresh (bufs : gmap nat Buffer) : bufs !! fresh_buffer bufs = None.
Proof.
  unfold fresh_buffer.
  assert (Hmax : forall k, is_Some (bufs !! k) ->
                   (k <= map_fold (fun k _ acc => Nat.max k acc) 0%nat bufs)%nat).
  { apply (map_fold_weak_ind
             (fun r (m : gmap nat Buffer) => forall k, is_Some (m !! k) -> (k <= r)%nat)).
    - intros k [x Hx]. rewrite lookup_empty in Hx. discriminate.
    - intros i x m r Hi IH k Hk.
      destruct (decide (i = k)) as [-> | Hne]; [lia |].
      rewrite lookup_insert_ne in Hk by exact Hne.
      specialize (IH k Hk). lia. }
  set (top := map_fold (fun k _ acc => Nat.max k acc) 0%nat bufs) in *.
  destruct (bufs !! S top) eqn:Hl; [exfalso | exact Hl].
  specialize (Hmax (S top) (ex_intro _ _ Hl)). lia.
Qed.

Lemma arena_allocate_grown size (w : ArenaWorld) :
  let endAddress :=
    alignToNextMultiple (currentAllocationAddress (env w) + size)
      (alignmentConstant (env w)) in
  arena_capacity w < endAddress ->
  let old := data (buffer_at (buffers w) (arena_heap (env w))) in
  let grown :=
    {| data := old ++ drop (length old) (replicate (Z.to_nat (endAddress * 2)) Byte.x00);
       detached := false |} in
  arena_allocate size w
  = (currentAllocationAddress (env w),
     {| buffers :=
          <[fresh_buffer (buffers w) := grown]>
            (<[fresh_buffer (buffers w) :=
                 {| data := replicate (Z.to_nat (endAddress * 2)) Byte.x00;
                    detached := false |}]> (buffers w));
        env := {| arena_heap := fresh_buffer (buffers w);
                  alignmentConstant := alignmentConstant (env w);
                  currentAllocationAddress := endAddress |} |}).
Proof.
  intros endAddress Hgrow old grown. unfold arena_allocate. cbv zeta.
  fold endAddress.
  destruct (Z.ltb_spec (arena_capacity w) endAddress) as [_ | Hge]; [| lia].
  unfold new_ArrayBuffer. cbv zeta. rewrite buffer_at_insert.
  destruct (decide (fresh_buffer (buffers w) = fresh_buffer (buffers w))); [| congruence].
  reflexivity.
Qed.

Lemma arena_allocate_in_place size (w : ArenaWorld) :
  let endAddress :=
    alignToNextMultiple (currentAllocationAddress (env w) + size)
      (alignmentConstant (env w)) in
  endAddress <= arena_capacity w ->
  arena_allocate size w
  = (currentAllocationAddress (env w),
     {| buffers := buffers w;
        env := {| arena_heap := arena_heap (env w);
                  alignmentConstant := alignmentConstant (env w);
                  currentAllocationAddress := endAddress |} |}).
Proof.
  intros endAddress Hfit. unfold arena_allocate. cbv zeta. fold endAddress.
  destruct (Z.ltb_spec (arena_capacity w) endAddress) as [Hlt | _]; [lia | reflexivity].
Qed.

(** [allocate] hands out the region that starts at the current allocation
    address: the region lies inside the heap the allocator has afterwards
    (grown if it had to be), the next region starts at the next multiple of
    the alignment constant after it, so never inside it, and [reset] makes
    the allocator start over at the alignment constant, on top of what it
    handed out before. *)
Theorem arena_allocate_region size (w : ArenaWorld) :
  0 < alignmentConstant (env w) ->
  0 <= currentAllocationAddress (env w) ->
  0 <= size ->
  let address := fst (arena_allocate size w) in
  let w' := snd (arena_allocate size w) in
  address = currentAllocationAddress (env w)
  /\ address + size <= currentAllocationAddress (env w')
  /\ currentAllocationAddress (env w') < address + size + alignmentConstant (env w)
  /\ currentAllocationAddress (env w') mod alignmentConstant (env w) = 0
  /\ currentAllocationAddress (env w') <= arena_capacity w'
  /\ alignmentConstant (env w') = alignmentConstant (env w)
  /\ (forall size', address + size <= fst (arena_allocate size' w'))
  /\ (forall size', fst (arena_allocate size' (arena_reset w')) = alignmentConstant (env w)).
Proof.
  intros Hc Hcur Hsize address w'.
  set (endAddress := alignToNextMultiple (currentAllocationAddress (env w) + size)
                       (alignmentConstant (env w))).
  destruct (alignToNextMultiple_bounds
              (currentAllocationAddress (env w) + size) (alignmentConstant (env w)) Hc)
    as (Hal & Hb).
  fold endAddress in Hal, Hb.
  assert (Hrun : address = currentAllocationAddress (env w)
                 /\ currentAllocationAddress (env w') = endAddress
                 /\ alignmentConstant (env w') = alignmentConstant (env w)
                 /\ endAddress <= arena_capacity w').
  { subst address w'.
    destruct (Z.lt_ge_cases (arena_capacity w) endAddress) as [Hgrow | Hfit].
    - rewrite (arena_allocate_grown size w Hgrow). cbn [fst snd env currentAllocationAddress
                                                         alignmentConstant].
      repeat split.
      unfold arena_capacity, byteLength. cbn [buffers env arena_heap]. cbv zeta.
      rewrite buffer_at_insert.
      destruct (decide (fresh_buffer (buffers w) = fresh_buffer (buffers w))); [| congruence].
      cbn [detached data]. rewrite length_app, length_drop, length_replicate.
      fold endAddress.
      assert (0 <= arena_capacity w).
      { unfold arena_capacity, byteLength. cbv zeta.
        destruct (detached _); lia. }
      lia.
    - rewrite (arena_allocate_in_place size w Hfit). cbn. repeat split; assumption. }
  destruct Hrun as (Ha & He & Hk & Hcap).
  split; [exact Ha |]. rewrite He, Ha.
  split; [lia |]. split; [lia |]. split; [exact Hal |]. split; [exact Hcap |].
  split; [exact Hk |]. split.
  - intros size'. unfold arena_allocate. cbv zeta.
    destruct (if arena_capacity w' <? _ then _ else _). cbn [fst]. rewrite He. lia.
  - intros size'. unfold arena_allocate, arena_reset. cbv zeta.
    cbn [env currentAllocationAddress alignmentConstant].
    destruct (if _ <? _ then _ else _). cbn [fst]. exact Hk.
Qed.

Lemma arena_allocate_region_witness :
  let w := new_ArrayBufferArenaAllocator 16 8 ∅ in
  let w' := snd (arena_allocate 13 w) in
  fst (arena_allocate 13 w) = 8
  /\ currentAllocationAddress (env w') = 24
  /\ arena_capacity w' = 48
  /\ 8 + 13 <= currentAllocationAddress (env w')
  /\ currentAllocationAddress (env w') <= arena_capacity w'.
Proof.
  intros w w'.
  destruct (arena_allocate_region 13 w) as (H1 & H2 & _ & _ & H5 & _);
    [reflexivity | vm_compute; discriminate | lia |].
  split; [reflexivity |]. split; [reflexivity |]. split; [reflexivity |].
  split; [exact H2 | exact H5].
Defined.

(** [allocate] never changes a buffer that exists: when it grows the heap,
    the larger heap is a new buffer that starts with the bytes of the old
    one, and the old one stays as it was. *)
Theorem arena_allocate_keeps_the_contents size (w : ArenaWorld) :
  let w' := snd (arena_allocate size w) in
  (forall b, is_Some (buffers w !! b) -> buffers w' !! b = buffers w !! b)
  /\ (forall j x,
        data (buffer_at (buffers w) (arena_heap (env w))) !! j = Some x ->
        data (buffer_at (buffers w') (arena_heap (env w'))) !! j = Some x)
  /\ (arena_heap (env w') = arena_heap (env w)
      \/ buffers w !! arena_heap (env w') = None
         /\ IsDetachedBuffer (buffers w') (arena_heap (env w')) = false).
Proof.
  intros w'. subst w'.
  set (endAddress := alignToNextMultiple (currentAllocationAddress (env w) + size)
                       (alignmentConstant (env w))).
  destruct (Z.lt_ge_cases (arena_capacity w) endAddress) as [Hgrow | Hfit].
  - rewrite (arena_allocate_grown size w Hgrow). cbn [snd buffers env arena_heap].
    pose proof (fresh_buffer_is_fresh (buffers w)) as Hfresh.
    split; [| split].
    + intros b [x Hx].
      assert (Hne : fresh_buffer (buffers w) <> b).
      { intros Heq. rewrite Heq in Hfresh.
        pose proof (eq_trans (eq_sym Hfresh) Hx) as Hno. discriminate Hno. }
      rewrite !lookup_insert_ne by exact Hne. reflexivity.
    + intros j x Hj. rewrite buffer_at_insert.
      destruct (decide (fresh_buffer (buffers w) = fresh_buffer (buffers w))); [| congruence].
      cbn [data]. apply lookup_app_l_Some. exact Hj.
    + right. split; [exact Hfresh |].
      unfold IsDetachedBuffer. rewrite buffer_at_insert.
      destruct (decide (fresh_buffer (buffers w) = fresh_buffer (buffers w))); [| congruence].
      reflexivity.
  - rewrite (arena_allocate_in_place size w Hfit). cbn [snd buffers env arena_heap].
    split; [| split].
    + intros b _. reflexivity.
    + intros j x Hj. exact Hj.
    + left. reflexivity.
Qed.

(** ** IEEE754Converter *)

(** The bits of a float and back: [uint32ToFloat32] undoes
    [float32ToUint32] on every value a 32-bit float holds (the infinities,
    the zeros and NaN included), [bigUint64ToFloat64] undoes
    [float64ToBigUint64] on every value a 64-bit float holds, and the bits
    are an unsigned integer of that width. *)
Theorem converter_round_trip :
  (forall n, in_format binary32 n = true ->
     obind (float32ToUint32 (Number n)) uint32ToFloat32 = Ret (Number n)
     /\ exists bits, float32ToUint32 (Number n) = Ret (Number (of_Z bits))
                     /\ 0 <= bits < 2 ^ 32)
  /\ (forall n, in_format binary64 n = true ->
        obind (float64ToBigUint64 (Number n)) bigUint64ToFloat64 = Ret (Number n)
        /\ exists bits, float64ToBigUint64 (Number n) = Ret (BigInt bits)
                        /\ 0 <= bits < 2 ^ 64).
Proof.
  split; intros n Hn.
  - destruct (float32ToUint32_bits n Hn) as [Hbits Hrange].
    split; [| exists (encode_float binary32 n); split; assumption].
    rewrite Hbits. cbn [obind]. exact (uint32ToFloat32_bits n Hn).
  - destruct (float64ToBigUint64_bits n Hn) as [Hbits Hrange].
    split; [| exists (encode_float binary64 n); split; assumption].
    rewrite Hbits. cbn [obind]. exact (bigUint64ToFloat64_bits n Hn).
Qed.

Lemma converter_round_trip_witness :
  obind (float32ToUint32 (Number (Finite true 3 (-1)))) uint32ToFloat32
  = Ret (Number (Finite true 3 (-1)))
  /\ float32ToUint32 (Number (Finite true 3 (-1))) = Ret (Number (of_Z 0xBFC00000))
  /\ obind (float64ToBigUint64 (Number (Infinity false))) bigUint64ToFloat64
     = Ret (Number (Infinity false)).
Proof.
  split; [apply (proj1 converter_round_trip); reflexivity |].
  split; [reflexivity |].
  apply (proj2 converter_round_trip); reflexivity.
Defined.

(** ** What every method keeps

    A property that the ten steps keep is kept by every method. *)

Section MethodInvariants.

Context {Env : Type} `{Encodings}.

Lemma keeps_ret P {A} (a : A) : keeps P (@ret Env A a).
Proof. intros st HP. exact HP. Qed.

Lemma keeps_throw P {A} e : keeps P (@throw Env A e).
Proof. intros st HP. exact HP. Qed.

Lemma keeps_gets P {A} (f : @State Env -> A) : keeps P (gets f).
Proof. intros st HP. exact HP. Qed.

Lemma keeps_lift P {A} (o : Outcome A) : keeps P (@lift Env A o).
Proof. intros st HP. exact HP. Qed.

Lemma keeps_bind P {A B} (m : @M Env A) (k : A -> @M Env B) :
  keeps P m -> (forall a, keeps P (k a)) -> keeps P (bind m k).
Proof.
  intros Hm Hk st HP. unfold bind.
  specialize (Hm st HP). destruct (m st) as [[a | e] st']; simpl in Hm.
  - exact (Hk a st' Hm).
  - exact Hm.
Qed.

Section Kept.

Variable P : @State Env -> Prop.
Hypothesis steps : steps_keep P.

Lemma keeps_set_elements ta es : forall i, keeps P (@set_elements Env ta i es).
Proof.
  induction es as [| e es IH]; intros i; cbn [set_elements].
  - apply keeps_ret.
  - apply keeps_bind; [apply (proj1 steps) | intros _; apply IH].
Qed.

Lemma keeps_set_values ta vs : forall i, keeps P (@set_values Env ta i vs).
Proof.
  induction vs as [| v vs IH]; intros i; cbn [set_values].
  - apply keeps_ret.
  - apply keeps_bind; [apply (proj1 steps) | intros _; apply IH].
Qed.

Ltac head_constant t :=
  match t with
  | ?f _ => head_constant f
  | _ => t
  end.

Ltac keep_by extra :=
  repeat first
    [ extra
    | match goal with
      | |- keeps _ (ret _) => apply keeps_ret
      | |- keeps _ (throw _) => apply keeps_throw
      | |- keeps _ (gets _) => apply keeps_gets
      | |- keeps _ (lift _) => apply keeps_lift
      | |- keeps _ (set_element _ _ _) => apply (proj1 steps)
      | |- keeps _ (ta_fill _ _) => apply (proj1 (proj2 steps))
      | |- keeps _ (Atomics_store _ _ _) => apply (proj1 (proj2 (proj2 steps)))
      | |- keeps _ (Atomics_load _ _) => apply (proj1 (proj2 (proj2 (proj2 steps))))
      | |- keeps _ (call_allocate _) =>
          apply (proj1 (proj2 (proj2 (proj2 (proj2 steps)))))
      | |- keeps _ (call_deallocate _) =>
          apply (proj1 (proj2 (proj2 (proj2 (proj2 (proj2 steps))))))
      | |- keeps _ updateCacheIfNeeded =>
          apply (proj1 (proj2 (proj2 (proj2 (proj2 (proj2 (proj2 steps)))))))
      | |- keeps _ (set_address _ 0) =>
          apply (proj1 (proj2 (proj2 (proj2 (proj2 (proj2 (proj2 (proj2 steps))))))))
      | |- keeps _ (new_ref _ _ _) =>
          apply (proj1 (proj2 (proj2 (proj2 (proj2 (proj2 (proj2 (proj2
                   (proj2 steps)))))))))
      | |- keeps _ (registerFinalizerIfEnabled _) =>
          apply (proj2 (proj2 (proj2 (proj2 (proj2 (proj2 (proj2 (proj2
                   (proj2 steps)))))))))
      | |- keeps _ (set_elements _ _ _) => apply keeps_set_elements
      | |- keeps _ (set_values _ _ _) => apply keeps_set_values
      | |- keeps _ (bind _ _) => apply keeps_bind; [| intros ?]
      | |- keeps _ (match ?x with _ => _ end) => destruct x
      | |- keeps _ ?m => let h := head_constant m in unfold h
      end ].

Lemma keeps_free argument : keeps P (@free Env argument).
Proof. keep_by fail. Qed.

Lemma keeps_readAt id index : keeps P (@readAt Env id index).
Proof. keep_by fail. Qed.

Lemma keeps_free_elements id indices : keeps P (@free_elements Env id indices).
Proof.
  induction indices as [| i indices IH]; cbn [free_elements].
  - apply keeps_ret.
  - apply keeps_bind; [apply keeps_readAt | intros v].
    apply keeps_bind; [apply keeps_free | intros _; exact IH].
Qed.

Lemma method_keeps A (m : @M Env A) : method A m -> keeps P m.
Proof.
  intros Hm.
  destruct Hm;
    keep_by ltac:(idtac;
                  match goal with
                  | |- keeps _ (free_elements _ _) => apply keeps_free_elements
                  end).
Qed.

End Kept.

(** *** What the steps change *)

Lemma set_element_frame ta i v (st : @State Env) :
  let st' := snd (set_element ta i v st) in
  log st' = log st /\ manager st' = manager st /\ refs st' = refs st.
Proof.
  unfold set_element, bind, gets, lift, modify.
  destruct (TypedArraySetElement (buffers (world st)) ta i v); repeat split.
Qed.

Lemma ta_fill_frame ta v (st : @State Env) :
  let st' := snd (ta_fill ta v st) in
  log st' = log st /\ manager st' = manager st /\ refs st' = refs st.
Proof.
  unfold ta_fill, bind, gets, lift, modify.
  destruct (fill (buffers (world st)) ta v); repeat split.
Qed.

Lemma Atomics_store_frame ta i v (st : @State Env) :
  let st' := snd (Atomics_store ta i v st) in
  manager st' = manager st /\ refs st' = refs st
  /\ heapGetter_calls st' = heapGetter_calls st.
Proof.
  unfold Atomics_store, bind, gets, lift, modify, heapGetter_calls.
  destruct (ValidateAtomicAccess (buffers (world st)) ta i); [| repeat split].
  cbn [snd fst]. destruct (to_raw (ta_kind ta) v); [| repeat split].
  cbn [snd log manager refs set_buffers set_world add_event].
  split; [reflexivity |]. split; [reflexivity |].
  rewrite map_app, list_sum_app. simpl. lia.
Qed.

Lemma Atomics_load_frame ta i (st : @State Env) :
  let st' := snd (Atomics_load ta i st) in
  manager st' = manager st /\ refs st' = refs st /\ world st' = world st
  /\ heapGetter_calls st' = heapGetter_calls st.
Proof.
  unfold Atomics_load, bind, gets, lift, modify, ret, heapGetter_calls.
  destruct (ValidateAtomicAccess (buffers (world st)) ta i); [| repeat split].
  cbn [snd log manager refs world add_event].
  split; [reflexivity |]. split; [reflexivity |]. split; [reflexivity |].
  rewrite map_app, list_sum_app. simpl. lia.
Qed.

Lemma call_allocate_frame size (st : @State Env) :
  let st' := snd (call_allocate size st) in
  manager st' = manager st /\ refs st' = refs st
  /\ heapGetter_calls st' = heapGetter_calls st.
Proof.
  unfold call_allocate, heapGetter_calls.
  destruct (allocate (manager st) size (world st)) as [a w].
  cbn [snd log manager refs set_world add_event].
  split; [reflexivity |]. split; [reflexivity |].
  rewrite map_app, list_sum_app. simpl. lia.
Qed.

Lemma call_deallocate_frame a (st : @State Env) :
  let st' := snd (call_deallocate a st) in
  manager st' = manager st /\ refs st' = refs st
  /\ heapGetter_calls st' = heapGetter_calls st.
Proof.
  unfold call_deallocate, heapGetter_calls.
  cbn [snd log manager refs set_world add_event].
  split; [reflexivity |]. split; [reflexivity |].
  rewrite map_app, list_sum_app. simpl. lia.
Qed.

Lemma updateCacheIfNeeded_frame (st : @State Env) :
  let st' := snd (updateCacheIfNeeded st) in
  refs st' = refs st
  /\ options (manager st') = options (manager st)
  /\ heapGetter (manager st') = heapGetter (manager st)
  /\ allocate (manager st') = allocate (manager st)
  /\ deallocate (manager st') = deallocate (manager st)
  /\ finalizationRegistry (manager st') = finalizationRegistry (manager st).
Proof.
  rewrite updateCacheIfNeeded_eq.
  destruct (_ || _); [repeat split |]. cbv zeta.
  destruct (0 <? _); [| repeat split].
  match goal with
  | |- context [updateCache ?b ?s] =>
      destruct (updateCache_frame b s) as (_ & _ & Hr & _ & Ho & Hh & Ha & Hd & Hf)
  end.
  rewrite Hr, Ho, Hh, Ha, Hd, Hf. repeat split.
Qed.

Lemma set_address_frame id a (st : @State Env) :
  let st' := snd (set_address id a st) in
  log st' = log st /\ manager st' = manager st /\ world st' = world st
  /\ match refs st !! id with
     | Some r =>
         refs st'
         = <[id := {| class := class r; address := a; elementCount := elementCount r |}]>
             (refs st)
     | None => refs st' = refs st
     end.
Proof.
  unfold set_address, this, bind, gets, modify.
  destruct (refs st !! id); repeat split.
Qed.

Lemma new_ref_frame c a n (st : @State Env) :
  let st' := snd (new_ref c a n st) in
  log st' = log st /\ manager st' = manager st /\ world st' = world st
  /\ refs st' = refs st ++ [{| class := c; address := a; elementCount := n |}].
Proof. repeat split. Qed.

Lemma registerFinalizerIfEnabled_frame ref (st : @State Env) :
  let st' := snd (registerFinalizerIfEnabled ref st) in
  log st' = log st /\ refs st' = refs st /\ world st' = world st
  /\ options (manager st') = options (manager st)
  /\ heapGetter (manager st') = heapGetter (manager st)
  /\ allocate (manager st') = allocate (manager st)
  /\ deallocate (manager st') = deallocate (manager st)
  /\ cachedHeap (manager st') = cachedHeap (manager st)
  /\ cache (manager st') = cache (manager st)
  /\ (finalizationRegistry (manager st') = finalizationRegistry (manager st)
      \/ truthy (enableGarbageCollection (options (manager st))) = true
         /\ exists r, refs st !! ref = Some r
                      /\ finalizationRegistry (manager st')
                         = finalizationRegistry (manager st) ++ [(ref, address r)]).
Proof.
  unfold registerFinalizerIfEnabled, this, bind, gets, modify.
  destruct (truthy (enableGarbageCollection (options (manager st)))) eqn:Hgc.
  - destruct (refs st !! ref) as [r |] eqn:Hr.
    + cbn. do 9 (split; [reflexivity |]). right. split; [reflexivity |].
      exists r. split; reflexivity.
    + cbn. do 9 (split; [reflexivity |]). left. reflexivity.
  - cbn. do 9 (split; [reflexivity |]). left. reflexivity.
Qed.

End MethodInvariants.

(** ** References are only ever freed *)

Section References.

Context {Env : Type} `{Encodings}.

Lemma succeeds_refs before (st st' : @State Env) :
  refs st' = refs st -> succeeds before st -> succeeds before st'.
Proof. intros Hr Hs id r Hid. unfold succeeds in Hs. rewrite Hr. exact (Hs id r Hid). Qed.

Lemma succeeds_steps before : steps_keep (@succeeds Env before).
Proof.
  repeat split.
  - intros ta i v st. apply succeeds_refs. apply set_element_frame.
  - intros ta v st. apply succeeds_refs. apply ta_fill_frame.
  - intros ta i v st. apply succeeds_refs. apply Atomics_store_frame.
  - intros ta i st. apply succeeds_refs. apply Atomics_load_frame.
  - intros size st. apply succeeds_refs. apply call_allocate_frame.
  - intros a st. apply succeeds_refs. apply call_deallocate_frame.
  - intros st. apply succeeds_refs. apply updateCacheIfNeeded_frame.
  - intros id st Hs.
    destruct (set_address_frame id 0 st) as (_ & _ & _ & Hrefs).
    destruct (refs st !! id) as [r0 |] eqn:Hid; [| exact (succeeds_refs _ _ _ Hrefs Hs)].
    intros id' r Hbefore. destruct (Hs id' r Hbefore) as (r' & Hr' & Hc & He & Ha).
    rewrite Hrefs. destruct (decide (id = id')) as [<- | Hne].
    + rewrite list_lookup_insert_eq by (apply lookup_lt_is_Some; eauto).
      eexists. split; [reflexivity |]. cbn.
      pose proof (eq_trans (eq_sym Hid) Hr') as Heq. inversion Heq; subst r0.
      split; [exact Hc |]. split; [exact He |]. right. reflexivity.
    + rewrite list_lookup_insert_ne by exact Hne. exists r'. repeat split; assumption.
  - intros c a n st Hs id r Hbefore.
    destruct (Hs id r Hbefore) as (r' & Hr' & Hrest).
    exists r'. split; [| exact Hrest].
    destruct (new_ref_frame c a n st) as (_ & _ & _ & ->).
    apply lookup_app_l_Some. exact Hr'.
  - intros ref st. apply succeeds_refs. apply registerFinalizerIfEnabled_frame.
Qed.

(** No method does anything to a reference but free it: whatever is called,
    each reference stays a reference of its class and element count, at
    its address or freed; a freed reference stays freed, so that its
    guarded methods throw from then on. *)
Theorem references_are_only_ever_freed A (m : @M Env A) (st : @State Env) :
  method A m ->
  succeeds (refs st) (snd (m st))
  /\ forall id, freed st id ->
       freed (snd (m st)) id
       /\ assertNotFreed id (snd (m st)) = (Throw UseAfterFree, snd (m st)).
Proof.
  intros Hm.
  assert (Hs : succeeds (refs st) (snd (m st))).
  { apply (method_keeps _ (succeeds_steps (refs st)) A m Hm).
    intros id r Hid. exists r. repeat split; [exact Hid | left; reflexivity]. }
  split; [exact Hs |].
  intros id (r & Hid & H0).
  destruct (Hs id r Hid) as (r' & Hr' & _ & _ & Ha).
  assert (Hf : freed (snd (m st)) id).
  { exists r'. split; [exact Hr' | destruct Ha; congruence]. }
  split; [exact Hf | apply assertNotFreed_freed; exact Hf].
Qed.

End References.

Lemma references_are_only_ever_freed_witness :
  let st := state_after (allocNumeric Int32 None) (arena_state 64 None) in
  let st1 := state_after (Ref_free 0%nat None) st in
  freed st1 0%nat
  /\ freed (state_after (allocNumeric Int32 (Some (Number (of_Z 7)))) st1) 0%nat.
Proof.
  intros st st1.
  assert (Hf : freed st1 0%nat).
  { exists {| class := NumericRef Int32; address := 0; elementCount := 0 |}.
    split; [vm_compute; reflexivity | reflexivity]. }
  split; [exact Hf |].
  exact (proj1 (proj2 (references_are_only_ever_freed _
                         (allocNumeric Int32 (Some (Number (of_Z 7)))) st1
                         (call_allocNumeric Int32 _)) 0%nat Hf)).
Defined.

(** ** The finalization registry, the configuration, and polling *)

Section Manager_invariants.

Context {Env : Type} `{Encodings}.

Lemma calls_log (st st' : @State Env) :
  log st' = log st -> heapGetter_calls st' = heapGetter_calls st.
Proof. unfold heapGetter_calls. intros ->. reflexivity. Qed.

Ltac frame_step F :=
  let HF := fresh "HF" in
  pose proof F as HF; cbv zeta in HF; unfold heapGetter_calls in *;
  repeat match goal with
         | H : _ /\ _ |- _ => destruct H
         | H : _ \/ _ |- _ => destruct H
         | H : exists _, _ |- _ => destruct H
         end;
  repeat split; try congruence.

Ltac frame_steps special :=
  unfold steps_keep, keeps;
  split; [intros xta xi xv xst xHP; frame_step (set_element_frame xta xi xv xst) |];
  split; [intros xta xv xst xHP; frame_step (ta_fill_frame xta xv xst) |];
  split; [intros xta xi xv xst xHP; frame_step (Atomics_store_frame xta xi xv xst) |];
  split; [intros xta xi xst xHP; frame_step (Atomics_load_frame xta xi xst) |];
  split; [intros xsize xst xHP; frame_step (call_allocate_frame xsize xst) |];
  split; [intros xa xst xHP; frame_step (call_deallocate_frame xa xst) |];
  split; [intros xst xHP; first [special xst xHP | frame_step (updateCacheIfNeeded_frame xst)] |];
  split; [intros xid xst xHP; frame_step (set_address_frame xid 0 xst) |];
  split; [intros xc xa xn xst xHP; frame_step (new_ref_frame xc xa xn xst) |];
  intros xref xst xHP; frame_step (registerFinalizerIfEnabled_frame xref xst).

Lemma registry_steps l :
  steps_keep (fun st : @State Env => l `prefix_of` finalizationRegistry (manager st)).
Proof.
  frame_steps ltac:(fun _ _ => fail).
  match goal with H : finalizationRegistry _ = _ ++ _ |- _ => rewrite H end.
  apply prefix_app_r. assumption.
Qed.

Lemma disabled_steps l :
  steps_keep (fun st : @State Env =>
                truthy (enableGarbageCollection (options (manager st))) = false
                /\ finalizationRegistry (manager st) = l).
Proof. frame_steps ltac:(fun _ _ => fail). Qed.

(** No method unregisters a finalizer, [free] included: the registry only
    grows, so that the address of a reference that was allocated with
    garbage collection enabled stays registered when the reference is
    freed.  While garbage collection is not enabled (the default) no
    method registers anything. *)
Theorem finalizers_are_never_unregistered A (m : @M Env A) (st : @State Env) :
  method A m ->
  finalizationRegistry (manager st) `prefix_of` finalizationRegistry (manager (snd (m st)))
  /\ (truthy (enableGarbageCollection (options (manager st))) = false ->
      finalizationRegistry (manager (snd (m st))) = finalizationRegistry (manager st))
  /\ enableGarbageCollection defaultWasmHeapManagerOptions = Some false.
Proof.
  intros Hm. split; [| split; [| reflexivity]].
  - apply (method_keeps _ (registry_steps (finalizationRegistry (manager st))) A m Hm).
    reflexivity.
  - intros Hoff.
    apply (method_keeps _ (disabled_steps (finalizationRegistry (manager st))) A m Hm).
    split; [exact Hoff | reflexivity].
Qed.

Lemma configuration_steps (st0 : @State Env) : steps_keep (configured_as st0).
Proof. unfold configured_as. frame_steps ltac:(fun _ _ => fail). Qed.

(** No method changes the options or the callbacks the manager was
    constructed with. *)
Theorem configuration_is_fixed A (m : @M Env A) (st : @State Env) :
  method A m ->
  options (manager (snd (m st))) = options (manager st)
  /\ heapGetter (manager (snd (m st))) = heapGetter (manager st)
  /\ allocate (manager (snd (m st))) = allocate (manager st)
  /\ deallocate (manager (snd (m st))) = deallocate (manager st).
Proof.
  intros Hm.
  apply (method_keeps _ (configuration_steps st) A m Hm).
  repeat split.
Qed.

Lemma never_steps b c n :
  steps_keep (fun st : @State Env =>
                pollingMode (options (manager st)) = Some never
                /\ cachedHeap (manager st) = b /\ cache (manager st) = c
                /\ heapGetter_calls st = n).
Proof.
  frame_steps
    ltac:(fun st HP =>
            rewrite updateCacheIfNeeded_eq; rewrite (proj1 HP);
            rewrite bool_decide_eq_true_2 by reflexivity; exact HP).
Qed.

(** With the polling mode 'never' no method calls the heap getter, and the
    cached buffer and the eleven cached views stay the ones the constructor
    built, whatever the embedder does to its buffers. *)
Theorem never_polling_keeps_the_first_views A (m : @M Env A) (st : @State Env) :
  method A m ->
  pollingMode (options (manager st)) = Some never ->
  heapGetter_calls (snd (m st)) = heapGetter_calls st
  /\ cachedHeap (manager (snd (m st))) = cachedHeap (manager st)
  /\ (forall k, cachedHeapView (manager (snd (m st))) k = cachedHeapView (manager st) k)
  /\ pollingMode (options (manager (snd (m st)))) = Some never.
Proof.
  intros Hm Hnever.
  destruct (method_keeps _ (never_steps (cachedHeap (manager st)) (cache (manager st))
                              (heapGetter_calls st)) A m Hm st)
    as (Hmode & Hb & Hc & Hn); [repeat split; exact Hnever |].
  split; [exact Hn |]. split; [exact Hb |]. split; [| exact Hmode].
  intros k. unfold cachedHeapView. rewrite Hc. reflexivity.
Qed.

End Manager_invariants.

(** The three theorems at work on the arena. *)
Lemma finalizers_are_never_unregistered_witness :
  let st := state_after (allocNumeric Int32 None) (arena_state 64 (Some collecting)) in
  let st' := state_after (Ref_free 0%nat None) st in
  finalizationRegistry (manager st) = [(0%nat, 8)]
  /\ freed st' 0%nat
  /\ [(0%nat, 8)] `prefix_of` finalizationRegistry (manager st').
Proof.
  intros st st'.
  assert (Hreg : finalizationRegistry (manager st) = [(0%nat, 8)])
    by (vm_compute; reflexivity).
  split; [exact Hreg |]. split.
  - exists {| class := NumericRef Int32; address := 0; elementCount := 0 |}.
    split; [vm_compute; reflexivity | reflexivity].
  - rewrite <- Hreg.
    exact (proj1 (finalizers_are_never_unregistered _ (Ref_free 0%nat None) st
                    (call_Ref_free 0%nat None))).
Defined.

Lemma configuration_is_fixed_witness :
  let st := arena_state 64 (Some collecting) in
  options (manager (state_after (allocNumeric Int32 None) st)) = options (manager st).
Proof.
  intros st.
  exact (proj1 (configuration_is_fixed _ (allocNumeric Int32 None) st
                  (call_allocNumeric Int32 None))).
Defined.

Lemma never_polling_keeps_the_first_views_witness :
  let st := arena_state 64 (Some never_polling) in
  let st' := state_after (allocNumeric Int32 (Some (Number (of_Z 7)))) st in
  heapGetter_calls st = 1%nat /\ heapGetter_calls st' = heapGetter_calls st.
Proof.
  intros st st'. split; [vm_compute; reflexivity |].
  apply (never_polling_keeps_the_first_views _
           (allocNumeric Int32 (Some (Number (of_Z 7)))) st
           (call_allocNumeric Int32 _)).
  vm_compute. reflexivity.
Defined.

(** ** Addresses outside the cells of the heap *)

Lemma exact_quotient address w :
  0 < w -> address mod w = 0 -> 0 <= Z.quot address w ->
  0 <= address /\ Z.quot address w = address / w.
Proof.
  intros Hw Hmod Hq.
  destruct (Z.le_gt_cases 0 address) as [Hpos | Hneg].
  - split; [exact Hpos | apply Z.quot_div_nonneg; lia].
  - exfalso.
    apply Z.mod_divide in Hmod; [| lia]. destruct Hmod as [q ->].
    rewrite Z.quot_mul in Hq by lia. nia.
Qed.

Lemma index_outside bufs h address :
  ~ in_bounds bufs h address ->
  IsValidIntegerIndex bufs h (js_div address (BYTES_PER_ELEMENT (ta_kind h))) = false.
Proof.
  intros Hout.
  destruct (IsValidIntegerIndex _ _ _) eqn:Hv; [exfalso | reflexivity].
  apply Hout. unfold IsValidIntegerIndex in Hv.
  apply andb_true_iff in Hv. destruct Hv as [Hv Hlt].
  apply andb_true_iff in Hv. destruct Hv as [Hint Hle].
  unfold is_integer, ToIntegerOrInfinity, js_div in *. cbn [numerator denominator] in *.
  apply Z.eqb_eq in Hint. apply Z.leb_le in Hle. apply Z.ltb_lt in Hlt.
  assert (Hw : 0 < BYTES_PER_ELEMENT (ta_kind h)) by (destruct (ta_kind h); simpl; lia).
  destruct (exact_quotient address _ Hw Hint Hle) as [Hpos Hq].
  split; [exact Hpos |]. split; [exact Hint |]. rewrite <- Hq. exact Hlt.
Qed.

Section Outside.

Context {Env : Type}.

(** A plain access at an address that names no cell of the view (a
    negative address, one that is not a multiple of the element width, or
    one at or past the end, as every address is once the buffer is
    detached) does not throw: the read returns [undefined], and the write
    converts its value and stores nothing. *)
Theorem plain_access_outside_the_cells k address (st : @State Env) h st1 :
  ta_kind h = k ->
  heap k st = (Ret h, st1) ->
  ~ in_bounds (buffers (world st1)) h address ->
  read_kind k address st = (Ret Undefined, st1)
  /\ forall v raw,
       to_raw k v = Ret raw ->
       outcome_of (write_kind k address v) st = Ret tt
       /\ world (state_after (write_kind k address v) st) = world st1
       /\ log (state_after (write_kind k address v) st) = log st1
       /\ manager (state_after (write_kind k address v) st) = manager st1
       /\ refs (state_after (write_kind k address v) st) = refs st1.
Proof.
  intros Hk Hheap Hout. subst k.
  pose proof (index_outside _ _ _ Hout) as Hinvalid.
  split.
  - rewrite read_kind_eq, (bind_ret _ _ _ _ _ Hheap).
    unfold get_element, gets, TypedArrayGetElement. rewrite Hinvalid. reflexivity.
  - intros v raw Hraw. unfold outcome_of, state_after.
    rewrite write_kind_eq, (bind_ret _ _ _ _ _ Hheap).
    unfold set_element, bind, gets, lift, modify, TypedArraySetElement.
    rewrite Hraw. cbn [obind]. rewrite Hinvalid. cbn.
    destruct st1 as [[bufs e] l m r]. repeat split.
Qed.

Lemma validate_outside bufs (h : TypedArray) idx :
  atomic_kind (ta_kind h) = true ->
  IsTypedArrayOutOfBounds bufs h = false ->
  ~ 0 <= ToIntegerOrInfinity idx < TypedArrayLength bufs h ->
  ValidateAtomicAccess bufs h idx = Throw RangeError.
Proof.
  intros Hk Ho Hout. unfold ValidateAtomicAccess. rewrite Hk, Ho. cbn [negb]. cbv zeta.
  destruct (Z.ltb_spec (ToIntegerOrInfinity idx) 0); [reflexivity |].
  destruct (Z.leb_spec (TypedArrayLength bufs h) (ToIntegerOrInfinity idx)); [reflexivity |].
  lia.
Qed.

(** An atomic access takes the quotient of the address by the element
    width, rounded toward zero, as its index.  So at an address inside a
    cell it works on that cell, where the plain access misses; and where
    the quotient is no index of the view it throws a RangeError, with
    nothing loaded or stored. *)
Theorem atomic_access_truncates_the_index k address (st : @State Env) h st1 :
  atomic_kind k = true ->
  ta_kind h = k ->
  heap k st = (Ret h, st1) ->
  IsTypedArrayOutOfBounds (buffers (world st1)) h = false ->
  let i := Z.quot address (BYTES_PER_ELEMENT k) in
  (0 <= i < TypedArrayLength (buffers (world st1)) h ->
   readAtomic_kind k address st
   = (Ret (of_raw k (cell_raw (buffers (world st1)) h i)), after_atomic_load h i st1)
   /\ forall v raw,
        to_raw k v = Ret raw ->
        writeAtomic_kind k address v st = (Ret tt, after_atomic_store h i raw st1))
  /\ (~ 0 <= i < TypedArrayLength (buffers (world st1)) h ->
      readAtomic_kind k address st = (Throw RangeError, st1)
      /\ forall v, writeAtomic_kind k address v st = (Throw RangeError, st1)).
Proof.
  intros Hat Hk Hheap Ho i. subst k.
  assert (Hto : ToIntegerOrInfinity (js_div address (BYTES_PER_ELEMENT (ta_kind h))) = i)
    by reflexivity.
  split.
  - intros Hi. split.
    + rewrite (readAtomic_kind_eq _ _ Hat), (bind_ret _ _ _ _ _ Hheap).
      rewrite (Atomics_load_run h _ i st1 Hat Hto Hi).
      destruct (whole_index i) as [Hwi Hwt].
      rewrite (proj1 (get_element_cell _ h (whole i) i Hwi Hwt Hi)). reflexivity.
    + intros v raw Hraw.
      rewrite (writeAtomic_kind_eq _ _ _ Hat), (bind_ret _ _ _ _ _ Hheap).
      rewrite (Atomics_store_run h _ i v raw st1 Hat Hraw Hto Hi). reflexivity.
  - intros Hout.
    pose proof (validate_outside _ h (js_div address (BYTES_PER_ELEMENT (ta_kind h)))
                  Hat Ho Hout) as Hv.
    split.
    + rewrite (readAtomic_kind_eq _ _ Hat), (bind_ret _ _ _ _ _ Hheap).
      unfold Atomics_load, bind, gets, lift. rewrite Hv. reflexivity.
    + intros v.
      rewrite (writeAtomic_kind_eq _ _ _ Hat), (bind_ret _ _ _ _ _ Hheap).
      unfold Atomics_store, bind, gets, lift. rewrite Hv. reflexivity.
Qed.

End Outside.

(** On the arena: address 6 is inside the 32-bit cell at address 4. *)
Lemma plain_access_outside_the_cells_witness :
  let st := arena_state 64 None in
  outcome_of (read_kind Int32 6) st = Ret Undefined
  /\ outcome_of (write_kind Int32 6 (Number (of_Z 7))) st = Ret tt
  /\ world (state_after (write_kind Int32 6 (Number (of_Z 7))) st)
     = world (state_after (heap Int32) st).
Proof.
  intros st.
  assert (Hheap : heap Int32 st = (Ret (whole_view Int32 1%nat 64), state_after (heap Int32) st)).
  { apply (pair_of_fst (heap Int32 st)). vm_compute. reflexivity. }
  assert (Hout : ~ in_bounds (buffers (world (state_after (heap Int32) st)))
                     (whole_view Int32 1%nat 64) 6).
  { intros (_ & Hm & _). vm_compute in Hm. discriminate Hm. }
  destruct (plain_access_outside_the_cells Int32 6 st (whole_view Int32 1%nat 64) _
              eq_refl Hheap Hout)
    as [Hread Hwrite].
  split; [unfold outcome_of; rewrite Hread; reflexivity |].
  destruct (Hwrite (Number (of_Z 7)) 7 eq_refl) as (Ho & Hw & _).
  split; [exact Ho | exact Hw].
Defined.

Lemma atomic_access_truncates_the_index_witness :
  let st := arena_state 64 None in
  log (state_after (writeAtomic_kind Int32 6 (Number (of_Z 7))) st)
  = log st ++ [AtomicStore Int32 1%nat 1 7]
  /\ outcome_of (readAtomic_kind Int32 64) st = Throw RangeError.
Proof.
  intros st.
  assert (Hheap : heap Int32 st = (Ret (whole_view Int32 1%nat 64), state_after (heap Int32) st)).
  { apply (pair_of_fst (heap Int32 st)). vm_compute. reflexivity. }
  assert (Ho : IsTypedArrayOutOfBounds (buffers (world (state_after (heap Int32) st)))
                 (whole_view Int32 1%nat 64) = false) by (vm_compute; reflexivity).
  assert (Hlen : TypedArrayLength (buffers (world (state_after (heap Int32) st)))
                   (whole_view Int32 1%nat 64) = 16) by (vm_compute; reflexivity).
  assert (Hlog : log (state_after (heap Int32) st) = log st) by (vm_compute; reflexivity).
  split.
  - destruct (atomic_access_truncates_the_index Int32 6 st (whole_view Int32 1%nat 64) _
                eq_refl eq_refl Hheap Ho)
      as [Hin _].
    destruct Hin as [_ Hstore]; [rewrite Hlen; cbv; split; [discriminate | reflexivity] |].
    unfold state_after at 1. rewrite (Hstore (Number (of_Z 7)) 7 eq_refl).
    unfold snd at 1. rewrite log_after_atomic_store, Hlog. reflexivity.
  - destruct (atomic_access_truncates_the_index Int32 64 st (whole_view Int32 1%nat 64) _
                eq_refl eq_refl Hheap Ho)
      as [_ Hout].
    destruct Hout as [Hread _]; [rewrite Hlen; cbv; intros [_ Hlt]; discriminate Hlt |].
    unfold outcome_of. rewrite Hread. reflexivity.
Defined.

(** ** Cells after a store *)

Lemma read_bytes_write_bytes_apart (l : list byte) pos bs pos' w :
  0 <= pos -> (Z.to_nat pos + length bs <= length l)%nat ->
  0 <= pos' -> 0 <= w ->
  pos' + w <= pos \/ pos + Z.of_nat (length bs) <= pos' ->
  read_bytes (write_bytes l pos bs) pos' w = read_bytes l pos' w.
Proof.
  intros Hpos Hfit Hpos' Hw Hapart. unfold read_bytes, write_bytes.
  apply list_eq. intros n.
  destruct (decide (n < Z.to_nat w)%nat) as [Hn | Hn].
  2: { rewrite !lookup_take_ge by lia. reflexivity. }
  rewrite !lookup_take_lt by exact Hn. rewrite !lookup_drop.
  assert (Htake : length (take (Z.to_nat pos) l) = Z.to_nat pos)
    by (rewrite length_take; lia).
  destruct Hapart as [Hbefore | Hafter].
  - rewrite lookup_app_l by lia. rewrite lookup_take_lt by lia. reflexivity.
  - rewrite lookup_app_r by lia. rewrite lookup_app_r by lia.
    rewrite lookup_drop. f_equal. lia.
Qed.

(** The cell [j] of a view [ta'] after a store to the cell [i] of a view
    [ta] of the same element width: the stored integer when the two cells
    are the same bytes, and what it was when they share no byte. *)
Lemma cell_raw_store_raw bufs ta i raw ta' j :
  0 <= i < TypedArrayLength bufs ta ->
  BYTES_PER_ELEMENT (ta_kind ta') = BYTES_PER_ELEMENT (ta_kind ta) ->
  0 <= raw < 2 ^ (8 * BYTES_PER_ELEMENT (ta_kind ta)) ->
  (ta_buffer ta' = ta_buffer ta -> byte_position ta' j = byte_position ta i ->
   cell_raw (store_raw bufs ta i raw) ta' j = raw)
  /\ (ta_buffer ta' <> ta_buffer ta
      \/ 0 <= byte_position ta' j
         /\ (byte_position ta' j + BYTES_PER_ELEMENT (ta_kind ta) <= byte_position ta i
             \/ byte_position ta i + BYTES_PER_ELEMENT (ta_kind ta) <= byte_position ta' j) ->
      cell_raw (store_raw bufs ta i raw) ta' j = cell_raw bufs ta' j).
Proof.
  intros Hi Hw Hraw.
  destruct (valid_index_in_data bufs ta i Hi) as (Hd & Hp & Hlen).
  assert (Hw0 : 0 < BYTES_PER_ELEMENT (ta_kind ta)) by (destruct (ta_kind ta); simpl; lia).
  unfold cell_raw, store_raw. rewrite buffer_at_insert. split.
  - intros Hb Hpos. rewrite Hb, Hpos, Hw.
    destruct (decide (ta_buffer ta = ta_buffer ta)); [| congruence].
    cbn [data]. unfold bytes_set.
    replace (BYTES_PER_ELEMENT (ta_kind ta))
      with (Z.of_nat (length (le_split (Z.to_nat (BYTES_PER_ELEMENT (ta_kind ta))) raw))) at 2
      by (rewrite length_le_split; lia).
    rewrite read_write_bytes; [| exact Hp | rewrite length_le_split; lia].
    rewrite le_combine_split.
    rewrite Z2Nat.id by lia. apply Z.mod_small.
    replace (BYTES_PER_ELEMENT (ta_kind ta) * 8) with (8 * BYTES_PER_ELEMENT (ta_kind ta))
      by lia.
    exact Hraw.
  - intros [Hb | (Hj & Hapart)].
    + destruct (decide (ta_buffer ta = ta_buffer ta')); [congruence | reflexivity].
    + destruct (decide (ta_buffer ta = ta_buffer ta')) as [Heq |]; [| reflexivity].
      cbn [data]. rewrite <- Heq, Hw. unfold bytes_set.
      f_equal. apply read_bytes_write_bytes_apart;
        rewrite ?length_le_split; try lia.
Qed.

Lemma is_valid_after_store bufs ta i raw ta' idx :
  0 <= i < TypedArrayLength bufs ta ->
  IsValidIntegerIndex (store_raw bufs ta i raw) ta' idx = IsValidIntegerIndex bufs ta' idx.
Proof.
  intros Hi. unfold IsValidIntegerIndex.
  rewrite (TypedArrayLength_store_raw bufs ta i raw ta' Hi). reflexivity.
Qed.

(** 64-bit limbs *)
Lemma lor_limbs lo hi n :
  0 <= n -> 0 <= lo < 2 ^ n -> Z.lor lo (Z.shiftl hi n) = lo + hi * 2 ^ n.
Proof.
  intros Hn Hlo. rewrite Z.shiftl_mul_pow2 by exact Hn.
  assert (Hland : Z.land lo (hi * 2 ^ n) = 0).
  { apply Z.bits_inj'. intros m Hm. rewrite Z.land_spec, Z.bits_0.
    destruct (Z.lt_ge_cases m n) as [Hlt | Hge].
    - rewrite Z.mul_pow2_bits_low by exact Hlt. apply andb_false_r.
    - rewrite <- (Z.mod_small lo (2 ^ n)) by exact Hlo.
      rewrite Z.mod_pow2_bits_high by lia. reflexivity. }
  rewrite <- (Z.lxor_lor _ _ Hland). symmetry. apply Z.add_nocarry_lxor. exact Hland.
Qed.

Lemma mask_limb z : Z.land z 0xffffffffffffffff mod 2 ^ 64 = z mod 2 ^ 64.
Proof.
  change 0xffffffffffffffff with (Z.ones 64).
  rewrite Z.land_ones by lia. apply Z.mod_mod. lia.
Qed.

Lemma two_limbs z : z mod 2 ^ 64 + (z / 2 ^ 64) mod 2 ^ 64 * 2 ^ 64 = z mod 2 ^ 128.
Proof.
  change (2 ^ 128) with (2 ^ 64 * 2 ^ 64).
  rewrite Z.rem_mul_r by lia. lia.
Qed.

Lemma cell_raw_store_raws h raws : forall bufs i j,
  0 <= i -> i + Z.of_nat (length raws) <= TypedArrayLength bufs h ->
  Forall (fun r => 0 <= r < 2 ^ (8 * BYTES_PER_ELEMENT (ta_kind h))) raws ->
  0 <= j ->
  TypedArrayLength (store_raws bufs h i raws) h = TypedArrayLength bufs h
  /\ cell_raw (store_raws bufs h i raws) h j
     = if decide (i <= j < i + Z.of_nat (length raws))
       then default 0 (raws !! Z.to_nat (j - i))
       else cell_raw bufs h j.
Proof.
  induction raws as [| r raws IH]; intros bufs i j Hi Hlen Hraws Hj.
  - cbn [store_raws length]. split; [reflexivity |].
    destruct (decide _); [lia | reflexivity].
  - cbn [store_raws]. cbn [length] in Hlen.
    assert (Hin : 0 <= i < TypedArrayLength bufs h) by lia.
    inversion Hraws as [| r' raws' Hr Hrest]; subst.
    pose proof (TypedArrayLength_store_raw bufs h i r h Hin) as Hsame.
    destruct (IH (store_raw bufs h i r) (i + 1) j) as [IHlen IHcell];
      [lia | rewrite Hsame; lia | exact Hrest | exact Hj |].
    split; [rewrite IHlen; exact Hsame |].
    rewrite IHcell.
    assert (Hw : 0 < BYTES_PER_ELEMENT (ta_kind h)) by (destruct (ta_kind h); simpl; lia).
    destruct (cell_raw_store_raw bufs h i r h j Hin eq_refl Hr) as [Hsamecell Hother].
    assert (Hoff : 0 <= ta_byteOffset h).
    { assert (Ho : IsTypedArrayOutOfBounds bufs h = false).
      { unfold TypedArrayLength in Hin.
        destruct (IsTypedArrayOutOfBounds bufs h); [lia | reflexivity]. }
      apply (in_bounds_view bufs h Ho). }
    destruct (decide (i + 1 <= j < i + 1 + Z.of_nat (length raws))) as [Hin1 | Hout1].
    + destruct (decide _) as [_ | Hno]; [| cbn [length] in Hno; lia].
      replace (Z.to_nat (j - i)) with (S (Z.to_nat (j - (i + 1)))) by lia.
      reflexivity.
    + destruct (decide (j = i)) as [-> | Hne].
      * destruct (decide _) as [_ | Hno]; [| cbn [length] in Hno; lia].
        replace (Z.to_nat (i - i)) with 0%nat by lia. cbn.
        apply Hsamecell; reflexivity.
      * destruct (decide _) as [Hyes | _]; [cbn [length] in Hyes; lia |].
        apply Hother. right. unfold byte_position in *. split; [nia |].
        destruct (Z.lt_ge_cases j i); [left | right]; nia.
Qed.

Lemma next_index a w n :
  0 < w -> 0 <= a -> a mod w = 0 -> 0 <= n ->
  is_integer (Index_add (js_div a w) n) = true
  /\ ToIntegerOrInfinity (Index_add (js_div a w) n) = a / w + n.
Proof.
  intros Hw Ha Hmod Hn. unfold is_integer, ToIntegerOrInfinity, Index_add, js_div.
  cbn [numerator denominator].
  rewrite Z.mod_add by lia. rewrite Hmod. split; [reflexivity |].
  rewrite Z.quot_div_nonneg by nia. apply Z.div_add. lia.
Qed.

(** ** The 128 and 256 bit integers *)

Section WideIntegers.

Context {Env : Type}.

Lemma limb_range z : 0 <= z mod 2 ^ 64 < 2 ^ (8 * BYTES_PER_ELEMENT BigUint64).
Proof. apply Z.mod_pos_bound. reflexivity. Qed.

Lemma get_limb (h : TypedArray) idx i (st : @State Env) :
  ta_kind h = BigUint64 ->
  is_integer idx = true -> ToIntegerOrInfinity idx = i ->
  0 <= i < TypedArrayLength (buffers (world st)) h ->
  get_element h idx st = (Ret (BigInt (cell_raw (buffers (world st)) h i)), st).
Proof.
  intros Hk Hint Hto Hi. unfold get_element, gets.
  rewrite (proj1 (get_element_cell _ h idx i Hint Hto Hi)), Hk. reflexivity.
Qed.

Lemma set_limb (h : TypedArray) idx i z (st : @State Env) :
  ta_kind h = BigUint64 ->
  is_integer idx = true -> ToIntegerOrInfinity idx = i ->
  0 <= i < TypedArrayLength (buffers (world st)) h ->
  set_element h idx (BigInt z) st
  = (Ret tt, set_buffers (store_raw (buffers (world st)) h i (z mod 2 ^ 64)) st).
Proof.
  intros Hk Hint Hto Hi.
  apply (set_element_run h idx i (BigInt z) (z mod 2 ^ 64) st); try assumption.
  rewrite Hk. reflexivity.
Qed.

(** [writeBigUint128LE] and then [readBigUint128LE] at an address that is
    a multiple of 8 with two cells inside the view: the read returns the
    value modulo 2^128, so the value itself when it is an unsigned 128-bit
    integer, while the heap stays in place. *)
Theorem BigUint128_round_trip address value (st : @State Env) h st1 :
  ta_kind h = BigUint64 ->
  heapBigUint64 st = (Ret h, st1) ->
  in_bounds (buffers (world st1)) h address ->
  address / 8 + 1 < TypedArrayLength (buffers (world st1)) h ->
  let st2 := state_after (writeBigUint128LE address value) st in
  outcome_of (writeBigUint128LE address value) st = Ret tt
  /\ forall st3,
       heapBigUint64 st2 = (Ret h, st3) ->
       buffers (world st3) = buffers (world st2) ->
       readBigUint128LE address st2 = (Ret (BigInt (value mod 2 ^ 128)), st3).
Proof.
  intros Hk Hheap (Ha & Hal & Hlt) Hnext. rewrite Hk in Hal, Hlt. cbn in Hal, Hlt.
  set (i := address / 8) in *.
  assert (Hi0 : 0 <= i) by (apply Z.div_pos; lia).
  destruct (aligned_index address 8 ltac:(lia) Ha Hal) as [Hint0 Hto0].
  destruct (next_index address 8 1 ltac:(lia) Ha Hal ltac:(lia)) as [Hint1 Hto1].
  fold i in Hto0, Hto1.
  set (bufs := buffers (world st1)) in *.
  set (lo := Z.land value 0xffffffffffffffff mod 2 ^ 64).
  set (hi := Z.shiftr value 64 mod 2 ^ 64).
  assert (Hwrite :
    writeBigUint128LE address value st
    = (Ret tt,
       set_buffers (store_raws bufs h i [lo; hi])
         (set_buffers (store_raw bufs h i lo) st1))).
  { unfold writeBigUint128LE. rewrite (bind_ret _ _ _ _ _ Hheap). cbv zeta.
    rewrite (bind_ret _ _ _ _ _ (set_limb h _ i _ st1 Hk Hint0 Hto0 ltac:(fold bufs; lia))).
    fold bufs. fold lo.
    rewrite (set_limb h _ (i + 1) _ _ Hk Hint1 Hto1).
    - reflexivity.
    - cbn [set_buffers set_world world buffers].
      rewrite TypedArrayLength_store_raw by lia. lia. }
  intros st2. subst st2. unfold outcome_of, state_after. rewrite Hwrite. cbn [fst snd].
  split; [reflexivity |].
  intros st3 Hheap3 Hbufs3. cbn [set_buffers set_world world buffers] in Hbufs3.
  assert (Hraws : Forall (fun r => 0 <= r < 2 ^ (8 * BYTES_PER_ELEMENT (ta_kind h)))
                    [lo; hi]).
  { rewrite Hk. repeat constructor; apply limb_range. }
  assert (Hcells : forall j, 0 <= j ->
            TypedArrayLength (buffers (world st3)) h = TypedArrayLength bufs h
            /\ cell_raw (buffers (world st3)) h j
               = if decide (i <= j < i + 2)
                 then default 0 ([lo; hi] !! Z.to_nat (j - i))
                 else cell_raw bufs h j).
  { intros j Hj. rewrite Hbufs3.
    apply (cell_raw_store_raws h [lo; hi] bufs i j); [lia | cbn [length]; lia | exact Hraws
                                                       | exact Hj]. }
  destruct (Hcells i Hi0) as [Hlen Hc0]. destruct (Hcells (i + 1) ltac:(lia)) as [_ Hc1].
  destruct (decide (i <= i < i + 2)) as [_ |]; [| lia].
  destruct (decide (i <= i + 1 < i + 2)) as [_ |]; [| lia].
  replace (Z.to_nat (i - i)) with 0%nat in Hc0 by lia.
  replace (Z.to_nat (i + 1 - i)) with 1%nat in Hc1 by lia. cbn in Hc0, Hc1.
  unfold readBigUint128LE. rewrite (bind_ret _ _ _ _ _ Hheap3). cbv zeta.
  rewrite (bind_ret _ _ _ _ _ (get_limb h _ i st3 Hk Hint0 Hto0 ltac:(rewrite Hlen; lia))).
  rewrite (bind_ret _ _ _ _ _
             (get_limb h _ (i + 1) st3 Hk Hint1 Hto1 ltac:(rewrite Hlen; lia))).
  rewrite Hc0, Hc1. unfold lift. cbn [BigInt_op obind].
  rewrite lor_limbs by (try lia; apply Z.mod_pos_bound; reflexivity).
  unfold lo, hi. rewrite mask_limb, Z.shiftr_div_pow2 by lia. rewrite two_limbs.
  reflexivity.
Qed.

Lemma four_limbs z :
  z mod 2 ^ 64 + (z / 2 ^ 64) mod 2 ^ 64 * 2 ^ 64
  + (z / 2 ^ 128) mod 2 ^ 64 * 2 ^ 128 + (z / 2 ^ 192) mod 2 ^ 64 * 2 ^ 192
  = z mod 2 ^ 256.
Proof.
  change (2 ^ 256) with (2 ^ 64 * (2 ^ 64 * (2 ^ 64 * 2 ^ 64))).
  rewrite (Z.rem_mul_r z) by lia.
  rewrite (Z.rem_mul_r (z / 2 ^ 64)) by lia.
  rewrite (Z.rem_mul_r (z / 2 ^ 64 / 2 ^ 64)) by lia.
  rewrite !Z.div_div by lia.
  change (2 ^ 64 * 2 ^ 64) with (2 ^ 128).
  change (2 ^ 128 * 2 ^ 64) with (2 ^ 192).
  lia.
Qed.

(** [writeBigUint256LE] and then [readBigUint256LE], with four cells
    inside the view: the read returns the value modulo 2^256. *)
Theorem BigUint256_round_trip address value (st : @State Env) h st1 :
  ta_kind h = BigUint64 ->
  heapBigUint64 st = (Ret h, st1) ->
  in_bounds (buffers (world st1)) h address ->
  address / 8 + 3 < TypedArrayLength (buffers (world st1)) h ->
  let st2 := state_after (writeBigUint256LE address value) st in
  outcome_of (writeBigUint256LE address value) st = Ret tt
  /\ forall st3,
       heapBigUint64 st2 = (Ret h, st3) ->
       buffers (world st3) = buffers (world st2) ->
       readBigUint256LE address st2 = (Ret (BigInt (value mod 2 ^ 256)), st3).
Proof.
  intros Hk Hheap (Ha & Hal & Hlt) Hnext. rewrite Hk in Hal, Hlt. cbn in Hal, Hlt.
  set (i := address / 8) in *.
  assert (Hi0 : 0 <= i) by (apply Z.div_pos; lia).
  destruct (aligned_index address 8 ltac:(lia) Ha Hal) as [Hint0 Hto0].
  destruct (next_index address 8 1 ltac:(lia) Ha Hal ltac:(lia)) as [Hint1 Hto1].
  destruct (next_index address 8 2 ltac:(lia) Ha Hal ltac:(lia)) as [Hint2 Hto2].
  destruct (next_index address 8 3 ltac:(lia) Ha Hal ltac:(lia)) as [Hint3 Hto3].
  fold i in Hto0, Hto1, Hto2, Hto3.
  set (bufs := buffers (world st1)) in *.
  set (l0 := Z.land value 0xffffffffffffffff mod 2 ^ 64).
  set (l1 := Z.land (Z.shiftr value 64) 0xffffffffffffffff mod 2 ^ 64).
  set (l2 := Z.land (Z.shiftr value 128) 0xffffffffffffffff mod 2 ^ 64).
  set (l3 := Z.land (Z.shiftr value 192) 0xffffffffffffffff mod 2 ^ 64).
  set (s1 := set_buffers (store_raw bufs h i l0) st1).
  assert (HL1 : TypedArrayLength (buffers (world s1)) h = TypedArrayLength bufs h).
  { unfold s1. cbn [set_buffers set_world world buffers].
    apply TypedArrayLength_store_raw. lia. }
  set (s2 := set_buffers (store_raw (buffers (world s1)) h (i + 1) l1) s1).
  assert (HL2 : TypedArrayLength (buffers (world s2)) h = TypedArrayLength bufs h).
  { unfold s2. cbn [set_buffers set_world world buffers].
    rewrite TypedArrayLength_store_raw by (rewrite HL1; lia). exact HL1. }
  set (s3 := set_buffers (store_raw (buffers (world s2)) h (i + 2) l2) s2).
  assert (HL3 : TypedArrayLength (buffers (world s3)) h = TypedArrayLength bufs h).
  { unfold s3. cbn [set_buffers set_world world buffers].
    rewrite TypedArrayLength_store_raw by (rewrite HL2; lia). exact HL2. }
  set (s4 := set_buffers (store_raw (buffers (world s3)) h (i + 3) l3) s3).
  assert (Hwrite :
    exists st2', writeBigUint256LE address value st = (Ret tt, st2')
                 /\ buffers (world st2') = store_raws bufs h i [l0; l1; l2; l3]).
  { exists s4. split.
    - unfold writeBigUint256LE. rewrite (bind_ret _ _ _ _ _ Hheap). cbv zeta.
      rewrite (bind_ret _ _ _ _ _
                 (set_limb h _ i _ st1 Hk Hint0 Hto0 ltac:(fold bufs; lia))).
      fold bufs. fold l0. fold s1.
      rewrite (bind_ret _ _ _ _ _
                 (set_limb h _ (i + 1) _ s1 Hk Hint1 Hto1 ltac:(rewrite HL1; lia))).
      fold l1. fold s2.
      rewrite (bind_ret _ _ _ _ _
                 (set_limb h _ (i + 2) _ s2 Hk Hint2 Hto2 ltac:(rewrite HL2; lia))).
      fold l2. fold s3.
      rewrite (set_limb h _ (i + 3) _ s3 Hk Hint3 Hto3 ltac:(rewrite HL3; lia)).
      reflexivity.
    - unfold s4, s3, s2, s1. cbn [set_buffers set_world world buffers store_raws].
      replace (i + 1 + 1) with (i + 2) by lia.
      replace (i + 2 + 1) with (i + 3) by lia. reflexivity. }
  destruct Hwrite as (st2' & Hwrite & Hbufs2).
  intros st2. subst st2. unfold outcome_of, state_after. rewrite Hwrite. cbn [fst snd].
  split; [reflexivity |].
  intros st3 Hheap3 Hbufs3. rewrite Hbufs2 in Hbufs3.
  assert (Hraws : Forall (fun r => 0 <= r < 2 ^ (8 * BYTES_PER_ELEMENT (ta_kind h)))
                    [l0; l1; l2; l3]).
  { rewrite Hk. repeat constructor; apply limb_range. }
  assert (Hcells : forall j, 0 <= j ->
            TypedArrayLength (buffers (world st3)) h = TypedArrayLength bufs h
            /\ cell_raw (buffers (world st3)) h j
               = if decide (i <= j < i + 4)
                 then default 0 ([l0; l1; l2; l3] !! Z.to_nat (j - i))
                 else cell_raw bufs h j).
  { intros j Hj. rewrite Hbufs3.
    apply (cell_raw_store_raws h [l0; l1; l2; l3] bufs i j);
      [lia | cbn [length]; lia | exact Hraws | exact Hj]. }
  destruct (Hcells i Hi0) as [Hlen Hc0].
  destruct (Hcells (i + 1) ltac:(lia)) as [_ Hc1].
  destruct (Hcells (i + 2) ltac:(lia)) as [_ Hc2].
  destruct (Hcells (i + 3) ltac:(lia)) as [_ Hc3].
  destruct (decide (i <= i < i + 4)) as [_ |]; [| lia].
  destruct (decide (i <= i + 1 < i + 4)) as [_ |]; [| lia].
  destruct (decide (i <= i + 2 < i + 4)) as [_ |]; [| lia].
  destruct (decide (i <= i + 3 < i + 4)) as [_ |]; [| lia].
  replace (Z.to_nat (i - i)) with 0%nat in Hc0 by lia.
  replace (Z.to_nat (i + 1 - i)) with 1%nat in Hc1 by lia.
  replace (Z.to_nat (i + 2 - i)) with 2%nat in Hc2 by lia.
  replace (Z.to_nat (i + 3 - i)) with 3%nat in Hc3 by lia.
  cbn in Hc0, Hc1, Hc2, Hc3.
  unfold readBigUint256LE. rewrite (bind_ret _ _ _ _ _ Hheap3). cbv zeta.
  rewrite (bind_ret _ _ _ _ _ (get_limb h _ i st3 Hk Hint0 Hto0 ltac:(rewrite Hlen; lia))).
  rewrite (bind_ret _ _ _ _ _
             (get_limb h _ (i + 1) st3 Hk Hint1 Hto1 ltac:(rewrite Hlen; lia))).
  rewrite (bind_ret _ _ _ _ _
             (get_limb h _ (i + 2) st3 Hk Hint2 Hto2 ltac:(rewrite Hlen; lia))).
  rewrite (bind_ret _ _ _ _ _
             (get_limb h _ (i + 3) st3 Hk Hint3 Hto3 ltac:(rewrite Hlen; lia))).
  rewrite Hc0, Hc1, Hc2, Hc3. unfold lift. cbn [BigInt_op obind].
  assert (H0 : 0 <= l0 < 2 ^ 64) by (apply Z.mod_pos_bound; reflexivity).
  assert (H1 : 0 <= l1 < 2 ^ 64) by (apply Z.mod_pos_bound; reflexivity).
  assert (H2 : 0 <= l2 < 2 ^ 64) by (apply Z.mod_pos_bound; reflexivity).
  rewrite (lor_limbs l0 l1 64) by lia.
  rewrite (lor_limbs (l0 + l1 * 2 ^ 64) l2 128) by lia.
  rewrite (lor_limbs (l0 + l1 * 2 ^ 64 + l2 * 2 ^ 128) l3 192) by lia.
  unfold l0, l1, l2, l3. rewrite !mask_limb, !Z.shiftr_div_pow2 by lia.
  rewrite four_limbs. reflexivity.
Qed.

End WideIntegers.

Lemma BigUint128_round_trip_witness :
  let st := arena_state 64 None in
  outcome_of (readBigUint128LE 8) (state_after (writeBigUint128LE 8 (2 ^ 100 + 5)) st)
  = Ret (BigInt (2 ^ 100 + 5))
  /\ outcome_of (readBigUint128LE 8) (state_after (writeBigUint128LE 8 (- 1)) st)
     = Ret (BigInt (2 ^ 128 - 1)).
Proof.
  intros st.
  assert (Hheap : heapBigUint64 st
                  = (Ret (whole_view BigUint64 1%nat 64), snd (heap BigUint64 st))).
  { apply run_ret. vm_compute. reflexivity. }
  assert (Hin : in_bounds (buffers (world (snd (heap BigUint64 st))))
                  (whole_view BigUint64 1%nat 64) 8)
    by (repeat split; vm_compute; congruence).
  assert (Hnext : 8 / 8 + 1
                  < TypedArrayLength (buffers (world (snd (heap BigUint64 st))))
                      (whole_view BigUint64 1%nat 64))
    by (vm_compute; reflexivity).
  split.
  - destruct (BigUint128_round_trip 8 (2 ^ 100 + 5) st (whole_view BigUint64 1%nat 64) _
                eq_refl Hheap Hin Hnext) as [_ Hr].
    unfold outcome_of.
    rewrite (Hr (snd (heap BigUint64 (state_after (writeBigUint128LE 8 (2 ^ 100 + 5)) st)))).
    + reflexivity.
    + apply run_ret. vm_compute. reflexivity.
    + vm_compute. reflexivity.
  - destruct (BigUint128_round_trip 8 (- 1) st (whole_view BigUint64 1%nat 64) _
                eq_refl Hheap Hin Hnext) as [_ Hr].
    unfold outcome_of.
    rewrite (Hr (snd (heap BigUint64 (state_after (writeBigUint128LE 8 (- 1)) st)))).
    + reflexivity.
    + apply run_ret. vm_compute. reflexivity.
    + vm_compute. reflexivity.
Defined.

Lemma BigUint256_round_trip_witness :
  let st := arena_state 64 None in
  outcome_of (readBigUint256LE 16)
    (state_after (writeBigUint256LE 16 (2 ^ 200 + 2 ^ 70 + 9)) st)
  = Ret (BigInt (2 ^ 200 + 2 ^ 70 + 9)).
Proof.
  intros st.
  assert (Hheap : heapBigUint64 st
                  = (Ret (whole_view BigUint64 1%nat 64), snd (heap BigUint64 st))).
  { apply run_ret. vm_compute. reflexivity. }
  assert (Hin : in_bounds (buffers (world (snd (heap BigUint64 st))))
                  (whole_view BigUint64 1%nat 64) 16)
    by (repeat split; vm_compute; congruence).
  assert (Hnext : 16 / 8 + 3
                  < TypedArrayLength (buffers (world (snd (heap BigUint64 st))))
                      (whole_view BigUint64 1%nat 64))
    by (vm_compute; reflexivity).
  destruct (BigUint256_round_trip 16 (2 ^ 200 + 2 ^ 70 + 9) st
              (whole_view BigUint64 1%nat 64) _ eq_refl Hheap Hin Hnext) as [_ Hr].
  unfold outcome_of.
  rewrite (Hr (snd (heap BigUint64
                      (state_after (writeBigUint256LE 16 (2 ^ 200 + 2 ^ 70 + 9)) st)))).
  - reflexivity.
  - apply run_ret. vm_compute. reflexivity.
  - vm_compute. reflexivity.
Defined.

(** ** Pointers of 53 bits *)

Lemma BigIntOf_of_Z z : BigIntOf (Number (of_Z z)) = Ret z.
Proof.
  pose proof (truncate_of_Z z) as Ht.
  destruct z as [| p | p]; [reflexivity | |]; cbn [of_Z] in *.
  - destruct (dyadic_spec false p 0) as (m & e & Hd & _ & He & _).
    rewrite Hd in *. cbn [BigIntOf].
    destruct (Z.leb_spec 0 e); [rewrite Ht; reflexivity | lia].
  - destruct (dyadic_spec true p 0) as (m & e & Hd & _ & He & _).
    rewrite Hd in *. cbn [BigIntOf].
    destruct (Z.leb_spec 0 e); [rewrite Ht; reflexivity | lia].
Qed.

Section Pointer53.

Context {Env : Type}.

(** [writePointer53] and then [readPointer53]: an address below 2^53 comes
    back as it was written.  A number that is no integer (or is NaN or an infinity) is refused with a
    RangeError before the heap is looked at. *)
Theorem Pointer53_round_trip address z (st : @State Env) h st1 :
  0 <= z < 2 ^ 53 ->
  ta_kind h = BigUint64 ->
  heapBigUint64 st = (Ret h, st1) ->
  in_bounds (buffers (world st1)) h address ->
  let st2 := state_after (writePointer53 address (Number (of_Z z))) st in
  outcome_of (writePointer53 address (Number (of_Z z))) st = Ret tt
  /\ (forall st3,
        heapBigUint64 st2 = (Ret h, st3) ->
        buffers (world st3) = buffers (world st2) ->
        readPointer53 address st2 = (Ret (Number (of_Z z)), st3))
  /\ (forall n,
        match n with
        | Finite _ m e => odd_pos m = true /\ e < 0
        | Zero _ => False
        | _ => True
        end ->
        writePointer53 address (Number n) st = (Throw RangeError, st)).
Proof.
  intros Hz Hk Hheap Hin.
  assert (Hrep : representable BigUint64 (BigInt z)).
  { exists z. split; [lia | reflexivity]. }
  destruct (plain_round_trip BigUint64 (BigInt z) address st h st1 Hrep Hk Hheap Hin)
    as (st2' & Hwrite & Hread).
  assert (Hw : writePointer53 address (Number (of_Z z)) st = (Ret tt, st2')).
  { unfold writePointer53. rewrite (bind_lift_ret _ _ _ _ (BigIntOf_of_Z z)). exact Hwrite. }
  intros st2. subst st2. unfold outcome_of, state_after. rewrite Hw. cbn [fst snd].
  split; [reflexivity |]. split.
  - intros st3 Hheap3 Hbufs3. unfold readPointer53.
    rewrite (bind_ret _ _ _ _ _ (Hread st3 Hheap3 Hbufs3)).
    unfold ret. cbn [NumberOf].
    rewrite round_to_in_format by (apply safe_integer_in_format; lia). reflexivity.
  - intros n Hn. unfold writePointer53, bind, lift.
    destruct n as [| s | s | s m e]; cbn [BigIntOf]; try reflexivity; [contradiction |].
    destruct Hn as [_ He]. destruct (Z.leb_spec 0 e); [lia | reflexivity].
Qed.

End Pointer53.

Lemma Pointer53_round_trip_witness :
  let st := arena_state 64 None in
  outcome_of (readPointer53 8) (state_after (writePointer53 8 (Number (of_Z 4096))) st)
  = Ret (Number (of_Z 4096))
  /\ outcome_of (writePointer53 8 (Number (Finite false 3 (-1)))) st = Throw RangeError.
Proof.
  intros st.
  assert (Hheap : heapBigUint64 st
                  = (Ret (whole_view BigUint64 1%nat 64), snd (heap BigUint64 st))).
  { apply run_ret. vm_compute. reflexivity. }
  assert (Hin : in_bounds (buffers (world (snd (heap BigUint64 st))))
                  (whole_view BigUint64 1%nat 64) 8)
    by (repeat split; vm_compute; congruence).
  destruct (Pointer53_round_trip 8 4096 st (whole_view BigUint64 1%nat 64) _
              ltac:(lia) eq_refl Hheap Hin) as (_ & Hr & Hrefused).
  split.
  - unfold outcome_of.
    rewrite (Hr (snd (heap BigUint64
                        (state_after (writePointer53 8 (Number (of_Z 4096))) st)))).
    + reflexivity.
    + apply run_ret. vm_compute. reflexivity.
    + vm_compute. reflexivity.
  - unfold outcome_of. rewrite (Hrefused (Finite false 3 (-1))); [reflexivity | split; [reflexivity | lia]].
Defined.

(** ** A string wrapped without a maximum *)

Lemma first_zero_take l n : first_zero l = Some n -> first_zero (take n l) = None.
Proof.
  revert n. induction l as [| x l IH]; intros n; cbn [first_zero]; [discriminate |].
  destruct (x =? 0) eqn:Hx.
  - intros Heq. inversion Heq; subst. reflexivity.
  - destruct (first_zero l) as [m |] eqn:Hl; cbn; [| discriminate].
    intros Heq. inversion Heq; subst. cbn [take first_zero]. rewrite Hx.
    rewrite (IH m eq_refl). reflexivity.
Qed.

Lemma scanned_span_take bufs h start n :
  (n <= length (scanned_span bufs h start None))%nat ->
  scanned_span bufs h start (Some (Z.of_nat n)) = take n (scanned_span bufs h start None).
Proof.
  unfold scanned_span. cbv zeta. rewrite length_map, length_seq. intros Hn.
  rewrite firstn_map, take_seq. f_equal. f_equal. lia.
Qed.

Section WrappedStrings.

Context {Env : Type} `{Encodings}.

Lemma width_of_encoding enc :
  bytesPerElement enc = 1 \/ bytesPerElement enc = 2 \/ bytesPerElement enc = 4.
Proof. destruct enc; cbn; auto. Qed.

Lemma wrapNullTerminated_eq enc address maxElementCount :
  @wrapNullTerminated Env _ enc address maxElementCount
  = bind (match maxElementCount with
          | Some m => ret m
          | None =>
              getElementCountOfNullTerminatedString address (bytesPerElement enc) None
          end)
      (fun m => new_ref (NullTerminatedStringRef enc) address m).
Proof. destruct enc; reflexivity. Qed.

Lemma StringRef_read_scan (st : @State Env) id r enc e st' :
  refs st !! id = Some r -> address r <> 0 -> class r = NullTerminatedStringRef enc ->
  getElementCountOfNullTerminatedString (address r) (bytesPerElement enc)
    (Some (elementCount r)) st = (Throw e, st') ->
  StringRef_read id st = (Throw e, st')
  /\ encodedElementCount id st = (Throw e, st').
Proof.
  intros Hr Ha Hc Hscan.
  assert (Hlive : live st id) by (exists r; split; assumption).
  split.
  - unfold StringRef_read.
    rewrite (bind_ret _ _ _ _ _ (assertNotFreed_live st id Hlive)).
    rewrite (bind_ret _ _ _ _ _ (this_run st id r Hr)). rewrite Hc.
    destruct enc; cbn [bytesPerElement] in Hscan;
      [unfold readNullTerminatedAsciiString | unfold readNullTerminatedUtf8String
       | unfold readNullTerminatedUtf16String | unfold readNullTerminatedUtf32String];
      apply (bind_throw _ _ _ _ _ Hscan).
  - unfold encodedElementCount.
    rewrite (bind_ret _ _ _ _ _ (assertNotFreed_live st id Hlive)).
    rewrite (bind_ret _ _ _ _ _ (this_run st id r Hr)). rewrite Hc. exact Hscan.
Qed.

(** A string reference wrapped without a maximum gets the element count
    of the string, the terminator not counted, as its capacity.  Its scans
    stop at that capacity, one element short of the terminator: [read] and
    [encodedElementCount] throw NullTerminatorNotFound, for each of the
    four encodings, while the heap stays as it was. *)
Theorem wrapped_without_a_maximum_is_not_readable enc a (st : @State Env) h st1 n :
  let w := bytesPerElement enc in
  heap (unsigned_kind w) st = (Ret h, st1) ->
  ta_kind h = unsigned_kind w ->
  IsTypedArrayOutOfBounds (buffers (world st1)) h = false ->
  0 < a -> a mod w = 0 ->
  first_zero (scanned_span (buffers (world st1)) h (a / w) None) = Some n ->
  let id := length (refs st1) in
  let st2 := state_after (wrapNullTerminated enc a None) st in
  outcome_of (wrapNullTerminated enc a None) st = Ret id
  /\ refs st2 !! id
     = Some {| class := NullTerminatedStringRef enc; address := a;
               elementCount := Z.of_nat n |}
  /\ forall st3,
       heap (unsigned_kind w) st2 = (Ret h, st3) ->
       buffers (world st3) = buffers (world st1) ->
       StringRef_read id st2 = (Throw NullTerminatorNotFound, st3)
       /\ encodedElementCount id st2 = (Throw NullTerminatorNotFound, st3).
Proof.
  intros w Hheap Hk Ho Ha Hal Hzero id st2.
  pose proof (getElementCount_run a w None st h st1 (width_of_encoding enc)
                Hheap Hk Ho ltac:(lia) Hal ltac:(discriminate)) as Hscan.
  rewrite Hzero in Hscan.
  assert (Hwrap : wrapNullTerminated enc a None st
                  = (Ret id,
                     set_refs (refs st1 ++ [{| class := NullTerminatedStringRef enc;
                                               address := a;
                                               elementCount := Z.of_nat n |}]) st1)).
  { rewrite wrapNullTerminated_eq. fold w. rewrite (bind_ret _ _ _ _ _ Hscan). reflexivity. }
  subst st2. unfold outcome_of, state_after. rewrite Hwrap. cbn [fst snd].
  split; [reflexivity |].
  assert (Hid : refs (set_refs (refs st1 ++ [{| class := NullTerminatedStringRef enc;
                                                address := a;
                                                elementCount := Z.of_nat n |}]) st1) !! id
                = Some {| class := NullTerminatedStringRef enc; address := a;
                          elementCount := Z.of_nat n |}).
  { cbn [refs set_refs]. apply list_lookup_middle. reflexivity. }
  split; [exact Hid |].
  intros st3 Hheap3 Hbufs3.
  apply (StringRef_read_scan _ id _ enc _ _ Hid); cbn [address class elementCount];
    [lia | reflexivity |].
  fold w.
  rewrite (getElementCount_run a w (Some (Z.of_nat n)) _ h st3
             (width_of_encoding enc) Hheap3 Hk);
    [| rewrite Hbufs3; exact Ho | lia | exact Hal | intros m Hm; inversion Hm; lia].
  rewrite Hbufs3.
  rewrite scanned_span_take by (apply Nat.lt_le_incl, first_zero_lt; exact Hzero).
  rewrite (first_zero_take _ n Hzero). reflexivity.
Qed.

End WrappedStrings.

Lemma wrapped_without_a_maximum_is_not_readable_witness :
  let st := state_after (writeNullTerminatedAsciiString 8 abc) (arena_state 64 None) in
  outcome_of (readNullTerminatedAsciiString 8 None) st = Ret abc
  /\ outcome_of (wrapNullTerminated Ascii 8 None) st = Ret 0%nat
  /\ outcome_of (StringRef_read 0%nat)
       (state_after (wrapNullTerminated Ascii 8 None) st)
     = Throw NullTerminatorNotFound.
Proof.
  intros st.
  split; [vm_compute; reflexivity |].
  assert (Hheap : heap (unsigned_kind (bytesPerElement Ascii)) st
                  = (Ret (whole_view Uint8 1%nat 64), snd (heap Uint8 st))).
  { apply (pair_of_fst (heap Uint8 st)). vm_compute. reflexivity. }
  assert (Hrefs : length (refs (snd (heap Uint8 st))) = 0%nat) by (vm_compute; reflexivity).
  destruct (wrapped_without_a_maximum_is_not_readable Ascii 8 st
              (whole_view Uint8 1%nat 64) (snd (heap Uint8 st)) 3 Hheap eq_refl)
    as (Hid & _ & Hread).
  - vm_compute. reflexivity.
  - lia.
  - reflexivity.
  - vm_compute. reflexivity.
  - rewrite Hrefs in Hid. split; [exact Hid |].
    destruct (Hread (snd (heap Uint8 (state_after (wrapNullTerminated Ascii 8 None) st))))
      as [Hr _].
    + apply (pair_of_fst (heap Uint8 (state_after (wrapNullTerminated Ascii 8 None) st))).
      vm_compute. reflexivity.
    + vm_compute. reflexivity.
    + rewrite Hrefs in Hr. unfold outcome_of. rewrite Hr. reflexivity.
Defined.

(** ** The address 0 *)

Section AddressZero.

Context {Env : Type} `{Encodings}.

Lemma new_ref_run c a n (st : @State Env) :
  new_ref c a n st
  = (Ret (length (refs st)),
     set_refs (refs st ++ [{| class := c; address := a; elementCount := n |}]) st).
Proof. reflexivity. Qed.

Lemma new_ref_lookup c a n (st : @State Env) :
  refs (snd (new_ref c a n st)) !! length (refs st)
  = Some {| class := c; address := a; elementCount := n |}.
Proof. rewrite new_ref_run. cbn [snd refs set_refs]. apply list_lookup_middle. reflexivity. Qed.

(** The address 0 is the mark of a freed reference, so no reference can
    stand for a cell at address 0: wrapped there, a reference is freed from
    the start, its guarded methods throw and [free] never reaches the
    deallocator.  And where the allocator returns 0, allocating a number
    with an initial value throws the use-after-free error at the initial
    write, with the reference already made. *)
Theorem address_0_is_the_freed_mark :
  (forall c n (st : @State Env),
     let id := length (refs st) in
     let st' := state_after (new_ref c 0 n) st in
     outcome_of (new_ref c 0 n) st = Ret id
     /\ isFreed id st' = (Ret true, st')
     /\ Ref_free id None st' = (Ret tt, st')
     /\ NumericRef_read id st' = (Throw UseAfterFree, st')
     /\ (forall v, NumericRef_write id v st' = (Throw UseAfterFree, st'))
     /\ StringRef_read id st' = (Throw UseAfterFree, st')
     /\ view id st' = (Throw UseAfterFree, st'))
  /\ (forall k address, @wrapNumeric Env k address = new_ref (NumericRef k) address 0)
  /\ (forall k address n, @wrapArray Env k address n = new_ref (TypedArrayRef k) address n)
  /\ (forall enc address n,
        @wrapNullTerminated Env _ enc address (Some n)
        = bind (ret n) (fun m => new_ref (NullTerminatedStringRef enc) address m))
  /\ (forall k v (st st1 : @State Env),
        alloc (BYTES_PER_ELEMENT k) st = (Ret 0, st1) ->
        allocNumeric k (Some v) st
        = (Throw UseAfterFree,
           set_refs (refs st1 ++ [{| class := NumericRef k; address := 0;
                                     elementCount := 0 |}]) st1)).
Proof.
  split; [| split; [reflexivity | split; [reflexivity | split]]].
  - intros c n st id st'.
    assert (Hf : freed st' id).
    { eexists. split; [apply new_ref_lookup | reflexivity]. }
    split; [reflexivity |].
    split; [rewrite (isFreed_run st' id _ (new_ref_lookup c 0 n st)); reflexivity |].
    split.
    { unfold Ref_free.
      rewrite (bind_ret _ _ _ _ _ (this_run st' id _ (new_ref_lookup c 0 n st))).
      cbn [class].
      destruct c; apply (HeapRef_free_freed st' id Hf). }
    split; [apply (guarded_throws _ st' id Hf) |].
    split; [intros v; apply (guarded_throws _ st' id Hf) |].
    split; apply (guarded_throws _ st' id Hf).
  - intros enc address n. exact (wrapNullTerminated_eq enc address (Some n)).
  - intros k v st st1 Halloc. unfold allocNumeric.
    rewrite (bind_ret _ _ _ _ _ Halloc). unfold wrapNumeric.
    rewrite (bind_ret _ _ _ _ _ (new_ref_run _ _ _ st1)).
    set (st2 := set_refs _ st1).
    assert (Hf : freed st2 (length (refs st1))).
    { eexists. split; [exact (new_ref_lookup (NumericRef k) 0 0 st1) | reflexivity]. }
    apply bind_throw. apply (guarded_throws _ st2 _ Hf).
Qed.

End AddressZero.

Lemma address_0_is_the_freed_mark_witness :
  outcome_of (alloc 4) failing_manager = Ret 0
  /\ outcome_of (allocNumeric Int32 (Some (Number (of_Z 7)))) failing_manager
     = Throw UseAfterFree.
Proof.
  split; [vm_compute; reflexivity |].
  destruct (@address_0_is_the_freed_mark unit _) as (_ & _ & _ & _ & Halloc).
  unfold outcome_of.
  rewrite (Halloc Int32 (Number (of_Z 7)) failing_manager (snd (alloc 4 failing_manager))).
  - reflexivity.
  - apply (pair_of_fst (alloc 4 failing_manager)). vm_compute. reflexivity.
Defined.

(** ** A UTF-8 write stays within its capacity *)

Section Utf8Capacity.

Context {Env : Type} `{Encodings}.

Lemma unchanged_outside_refl b0 lo hi (st : @State Env) : unchanged_outside b0 lo hi st st.
Proof. repeat split. Qed.

Lemma unchanged_outside_trans b0 lo hi (st1 st2 st3 : @State Env) :
  unchanged_outside b0 lo hi st1 st2 -> unchanged_outside b0 lo hi st2 st3 ->
  unchanged_outside b0 lo hi st1 st3.
Proof.
  intros (Hl1 & Hm1 & Hr1 & Ht1 & Hb1) (Hl2 & Hm2 & Hr2 & Ht2 & Hb2).
  split; [congruence |]. split; [congruence |]. split; [congruence |]. split.
  - intros ta. rewrite Ht2. apply Ht1.
  - intros b j Hout. rewrite (Hb2 b j Hout). apply Hb1. exact Hout.
Qed.

Lemma ta_subarray_run ta b e (st : @State Env) :
  ta_subarray ta b e st = (subarray (buffers (world st)) ta b e, st).
Proof. reflexivity. Qed.

(** One store through a view of bytes. *)
Lemma set_element_within b0 lo hi ta idx v (st : @State Env) :
  ta_kind ta = Uint8 -> ta_buffer ta = b0 ->
  (IsValidIntegerIndex (buffers (world st)) ta idx = true ->
   lo <= byte_position ta (ToIntegerOrInfinity idx) < hi) ->
  unchanged_outside b0 lo hi st (snd (set_element ta idx v st)).
Proof.
  intros Hk Hb Hrange. unfold set_element, bind, gets, lift, modify, TypedArraySetElement.
  destruct (to_raw (ta_kind ta) v) as [raw | e]; cbn [obind]; [| apply unchanged_outside_refl].
  destruct (IsValidIntegerIndex (buffers (world st)) ta idx) eqn:Hv;
    cbn [snd]; [| destruct st as [[bufs e] l m r]; repeat split].
  specialize (Hrange eq_refl).
  assert (Hi : 0 <= ToIntegerOrInfinity idx < TypedArrayLength (buffers (world st)) ta).
  { unfold IsValidIntegerIndex in Hv.
    apply andb_true_iff in Hv. destruct Hv as [Hv Hlt].
    apply andb_true_iff in Hv. destruct Hv as [_ Hle].
    apply Z.leb_le in Hle. apply Z.ltb_lt in Hlt. lia. }
  destruct (valid_index_in_data _ ta _ Hi) as (_ & Hp & _).
  split; [reflexivity |]. split; [reflexivity |]. split; [reflexivity |]. split.
  - intros ta'. cbn [set_buffers set_world world buffers].
    apply TypedArrayLength_store_raw. exact Hi.
  - intros b j Hout. unfold heap_byte. cbn [set_buffers set_world world buffers].
    rewrite (store_raw_Uint8_lookup _ ta _ raw b j Hk Hi).
    destruct (decide _) as [[Hbb Hj] |]; [| reflexivity].
    exfalso. apply Hout. split; [congruence |]. subst j. rewrite Z2Nat.id by exact Hp. exact Hrange.
Qed.

Lemma whole_valid bufs ta i :
  IsValidIntegerIndex bufs ta (whole i) = true -> 0 <= i < TypedArrayLength bufs ta.
Proof.
  unfold IsValidIntegerIndex. destruct (whole_index i) as [_ ->].
  intros Hv. apply andb_true_iff in Hv. destruct Hv as [Hv Hlt].
  apply andb_true_iff in Hv. destruct Hv as [_ Hle].
  apply Z.leb_le in Hle. apply Z.ltb_lt in Hlt. lia.
Qed.

Lemma set_elements_within b0 lo hi ta es : forall i (st : @State Env),
  ta_kind ta = Uint8 -> ta_buffer ta = b0 ->
  (forall j, 0 <= j < TypedArrayLength (buffers (world st)) ta ->
             lo <= byte_position ta j < hi) ->
  fst (set_elements ta i es st) = Ret tt
  /\ unchanged_outside b0 lo hi st (snd (set_elements ta i es st)).
Proof.
  induction es as [| e es IH]; intros i st Hk Hb Hspan; cbn [set_elements].
  - split; [reflexivity | apply unchanged_outside_refl].
  - assert (Hstep : unchanged_outside b0 lo hi st
                      (snd (set_element ta (whole i) (Number (of_Z e)) st))).
    { apply set_element_within; [exact Hk | exact Hb |].
      intros Hv. destruct (whole_index i) as [_ ->]. apply Hspan.
      apply whole_valid. exact Hv. }
    assert (Hret : fst (set_element ta (whole i) (Number (of_Z e)) st) = Ret tt).
    { unfold set_element, bind, gets, lift, modify, TypedArraySetElement.
      rewrite Hk. cbn [to_raw ToNumber obind].
      destruct (IsValidIntegerIndex _ _ _); reflexivity. }
    unfold bind.
    destruct (set_element ta (whole i) (Number (of_Z e)) st) as [[[] | err] st'] eqn:Hset;
      cbn [fst snd] in *; [| discriminate].
    destruct (IH (i + 1) st' Hk Hb) as [IHret IHout].
    + intros j Hj. apply Hspan. rewrite <- (proj1 (proj2 (proj2 (proj2 Hstep))) ta). exact Hj.
    + split; [exact IHret |]. exact (unchanged_outside_trans _ _ _ _ _ _ Hstep IHout).
Qed.

(** [writeNullTerminatedUtf8String(address, value, maxElementCount)]
    changes no byte outside the [maxElementCount] bytes from [address] on:
    the encoder gets the region short of one byte, and the terminator
    follows what it wrote.  The encoder has to report no more elements than
    the region it was given holds, as [TextEncoder.encodeInto] does.  The
    write of a UTF-8 string reference is this write with the capacity of
    the reference as the maximum. *)
Theorem Utf8_write_stays_within_its_capacity a value maxElementCount
    (st : @State Env) h st1 :
  (forall v c, 0 <= c -> Z.of_nat (length (fst (encodeUtf8Into v c))) <= c) ->
  ta_kind h = Uint8 ->
  heapUint8 st = (Ret h, st1) ->
  0 <= a -> 1 <= maxElementCount ->
  unchanged_outside (ta_buffer h)
    (ta_byteOffset h + a) (ta_byteOffset h + a + maxElementCount)
    st1 (state_after (writeNullTerminatedUtf8String a value maxElementCount) st)
  /\ (forall id r (st0 : @State Env),
        refs st0 !! id = Some r -> address r <> 0 ->
        class r = NullTerminatedStringRef Utf8 ->
        StringRef_write id value st0
        = bind (writeNullTerminatedUtf8String (address r) value (elementCount r))
            (fun _ => ret tt) st0).
Proof.
  intros Hencoder Hk Hheap Ha Hmax. split.
  2: { intros id r st0 Hr Hlive Hc. unfold StringRef_write.
       rewrite (bind_ret _ _ _ _ _ (assertNotFreed_live st0 id (ex_intro _ r (conj Hr Hlive)))).
       rewrite (bind_ret _ _ _ _ _ (this_run st0 id r Hr)). rewrite Hc. reflexivity. }
  unfold state_after, writeNullTerminatedUtf8String.
  rewrite (bind_ret _ _ _ _ _ Hheap).
  set (lo := ta_byteOffset h + a). set (hi := lo + maxElementCount).
  set (bufs := buffers (world st1)).
  unfold bind at 1. rewrite ta_subarray_run. fold bufs.
  destruct (subarray bufs h (whole a) (Some (whole (a + maxElementCount - 1))))
    as [region | err] eqn:Hsub; [| apply unchanged_outside_refl].
  unfold subarray in Hsub. cbv zeta in Hsub.
  destruct (IsDetachedBuffer bufs (ta_buffer h)); [discriminate |].
  destruct (whole_index a) as [_ Hwa].
  destruct (whole_index (a + maxElementCount - 1)) as [_ Hwe].
  rewrite Hwa, Hwe in Hsub.
  set (L := TypedArrayLength bufs h) in *.
  assert (HL : 0 <= L).
  { unfold L, TypedArrayLength. destruct (IsTypedArrayOutOfBounds bufs h) eqn:Ho; [lia |].
    apply (in_bounds_view bufs h Ho). }
  unfold relative_index in Hsub.
  destruct (Z.ltb_spec a 0) as [| _]; [lia |].
  destruct (Z.ltb_spec (a + maxElementCount - 1) 0) as [| _]; [lia |].
  injection Hsub as Hregion.
  set (capacity := TypedArrayLength bufs region).
  assert (Hcap : 0 <= capacity
                 /\ (0 < capacity -> Z.min a L = a /\ capacity <= maxElementCount - 1)).
  { unfold capacity, TypedArrayLength.
    destruct (IsTypedArrayOutOfBounds bufs region) eqn:Ho; [lia |].
    destruct (in_bounds_view bufs region Ho) as (_ & _ & _ & _ & Hlen0).
    rewrite <- Hregion in *. cbn [ta_length] in *. lia. }
  assert (Hspan : forall j, 0 <= j < TypedArrayLength (buffers (world st1)) region ->
                            lo <= byte_position region j < hi).
  { fold bufs. fold capacity. intros j Hj.
    destruct (proj2 Hcap ltac:(lia)) as [Hbegin Hle].
    unfold byte_position. rewrite <- Hregion. cbn [ta_byteOffset ta_kind].
    unfold byte_position. rewrite Hk. cbn [BYTES_PER_ELEMENT]. rewrite Hbegin.
    unfold lo, hi. lia. }
  assert (Hkr : ta_kind region = Uint8) by (rewrite <- Hregion; exact Hk).
  assert (Hbr : ta_buffer region = ta_buffer h) by (rewrite <- Hregion; reflexivity).
  unfold bind at 1. unfold encode_into. rewrite bind_gets. cbv beta.
  change (TypedArrayLength (buffers (world st1)) region) with capacity.
  pose proof (Hencoder value capacity (proj1 Hcap)) as Hwritten.
  destruct (encodeUtf8Into value capacity) as [es read] eqn:Henc.
  cbn [fst] in Hwritten.
  destruct (set_elements_within (ta_buffer h) lo hi region es 0 st1 Hkr Hbr Hspan)
    as [Hret Hout].
  unfold bind at 1.
  destruct (set_elements region 0 es st1) as [[[] | err] st2] eqn:Hset;
    cbn [fst snd] in *; [| discriminate].
  unfold ret at 1.
  destruct (read <? Z.of_nat (length value)); [exact Hout |].
  assert (Hterm : unchanged_outside (ta_buffer h) lo hi st2
                    (snd (set_element h (whole (a + Z.of_nat (length es)))
                            (Number (of_Z 0)) st2))).
  { apply set_element_within; [exact Hk | reflexivity |].
    intros Hv. apply whole_valid in Hv.
    destruct (whole_index (a + Z.of_nat (length es))) as [_ ->].
    rewrite (proj1 (proj2 (proj2 (proj2 Hout))) h) in Hv. fold bufs in Hv. fold L in Hv.
    unfold byte_position. rewrite Hk. cbn [BYTES_PER_ELEMENT]. unfold lo, hi.
    destruct (Z.eq_dec capacity 0) as [H0 | Hn0]; [lia |].
    destruct (proj2 Hcap ltac:(lia)). lia. }
  unfold bind at 1.
  destruct (set_element h (whole (a + Z.of_nat (length es))) (Number (of_Z 0)) st2)
    as [[[] | err] st3]; cbn [snd] in *;
    exact (unchanged_outside_trans _ _ _ _ _ _ Hout Hterm).
Qed.

End Utf8Capacity.

Lemma encode_while_fits_length f cps : forall capacity,
  0 <= capacity ->
  Z.of_nat (length (fst (encode_while_fits f cps capacity))) <= capacity.
Proof.
  induction cps as [| [cp n] cps IH]; intros capacity Hc; cbn [encode_while_fits].
  - cbn. lia.
  - cbv zeta. destruct (Z.leb_spec (Z.of_nat (length (f cp))) capacity) as [Hfit |].
    + specialize (IH (capacity - Z.of_nat (length (f cp))) ltac:(lia)).
      destruct (encode_while_fits f cps (capacity - Z.of_nat (length (f cp)))) as [es' read].
      cbn [fst] in *. rewrite length_app. lia.
    + cbn. lia.
Qed.

(** On the arena, with the encoder modelled from the specification: "abc"
    into a capacity of 2 at address 8. *)
Lemma Utf8_write_stays_within_its_capacity_witness :
  let st := dirty_arena 32 in
  let st' := state_after (writeNullTerminatedUtf8String 8 abc 2) st in
  outcome_of (writeNullTerminatedUtf8String 8 abc 2) st = Throw CapacityExceeded
  /\ heap_byte st' 1%nat 10 = Some Byte.xff
  /\ heap_byte st' 1%nat 7 = Some Byte.xff.
Proof.
  intros st st'.
  split; [vm_compute; reflexivity |].
  assert (Hheap : heapUint8 st = (Ret (whole_view Uint8 1%nat 32), snd (heap Uint8 st))).
  { apply run_ret. vm_compute. reflexivity. }
  destruct (@Utf8_write_stays_within_its_capacity ArrayBufferArenaAllocator spec_encodings
              8 abc 2 st (whole_view Uint8 1%nat 32) _
              (fun v c => encode_while_fits_length utf8_bytes (code_points v) c)
              eq_refl Hheap ltac:(lia) ltac:(lia)) as [(_ & _ & _ & _ & Hbytes) _].
  split.
  - fold st' in Hbytes. rewrite (Hbytes 1%nat 10%nat).
    + vm_compute. reflexivity.
    + cbn. lia.
  - fold st' in Hbytes. rewrite (Hbytes 1%nat 7%nat).
    + vm_compute. reflexivity.
    + cbn. lia.
Defined.

(** ** The explicit maximum of the UTF-16 and UTF-32 writes *)

Section ExplicitMaximum.

Context {Env : Type} `{Encodings}.

(** [writeNullTerminatedUtf16String] and [writeNullTerminatedUtf32String]
    with a maximum: a string with more UTF-16 code units than the maximum
    less one is refused before anything is stored; a maximum of 0 is no
    maximum at all; and a string that passes is written as without a
    maximum. *)
Theorem explicit_maximum_of_the_wide_writes address value maxElementCount :
  let n := Z.of_nat (length value) in
  (maxElementCount <> 0 -> maxElementCount < n + 1 ->
   (forall (st : @State Env) h st1,
      heapUint16 st = (Ret h, st1) ->
      writeNullTerminatedUtf16String address value (Some maxElementCount) st
      = (Throw CapacityExceeded, st1))
   /\ (forall (st : @State Env) h st1,
         heapUint32 st = (Ret h, st1) ->
         writeNullTerminatedUtf32String address value (Some maxElementCount) st
         = (Throw CapacityExceeded, st1)))
  /\ (maxElementCount = 0 \/ n + 1 <= maxElementCount ->
      @writeNullTerminatedUtf16String Env _ address value (Some maxElementCount)
      = writeNullTerminatedUtf16String address value None
      /\ @writeNullTerminatedUtf32String Env _ address value (Some maxElementCount)
         = writeNullTerminatedUtf32String address value None).
Proof.
  intros n. split.
  - intros Hnz Hlt.
    assert (Hex : exceeds (Some maxElementCount) n = true).
    { unfold exceeds. destruct (Z.eqb_spec maxElementCount 0); [contradiction |].
      destruct (Z.ltb_spec maxElementCount (n + 1)); [reflexivity | lia]. }
    split; intros st h st1 Hheap.
    + unfold writeNullTerminatedUtf16String. rewrite (bind_ret _ _ _ _ _ Hheap).
      cbv zeta. fold n. rewrite Hex. reflexivity.
    + unfold writeNullTerminatedUtf32String. rewrite (bind_ret _ _ _ _ _ Hheap).
      cbv zeta. fold n. rewrite Hex. reflexivity.
  - intros Hok.
    assert (Hex : exceeds (Some maxElementCount) n = false).
    { unfold exceeds. destruct (Z.eqb_spec maxElementCount 0); [reflexivity |].
      destruct (Z.ltb_spec maxElementCount (n + 1)); [lia | reflexivity]. }
    unfold writeNullTerminatedUtf16String, writeNullTerminatedUtf32String.
    cbv zeta. fold n. rewrite Hex. split; reflexivity.
Qed.

End ExplicitMaximum.

Lemma explicit_maximum_of_the_wide_writes_witness :
  let st := dirty_arena 32 in
  outcome_of (writeNullTerminatedUtf16String 8 abc (Some 3)) st = Throw CapacityExceeded
  /\ @writeNullTerminatedUtf16String ArrayBufferArenaAllocator _ 8 abc (Some 0)
     = writeNullTerminatedUtf16String 8 abc None.
Proof.
  intros st.
  destruct (@explicit_maximum_of_the_wide_writes ArrayBufferArenaAllocator _ 8 abc 3)
    as [Hrefused _].
  destruct Hrefused as [H16 _]; [lia | cbn; lia |].
  destruct (@explicit_maximum_of_the_wide_writes ArrayBufferArenaAllocator _ 8 abc 0)
    as [_ Hzero].
  split.
  - unfold outcome_of.
    rewrite (H16 st (whole_view Uint16 1%nat 32) (snd (heap Uint16 st))).
    + reflexivity.
    + apply run_ret. vm_compute. reflexivity.
  - apply Hzero. left. reflexivity.
Defined.

(** ** Strings through the heap *)

Lemma store_raws_app ta raws1 : forall bufs i raws2,
  store_raws bufs ta i (raws1 ++ raws2)
  = store_raws (store_raws bufs ta i raws1) ta (i + Z.of_nat (length raws1)) raws2.
Proof.
  induction raws1 as [| r raws1 IH]; intros bufs i raws2; cbn [store_raws app length].
  - rewrite Z.add_0_r. reflexivity.
  - rewrite IH. f_equal. lia.
Qed.

Lemma store_raw_through bufs ta ta' i i' raw :
  ta_kind ta' = ta_kind ta -> ta_buffer ta' = ta_buffer ta ->
  byte_position ta' i' = byte_position ta i ->
  store_raw bufs ta' i' raw = store_raw bufs ta i raw.
Proof. intros Hk Hb Hp. unfold store_raw. rewrite Hk, Hb, Hp. reflexivity. Qed.

Lemma store_raws_through ta ta' start raws : forall bufs i,
  ta_kind ta' = ta_kind ta -> ta_buffer ta' = ta_buffer ta ->
  (forall j, byte_position ta' j = byte_position ta (start + j)) ->
  store_raws bufs ta' i raws = store_raws bufs ta (start + i) raws.
Proof.
  induction raws as [| r raws IH]; intros bufs i Hk Hb Hp; cbn [store_raws]; [reflexivity |].
  rewrite (store_raw_through bufs ta ta' (start + i) i r Hk Hb (Hp i)).
  rewrite IH by assumption. f_equal. lia.
Qed.

Lemma subarray_of_cells bufs h address w m :
  IsTypedArrayOutOfBounds bufs h = false ->
  BYTES_PER_ELEMENT (ta_kind h) = w ->
  0 <= address -> address mod w = 0 -> 0 <= m ->
  address / w + m <= TypedArrayLength bufs h ->
  let region := {| ta_kind := ta_kind h; ta_buffer := ta_buffer h;
                   ta_byteOffset := byte_position h (address / w); ta_length := m |} in
  subarray bufs h (js_div address w) (Some (Index_add (js_div address w) m)) = Ret region
  /\ TypedArrayLength bufs region = m
  /\ forall j, byte_position region j = byte_position h (address / w + j).
Proof.
  intros Hoob Hw Ha Hal Hm Hfit region.
  destruct (in_bounds_view bufs h Hoob) as (Hd & Hoff & Hlen & HL & HLpos).
  assert (Hwpos : 0 < w) by (rewrite <- Hw; destruct (ta_kind h); simpl; lia).
  destruct (aligned_index address w Hwpos Ha Hal) as [_ Hto].
  destruct (next_index address w m Hwpos Ha Hal Hm) as [_ Hto'].
  assert (Hstart : 0 <= address / w) by (apply Z.div_pos; lia).
  rewrite HL in Hfit.
  split; [| split].
  - unfold subarray. cbv zeta. rewrite Hd, HL, Hto, Hto'. unfold relative_index.
    destruct (Z.ltb_spec (address / w) 0); [lia |].
    destruct (Z.ltb_spec (address / w + m) 0); [lia |].
    unfold region. f_equal. f_equal; [f_equal; lia | lia].
  - unfold TypedArrayLength, IsTypedArrayOutOfBounds, region.
    cbn [ta_buffer ta_byteOffset ta_length ta_kind]. rewrite Hd. cbn [orb].
    unfold byte_position. rewrite Hw in *.
    destruct (Z.ltb_spec (ta_byteOffset h + address / w * w) 0); [nia |].
    destruct (Z.ltb_spec m 0); [lia |]. cbn [orb].
    destruct (Z.ltb_spec (byteLength bufs (ta_buffer h))
                (ta_byteOffset h + address / w * w + m * w)); [nia | reflexivity].
  - intros j. unfold byte_position, region. cbn [ta_byteOffset ta_kind].
    unfold byte_position. lia.
Qed.

Section StringsThroughTheHeap.

Context {Env : Type} `{Encodings}.

Lemma heap_steady k (st : @State Env) :
  no_refresh_due st -> heap k st = (Ret (cachedHeapView (manager st) k), st).
Proof.
  intros Hq. unfold heap, bind. rewrite updateCacheIfNeeded_eq.
  destruct Hq as [Hn | [Hw Hpos]].
  - rewrite Hn. rewrite bool_decide_eq_true_2 by reflexivity. reflexivity.
  - rewrite Hw. rewrite (bool_decide_eq_true_2 (Some whenEmpty = Some whenEmpty)) by reflexivity.
    destruct (Z.ltb_spec 0 (byteLength (buffers (world st)) (cachedHeap (manager st))));
      [| lia].
    rewrite orb_true_r. reflexivity.
Qed.

Lemma same_but_contents_refl (st : @State Env) : same_but_contents st st.
Proof. repeat split. Qed.

Lemma same_but_contents_trans (st1 st2 st3 : @State Env) :
  same_but_contents st1 st2 -> same_but_contents st2 st3 -> same_but_contents st1 st3.
Proof.
  intros (Hl1 & Hm1 & Hr1 & He1 & Hb1) (Hl2 & Hm2 & Hr2 & He2 & Hb2).
  split; [congruence |]. split; [congruence |]. split; [congruence |].
  split; [congruence |].
  intros b. destruct (Hb1 b) as [E1 D1]. destruct (Hb2 b) as [E2 D2]. split; congruence.
Qed.

Lemma no_refresh_due_same (st st' : @State Env) :
  same_but_contents st st' -> no_refresh_due st -> no_refresh_due st'.
Proof.
  intros (_ & Hm & _ & _ & Hb) [Hn | [Hw Hpos]]; unfold no_refresh_due; rewrite Hm.
  - left. exact Hn.
  - right. split; [exact Hw |]. rewrite (proj1 (Hb _)). exact Hpos.
Qed.

Lemma same_but_contents_length (st st' : @State Env) ta :
  same_but_contents st st' ->
  TypedArrayLength (buffers (world st')) ta = TypedArrayLength (buffers (world st)) ta
  /\ IsTypedArrayOutOfBounds (buffers (world st')) ta
     = IsTypedArrayOutOfBounds (buffers (world st)) ta.
Proof.
  intros (_ & _ & _ & _ & Hb). unfold TypedArrayLength, IsTypedArrayOutOfBounds.
  destruct (Hb (ta_buffer ta)) as [-> ->]. split; reflexivity.
Qed.

(** Elements stored one after the other through a view they fit in. *)
Lemma set_elements_run ta es : forall i (st : @State Env),
  ta_kind ta = Uint8 \/ ta_kind ta = Uint16 \/ ta_kind ta = Uint32 ->
  Forall (fun e => 0 <= e < 2 ^ (8 * BYTES_PER_ELEMENT (ta_kind ta))) es ->
  0 <= i -> i + Z.of_nat (length es) <= TypedArrayLength (buffers (world st)) ta ->
  exists st',
    set_elements ta i es st = (Ret tt, st')
    /\ buffers (world st') = store_raws (buffers (world st)) ta i es
    /\ same_but_contents st st'.
Proof.
  induction es as [| e es IH]; intros i st Hk Hes Hi Hfit; cbn [set_elements store_raws].
  - exists st. split; [reflexivity |]. split; [reflexivity | apply same_but_contents_refl].
  - cbn [length] in Hfit. inversion Hes as [| e' es' He Hrest]; subst.
    assert (Hin : 0 <= i < TypedArrayLength (buffers (world st)) ta) by lia.
    destruct (whole_index i) as [Hint Hto].
    assert (Hraw : to_raw (ta_kind ta) (Number (of_Z e)) = Ret e).
    { destruct Hk as [Hk | [Hk | Hk]]; rewrite Hk in *; cbn [to_raw ToNumber obind];
        rewrite truncate_of_Z, Z.mod_small by exact He; reflexivity. }
    rewrite (bind_ret _ _ _ _ _ (set_element_run ta _ i _ e st Hraw Hint Hto Hin)).
    set (st1 := set_buffers (store_raw (buffers (world st)) ta i e) st).
    assert (Hsame1 : same_but_contents st st1).
    { unfold st1. split; [reflexivity |]. split; [reflexivity |]. split; [reflexivity |].
      split; [reflexivity |]. intros b. cbn [set_buffers set_world world buffers].
      apply byteLength_store_raw. exact Hin. }
    destruct (IH (i + 1) st1 Hk Hrest ltac:(lia)) as (st' & Hrun & Hbufs & Hsame).
    + rewrite (proj1 (same_but_contents_length st st1 ta Hsame1)). lia.
    + exists st'. split; [exact Hrun |]. split; [exact Hbufs |].
      exact (same_but_contents_trans _ _ _ Hsame1 Hsame).
Qed.

End StringsThroughTheHeap.

Lemma lookup_map {A B} (f : A -> B) (l : list A) (j : nat) :
  map f l !! j = f <$> (l !! j).
Proof.
  revert j. induction l as [| x l IH]; intros [| j]; cbn; try reflexivity. apply IH.
Qed.

Lemma first_zero_at l : forall k,
  (forall j, (j < k)%nat -> exists e, l !! j = Some e /\ e <> 0) ->
  l !! k = Some 0 -> first_zero l = Some k.
Proof.
  induction l as [| x l IH]; intros k Hbefore Hk; [destruct k; discriminate |].
  cbn [first_zero]. destruct k as [| k].
  - cbn in Hk. inversion Hk; subst. reflexivity.
  - destruct (Hbefore 0%nat ltac:(lia)) as (e & He & Hne). cbn in He. inversion He; subst.
    destruct (Z.eqb_spec e 0); [contradiction |].
    rewrite (IH k); [reflexivity | | exact Hk].
    intros j Hj. apply (Hbefore (S j)). lia.
Qed.

Lemma cells_after_stores bufs h i es :
  0 <= i -> i + Z.of_nat (length es) <= TypedArrayLength bufs h ->
  Forall (fun e => 0 <= e < 2 ^ (8 * BYTES_PER_ELEMENT (ta_kind h))) es ->
  cells_hold (store_raws bufs h i es) h i es.
Proof.
  intros Hi Hfit Hes j e Hj.
  destruct (cell_raw_store_raws h es bufs i (i + Z.of_nat j) Hi Hfit Hes ltac:(lia))
    as [_ Hcell].
  rewrite Hcell. apply lookup_lt_Some in Hj as Hlt.
  destruct (decide _) as [_ | Hno]; [| lia].
  replace (Z.to_nat (i + Z.of_nat j - i)) with j by lia. rewrite Hj. reflexivity.
Qed.

Lemma scanned_span_lookup bufs h start M (j : nat) :
  0 <= start ->
  start + Z.of_nat j < TypedArrayLength bufs h ->
  (forall m, M = Some m -> Z.of_nat j < m) ->
  scanned_span bufs h start M !! j = Some (cell_raw bufs h (start + Z.of_nat j)).
Proof.
  intros Hs Hj HM. unfold scanned_span. cbv zeta. rewrite lookup_map.
  rewrite lookup_seq_lt; [reflexivity |].
  destruct M as [m |]; [specialize (HM m eq_refl) |]; lia.
Qed.

Lemma scan_of_cells bufs h start es M :
  0 <= start ->
  start + Z.of_nat (length es) < TypedArrayLength bufs h ->
  cells_hold bufs h start (es ++ [0]) ->
  Forall (fun e => e <> 0) es ->
  (forall m, M = Some m -> Z.of_nat (length es) < m) ->
  first_zero (scanned_span bufs h start M) = Some (length es)
  /\ scanned_span bufs h start (Some (Z.of_nat (length es))) = es.
Proof.
  intros Hs Hfit Hcells Hnz HM. split.
  - apply first_zero_at.
    + intros j Hj. destruct (lookup_lt_is_Some_2 es j Hj) as [e He].
      exists e. split.
      * rewrite scanned_span_lookup; [| lia | lia |].
        -- f_equal. apply Hcells. apply lookup_app_l_Some. exact He.
        -- intros m Hm. specialize (HM m Hm). lia.
      * exact (Forall_lookup_1 _ es j e Hnz He).
    + rewrite scanned_span_lookup; [| lia | lia | exact HM].
      f_equal. apply Hcells. rewrite lookup_app_r by lia.
      replace (length es - length es)%nat with 0%nat by lia. reflexivity.
  - apply list_eq. intros j.
    destruct (decide (j < length es)%nat) as [Hj | Hj].
    + rewrite scanned_span_lookup; [| lia | lia | intros m Hm; inversion Hm; lia].
      destruct (lookup_lt_is_Some_2 es j Hj) as [e He]. rewrite He. f_equal.
      apply Hcells. apply lookup_app_l_Some. exact He.
    + rewrite (lookup_ge_None_2 es) by lia. apply lookup_ge_None_2.
      unfold scanned_span. cbv zeta. rewrite length_map, length_seq. lia.
Qed.

Section StringRoundTrip.

Context {Env : Type} `{Encodings}.

Lemma unsigned_width w :
  w = 1 \/ w = 2 \/ w = 4 ->
  BYTES_PER_ELEMENT (unsigned_kind w) = w
  /\ (unsigned_kind w = Uint8 \/ unsigned_kind w = Uint16 \/ unsigned_kind w = Uint32).
Proof. intros [-> | [-> | ->]]; cbn; auto. Qed.

(** The common part of the ASCII, UTF-16 and UTF-32 writes: the region of
    as many elements as the string has code units, the encoder, and the
    terminator after what the encoder wrote. *)
Lemma write_elements_run (h : TypedArray) address w encoder value es read (st : @State Env) :
  w = 1 \/ w = 2 \/ w = 4 ->
  ta_kind h = unsigned_kind w ->
  IsTypedArrayOutOfBounds (buffers (world st)) h = false ->
  0 <= address -> address mod w = 0 ->
  let n := Z.of_nat (length value) in
  address / w + n < TypedArrayLength (buffers (world st)) h ->
  encoder value n = (es, read) ->
  Z.of_nat (length es) <= n ->
  Forall (fun e => 0 <= e < 2 ^ (8 * w)) es ->
  exists st',
    bind (ta_subarray h (js_div address w) (Some (Index_add (js_div address w) n)))
      (fun memoryRegion =>
         bind (encode_into encoder value memoryRegion)
           (fun wr =>
              let '(written, read) := wr in
              set_element h (Index_add (js_div address w) written) (Number (of_Z 0)))) st
    = (Ret tt, st')
    /\ buffers (world st') = store_raws (buffers (world st)) h (address / w) (es ++ [0])
    /\ same_but_contents st st'.
Proof.
  intros Hw Hk Ho Ha Hal n Hfit Henc Hlen Hes.
  destruct (unsigned_width w Hw) as [Hbytes Hkinds]. rewrite <- Hk in Hbytes, Hkinds.
  assert (Hwpos : 0 < w) by lia.
  assert (Hi : 0 <= address / w) by (apply Z.div_pos; lia).
  set (bufs := buffers (world st)) in *.
  destruct (subarray_of_cells bufs h address w n Ho Hbytes Ha Hal ltac:(lia) ltac:(lia))
    as (Hsub & Hcap & Hpos).
  set (region := {| ta_kind := ta_kind h; ta_buffer := ta_buffer h;
                    ta_byteOffset := byte_position h (address / w); ta_length := n |}) in *.
  unfold bind at 1. rewrite ta_subarray_run. fold bufs. rewrite Hsub.
  unfold bind at 1. unfold encode_into. rewrite bind_gets. cbv beta.
  change (TypedArrayLength (buffers (world st)) region) with (TypedArrayLength bufs region).
  rewrite Hcap, Henc.
  assert (Hes' : Forall (fun e => 0 <= e < 2 ^ (8 * BYTES_PER_ELEMENT (ta_kind region))) es).
  { unfold region. cbn [ta_kind]. rewrite Hbytes. exact Hes. }
  destruct (set_elements_run region es 0 st Hkinds Hes' ltac:(lia))
    as (st1 & Hrun & Hbufs1 & Hsame1).
  { fold bufs. rewrite Hcap. lia. }
  rewrite (bind_ret _ _ _ _ _ Hrun). unfold ret at 1.
  fold bufs in Hbufs1.
  rewrite (store_raws_through h region (address / w) es bufs 0 eq_refl eq_refl Hpos)
    in Hbufs1.
  rewrite Z.add_0_r in Hbufs1.
  destruct (next_index address w (Z.of_nat (length es)) Hwpos Ha Hal ltac:(lia))
    as [Hint Hto].
  assert (Hraw0 : to_raw (ta_kind h) (Number (of_Z 0)) = Ret 0).
  { destruct Hkinds as [E | [E | E]]; rewrite E; reflexivity. }
  assert (Hvalid : 0 <= address / w + Z.of_nat (length es)
                   < TypedArrayLength (buffers (world st1)) h).
  { rewrite (proj1 (same_but_contents_length st st1 h Hsame1)). fold bufs. lia. }
  rewrite (set_element_run h _ _ _ 0 st1 Hraw0 Hint Hto Hvalid).
  eexists. split; [reflexivity |]. split.
  - cbn [set_buffers set_world world buffers]. rewrite Hbufs1.
    rewrite store_raws_app. reflexivity.
  - apply (same_but_contents_trans _ _ _ Hsame1).
    split; [reflexivity |]. split; [reflexivity |]. split; [reflexivity |].
    split; [reflexivity |]. intros b. cbn [set_buffers set_world world buffers].
    apply byteLength_store_raw. exact Hvalid.
Qed.

(** The common part of the reads: the scan for the terminator, the region
    of the elements before it, and the decoder. *)
Lemma read_elements_run (h : TypedArray) address w (decoder : list Z -> JsString) es M
    (st : @State Env) :
  w = 1 \/ w = 2 \/ w = 4 ->
  no_refresh_due st ->
  cachedHeapView (manager st) (unsigned_kind w) = h ->
  ta_kind h = unsigned_kind w ->
  IsTypedArrayOutOfBounds (buffers (world st)) h = false ->
  0 <= address -> address mod w = 0 ->
  address / w + Z.of_nat (length es) < TypedArrayLength (buffers (world st)) h ->
  cells_hold (buffers (world st)) h (address / w) (es ++ [0]) ->
  Forall (fun e => e <> 0) es ->
  (forall m, M = Some m -> Z.of_nat (length es) < m) ->
  bind (getElementCountOfNullTerminatedString address w M)
    (fun stringElementCount =>
       bind (heap (unsigned_kind w))
         (fun h' =>
            bind (ta_subarray h' (js_div address w)
                    (Some (Index_add (js_div address w) stringElementCount)))
              (fun encodedString =>
                 bind (ta_raw_elements encodedString) (fun es' => ret (decoder es'))))) st
  = (Ret (decoder es), st).
Proof.
  intros Hw Hquiet Hview Hk Ho Ha Hal Hfit Hcells Hnz HM.
  assert (Hheap : heap (unsigned_kind w) st = (Ret h, st)).
  { rewrite (heap_steady _ st Hquiet), Hview. reflexivity. }
  assert (Hi : 0 <= address / w) by (apply Z.div_pos; lia).
  destruct (scan_of_cells _ h (address / w) es M Hi Hfit Hcells Hnz HM) as [Hzero Hspan].
  pose proof (getElementCount_run address w M st h st Hw Hheap Hk Ho Ha Hal
                ltac:(intros m Hm; specialize (HM m Hm); lia)) as Hscan.
  rewrite Hzero in Hscan.
  rewrite (bind_ret _ _ _ _ _ Hscan). rewrite (bind_ret _ _ _ _ _ Hheap).
  destruct (unsigned_width w Hw) as [Hbytes _]. rewrite <- Hk in Hbytes.
  destruct (scanned_region (buffers (world st)) h address w
              (Some (Z.of_nat (length es))) Ho Hbytes Ha Hal
              ltac:(intros m Hm; inversion Hm; lia))
    as (region & Hsub & _ & _ & Hraws).
  unfold bind at 1. rewrite ta_subarray_run, Hsub.
  unfold ta_raw_elements. rewrite bind_gets. rewrite Hraws, Hspan. reflexivity.
Qed.

End StringRoundTrip.

Section StringsAreReadBack.

Context {Env : Type} `{Encodings}.

Lemma bind_ext {A B} (m : @M Env A) (k k' : A -> @M Env B) st :
  (forall a st', k a st' = k' a st') -> bind m k st = bind m k' st.
Proof. intros Hk. unfold bind. destruct (m st) as [[a | e] st']; [apply Hk | reflexivity]. Qed.

Lemma whole_add address c : whole (address + c) = Index_add (js_div address 1) c.
Proof. unfold whole, Index_add, js_div. cbn [numerator denominator]. f_equal. lia. Qed.

Lemma round_trip_of_elements w encoder decoder address value es (st : @State Env)
    (write : @M Env unit) (read : option Z -> @M Env JsString) :
  w = 1 \/ w = 2 \/ w = 4 ->
  (forall st0,
     write st0
     = bind (heap (unsigned_kind w))
         (fun h =>
            bind (ta_subarray h (js_div address w)
                    (Some (Index_add (js_div address w) (Z.of_nat (length value)))))
              (fun memoryRegion =>
                 bind (encode_into encoder value memoryRegion)
                   (fun wr =>
                      let '(written, read) := wr in
                      set_element h (Index_add (js_div address w) written)
                        (Number (of_Z 0))))) st0) ->
  (forall M st0,
     read M st0
     = bind (getElementCountOfNullTerminatedString address w M)
         (fun stringElementCount =>
            bind (heap (unsigned_kind w))
              (fun h' =>
                 bind (ta_subarray h' (js_div address w)
                         (Some (Index_add (js_div address w) stringElementCount)))
                   (fun encodedString =>
                      bind (ta_raw_elements encodedString)
                        (fun es' => ret (decoder es'))))) st0) ->
  no_refresh_due st ->
  has_room st w address (Z.of_nat (length value)) ->
  encodes_as encoder decoder w value es ->
  written_and_read_back write read value es st.
Proof.
  intros Hw Hwrite Hread Hquiet (Hk & Ho & Ha & Hal & Hfit) (Henc & Hlen & Hes & Hdec).
  set (h := cachedHeapView (manager st) (unsigned_kind w)) in *.
  assert (Hheap : heap (unsigned_kind w) st = (Ret h, st)) by apply (heap_steady _ st Hquiet).
  assert (Hrange : Forall (fun e => 0 <= e < 2 ^ (8 * w)) es).
  { eapply Forall_impl; [exact Hes |]. intros e He. cbv beta in *. lia. }
  assert (Hnz : Forall (fun e => e <> 0) es).
  { eapply Forall_impl; [exact Hes |]. intros e He. cbv beta in *. lia. }
  destruct (encoder value (Z.of_nat (length value))) as [es0 rd] eqn:Hencoder.
  cbn [fst] in Henc. subst es0.
  destruct (write_elements_run h address w encoder value es rd st Hw Hk Ho Ha Hal Hfit
              Hencoder Hlen Hrange) as (st2 & Hrun & Hbufs & Hsame).
  assert (Hw2 : write st = (Ret tt, st2)).
  { rewrite Hwrite, (bind_ret _ _ _ _ _ Hheap). exact Hrun. }
  unfold written_and_read_back, outcome_of, state_after. rewrite Hw2. cbn [fst snd].
  split; [reflexivity |]. split; [exact Hsame |].
  destruct (unsigned_width w Hw) as [Hbytes _]. rewrite <- Hk in Hbytes.
  assert (Hi : 0 <= address / w) by (apply Z.div_pos; lia).
  assert (Hcells : cells_hold (buffers (world st2)) h (address / w) (es ++ [0])).
  { rewrite Hbufs. apply cells_after_stores; [exact Hi | |].
    - rewrite length_app. cbn [length]. lia.
    - rewrite Hbytes. apply Forall_app. split; [exact Hrange |].
      constructor; [| constructor]. split; [lia | apply Z.pow_pos_nonneg; lia]. }
  destruct (same_but_contents_length st st2 h Hsame) as [Hlen2 Ho2].
  assert (Hview2 : cachedHeapView (manager st2) (unsigned_kind w) = h).
  { unfold h. rewrite (proj1 (proj2 Hsame)). reflexivity. }
  assert (Hread2 : forall M, (forall m, M = Some m -> Z.of_nat (length es) < m) ->
                             read M st2 = (Ret value, st2)).
  { intros M HM. rewrite Hread, <- Hdec.
    apply (read_elements_run h address w decoder es M st2 Hw
             (no_refresh_due_same _ _ Hsame Hquiet) Hview2 Hk);
      [rewrite Ho2; exact Ho | exact Ha | exact Hal | rewrite Hlen2; lia | exact Hcells
       | exact Hnz | exact HM]. }
  split; [apply Hread2; discriminate |].
  intros m Hm. apply Hread2. intros m' Heq. injection Heq as Heq. rewrite <- Heq. exact Hm.
Qed.

(** A string written by [writeNullTerminatedAsciiString],
    [writeNullTerminatedUtf16String] or [writeNullTerminatedUtf32String] is
    what the read of the same encoding returns, where the string and its
    terminator fit the heap at an address that is a multiple of the
    element width, no refresh of the cache is due, and the codec turns the
    string into elements that are not zero and back. *)
Theorem strings_are_read_back address value es (st : @State Env) :
  no_refresh_due st ->
  let n := Z.of_nat (length value) in
  (has_room st 1 address n -> encodes_as encodeAsciiInto decodeAscii 1 value es ->
   written_and_read_back (writeNullTerminatedAsciiString address value)
     (readNullTerminatedAsciiString address) value es st)
  /\ (has_room st 2 address n -> encodes_as encodeUtf16Into decodeUtf16 2 value es ->
      written_and_read_back (writeNullTerminatedUtf16String address value None)
        (readNullTerminatedUtf16String address) value es st)
  /\ (has_room st 4 address n -> encodes_as encodeUtf32Into decodeUtf32 4 value es ->
      written_and_read_back (writeNullTerminatedUtf32String address value None)
        (readNullTerminatedUtf32String address) value es st).
Proof.
  intros Hquiet n. split; [| split]; intros Hroom Hcodec.
  - apply (round_trip_of_elements 1 encodeAsciiInto decodeAscii address value es st);
      [auto | | | exact Hquiet | exact Hroom | exact Hcodec].
    + intros st0. unfold writeNullTerminatedAsciiString.
      apply bind_ext. intros h st1. rewrite whole_add.
      apply bind_ext. intros region st2. apply bind_ext. intros [written rd] st3.
      rewrite whole_add. reflexivity.
    + intros M st0. unfold readNullTerminatedAsciiString.
      apply bind_ext. intros c st1. apply bind_ext. intros h st2.
      rewrite whole_add. reflexivity.
  - apply (round_trip_of_elements 2 encodeUtf16Into decodeUtf16 address value es st);
      [auto | | | exact Hquiet | exact Hroom | exact Hcodec].
    + intros st0. reflexivity.
    + intros M st0. reflexivity.
  - apply (round_trip_of_elements 4 encodeUtf32Into decodeUtf32 address value es st);
      [auto | | | exact Hquiet | exact Hroom | exact Hcodec].
    + intros st0. reflexivity.
    + intros M st0. reflexivity.
Qed.

End StringsAreReadBack.

Lemma strings_are_read_back_witness :
  let st := arena_state 64 None in
  written_and_read_back (writeNullTerminatedAsciiString 8 abc)
    (readNullTerminatedAsciiString 8) abc [97; 98; 99] st
  /\ written_and_read_back (writeNullTerminatedUtf16String 8 abc None)
       (readNullTerminatedUtf16String 8) abc [97; 98; 99] st
  /\ written_and_read_back (writeNullTerminatedUtf32String 8 abc None)
       (readNullTerminatedUtf32String 8) abc [97; 98; 99] st.
Proof.
  intros st.
  assert (Hquiet : no_refresh_due st).
  { right. split; vm_compute; reflexivity. }
  assert (Hroom : forall w, w = 1 \/ w = 2 \/ w = 4 -> has_room st w 8 (Z.of_nat (length abc))).
  { intros w [-> | [-> | ->]]; unfold has_room; cbv zeta;
      (split; [| split; [| split; [| split]]]); vm_compute; congruence. }
  assert (Hcodec : forall w, w = 1 \/ w = 2 \/ w = 4 -> 
            Forall (fun e => 0 < e < 2 ^ (8 * w)) [97; 98; 99]).
  { intros w [-> | [-> | ->]]; repeat constructor. }
  destruct (@strings_are_read_back ArrayBufferArenaAllocator spec_encodings
              8 abc [97; 98; 99] st Hquiet) as (Ha & Hb & Hc).
  split; [| split].
  - apply Ha; [apply Hroom; auto |].
    unfold encodes_as; cbv zeta.
    split; [vm_compute; reflexivity | split; [vm_compute; congruence | split]];
      [apply Hcodec; auto | vm_compute; reflexivity].
  - apply Hb; [apply Hroom; auto |].
    unfold encodes_as; cbv zeta.
    split; [vm_compute; reflexivity | split; [vm_compute; congruence | split]];
      [apply Hcodec; auto | vm_compute; reflexivity].
  - apply Hc; [apply Hroom; auto |].
    unfold encodes_as; cbv zeta.
    split; [vm_compute; reflexivity | split; [vm_compute; congruence | split]];
      [apply Hcodec; auto | vm_compute; reflexivity].
Defined.

(** ** Clearing a reference *)

Section Clear.

Context {Env : Type}.

(** [clear()] on a live reference sets every byte of the allocation of the
    reference, [allocatedByteCount] bytes from its address on, to zero
    through the byte view, and changes no other byte of any buffer, where
    that span lies inside the byte view the refresh yields.  On a freed
    reference it throws and changes nothing. *)
Theorem clear_zeroes_the_allocation id r n (st : @State Env) h st1 :
  refs st !! id = Some r ->
  outcome_of (allocatedByteCount id) st = Ret n ->
  (address r = 0 -> clear id st = (Throw UseAfterFree, st))
  /\ (address r <> 0 ->
      heapUint8 st = (Ret h, st1) ->
      ta_kind h = Uint8 ->
      span_in_view (buffers (world st1)) h (address r) n ->
      let st2 := state_after (clear id) st in
      outcome_of (clear id) st = Ret tt
      /\ log st2 = log st1 /\ manager st2 = manager st1 /\ refs st2 = refs st1
      /\ env (world st2) = env (world st1)
      /\ forall b j,
           heap_byte st2 b j
           = if decide (b = ta_buffer h
                        /\ (Z.to_nat (ta_byteOffset h + address r) <= j
                            < Z.to_nat (ta_byteOffset h + address r + n))%nat)
             then Some Byte.x00
             else heap_byte st1 b j).
Proof.
  intros Hr Hn. split.
  - intros Ha. unfold clear.
    rewrite (bind_throw _ _ _ _ _ (assertNotFreed_freed st id (ex_intro _ r (conj Hr Ha)))).
    reflexivity.
  - intros Ha Hheap Hk Hspan st2.
    assert (Hcount : allocatedByteCount id st = (Ret n, st)).
    { unfold outcome_of in Hn. unfold allocatedByteCount in *.
      rewrite (bind_ret _ _ _ _ _ (this_run st id r Hr)) in *.
      unfold ret in *. cbn [fst] in Hn. rewrite Hn. reflexivity. }
    destruct (fill_zero_span _ h (address r) n Hk Hspan) as (bufs' & Hfill & Hbytes).
    assert (Hrun : clear id st = (Ret tt, set_buffers bufs' st1)).
    { unfold clear.
      rewrite (bind_ret _ _ _ _ _ (assertNotFreed_live st id (ex_intro _ r (conj Hr Ha)))).
      unfold allocatedBytesView. rewrite ?bind_assoc.
      rewrite (bind_ret _ _ _ _ _ (this_run st id r Hr)).
      rewrite ?bind_assoc. rewrite (bind_ret _ _ _ _ _ Hcount).
      unfold viewUint8Array. rewrite ?bind_assoc. rewrite (bind_ret _ _ _ _ _ Hheap).
      unfold ta_subarray. rewrite bind_assoc, bind_gets.
      rewrite (bind_lift_ret _ _ _ _ (subarray_span _ h (address r) n Hk Hspan)).
      unfold ta_fill. rewrite bind_gets.
      rewrite (bind_lift_ret _ _ _ _ Hfill). reflexivity. }
    unfold st2, state_after, outcome_of. rewrite Hrun. cbn [fst snd].
    split; [reflexivity |]. split; [reflexivity |]. split; [reflexivity |].
    split; [reflexivity |]. split; [reflexivity |].
    intros b j. unfold heap_byte. cbn. apply Hbytes.
Qed.

End Clear.

Lemma clear_zeroes_the_allocation_witness :
  let st := state_after (wrapArray Int32 8 2) (dirty_arena 32) in
  let st2 := state_after (clear 0%nat) st in
  outcome_of (clear 0%nat) st = Ret tt
  /\ heap_byte st2 1%nat 7 = Some Byte.xff
  /\ heap_byte st2 1%nat 8 = Some Byte.x00
  /\ heap_byte st2 1%nat 15 = Some Byte.x00
  /\ heap_byte st2 1%nat 16 = Some Byte.xff.
Proof.
  intros st st2.
  assert (Hr : refs st !! 0%nat
               = Some {| class := TypedArrayRef Int32; address := 8; elementCount := 2 |}).
  { vm_compute. reflexivity. }
  assert (Hn : outcome_of (allocatedByteCount 0%nat) st = Ret 8).
  { vm_compute. reflexivity. }
  assert (Hheap : heapUint8 st = (Ret (whole_view Uint8 1%nat 32), snd (heap Uint8 st))).
  { apply run_ret. vm_compute. reflexivity. }
  assert (Hspan : span_in_view (buffers (world (snd (heap Uint8 st))))
                    (whole_view Uint8 1%nat 32) 8 8).
  { unfold span_in_view.
    split; [vm_compute; reflexivity | split; [lia | split; [lia | vm_compute; congruence]]]. }
  destruct (proj2 (clear_zeroes_the_allocation 0%nat _ 8 st (whole_view Uint8 1%nat 32) _
                     Hr Hn) ltac:(discriminate) Hheap eq_refl Hspan)
    as (Hret & _ & _ & _ & _ & Hbytes).
  split; [exact Hret |]. fold st2 in Hbytes.
  rewrite (Hbytes 1%nat 7%nat), (Hbytes 1%nat 8%nat), (Hbytes 1%nat 15%nat),
    (Hbytes 1%nat 16%nat).
  repeat split; vm_compute; reflexivity.
Defined.

(** ** Views and reads of the same cells *)

Section ViewsAndReads.

Context {Env : Type}.

Lemma view_kind_eq k a n (st : @State Env) :
  view_kind k a n st
  = bind (heap k)
      (fun h => ta_subarray h (js_div a (BYTES_PER_ELEMENT k))
                  (Some (Index_add (js_div a (BYTES_PER_ELEMENT k)) n))) st.
Proof.
  destruct k; try reflexivity;
    cbn [view_kind BYTES_PER_ELEMENT];
    unfold viewInt8Array, viewUint8Array, viewUint8ClampedArray;
    apply bind_ext; intros h st'; rewrite whole_add; reflexivity.
Qed.

(** The array [viewX(address, elementCount)] returns is a window on the
    heap, not a copy: as long as the heap stays in place, whatever is
    written to it since, element [i] of the array is what
    [readX(address + i * w)] returns, for [w] the width of the kind, an
    aligned address and a span inside the heap.  The [view] of a live
    typed array reference is this array, and its [readAt(i)] this read. *)
Theorem views_are_windows_on_the_heap k a n (st : @State Env) :
  let w := BYTES_PER_ELEMENT k in
  let h := cachedHeapView (manager st) k in
  no_refresh_due st ->
  ta_kind h = k ->
  IsTypedArrayOutOfBounds (buffers (world st)) h = false ->
  0 <= a -> a mod w = 0 -> 0 <= n ->
  a / w + n <= TypedArrayLength (buffers (world st)) h ->
  exists v,
    view_kind k a n st = (Ret v, st)
    /\ TypedArrayLength (buffers (world st)) v = n
    /\ (forall st' i, same_but_contents st st' -> 0 <= i < n ->
          get_element v (whole i) st' = read_kind k (a + i * w) st')
    /\ (forall id r, refs st !! id = Some r -> address r = a -> a <> 0 ->
          elementCount r = n -> class r = TypedArrayRef k ->
          view id st = (Ret v, st)
          /\ forall st' i, same_but_contents st st' ->
               readAt id i st' = read_kind k (a + i * w) st').
Proof.
  intros w h Hquiet Hk Hoob Ha Hal Hn Hfit.
  assert (Hw : BYTES_PER_ELEMENT (ta_kind h) = w) by (rewrite Hk; reflexivity).
  assert (Hwpos : 0 < w) by (unfold w; destruct k; simpl; lia).
  destruct (subarray_of_cells (buffers (world st)) h a w n Hoob Hw Ha Hal Hn Hfit)
    as (Hsub & Hlen & Hpos).
  set (v := {| ta_kind := ta_kind h; ta_buffer := ta_buffer h;
               ta_byteOffset := byte_position h (a / w); ta_length := n |}) in *.
  assert (Hview : view_kind k a n st = (Ret v, st)).
  { rewrite view_kind_eq. rewrite (bind_ret _ _ _ _ _ (heap_steady k st Hquiet)).
    rewrite ta_subarray_run. fold h. fold w. rewrite Hsub. reflexivity. }
  exists v. split; [exact Hview |]. split; [exact Hlen |]. split.
  - intros st' i Hsame Hi.
    rewrite read_kind_eq.
    rewrite (bind_ret _ _ _ _ _ (heap_steady k st' (no_refresh_due_same _ _ Hsame Hquiet))).
    rewrite (proj1 (proj2 Hsame)). fold h. fold w.
    unfold get_element, gets. f_equal. f_equal.
    destruct (same_but_contents_length st st' v Hsame) as [Hlv _].
    destruct (same_but_contents_length st st' h Hsame) as [Hlh _].
    assert (Hai : 0 <= a + i * w) by nia.
    assert (Hali : (a + i * w) mod w = 0) by (rewrite Z.mod_add by lia; exact Hal).
    destruct (aligned_index (a + i * w) w Hwpos Hai Hali) as [Hint Hto].
    rewrite Z.div_add in Hto by lia.
    destruct (whole_index i) as [Hwi Hwto].
    unfold TypedArrayGetElement, IsValidIntegerIndex.
    rewrite Hint, Hto, Hwi, Hwto, Hlv, Hlh, Hlen.
    assert (Hstart : 0 <= a / w) by (apply Z.div_pos; lia).
    destruct (Z.leb_spec 0 i); [| lia].
    destruct (Z.ltb_spec i n); [| lia].
    destruct (Z.leb_spec 0 (a / w + i)); [| lia].
    destruct (Z.ltb_spec (a / w + i) (TypedArrayLength (buffers (world st)) h)); [| lia].
    cbn [andb]. rewrite Hpos. reflexivity.
  - intros id r Hr Hra Hnz Hrn Hc. split.
    + unfold view.
      assert (Hlive : live st id) by (exists r; split; [exact Hr | congruence]).
      rewrite (bind_ret _ _ _ _ _ (assertNotFreed_live st id Hlive)).
      rewrite (bind_ret _ _ _ _ _ (this_run st id r Hr)).
      rewrite Hc, Hra, Hrn. exact Hview.
    + intros st' i Hsame.
      assert (Hr' : refs st' !! id = Some r)
        by (rewrite (proj1 (proj2 (proj2 Hsame))); exact Hr).
      assert (Hlive : live st' id) by (exists r; split; [exact Hr' | congruence]).
      unfold readAt.
      rewrite (bind_ret _ _ _ _ _ (assertNotFreed_live st' id Hlive)).
      rewrite (bind_ret _ _ _ _ _ (this_run st' id r Hr')).
      rewrite Hc, Hra. reflexivity.
Qed.

End ViewsAndReads.

Lemma views_are_windows_on_the_heap_witness :
  let st := arena_state 64 None in
  exists v,
    view_kind Int32 8 2 st = (Ret v, st)
    /\ TypedArrayLength (buffers (world st)) v = 2
    /\ forall st' i, same_but_contents st st' -> 0 <= i < 2 ->
         get_element v (whole i) st' = read_kind Int32 (8 + i * 4) st'.
Proof.
  intros st.
  assert (Hquiet : no_refresh_due st).
  { right. split; vm_compute; reflexivity. }
  destruct (views_are_windows_on_the_heap Int32 8 2 st Hquiet)
    as (v & Hview & Hlen & Hread & _).
  - vm_compute. reflexivity.
  - vm_compute. reflexivity.
  - lia.
  - reflexivity.
  - lia.
  - vm_compute. congruence.
  - exists v. split; [exact Hview |]. split; [exact Hlen | exact Hread].
Defined.

(** ** Freeing a pointer array with its elements *)

Section PointerArrays.

Context {Env : Type}.

Lemma no_refresh_due_same_heap (s s' : @State Env) :
  same_heap s s' -> no_refresh_due s -> no_refresh_due s'.
Proof.
  intros (Hm & _ & Hb) Hq. unfold no_refresh_due in *. rewrite Hm, Hb. exact Hq.
Qed.

Lemma readPointer_steady p a (s s' : @State Env) :
  no_refresh_due s -> same_heap s s' ->
  exists v, readPointer p a s = (Ret v, s) /\ readPointer p a s' = (Ret v, s').
Proof.
  intros Hq Hsame.
  pose proof (no_refresh_due_same_heap s s' Hsame Hq) as Hq'.
  destruct Hsame as (Hm & _ & Hb).
  destruct p; cbn [readPointer];
    unfold readPointer32, readPointer53, readPointer64, readUint32, readBigUint64,
      heapUint32, heapBigUint64;
    rewrite ?bind_assoc;
    rewrite (bind_ret _ _ _ _ _ (heap_steady _ s Hq));
    rewrite (bind_ret _ _ _ _ _ (heap_steady _ s' Hq'));
    unfold get_element, gets, bind, ret; rewrite Hm, Hb; eexists; split; reflexivity.
Qed.

Lemma readAt_steady id r p i (s s' : @State Env) :
  no_refresh_due s -> same_heap s s' ->
  refs s !! id = Some r -> address r <> 0 -> class r = PointerArrayRef p ->
  exists v, readAt id i s = (Ret v, s) /\ readAt id i s' = (Ret v, s').
Proof.
  intros Hq Hsame Hr Ha Hc.
  assert (Hr' : refs s' !! id = Some r) by (rewrite (proj1 (proj2 Hsame)); exact Hr).
  destruct (readPointer_steady p (address r + i * pointer_bytes p) s s' Hq Hsame)
    as (v & Hs & Hs').
  exists v. unfold readAt.
  rewrite (bind_ret _ _ _ _ _ (assertNotFreed_live s id (ex_intro _ r (conj Hr Ha)))).
  rewrite (bind_ret _ _ _ _ _ (assertNotFreed_live s' id (ex_intro _ r (conj Hr' Ha)))).
  rewrite (bind_ret _ _ _ _ _ (this_run s id r Hr)).
  rewrite (bind_ret _ _ _ _ _ (this_run s' id r Hr')).
  rewrite Hc. split; assumption.
Qed.

Lemma free_elements_run id r p (st : @State Env) :
  (forall a w, buffers (deallocate (manager st) a w) = buffers w) ->
  no_refresh_due st ->
  refs st !! id = Some r -> address r <> 0 -> class r = PointerArrayRef p ->
  forall indices s, same_heap st s ->
    exists vs s',
      free_elements id indices s = (Ret tt, s')
      /\ same_heap st s'
      /\ Forall2 (fun i v => readAt id (Z.of_nat i) st = (Ret v, st)) indices vs
      /\ log s' = log s ++ map (fun v => DeallocateCall (NumberOf v)) vs.
Proof.
  intros Hde Hq Hr Ha Hc. induction indices as [| i indices IH]; intros s Hsame.
  - exists [], s. cbn. rewrite app_nil_r. repeat split; try apply Hsame. constructor.
  - destruct (readAt_steady id r p (Z.of_nat i) st s Hq Hsame Hr Ha Hc) as (v & Hst & Hs).
    set (s1 := add_event (DeallocateCall (NumberOf v))
                 (set_world (deallocate (manager s) (NumberOf v) (world s)) s)).
    assert (Hsame1 : same_heap st s1).
    { destruct Hsame as (Hm & Hrf & Hb). unfold same_heap, s1. cbn.
      rewrite Hm, Hde. repeat split; assumption. }
    destruct (IH s1 Hsame1) as (vs & s' & Hrun & Hsame' & Hvs & Hlog).
    exists (v :: vs), s'. split; [| split; [exact Hsame' | split]].
    + cbn [free_elements]. rewrite (bind_ret _ _ _ _ _ Hs).
      unfold free. unfold bind at 1. unfold call_deallocate. fold s1. exact Hrun.
    + constructor; [exact Hst | exact Hvs].
    + rewrite Hlog. unfold s1. cbn. rewrite <- app_assoc. reflexivity.
Qed.

(** [free({ freeElements: true })] on a live pointer array reference hands
    to [deallocate] every element of the array, as [readAt] gives it before
    the call and converted by [Number], in the order of the indices, and
    then the address of the array, which marks the reference freed:
    as many calls as the array has elements and one more, a null pointer
    among the elements included.  Without the option the only call is the
    one with the address of the array.  The heap stays in place and
    [deallocate] leaves the buffers as they are. *)
Theorem pointer_array_free_with_its_elements id r p options (st : @State Env) :
  (forall a w, buffers (deallocate (manager st) a w) = buffers w) ->
  no_refresh_due st ->
  refs st !! id = Some r -> address r <> 0 -> class r = PointerArrayRef p ->
  let st' := state_after (Ref_free id options) st in
  outcome_of (Ref_free id options) st = Ret tt
  /\ refs st' = <[id := freed_ref r]> (refs st)
  /\ (requested freeElements options = false ->
      log st' = log st ++ [DeallocateCall (of_Z (address r))])
  /\ (requested freeElements options = true ->
      exists vs,
        Forall2 (fun i v => readAt id (Z.of_nat i) st = (Ret v, st))
          (seq 0 (Z.to_nat (elementCount r))) vs
        /\ log st'
           = log st ++ map (fun v => DeallocateCall (NumberOf v)) vs
               ++ [DeallocateCall (of_Z (address r))]).
Proof.
  intros Hde Hq Hr Ha Hc st'.
  assert (Hrun : Ref_free id options st = PointerArrayRef_free id options st).
  { unfold Ref_free. rewrite (bind_ret _ _ _ _ _ (this_run st id r Hr)). rewrite Hc.
    reflexivity. }
  unfold st', state_after, outcome_of. rewrite Hrun. unfold PointerArrayRef_free.
  destruct (requested freeElements options).
  - rewrite !bind_assoc.
    rewrite (bind_ret _ _ _ _ _ (assertNotFreed_live st id (ex_intro _ r (conj Hr Ha)))).
    rewrite bind_assoc. rewrite (bind_ret _ _ _ _ _ (this_run st id r Hr)).
    destruct (free_elements_run id r p st Hde Hq Hr Ha Hc
                (seq 0 (Z.to_nat (elementCount r))) st)
      as (vs & s' & Hloop & (Hm & Hrf & Hb) & Hvs & Hlog);
      [repeat split |].
    rewrite (bind_ret _ _ _ _ _ Hloop).
    assert (Hr' : refs s' !! id = Some r) by (rewrite Hrf; exact Hr).
    rewrite (HeapRef_free_live s' id r Hr' Ha). cbn [fst snd].
    split; [reflexivity |]. split; [cbn; rewrite Hrf; reflexivity |].
    split; [discriminate |]. intros _. exists vs. split; [exact Hvs |].
    cbn. rewrite Hlog, <- app_assoc. reflexivity.
  - rewrite (bind_ret _ _ _ tt st) by reflexivity.
    rewrite (HeapRef_free_live st id r Hr Ha). cbn [fst snd].
    split; [reflexivity |]. split; [reflexivity |].
    split; [intros _; reflexivity | discriminate].
Qed.

End PointerArrays.

Lemma pointer_array_free_with_its_elements_witness :
  let st := state_after (wrapPointerArray Pointer32 8 2) (arena_state 64 None) in
  let st' := state_after (Ref_free 0%nat with_its_elements) st in
  outcome_of (Ref_free 0%nat with_its_elements) st = Ret tt
  /\ exists vs,
       Forall2 (fun i v => readAt 0%nat (Z.of_nat i) st = (Ret v, st)) [0; 1]%nat vs
       /\ log st'
          = log st ++ map (fun v => DeallocateCall (NumberOf v)) vs
              ++ [DeallocateCall (of_Z 8)].
Proof.
  intros st st'.
  assert (Hde : forall a w, buffers (deallocate (manager st) a w) = buffers w).
  { assert (Hd : deallocate (manager st) = arena_deallocate) by (vm_compute; reflexivity).
    intros a w. rewrite Hd. reflexivity. }
  assert (Hquiet : no_refresh_due st).
  { right. split; vm_compute; reflexivity. }
  assert (Hr : refs st !! 0%nat
               = Some {| class := PointerArrayRef Pointer32; address := 8;
                         elementCount := 2 |}).
  { vm_compute. reflexivity. }
  destruct (pointer_array_free_with_its_elements 0%nat _ Pointer32 with_its_elements st
              Hde Hquiet Hr ltac:(discriminate) eq_refl) as (Hret & _ & _ & Hlog).
  split; [exact Hret |]. exact (Hlog eq_refl).
Defined.

(** ** UTF-8 strings through the heap *)

Section Utf8RoundTrip.

Context {Env : Type} `{Encodings}.

Lemma Utf8_write_run (h : TypedArray) a value maxElementCount es read (st : @State Env) :
  ta_kind h = Uint8 ->
  IsTypedArrayOutOfBounds (buffers (world st)) h = false ->
  0 <= a -> 1 <= maxElementCount ->
  a + (maxElementCount - 1) < TypedArrayLength (buffers (world st)) h ->
  encodeUtf8Into value (maxElementCount - 1) = (es, read) ->
  Z.of_nat (length es) <= maxElementCount - 1 ->
  Forall (fun e => 0 <= e < 2 ^ (8 * 1)) es ->
  Z.of_nat (length value) <= read ->
  exists st',
    bind (ta_subarray h (whole a) (Some (whole (a + maxElementCount - 1))))
      (fun memoryRegion =>
         bind (encode_into encodeUtf8Into value memoryRegion)
           (fun wr =>
              let '(written, read) := wr in
              if read <? Z.of_nat (length value) then throw CapacityExceeded
              else bind (set_element h (whole (a + written)) (Number (of_Z 0)))
                     (fun _ => ret written))) st
    = (Ret (Z.of_nat (length es)), st')
    /\ buffers (world st') = store_raws (buffers (world st)) h a (es ++ [0])
    /\ same_but_contents st st'.
Proof.
  intros Hk Ho Ha Hmax Hfit Henc Hlen Hes Hread.
  assert (Hbytes : BYTES_PER_ELEMENT (ta_kind h) = 1) by (rewrite Hk; reflexivity).
  set (bufs := buffers (world st)) in *.
  destruct (subarray_of_cells bufs h a 1 (maxElementCount - 1) Ho Hbytes Ha
              (Z.mod_1_r a) ltac:(lia) ltac:(rewrite Z.div_1_r; lia))
    as (Hsub & Hcap & Hpos).
  rewrite Z.div_1_r in *.
  set (region := {| ta_kind := ta_kind h; ta_buffer := ta_buffer h;
                    ta_byteOffset := byte_position h a;
                    ta_length := maxElementCount - 1 |}) in *.
  replace (a + maxElementCount - 1) with (a + (maxElementCount - 1)) by lia.
  rewrite whole_add.
  unfold bind at 1. rewrite ta_subarray_run. fold bufs.
  change (whole a) with (js_div a 1). rewrite Hsub.
  unfold bind at 1. unfold encode_into. rewrite bind_gets. cbv beta.
  change (TypedArrayLength (buffers (world st)) region) with (TypedArrayLength bufs region).
  rewrite Hcap, Henc.
  assert (Hes' : Forall (fun e => 0 <= e < 2 ^ (8 * BYTES_PER_ELEMENT (ta_kind region))) es).
  { unfold region. cbn [ta_kind]. rewrite Hbytes. exact Hes. }
  destruct (set_elements_run region es 0 st ltac:(left; exact Hk) Hes' ltac:(lia))
    as (st1 & Hrun & Hbufs1 & Hsame1).
  { fold bufs. rewrite Hcap. lia. }
  rewrite (bind_ret _ _ _ _ _ Hrun). unfold ret at 1.
  fold bufs in Hbufs1.
  rewrite (store_raws_through h region a es bufs 0 eq_refl eq_refl Hpos) in Hbufs1.
  rewrite Z.add_0_r in Hbufs1.
  destruct (Z.ltb_spec read (Z.of_nat (length value))); [lia |].
  destruct (whole_index (a + Z.of_nat (length es))) as [Hint Hto].
  assert (Hraw0 : to_raw (ta_kind h) (Number (of_Z 0)) = Ret 0) by (rewrite Hk; reflexivity).
  assert (Hvalid : 0 <= a + Z.of_nat (length es)
                   < TypedArrayLength (buffers (world st1)) h).
  { rewrite (proj1 (same_but_contents_length st st1 h Hsame1)). fold bufs. lia. }
  rewrite (bind_ret _ _ _ _ _ (set_element_run h _ _ _ 0 st1 Hraw0 Hint Hto Hvalid)).
  eexists. split; [reflexivity |]. split.
  - cbn [set_buffers set_world world buffers]. rewrite Hbufs1.
    rewrite store_raws_app. reflexivity.
  - apply (same_but_contents_trans _ _ _ Hsame1).
    split; [reflexivity |]. split; [reflexivity |]. split; [reflexivity |].
    split; [reflexivity |]. intros b. cbn [set_buffers set_world world buffers].
    apply byteLength_store_raw. exact Hvalid.
Qed.

(** [writeNullTerminatedUtf8String(address, value, maxElementCount)]
    returns the number of bytes of the encoding, and
    [readNullTerminatedUtf8String] then returns the string, without a
    maximum and with any maximum above that number, [maxElementCount]
    among them: where the [maxElementCount] bytes lie inside the heap, no
    refresh of the cache is due, and the encoder, given the region short
    of one byte, takes in the whole string, writes bytes that are not zero
    and the decoder turns them back.  So a live UTF-8 string reference with
    this capacity reads back what was written to it. *)
Theorem Utf8_strings_are_read_back a value es maxElementCount (st : @State Env) :
  no_refresh_due st ->
  1 <= maxElementCount ->
  has_room st 1 a (maxElementCount - 1) ->
  encodeUtf8Into value (maxElementCount - 1) = (es, Z.of_nat (length value)) ->
  Z.of_nat (length es) <= maxElementCount - 1 ->
  Forall (fun e => 0 < e < 2 ^ (8 * 1)) es ->
  decodeUtf8 es = value ->
  let write := writeNullTerminatedUtf8String a value maxElementCount in
  let st2 := state_after write st in
  outcome_of write st = Ret (Z.of_nat (length es))
  /\ same_but_contents st st2
  /\ readNullTerminatedUtf8String a None st2 = (Ret value, st2)
  /\ (forall m, Z.of_nat (length es) < m ->
        readNullTerminatedUtf8String a (Some m) st2 = (Ret value, st2))
  /\ (forall id r, refs st !! id = Some r -> address r = a -> a <> 0 ->
        elementCount r = maxElementCount -> class r = NullTerminatedStringRef Utf8 ->
        StringRef_write id value st = (Ret tt, st2)
        /\ StringRef_read id st2 = (Ret value, st2)).
Proof.
  intros Hquiet Hmax (Hk & Ho & Ha & _ & Hfit) Henc Hlen Hes Hdec write st2.
  cbn [unsigned_kind] in *. rewrite Z.div_1_r in Hfit.
  set (h := cachedHeapView (manager st) (unsigned_kind 1)) in *.
  assert (Hrange : Forall (fun e => 0 <= e < 2 ^ (8 * 1)) es).
  { eapply Forall_impl; [exact Hes |]. intros e He. cbv beta in *. lia. }
  assert (Hnz : Forall (fun e => e <> 0) es).
  { eapply Forall_impl; [exact Hes |]. intros e He. cbv beta in *. lia. }
  destruct (Utf8_write_run h a value maxElementCount es _ st Hk Ho Ha Hmax Hfit Henc Hlen
              Hrange ltac:(lia)) as (st' & Hrun & Hbufs & Hsame).
  assert (Hw2 : write st = (Ret (Z.of_nat (length es)), st')).
  { unfold write, writeNullTerminatedUtf8String.
    rewrite (bind_ret _ _ _ _ _ (heap_steady Uint8 st Hquiet)). exact Hrun. }
  assert (Hst2 : st2 = st') by (unfold st2, state_after; rewrite Hw2; reflexivity).
  unfold outcome_of. rewrite Hst2, Hw2. cbn [fst].
  assert (Hbytes : BYTES_PER_ELEMENT (ta_kind h) = 1) by (rewrite Hk; reflexivity).
  assert (Hcells : cells_hold (buffers (world st')) h (a / 1) (es ++ [0])).
  { rewrite Hbufs, Z.div_1_r. apply cells_after_stores; [exact Ha | |].
    - rewrite length_app. cbn [length]. lia.
    - rewrite Hbytes. apply Forall_app. split; [exact Hrange |].
      constructor; [| constructor]. split; [lia | apply Z.pow_pos_nonneg; lia]. }
  destruct (same_but_contents_length st st' h Hsame) as [Hlen2 Ho2].
  assert (Hview2 : cachedHeapView (manager st') (unsigned_kind 1) = h).
  { unfold h. rewrite (proj1 (proj2 Hsame)). reflexivity. }
  assert (Hread2 : forall M, (forall m, M = Some m -> Z.of_nat (length es) < m) ->
                             readNullTerminatedUtf8String a M st' = (Ret value, st')).
  { intros M HM. rewrite <- Hdec.
    pose proof (read_elements_run h a 1 decodeUtf8 es M st' ltac:(auto)
                  (no_refresh_due_same _ _ Hsame Hquiet) Hview2 Hk) as Hrd.
    unfold readNullTerminatedUtf8String.
    erewrite bind_ext; [apply Hrd |].
    - rewrite Ho2. exact Ho.
    - exact Ha.
    - apply Z.mod_1_r.
    - rewrite Hlen2, Z.div_1_r. lia.
    - exact Hcells.
    - exact Hnz.
    - exact HM.
    - intros c s1. apply bind_ext. intros h' s2. rewrite whole_add. reflexivity. }
  split; [reflexivity |]. split; [exact Hsame |].
  split; [apply Hread2; discriminate |]. split.
  - intros m Hm. apply Hread2. intros m' Heq. injection Heq as Heq. rewrite <- Heq. exact Hm.
  - intros id r Hr Hra Hnz0 Hrn Hc. split.
    + unfold StringRef_write.
      assert (Hlive : live st id) by (exists r; split; [exact Hr | congruence]).
      rewrite (bind_ret _ _ _ _ _ (assertNotFreed_live st id Hlive)).
      rewrite (bind_ret _ _ _ _ _ (this_run st id r Hr)).
      rewrite Hc, Hra, Hrn. fold write. rewrite (bind_ret _ _ _ _ _ Hw2). reflexivity.
    + assert (Hr' : refs st' !! id = Some r)
        by (rewrite (proj1 (proj2 (proj2 Hsame))); exact Hr).
      assert (Hlive : live st' id) by (exists r; split; [exact Hr' | congruence]).
      unfold StringRef_read.
      rewrite (bind_ret _ _ _ _ _ (assertNotFreed_live st' id Hlive)).
      rewrite (bind_ret _ _ _ _ _ (this_run st' id r Hr')).
      rewrite Hc, Hra, Hrn. apply Hread2.
      intros m' Heq. injection Heq as Heq. rewrite <- Heq. lia.
Qed.

End Utf8RoundTrip.

Lemma Utf8_strings_are_read_back_witness :
  let st := arena_state 64 None in
  let write := writeNullTerminatedUtf8String 8 e_acute 4 in
  let st2 := state_after write st in
  outcome_of write st = Ret 2
  /\ readNullTerminatedUtf8String 8 None st2 = (Ret e_acute, st2)
  /\ readNullTerminatedUtf8String 8 (Some 4) st2 = (Ret e_acute, st2).
Proof.
  intros st write st2.
  assert (Hquiet : no_refresh_due st).
  { right. split; vm_compute; reflexivity. }
  assert (Hroom : has_room st 1 8 (4 - 1)).
  { unfold has_room; cbv zeta.
    (split; [| split; [| split; [| split]]]); vm_compute; congruence. }
  destruct (@Utf8_strings_are_read_back ArrayBufferArenaAllocator spec_encodings
              8 e_acute [195; 169] 4 st Hquiet ltac:(lia) Hroom)
    as (Hret & _ & Hnone & Hsome & _).
  - vm_compute. reflexivity.
  - cbn. lia.
  - repeat constructor.
  - vm_compute. reflexivity.
  - split; [exact Hret |]. split; [exact Hnone |]. apply Hsome. cbn. lia.
Defined.

(** ** Registrations of an array allocated from its elements *)

Section Registrations.

Context {Env : Type} `{Encodings}.

Lemma as_registered_heap st0 k : keeps (as_registered st0) (@heap Env k).
Proof.
  unfold heap. apply keeps_bind; [| intros _; apply keeps_gets].
  intros st (Hr & Hf & Ho).
  destruct (updateCacheIfNeeded_frame st) as (Hr' & Ho' & _ & _ & _ & Hf').
  unfold as_registered. rewrite Hr', Ho', Hf'. repeat split; assumption.
Qed.

Lemma as_registered_subarray st0 ta b e : keeps (as_registered st0) (@ta_subarray Env ta b e).
Proof. unfold ta_subarray. apply keeps_bind; [apply keeps_gets | intros; apply keeps_lift]. Qed.

Lemma as_registered_set_element st0 ta i v :
  keeps (as_registered st0) (@set_element Env ta i v).
Proof.
  intros st (Hr & Hf & Ho). destruct (set_element_frame ta i v st) as (_ & Hm & Hr').
  unfold as_registered. rewrite Hm, Hr'. repeat split; assumption.
Qed.

Lemma as_registered_fill st0 ta v : keeps (as_registered st0) (@ta_fill Env ta v).
Proof.
  intros st (Hr & Hf & Ho). destruct (ta_fill_frame ta v st) as (_ & Hm & Hr').
  unfold as_registered. rewrite Hm, Hr'. repeat split; assumption.
Qed.

Lemma as_registered_view_kind st0 k a n : keeps (as_registered st0) (@view_kind Env k a n).
Proof.
  destruct k; cbn [view_kind];
    unfold viewInt8Array, viewUint8Array, viewUint8ClampedArray, viewInt16Array,
      viewUint16Array, viewInt32Array, viewUint32Array, viewBigInt64Array,
      viewBigUint64Array, viewFloat32Array, viewFloat64Array; cbv zeta;
    (apply keeps_bind; [apply as_registered_heap | intros; apply as_registered_subarray]).
Qed.

Lemma as_registered_alloc st0 n : keeps (as_registered st0) (@alloc Env n).
Proof.
  unfold alloc. apply keeps_bind.
  { intros st (Hr & Hf & Ho). destruct (call_allocate_frame n st) as (Hm & Hr' & _).
    unfold as_registered. rewrite Hm, Hr'. repeat split; assumption. }
  intros a. apply keeps_bind; [apply keeps_gets | intros c].
  apply keeps_bind; [| intros; apply keeps_ret].
  destruct (truthy c); [| apply keeps_ret].
  apply keeps_bind; [apply (as_registered_view_kind st0 Uint8) | intros; apply as_registered_fill].
Qed.

Lemma as_registered_view st0 id : keeps (as_registered st0) (@view Env id).
Proof.
  unfold view, assertNotFreed, isFreed, this.
  repeat first
    [ apply keeps_ret | apply keeps_throw | apply keeps_gets
    | apply as_registered_view_kind
    | apply (as_registered_view_kind st0 Uint32)
    | apply (as_registered_view_kind st0 BigUint64)
    | apply keeps_bind; [| intros ?]
    | match goal with |- keeps _ (match ?x with _ => _ end) => destruct x end ].
Qed.

Lemma as_registered_set_values st0 ta vs :
  keeps (as_registered st0) (@ta_set_values Env ta vs).
Proof.
  unfold ta_set_values. apply keeps_bind; [apply keeps_gets | intros len].
  destruct (len <? _); [apply keeps_throw |].
  generalize 0. induction vs as [| v vs IH]; intros i; cbn [set_values].
  - apply keeps_ret.
  - apply keeps_bind; [apply as_registered_set_element | intros _; apply IH].
Qed.

Lemma registerFinalizer_enabled ref r (st : @State Env) :
  truthy (enableGarbageCollection (options (manager st))) = true ->
  refs st !! ref = Some r ->
  registerFinalizerIfEnabled ref st
  = (Ret tt, set_manager (register ref (address r) (manager st)) st).
Proof.
  intros Hgc Hr. unfold registerFinalizerIfEnabled. rewrite bind_gets, Hgc.
  rewrite (bind_ret _ _ _ _ _ (this_run st ref r Hr)). reflexivity.
Qed.

(** With garbage collection enabled, an array allocated from its elements
    is registered twice with the finalization registry, for the same
    address: once by the call of the method with the count, which the
    method makes on itself, and once more before it returns.  Allocated
    with a count it is registered once. *)
Theorem arrays_from_elements_are_registered_twice k countOrElements
    (st st' : @State Env) ref :
  truthy (enableGarbageCollection (options (manager st))) = true ->
  allocArray k countOrElements st = (Ret ref, st') ->
  exists a,
    refs st' = refs st ++ [{| class := TypedArrayRef k; address := a;
                              elementCount :=
                                match countOrElements with
                                | ACount n => n
                                | SomeElements elements => Z.of_nat (length elements)
                                end |}]
    /\ ref = length (refs st)
    /\ finalizationRegistry (manager st')
       = finalizationRegistry (manager st)
           ++ match countOrElements with
              | ACount _ => [(ref, a)]
              | SomeElements _ => [(ref, a); (ref, a)]
              end.
Proof.
  intros Hgc Hrun. unfold allocArray in Hrun.
  destruct countOrElements as [n | elements].
  - rewrite bind_assoc in Hrun. unfold bind at 1 in Hrun.
    pose proof (as_registered_alloc st (n * BYTES_PER_ELEMENT k) st
                  ltac:(repeat split)) as (Hr1 & Hf1 & Ho1).
    destruct (alloc (n * BYTES_PER_ELEMENT k) st) as [[a | e] s1]; [| discriminate].
    cbn [snd] in *. unfold wrapArray in Hrun.
    rewrite (bind_ret _ _ _ _ _ (new_ref_run _ _ _ s1)) in Hrun.
    set (r := {| class := TypedArrayRef k; address := a; elementCount := n |}) in *.
    set (s2 := set_refs (refs s1 ++ [r]) s1) in *.
    assert (Hr2 : refs s2 !! length (refs s1) = Some r)
      by (apply list_lookup_middle; reflexivity).
    rewrite (bind_ret _ _ _ _ _
               (registerFinalizer_enabled _ r s2 ltac:(cbn; rewrite Ho1; exact Hgc) Hr2))
      in Hrun.
    injection Hrun as <- <-. exists a. cbn. rewrite Hr1, Hf1. repeat split.
  - set (n := Z.of_nat (length elements)) in *.
    unfold allocArray_count in Hrun. rewrite !bind_assoc in Hrun.
    unfold bind at 1 in Hrun.
    pose proof (as_registered_alloc st (n * BYTES_PER_ELEMENT k) st
                  ltac:(repeat split)) as (Hr1 & Hf1 & Ho1).
    destruct (alloc (n * BYTES_PER_ELEMENT k) st) as [[a | e] s1]; [| discriminate].
    cbn [snd] in *. unfold wrapArray in Hrun. rewrite ?bind_assoc in Hrun.
    rewrite (bind_ret _ _ _ _ _ (new_ref_run _ _ _ s1)) in Hrun.
    rewrite ?bind_assoc in Hrun.
    set (r := {| class := TypedArrayRef k; address := a; elementCount := n |}) in *.
    set (s2 := set_refs (refs s1 ++ [r]) s1) in *.
    assert (Hr2 : refs s2 !! length (refs s1) = Some r)
      by (apply list_lookup_middle; reflexivity).
    rewrite (bind_ret _ _ _ _ _
               (registerFinalizer_enabled _ r s2 ltac:(cbn; rewrite Ho1; exact Hgc) Hr2))
      in Hrun.
    rewrite ?bind_assoc in Hrun.
    set (s3 := set_manager (register (length (refs s1)) (address r) (manager s2)) s2) in *.
    rewrite bind_ret_l in Hrun. rewrite ?bind_assoc in Hrun. unfold bind at 1 in Hrun.
    pose proof (as_registered_view s3 (length (refs s1)) s3 ltac:(repeat split))
      as (Hr4 & Hf4 & Ho4).
    destruct (view (length (refs s1)) s3) as [[v | e] s4]; [| discriminate].
    cbn [snd] in *. rewrite ?bind_assoc in Hrun. unfold bind at 1 in Hrun.
    pose proof (as_registered_set_values s4 v elements s4 ltac:(repeat split))
      as (Hr5 & Hf5 & Ho5).
    destruct (ta_set_values v elements s4) as [[[] | e] s5]; [| discriminate].
    cbn [snd] in *. rewrite bind_ret_l in Hrun.
    assert (Hr5' : refs s5 !! length (refs s1) = Some r) by (rewrite Hr5, Hr4; exact Hr2).
    rewrite (bind_ret _ _ _ _ _
               (registerFinalizer_enabled _ r s5
                  ltac:(rewrite Ho5, Ho4; cbn; rewrite Ho1; exact Hgc) Hr5')) in Hrun.
    injection Hrun as <- <-. exists a. cbn. rewrite Hr5, Hr4, Hf5, Hf4. cbn.
    rewrite Hr1, Hf1, <- app_assoc. repeat split.
Qed.

End Registrations.

Lemma arrays_from_elements_are_registered_twice_witness :
  let st := arena_state 64 (Some collecting) in
  let elements := SomeElements [Number (of_Z 1); Number (of_Z 2)] in
  let st' := state_after (allocArray Int32 elements) st in
  outcome_of (allocArray Int32 elements) st = Ret 0%nat
  /\ finalizationRegistry (manager st') = [(0%nat, 8); (0%nat, 8)].
Proof.
  intros st elements st'.
  assert (Hrun : allocArray Int32 elements st = (Ret 0%nat, st')).
  { unfold st', state_after. apply (run_ret (allocArray Int32 elements) st 0%nat).
    vm_compute. reflexivity. }
  assert (Hgc : truthy (enableGarbageCollection (options (manager st))) = true).
  { vm_compute. reflexivity. }
  destruct (arrays_from_elements_are_registered_twice Int32 elements st st' 0%nat Hgc Hrun)
    as (a & Hrefs & _ & Hreg).
  split; [unfold outcome_of; rewrite Hrun; reflexivity |].
  assert (Ha : refs st' !! 0%nat
               = Some {| class := TypedArrayRef Int32; address := 8; elementCount := 2 |}).
  { vm_compute. reflexivity. }
  rewrite Hrefs in Ha.
  assert (Hnone : refs st = []) by (vm_compute; reflexivity).
  rewrite Hnone in Ha. cbn [app lookup list_lookup] in Ha. injection Ha as Ha.
  rewrite Hreg, Ha.
  assert (Hempty : finalizationRegistry (manager st) = []) by (vm_compute; reflexivity).
  rewrite Hempty. reflexivity.
Defined.

(** ** The arena and the polling mode *)

Lemma byteLength_store_raws ta raws : forall bufs i b,
  0 <= i -> i + Z.of_nat (length raws) <= TypedArrayLength bufs ta ->
  byteLength (store_raws bufs ta i raws) b = byteLength bufs b
  /\ IsDetachedBuffer (store_raws bufs ta i raws) b = IsDetachedBuffer bufs b.
Proof.
  induction raws as [| r raws IH]; intros bufs i b Hi Hfit; cbn [store_raws].
  - split; reflexivity.
  - cbn [length] in Hfit.
    assert (Hin : 0 <= i < TypedArrayLength bufs ta) by lia.
    destruct (byteLength_store_raw bufs ta i r b Hin) as [Hl Hd].
    destruct (IH (store_raw bufs ta i r) (i + 1) b ltac:(lia)) as [Hl' Hd'].
    + rewrite (TypedArrayLength_store_raw bufs ta i r ta Hin). lia.
    + split; congruence.
Qed.

Lemma byteLength_fill bufs ta v bufs' b :
  fill bufs ta v = Ret bufs' ->
  byteLength bufs' b = byteLength bufs b
  /\ IsDetachedBuffer bufs' b = IsDetachedBuffer bufs b.
Proof.
  unfold fill.
  destruct (IsTypedArrayOutOfBounds bufs ta) eqn:Ho; [discriminate |].
  destruct (to_raw (ta_kind ta) v) as [raw | e]; cbn [obind]; [| discriminate].
  intros Heq. injection Heq as <-.
  destruct (in_bounds_view bufs ta Ho) as (_ & _ & _ & HL & HL0).
  apply byteLength_store_raws; [lia |].
  rewrite length_replicate. lia.
Qed.

(** When [allocate] of the arena has to grow its heap, the arena moves on
    to a new buffer and leaves the old one in place, with its length.  A
    manager over the arena that polls 'never' or 'whenEmpty' does not learn
    of it: after [alloc], the cached buffer and the views that the heap
    getters return are still the ones of the old buffer, which is not the
    heap of the arena any more. *)
Theorem arena_growth_is_not_seen_without_polling size k
    (st : @State ArrayBufferArenaAllocator) :
  allocate (manager st) = arena_allocate ->
  cachedHeap (manager st) = arena_heap (env (world st)) ->
  is_Some (buffers (world st) !! arena_heap (env (world st))) ->
  arena_capacity (world st)
  < alignToNextMultiple (currentAllocationAddress (env (world st)) + size)
      (alignmentConstant (env (world st))) ->
  no_refresh_due st ->
  let st' := state_after (alloc size) st in
  arena_heap (env (world st')) <> arena_heap (env (world st))
  /\ cachedHeap (manager st') = arena_heap (env (world st))
  /\ heap k st' = (Ret (cachedHeapView (manager st) k), st').
Proof.
  intros Hal Hcached [old Hold] Hgrow Hquiet st'.
  set (b0 := arena_heap (env (world st))) in *.
  set (Q := fun s : @State ArrayBufferArenaAllocator =>
              manager s = manager st
              /\ arena_heap (env (world s)) <> b0
              /\ byteLength (buffers (world s)) b0 = byteLength (buffers (world st)) b0).
  assert (HQ : Q st').
  { unfold st', state_after, alloc.
    assert (Hcall : exists a st1, call_allocate size st = (Ret a, st1) /\ Q st1).
    { unfold call_allocate. rewrite Hal.
      rewrite (arena_allocate_grown size (world st) Hgrow).
      eexists _, _. split; [reflexivity |]. unfold Q.
      cbn [manager add_event set_world world env buffers arena_heap].
      pose proof (fresh_buffer_is_fresh (buffers (world st))) as Hfresh.
      assert (Hne : fresh_buffer (buffers (world st)) <> b0).
      { intros Heq. rewrite Heq in Hfresh.
        pose proof (eq_trans (eq_sym Hfresh) Hold) as Hno. discriminate Hno. }
      split; [reflexivity |]. split; [exact Hne |].
      unfold byteLength, buffer_at. rewrite !lookup_insert_ne by exact Hne. reflexivity. }
    destruct Hcall as (a & st1 & Hcall & HQ1).
    rewrite (bind_ret _ _ _ _ _ Hcall). rewrite bind_gets.
    destruct (truthy (clearAllocatedRegions (options (manager st1)))); [| exact HQ1].
    assert (Hq1 : no_refresh_due st1).
    { destruct HQ1 as (Hm & _ & Hl). unfold no_refresh_due in *. rewrite Hm, Hcached, Hl.
      rewrite <- Hcached. exact Hquiet. }
    unfold viewUint8Array. rewrite !bind_assoc.
    rewrite (bind_ret _ _ _ _ _ (heap_steady Uint8 st1 Hq1)).
    unfold bind at 1. rewrite ta_subarray_run.
    destruct (subarray _ _ _ _) as [sub | e]; [| exact HQ1].
    unfold bind at 1. unfold ta_fill. rewrite bind_gets.
    destruct (fill (buffers (world st1)) sub (Number (of_Z 0))) as [bufs' | e] eqn:Hfill;
      [| exact HQ1].
    unfold Q. cbn -[byteLength]. destruct HQ1 as (Hm & Hne & Hl).
    split; [exact Hm |]. split; [exact Hne |].
    rewrite (proj1 (byteLength_fill _ _ _ _ b0 Hfill)). exact Hl. }
  destruct HQ as (Hm & Hne & Hl).
  split; [exact Hne |]. split; [rewrite Hm; exact Hcached |].
  rewrite <- Hm. apply heap_steady.
  unfold no_refresh_due in *. rewrite Hm, Hcached. fold b0. rewrite Hl.
  rewrite <- Hcached. exact Hquiet.
Qed.

Lemma constructor_allocate {Env} hg al de o (w : @World Env) l r :
  allocate (manager (snd (new_WasmHeapManager hg al de o w l r))) = al.
Proof.
  unfold new_WasmHeapManager, bind, call_heapGetter. simpl.
  destruct (hg w) as [b w1]. simpl.
  match goal with
  | |- context [updateCache b ?s] =>
      destruct (updateCache_frame b s) as (_ & _ & _ & _ & _ & _ & Ha & _);
      destruct (updateCache b s) as [[[] | e] s'] eqn:Hu; simpl in *; exact Ha
  end.
Qed.

Lemma arena_growth_is_not_seen_without_polling_witness :
  let st := arena_state 64 None in
  let st' := state_after (alloc 100) st in
  arena_heap (env (world st')) <> arena_heap (env (world st))
  /\ cachedHeap (manager st') = arena_heap (env (world st))
  /\ heap Uint8 st' = (Ret (cachedHeapView (manager st) Uint8), st').
Proof.
  intros st.
  assert (Hal : allocate (manager st) = arena_allocate) by apply constructor_allocate.
  assert (Hcached : cachedHeap (manager st) = arena_heap (env (world st)))
    by (vm_compute; reflexivity).
  assert (Hold : is_Some (buffers (world st) !! arena_heap (env (world st))))
    by (vm_compute; eexists; reflexivity).
  assert (Hgrow : arena_capacity (world st)
                  < alignToNextMultiple (currentAllocationAddress (env (world st)) + 100)
                      (alignmentConstant (env (world st))))
    by (vm_compute; reflexivity).
  assert (Hquiet : no_refresh_due st) by (right; split; vm_compute; reflexivity).
  exact (arena_growth_is_not_seen_without_polling 100 Uint8 st Hal Hcached Hold Hgrow Hquiet).
Defined.

(** ** WasmMemoryArenaAllocator *)

Lemma Math_ceil_bounds a b :
  0 < b -> a <= Math_ceil (js_div a b) * b < a + b.
Proof.
  intros Hb. unfold Math_ceil, js_div. cbn [numerator denominator].
  pose proof (Z.div_mod (- a) b ltac:(lia)) as Hdm.
  pose proof (Z.mod_pos_bound (- a) b Hb) as Hm.
  nia.
Qed.

Lemma wasm_grow_run delta (w : WasmMemoryArena.WasmWorld) :
  IsDetachedBuffer (buffers w) (WasmMemoryArena.heap w) = false ->
  0 <= delta ->
  let w' := snd (WasmMemoryArena.grow delta w) in
  match fst (WasmMemoryArena.grow delta w) with
  | Throw _ => w' = w
  | Ret _ =>
      WasmMemoryArena.heap w' <> WasmMemoryArena.heap w
      /\ buffers w !! WasmMemoryArena.heap w' = None
      /\ IsDetachedBuffer (buffers w') (WasmMemoryArena.heap w') = false
      /\ IsDetachedBuffer (buffers w') (WasmMemoryArena.heap w) = true
      /\ WasmMemoryArena.capacity w' = WasmMemoryArena.capacity w + delta * 2 ^ 16
      /\ data (buffer_at (buffers w') (WasmMemoryArena.heap w'))
         = data (buffer_at (buffers w) (WasmMemoryArena.heap w))
             ++ replicate (Z.to_nat (delta * 2 ^ 16)) Byte.x00
      /\ (forall b, b <> WasmMemoryArena.heap w -> b <> WasmMemoryArena.heap w' ->
            buffers w' !! b = buffers w !! b)
      /\ WasmMemoryArena.alignmentConstant (WasmMemoryArena.allocator (env w'))
         = WasmMemoryArena.alignmentConstant (WasmMemoryArena.allocator (env w))
      /\ WasmMemoryArena.currentAllocationAddress (WasmMemoryArena.allocator (env w'))
         = WasmMemoryArena.currentAllocationAddress (WasmMemoryArena.allocator (env w))
      /\ WasmMemoryArena.console (env w') = WasmMemoryArena.console (env w)
  end.
Proof.
  intros Hd Hdelta. unfold WasmMemoryArena.grow. cbv zeta.
  set (memory := WasmMemoryArena.wasmMemory (WasmMemoryArena.allocator (env w))).
  set (old := WasmMemoryArena.buffer memory).
  assert (Hheap : WasmMemoryArena.heap w = old) by reflexivity.
  set (bytes := data (buffer_at (buffers w) old)).
  destruct (WasmMemoryArena.limit memory <? _); [reflexivity |].
  set (bufs1 := <[old := {| data := bytes; detached := true |}]> (buffers w)).
  cbn [fst snd]. unfold WasmMemoryArena.capacity, WasmMemoryArena.heap.
  cbn [env buffers WasmMemoryArena.allocator WasmMemoryArena.wasmMemory
         WasmMemoryArena.buffer WasmMemoryArena.alignmentConstant
         WasmMemoryArena.currentAllocationAddress WasmMemoryArena.console].
  fold memory. fold old.
  pose proof (fresh_buffer_is_fresh bufs1) as Hfresh.
  assert (Hne : fresh_buffer bufs1 <> old).
  { intros Heq. rewrite Heq in Hfresh. unfold bufs1 in Hfresh.
    rewrite lookup_insert_eq in Hfresh. discriminate Hfresh. }
  assert (Hnone : buffers w !! fresh_buffer bufs1 = None).
  { pose proof Hfresh as Hn. unfold bufs1 at 2 in Hn.
    rewrite lookup_insert_ne in Hn by congruence. exact Hn. }
  split; [exact Hne |]. split; [exact Hnone |].
  unfold IsDetachedBuffer, byteLength. rewrite !buffer_at_insert.
  destruct (decide (fresh_buffer bufs1 = fresh_buffer bufs1)) as [_ |]; [| congruence].
  destruct (decide (fresh_buffer bufs1 = old)) as [Heq |]; [contradiction |].
  unfold bufs1 at 1. rewrite buffer_at_insert.
  destruct (decide (old = old)) as [_ |]; [| congruence].
  cbn [detached data].
  split; [reflexivity |]. split; [reflexivity |]. split.
  { unfold IsDetachedBuffer in Hd. rewrite Hheap in Hd. fold bytes. rewrite Hd.
    rewrite length_app, length_replicate. lia. }
  split; [reflexivity |]. split.
  { intros b Hb1 Hb2. rewrite lookup_insert_ne by congruence.
    unfold bufs1. rewrite lookup_insert_ne by congruence. reflexivity. }
  repeat split.
Qed.

(** [allocate] of the arena over a [WebAssembly.Memory] hands out the
    region that starts at the current allocation address, and the next
    region starts at the next multiple of the alignment constant after it.
    The region lies inside the memory as it is after the call: where the
    memory has to grow, it grows by a whole number of pages, one page more
    than the region needs, its old buffer is detached and the new one starts
    with the bytes of the old one, and the new capacity is logged.  Where
    the engine refuses the growth, the error names the capacity and what
    was asked for, and the allocator and the memory are as before. *)
Theorem wasm_arena_allocate_region size (w : WasmMemoryArena.WasmWorld) :
  let this := WasmMemoryArena.allocator (env w) in
  let current' w' :=
    WasmMemoryArena.currentAllocationAddress (WasmMemoryArena.allocator (env w')) in
  0 < WasmMemoryArena.alignmentConstant this ->
  0 <= WasmMemoryArena.currentAllocationAddress this ->
  0 <= size ->
  IsDetachedBuffer (buffers w) (WasmMemoryArena.heap w) = false ->
  let w' := snd (WasmMemoryArena.allocate size w) in
  match fst (WasmMemoryArena.allocate size w) with
  | WasmMemoryArena.Address a =>
      a = WasmMemoryArena.currentAllocationAddress this
      /\ a + size <= current' w'
      /\ current' w' < a + size + WasmMemoryArena.alignmentConstant this
      /\ current' w' mod WasmMemoryArena.alignmentConstant this = 0
      /\ current' w' <= WasmMemoryArena.capacity w'
      /\ IsDetachedBuffer (buffers w') (WasmMemoryArena.heap w') = false
      /\ (forall j x,
            data (buffer_at (buffers w) (WasmMemoryArena.heap w)) !! j = Some x ->
            data (buffer_at (buffers w') (WasmMemoryArena.heap w')) !! j = Some x)
      /\ (current' w' <= WasmMemoryArena.capacity w ->
          buffers w' = buffers w /\ WasmMemoryArena.heap w' = WasmMemoryArena.heap w
          /\ WasmMemoryArena.console (env w') = WasmMemoryArena.console (env w))
      /\ (WasmMemoryArena.capacity w < current' w' ->
          WasmMemoryArena.heap w' <> WasmMemoryArena.heap w
          /\ IsDetachedBuffer (buffers w') (WasmMemoryArena.heap w) = true
          /\ (exists pages,
                WasmMemoryArena.capacity w'
                = WasmMemoryArena.capacity w + pages * 2 ^ 16
                /\ current' w' + 2 ^ 16 <= WasmMemoryArena.capacity w'
                   < current' w' + 2 * 2 ^ 16)
          /\ WasmMemoryArena.console (env w')
             = WasmMemoryArena.console (env w) ++ [WasmMemoryArena.capacity w'])
  | WasmMemoryArena.CouldNotGrow fromBytes toBytes =>
      w' = w
      /\ fromBytes = WasmMemoryArena.capacity w
      /\ WasmMemoryArena.currentAllocationAddress this + size <= toBytes
      /\ fromBytes < toBytes
  end.
Proof.
  intros this current' Hc Hcur Hsize Hd w'. subst w'.
  unfold WasmMemoryArena.allocate. cbv zeta. fold this.
  set (endAddress :=
         alignToNextMultiple (WasmMemoryArena.currentAllocationAddress this + size)
           (WasmMemoryArena.alignmentConstant this)).
  destruct (alignToNextMultiple_bounds
              (WasmMemoryArena.currentAllocationAddress this + size)
              (WasmMemoryArena.alignmentConstant this) Hc) as (Hal & Hlo & Hhi).
  fold endAddress in Hal, Hlo, Hhi.
  destruct (Z.ltb_spec (WasmMemoryArena.capacity w) endAddress) as [Hgrow | Hfit].
  - set (delta := Math_ceil (js_div (endAddress - WasmMemoryArena.capacity w) (2 ^ 16)) + 1).
    pose proof (Math_ceil_bounds (endAddress - WasmMemoryArena.capacity w) (2 ^ 16)
                  ltac:(lia)) as Hceil.
    assert (Hdelta : 0 <= delta) by (unfold delta; nia).
    pose proof (wasm_grow_run delta w Hd Hdelta) as Hrun. cbv zeta in Hrun.
    destruct (WasmMemoryArena.grow delta w) as [[pages | e] w1]; cbn [fst snd] in *.
    + destruct Hrun as (Hne & Hnone & Hd1 & Hd0 & Hcap & Hdata & Hrest & Ha1 & Hc1 & Hl1).
      unfold current'.
      cbn [WasmMemoryArena.set_currentAllocationAddress WasmMemoryArena.console_log env
             buffers WasmMemoryArena.allocator WasmMemoryArena.currentAllocationAddress
             WasmMemoryArena.console].
      change (WasmMemoryArena.heap
                (WasmMemoryArena.set_currentAllocationAddress endAddress
                   (WasmMemoryArena.console_log (WasmMemoryArena.capacity w1) w1)))
        with (WasmMemoryArena.heap w1).
      change (WasmMemoryArena.capacity
                (WasmMemoryArena.set_currentAllocationAddress endAddress
                   (WasmMemoryArena.console_log (WasmMemoryArena.capacity w1) w1)))
        with (WasmMemoryArena.capacity w1).
      split; [reflexivity |]. split; [lia |]. split; [lia |]. split; [exact Hal |].
      split; [unfold delta in Hcap; lia |]. split; [exact Hd1 |]. split.
      { intros j x Hj. rewrite Hdata. apply lookup_app_l_Some. exact Hj. }
      split; [intros Hno; lia |]. intros _.
      split; [exact Hne |]. split; [exact Hd0 |]. split.
      { exists delta. split; [exact Hcap |]. unfold delta in Hcap. lia. }
      rewrite Hl1. reflexivity.
    + subst w1. split; [reflexivity |]. split; [reflexivity |]. split; lia.
  - cbn [fst snd]. unfold current'.
    cbn [WasmMemoryArena.set_currentAllocationAddress env buffers
           WasmMemoryArena.allocator WasmMemoryArena.currentAllocationAddress
           WasmMemoryArena.console].
    change (WasmMemoryArena.heap
              (WasmMemoryArena.set_currentAllocationAddress endAddress w))
      with (WasmMemoryArena.heap w).
    change (WasmMemoryArena.capacity
              (WasmMemoryArena.set_currentAllocationAddress endAddress w))
      with (WasmMemoryArena.capacity w).
    split; [reflexivity |]. split; [lia |]. split; [lia |]. split; [exact Hal |].
    split; [exact Hfit |]. split; [exact Hd |]. split; [intros j x Hj; exact Hj |].
    split; [intros _; repeat split | intros Hno; lia].
Qed.

Lemma wasm_arena_allocate_region_witness :
  let w' := snd (WasmMemoryArena.allocate 70000 one_page) in
  fst (WasmMemoryArena.allocate 70000 one_page) = WasmMemoryArena.Address 8
  /\ 8 + 70000
     <= WasmMemoryArena.currentAllocationAddress (WasmMemoryArena.allocator (env w'))
     <= WasmMemoryArena.capacity w'
  /\ IsDetachedBuffer (buffers w') (WasmMemoryArena.heap one_page) = true.
Proof.
  intros w'.
  assert (Hfst : fst (WasmMemoryArena.allocate 70000 one_page) = WasmMemoryArena.Address 8)
    by (vm_compute; reflexivity).
  assert (Hgrow : WasmMemoryArena.capacity one_page
                  < WasmMemoryArena.currentAllocationAddress
                      (WasmMemoryArena.allocator (env w')))
    by (vm_compute; reflexivity).
  pose proof (wasm_arena_allocate_region 70000 one_page ltac:(cbn; lia) ltac:(cbn; lia)
                ltac:(lia) ltac:(vm_compute; reflexivity)) as Hregion.
  cbv zeta in Hregion. rewrite Hfst in Hregion.
  destruct Hregion as (_ & Hlo & _ & _ & Hhi & _ & _ & _ & Hgrown).
  destruct (Hgrown Hgrow) as (_ & Hd & _).
  split; [exact Hfst |]. split; [split; [exact Hlo | exact Hhi] | exact Hd].
Defined.

Lemma wasm_allocate_grown size (w w' : WasmMemoryArena.WasmWorld) a :
  IsDetachedBuffer (buffers w) (WasmMemoryArena.heap w) = false ->
  0 < WasmMemoryArena.alignmentConstant (WasmMemoryArena.allocator (env w)) ->
  WasmMemoryArena.allocate size w = (WasmMemoryArena.Address a, w') ->
  WasmMemoryArena.capacity w
  < WasmMemoryArena.currentAllocationAddress (WasmMemoryArena.allocator (env w')) ->
  WasmMemoryArena.heap w' <> WasmMemoryArena.heap w
  /\ IsDetachedBuffer (buffers w') (WasmMemoryArena.heap w') = false
  /\ IsDetachedBuffer (buffers w') (WasmMemoryArena.heap w) = true
  /\ exists pages,
       0 < pages
       /\ WasmMemoryArena.capacity w' = WasmMemoryArena.capacity w + pages * 2 ^ 16.
Proof.
  intros Hd Hc Hrun Hgrown. unfold WasmMemoryArena.allocate in Hrun. cbv zeta in Hrun.
  set (endAddress :=
         alignToNextMultiple
           (WasmMemoryArena.currentAllocationAddress (WasmMemoryArena.allocator (env w))
            + size)
           (WasmMemoryArena.alignmentConstant (WasmMemoryArena.allocator (env w)))) in *.
  destruct (Z.ltb_spec (WasmMemoryArena.capacity w) endAddress) as [Hgrow | Hfit].
  - set (delta := Math_ceil (js_div (endAddress - WasmMemoryArena.capacity w) (2 ^ 16)) + 1)
      in *.
    pose proof (Math_ceil_bounds (endAddress - WasmMemoryArena.capacity w) (2 ^ 16)
                  ltac:(lia)) as Hceil.
    assert (Hdelta : 0 < delta) by (unfold delta; nia).
    pose proof (wasm_grow_run delta w Hd ltac:(lia)) as Hg. cbv zeta in Hg.
    destruct (WasmMemoryArena.grow delta w) as [[pages | e] w1]; cbn [fst snd] in *;
      [| discriminate].
    injection Hrun as _ <-.
    destruct Hg as (Hne & _ & Hd1 & Hd0 & Hcap & _).
    split; [exact Hne |]. split; [exact Hd1 |]. split; [exact Hd0 |].
    exists delta. split; [exact Hdelta | exact Hcap].
  - injection Hrun as _ <-. cbn in Hgrown. fold endAddress in Hgrown. lia.
Qed.

(** The memory has grown under an allocation of the arena: a manager whose
    heap getter returns the buffer of the memory, and whose polling mode is
    not 'never', then finds its cached buffer empty at the next heap
    access, calls the heap getter once and returns the view of the whole
    new buffer.  (With 'whenEmpty', the mode of [initWasmHeap] in the
    tests, this is the one case in which the getter is called.) *)
Theorem memory_growth_is_seen_by_polling size k
    (st : @State WasmMemoryArena.Embedder) a w' :
  heapGetter (manager st) = WasmMemoryArena.heapGetter ->
  pollingMode (options (manager st)) <> Some never ->
  cachedHeap (manager st) = WasmMemoryArena.heap (world st) ->
  IsDetachedBuffer (buffers (world st)) (WasmMemoryArena.heap (world st)) = false ->
  WasmMemoryArena.capacity (world st) mod 2 ^ 16 = 0 ->
  0 < WasmMemoryArena.alignmentConstant (WasmMemoryArena.allocator (env (world st))) ->
  WasmMemoryArena.allocate size (world st) = (WasmMemoryArena.Address a, w') ->
  WasmMemoryArena.capacity (world st)
  < WasmMemoryArena.currentAllocationAddress (WasmMemoryArena.allocator (env w')) ->
  exists st2,
    heap k (set_world w' st)
    = (Ret (whole_view k (WasmMemoryArena.heap w') (WasmMemoryArena.capacity w')), st2)
    /\ cachedHeap (manager st2) = WasmMemoryArena.heap w'
    /\ world st2 = w'
    /\ log st2 = log st ++ [HeapGetterCall].
Proof.
  intros Hhg Hmode Hcached Hd Hpages Hc Hrun Hgrown.
  destruct (wasm_allocate_grown size (world st) w' a Hd Hc Hrun Hgrown)
    as (Hne & Hd1 & Hd0 & pages & Hp & Hcap).
  set (st1 := set_world w' st).
  set (st1a := add_event HeapGetterCall st1).
  assert (Hlen : 0 < byteLength (buffers (world st1a)) (WasmMemoryArena.heap w')).
  { change (0 < WasmMemoryArena.capacity w'). rewrite Hcap.
    assert (0 <= WasmMemoryArena.capacity (world st)); [| lia].
    unfold WasmMemoryArena.capacity, byteLength. cbv zeta.
    destruct (detached _); lia. }
  assert (Hrefresh : updateCacheIfNeeded st1
                     = updateCache (WasmMemoryArena.heap w') st1a).
  { rewrite updateCacheIfNeeded_eq.
    change (options (manager st1)) with (options (manager st)).
    change (cachedHeap (manager st1)) with (cachedHeap (manager st)).
    change (heapGetter (manager st1)) with (heapGetter (manager st)).
    rewrite Hhg, Hcached.
    rewrite (bool_decide_eq_false_2 _ Hmode).
    assert (Hzero : byteLength (buffers (world st1)) (WasmMemoryArena.heap (world st)) = 0).
    { unfold byteLength. cbv zeta. unfold IsDetachedBuffer in Hd0.
      change (world st1) with w'. rewrite Hd0. reflexivity. }
    rewrite Hzero. rewrite andb_false_r. cbn [orb].
    cbv zeta. unfold WasmMemoryArena.heapGetter. cbn [fst snd].
    change (world st1) with w'.
    change (set_world w' st1) with st1. fold st1a.
    destruct (Z.ltb_spec 0 (byteLength (buffers (world st1a)) (WasmMemoryArena.heap w')));
      [reflexivity | lia]. }
  assert (H8 : byteLength (buffers (world st1a)) (WasmMemoryArena.heap w') mod 8 = 0).
  { change (WasmMemoryArena.capacity w' mod 8 = 0). rewrite Hcap.
    apply Z.mod_divide in Hpages; [| lia]. destruct Hpages as [q Hq]. rewrite Hq.
    apply Z.mod_divide; [lia |]. exists ((q + pages) * 2 ^ 13). lia. }
  destruct (updateCache_attached (WasmMemoryArena.heap w') st1a Hd1 H8) as [Hret Hviews].
  destruct (updateCache_frame (WasmMemoryArena.heap w') st1a)
    as (Hworld & Hlog & _ & Hb & _).
  exists (snd (updateCache (WasmMemoryArena.heap w') st1a)).
  split; [| split; [exact Hb | split; [rewrite Hworld; reflexivity |
                                       rewrite Hlog; reflexivity]]].
  unfold heap, bind. fold st1. rewrite Hrefresh.
  destruct (updateCache (WasmMemoryArena.heap w') st1a) as [[[] | e] s2];
    cbn [fst snd] in *; [| discriminate].
  unfold gets. rewrite Hviews. reflexivity.
Qed.

Lemma constructor_heapGetter {Env} hg al de o (w : @World Env) l r :
  heapGetter (manager (snd (new_WasmHeapManager hg al de o w l r))) = hg.
Proof.
  unfold new_WasmHeapManager, bind, call_heapGetter. simpl.
  destruct (hg w) as [b w1]. simpl.
  match goal with
  | |- context [updateCache b ?s] =>
      destruct (updateCache_frame b s) as (_ & _ & _ & _ & _ & Hh & _);
      destruct (updateCache b s) as [[[] | e] s'] eqn:Hu; simpl in *; exact Hh
  end.
Qed.

Lemma memory_growth_is_seen_by_polling_witness :
  let w' := snd (WasmMemoryArena.allocate 70000 (world wasm_state)) in
  exists st2,
    heap Uint8 (set_world w' wasm_state)
    = (Ret (whole_view Uint8 (WasmMemoryArena.heap w') (WasmMemoryArena.capacity w')), st2)
    /\ cachedHeap (manager st2) = WasmMemoryArena.heap w'
    /\ world st2 = w'
    /\ log st2 = log wasm_state ++ [HeapGetterCall].
Proof.
  intros w'.
  assert (Hhg : heapGetter (manager wasm_state) = WasmMemoryArena.heapGetter)
    by apply constructor_heapGetter.
  assert (Hmode : pollingMode (options (manager wasm_state)) <> Some never).
  { unfold wasm_state. rewrite constructor_options. discriminate. }
  assert (Hcached : cachedHeap (manager wasm_state) = WasmMemoryArena.heap (world wasm_state))
    by (vm_compute; reflexivity).
  assert (Hd : IsDetachedBuffer (buffers (world wasm_state))
                 (WasmMemoryArena.heap (world wasm_state)) = false)
    by (vm_compute; reflexivity).
  assert (Hpages : WasmMemoryArena.capacity (world wasm_state) mod 2 ^ 16 = 0)
    by (vm_compute; reflexivity).
  assert (Hc : 0 < WasmMemoryArena.alignmentConstant
                     (WasmMemoryArena.allocator (env (world wasm_state))))
    by (vm_compute; reflexivity).
  assert (Hrun : WasmMemoryArena.allocate 70000 (world wasm_state)
                 = (WasmMemoryArena.Address 8, w')).
  { unfold w'. apply (pair_of_fst (WasmMemoryArena.allocate 70000 (world wasm_state))).
    vm_compute. reflexivity. }
  assert (Hgrown : WasmMemoryArena.capacity (world wasm_state)
                   < WasmMemoryArena.currentAllocationAddress
                       (WasmMemoryArena.allocator (env w')))
    by (vm_compute; reflexivity).
  exact (memory_growth_is_seen_by_polling 70000 Uint8 wasm_state 8 w'
           Hhg Hmode Hcached Hd Hpages Hc Hrun Hgrown).
Defined.

(** ** Concatenating typed arrays *)

(** What a view shows depends on its own buffer only. *)
Lemma view_of_the_same_buffer bufs1 bufs2 a :
  buffer_at bufs2 (ta_buffer a) = buffer_at bufs1 (ta_buffer a) ->
  IsTypedArrayOutOfBounds bufs2 a = IsTypedArrayOutOfBounds bufs1 a
  /\ TypedArrayLength bufs2 a = TypedArrayLength bufs1 a
  /\ raw_elements bufs2 a = raw_elements bufs1 a.
Proof.
  intros Hb.
  assert (Ho : IsTypedArrayOutOfBounds bufs2 a = IsTypedArrayOutOfBounds bufs1 a).
  { unfold IsTypedArrayOutOfBounds, IsDetachedBuffer, byteLength. cbv zeta.
    rewrite Hb. reflexivity. }
  assert (Hl : TypedArrayLength bufs2 a = TypedArrayLength bufs1 a).
  { unfold TypedArrayLength. rewrite Ho. reflexivity. }
  split; [exact Ho |]. split; [exact Hl |].
  unfold raw_elements. rewrite Hl, Hb. reflexivity.
Qed.

Lemma store_raw_other_buffer bufs ta i raw b :
  b <> ta_buffer ta -> buffer_at (store_raw bufs ta i raw) b = buffer_at bufs b.
Proof.
  intros Hne. unfold store_raw. rewrite buffer_at_insert.
  destruct (decide (ta_buffer ta = b)); [congruence | reflexivity].
Qed.

Lemma store_raws_other_buffer ta raws b : forall bufs i,
  b <> ta_buffer ta -> buffer_at (store_raws bufs ta i raws) b = buffer_at bufs b.
Proof.
  induction raws as [| r raws IH]; intros bufs i Hne; cbn [store_raws]; [reflexivity |].
  rewrite IH by exact Hne. apply store_raw_other_buffer. exact Hne.
Qed.

Lemma store_raw_lookup_other bufs ta i raw b :
  b <> ta_buffer ta -> store_raw bufs ta i raw !! b = bufs !! b.
Proof. intros Hne. unfold store_raw. apply lookup_insert_ne. congruence. Qed.

Lemma store_raws_lookup_other ta raws b : forall bufs i,
  b <> ta_buffer ta -> store_raws bufs ta i raws !! b = bufs !! b.
Proof.
  induction raws as [| r raws IH]; intros bufs i Hne; cbn [store_raws]; [reflexivity |].
  rewrite IH by exact Hne. apply store_raw_lookup_other. exact Hne.
Qed.

Lemma raw_elements_lookup bufs a (j : nat) :
  Z.of_nat j < TypedArrayLength bufs a ->
  raw_elements bufs a !! j = Some (cell_raw bufs a (Z.of_nat j)).
Proof.
  intros Hj. unfold raw_elements. rewrite lookup_map.
  rewrite lookup_seq_lt by lia. reflexivity.
Qed.

Lemma length_raw_elements bufs a :
  0 <= TypedArrayLength bufs a ->
  Z.of_nat (length (raw_elements bufs a)) = TypedArrayLength bufs a.
Proof. intros Hl. unfold raw_elements. rewrite length_map, length_seq. lia. Qed.

Lemma TypedArrayLength_nonneg bufs a : 0 <= TypedArrayLength bufs a.
Proof.
  unfold TypedArrayLength.
  destruct (IsTypedArrayOutOfBounds bufs a) eqn:Ho; [lia |].
  destruct (in_bounds_view bufs a Ho) as (_ & _ & _ & _ & H0). exact H0.
Qed.

Lemma raw_elements_range bufs a :
  Forall (fun e => 0 <= e < 2 ^ (8 * BYTES_PER_ELEMENT (ta_kind a))) (raw_elements bufs a).
Proof.
  apply Forall_lookup_2. intros j e Hj.
  pose proof (TypedArrayLength_nonneg bufs a) as H0.
  assert (Hlt : Z.of_nat j < TypedArrayLength bufs a).
  { apply lookup_lt_Some in Hj. rewrite <- (length_raw_elements bufs a H0). lia. }
  rewrite (raw_elements_lookup bufs a j Hlt) in Hj. injection Hj as <-.
  destruct (whole_index (Z.of_nat j)) as [Hint Hto].
  exact (proj2 (get_element_cell bufs a (whole (Z.of_nat j)) (Z.of_nat j) Hint Hto
                  ltac:(lia))).
Qed.

Lemma raw_elements_of_cells bufs h es :
  cells_hold bufs h 0 es ->
  Z.of_nat (length es) = TypedArrayLength bufs h ->
  raw_elements bufs h = es.
Proof.
  intros Hcells Hlen. apply list_eq. intros j.
  destruct (es !! j) as [e |] eqn:Hj.
  - apply lookup_lt_Some in Hj as Hlt.
    rewrite raw_elements_lookup by lia.
    rewrite <- (Hcells j e Hj). reflexivity.
  - apply lookup_ge_None in Hj. apply lookup_ge_None.
    pose proof (length_raw_elements bufs h ltac:(lia)). lia.
Qed.

Lemma total_length_from bufs (arrays : list TypedArray) : forall n,
  fold_left (fun totalLength array => totalLength + TypedArrayLength bufs array) arrays n
  = n + Z.of_nat (length (concat (map (raw_elements bufs) arrays))).
Proof.
  induction arrays as [| a arrays IH]; intros n; cbn [fold_left map concat].
  - cbn. lia.
  - rewrite IH, length_app.
    pose proof (length_raw_elements bufs a (TypedArrayLength_nonneg bufs a)). lia.
Qed.

Section Concat.

Variable bufs : gmap nat Buffer.
Variable result : TypedArray.
Hypothesis fresh : bufs !! ta_buffer result = None.

Lemma source_elsewhere a :
  is_Some (bufs !! ta_buffer a) -> ta_buffer a <> ta_buffer result.
Proof.
  intros [x Hx] Heq. rewrite Heq in Hx.
  pose proof (eq_trans (eq_sym fresh) Hx) as Hno. discriminate Hno.
Qed.

Lemma set_each_in_bounds arrays : forall total cur done,
  Forall (fun a => ta_kind a = ta_kind result /\ is_Some (bufs !! ta_buffer a)) arrays ->
  Forall (fun a => IsTypedArrayOutOfBounds bufs a = false) arrays ->
  filling_result bufs result total cur ->
  cells_hold cur result 0 done ->
  Z.of_nat (length done) + Z.of_nat (length (concat (map (raw_elements bufs) arrays)))
  = total ->
  exists cur',
    set_each result arrays (Z.of_nat (length done)) cur = (Ret tt, cur')
    /\ filling_result bufs result total cur'
    /\ cells_hold cur' result 0 (done ++ concat (map (raw_elements bufs) arrays)).
Proof.
  induction arrays as [| a arrays IH]; intros total cur done Hex Hin Hfill Hcells Htotal.
  - exists cur. cbn [set_each map concat]. rewrite app_nil_r.
    split; [reflexivity | split; [exact Hfill | exact Hcells]].
  - apply Forall_cons in Hex as [[Hk Ha] Hex'].
    assert (Hrange : Forall (fun e => 0 <= e < 2 ^ (8 * BYTES_PER_ELEMENT (ta_kind result)))
                       (raw_elements bufs a))
      by (rewrite <- Hk; apply raw_elements_range). apply Forall_cons in Hin as [Hoa Hin'].
    cbn [map concat] in *. rewrite length_app in Htotal.
    destruct Hfill as (Hor & Hlr & Hrest).
    pose proof (source_elsewhere a Ha) as Hne.
    destruct (view_of_the_same_buffer bufs cur a (proj2 (Hrest _ Hne)))
      as (Hoa' & Hla & Hra).
    pose proof (length_raw_elements bufs a (TypedArrayLength_nonneg bufs a)) as Hlen.
    set (off := Z.of_nat (length done)) in *.
    set (cur1 := store_raws cur result off (raw_elements bufs a)).
    assert (Hset : TypedArray_set cur result a off = Ret cur1).
    { unfold TypedArray_set.
      destruct (Z.ltb_spec off 0); [lia |].
      rewrite Hor, Hoa', Hoa, Hlr, Hla, Hra.
      destruct (Z.ltb_spec total (TypedArrayLength bufs a + off)); [lia | reflexivity]. }
    assert (Hfit : off + Z.of_nat (length (raw_elements bufs a))
                   <= TypedArrayLength cur result) by lia.
    destruct (cell_raw_store_raws result (raw_elements bufs a) cur off 0 ltac:(lia) Hfit
                Hrange ltac:(lia)) as [Hlr1 _].
    fold cur1 in Hlr1.
    assert (Hfill1 : filling_result bufs result total cur1).
    { split; [| split].
      - unfold IsTypedArrayOutOfBounds.
        destruct (byteLength_store_raws result (raw_elements bufs a) cur off
                    (ta_buffer result) ltac:(lia) Hfit) as [Hbl Hdt].
        fold cur1 in Hbl, Hdt. rewrite Hbl, Hdt. exact Hor.
      - rewrite Hlr1. exact Hlr.
      - intros b Hb. destruct (Hrest b Hb) as [H1 H2]. split.
        + unfold cur1. rewrite store_raws_lookup_other by exact Hb. exact H1.
        + unfold cur1. rewrite store_raws_other_buffer by exact Hb. exact H2. }
    assert (Hcells1 : cells_hold cur1 result 0 (done ++ raw_elements bufs a)).
    { intros j e Hj.
      destruct (cell_raw_store_raws result (raw_elements bufs a) cur off
                  (0 + Z.of_nat j) ltac:(lia) Hfit Hrange ltac:(lia))
        as [_ Hcell].
      fold cur1 in Hcell. rewrite Hcell.
      destruct (decide (off <= 0 + Z.of_nat j
                        < off + Z.of_nat (length (raw_elements bufs a)))) as [Hr | Hr].
      - rewrite lookup_app_r in Hj by lia.
        replace (Z.to_nat (0 + Z.of_nat j - off)) with (j - length done)%nat by lia.
        rewrite Hj. reflexivity.
      - apply lookup_lt_Some in Hj as Hlt. rewrite length_app in Hlt.
        rewrite lookup_app_l in Hj by lia.
        exact (Hcells j e Hj). }
    assert (Hla1 : TypedArrayLength cur1 a = TypedArrayLength bufs a).
    { apply (view_of_the_same_buffer bufs cur1 a).
      exact (proj2 (proj2 (proj2 Hfill1) _ Hne)). }
    destruct (IH total cur1 (done ++ raw_elements bufs a) Hex' Hin' Hfill1 Hcells1)
      as (cur' & Hrun & Hfill' & Hcells').
    { rewrite length_app. lia. }
    exists cur'. split; [| split; [exact Hfill' |]].
    + cbn [set_each]. rewrite Hset. fold cur1. rewrite Hla1.
      replace (off + TypedArrayLength bufs a)
        with (Z.of_nat (length (done ++ raw_elements bufs a)))
        by (rewrite length_app; lia).
      exact Hrun.
    + rewrite <- app_assoc in Hcells'. exact Hcells'.
Qed.

Lemma set_each_out_of_bounds arrays : forall total cur off,
  Forall (fun a => ta_kind a = ta_kind result /\ is_Some (bufs !! ta_buffer a)) arrays ->
  Exists (fun a => IsTypedArrayOutOfBounds bufs a = true) arrays ->
  filling_result bufs result total cur ->
  0 <= off ->
  off + Z.of_nat (length (concat (map (raw_elements bufs) arrays))) <= total ->
  fst (set_each result arrays off cur) = Throw TypeError.
Proof.
  induction arrays as [| a arrays IH]; intros total cur off Hex Hout Hfill Hoff Htotal.
  - inversion Hout.
  - apply Forall_cons in Hex as [[Hk Ha] Hex'].
    assert (Hrange : Forall (fun e => 0 <= e < 2 ^ (8 * BYTES_PER_ELEMENT (ta_kind result)))
                       (raw_elements bufs a))
      by (rewrite <- Hk; apply raw_elements_range).
    cbn [map concat] in Htotal. rewrite length_app in Htotal.
    destruct Hfill as (Hor & Hlr & Hrest).
    pose proof (source_elsewhere a Ha) as Hne.
    destruct (view_of_the_same_buffer bufs cur a (proj2 (Hrest _ Hne)))
      as (Hoa' & Hla & Hra).
    pose proof (length_raw_elements bufs a (TypedArrayLength_nonneg bufs a)) as Hlen.
    cbn [set_each]. unfold TypedArray_set.
    destruct (Z.ltb_spec off 0); [lia |].
    rewrite Hor, Hoa'.
    destruct (IsTypedArrayOutOfBounds bufs a) eqn:Hoa; [reflexivity |].
    apply Exists_cons in Hout as [Hbad | Hout']; [congruence |].
    rewrite Hlr, Hla, Hra.
    destruct (Z.ltb_spec total (TypedArrayLength bufs a + off)); [lia |].
    set (cur1 := store_raws cur result off (raw_elements bufs a)).
    assert (Hfit : off + Z.of_nat (length (raw_elements bufs a))
                   <= TypedArrayLength cur result) by lia.
    destruct (cell_raw_store_raws result (raw_elements bufs a) cur off 0 ltac:(lia) Hfit
                Hrange ltac:(lia)) as [Hlr1 _].
    fold cur1 in Hlr1.
    assert (Hfill1 : filling_result bufs result total cur1).
    { split; [| split].
      - unfold IsTypedArrayOutOfBounds.
        destruct (byteLength_store_raws result (raw_elements bufs a) cur off
                    (ta_buffer result) ltac:(lia) Hfit) as [Hbl Hdt].
        fold cur1 in Hbl, Hdt. rewrite Hbl, Hdt. exact Hor.
      - rewrite Hlr1. exact Hlr.
      - intros b Hb. destruct (Hrest b Hb) as [H1 H2]. split.
        + unfold cur1. rewrite store_raws_lookup_other by exact Hb. exact H1.
        + unfold cur1. rewrite store_raws_other_buffer by exact Hb. exact H2. }
    apply (IH total cur1 _ Hex' Hout' Hfill1).
    + pose proof (TypedArrayLength_nonneg cur1 a). lia.
    + assert (Hla1 : TypedArrayLength cur1 a = TypedArrayLength bufs a).
      { apply (view_of_the_same_buffer bufs cur1 a).
        exact (proj2 (proj2 (proj2 Hfill1) _ Hne)). }
      rewrite Hla1. lia.
Qed.

End Concat.

(** [concatUint8Arrays] of byte arrays over buffers of the embedder.  Where
    every array is in bounds it returns a byte array over a new buffer
    that holds the elements of the arrays, in their order, and nothing
    else, and it leaves every buffer there was as it was.  Where an array
    is out of bounds, as it is once its buffer is detached, its [length]
    counts as 0 and [set] throws a TypeError. *)
Theorem concatUint8Arrays_concatenates (bufs : gmap nat Buffer) arrays :
  Forall (fun a => ta_kind a = Uint8 /\ is_Some (bufs !! ta_buffer a)) arrays ->
  (Forall (fun a => IsTypedArrayOutOfBounds bufs a = false) arrays ->
   exists result bufs',
     concatUint8Arrays arrays bufs = (Ret result, bufs')
     /\ ta_kind result = Uint8
     /\ bufs !! ta_buffer result = None
     /\ IsTypedArrayOutOfBounds bufs' result = false
     /\ raw_elements bufs' result = concat (map (raw_elements bufs) arrays)
     /\ forall b, is_Some (bufs !! b) -> bufs' !! b = bufs !! b)
  /\ (Exists (fun a => IsTypedArrayOutOfBounds bufs a = true) arrays ->
      fst (concatUint8Arrays arrays bufs) = Throw TypeError).
Proof.
  intros Hsrc.
  unfold concatUint8Arrays, concatTypedArrays, new_TypedArray_of_length, new_ArrayBuffer.
  cbv zeta. rewrite total_length_from. rewrite Z.add_0_l.
  set (total := Z.of_nat (length (concat (map (raw_elements bufs) arrays)))).
  set (b := fresh_buffer bufs).
  set (zeros := {| data := replicate (Z.to_nat (total * BYTES_PER_ELEMENT Uint8)) Byte.x00;
                   detached := false |}).
  set (result := {| ta_kind := Uint8; ta_buffer := b; ta_byteOffset := 0;
                    ta_length := total |}).
  set (bufs0 := <[b := zeros]> bufs).
  assert (Hfresh : bufs !! ta_buffer result = None) by apply fresh_buffer_is_fresh.
  assert (Hfill : filling_result bufs result total bufs0).
  { split; [| split].
    - unfold IsTypedArrayOutOfBounds, IsDetachedBuffer, byteLength. cbv zeta.
      cbn [ta_buffer ta_byteOffset ta_length ta_kind result].
      unfold bufs0. rewrite buffer_at_insert.
      destruct (decide (b = b)); [| congruence].
      cbn [detached data zeros]. rewrite length_replicate.
      cbn [orb BYTES_PER_ELEMENT].
      destruct (Z.ltb_spec 0 0); [lia |].
      destruct (Z.ltb_spec total 0); [lia |].
      destruct (Z.ltb_spec (Z.of_nat (Z.to_nat (total * 1))) (0 + total * 1)); [lia |].
      reflexivity.
    - unfold TypedArrayLength, IsTypedArrayOutOfBounds, IsDetachedBuffer, byteLength.
      cbv zeta. cbn [ta_buffer ta_byteOffset ta_length ta_kind result].
      unfold bufs0. rewrite buffer_at_insert.
      destruct (decide (b = b)); [| congruence].
      cbn [detached data zeros]. rewrite length_replicate.
      cbn [orb BYTES_PER_ELEMENT].
      destruct (Z.ltb_spec 0 0); [lia |].
      destruct (Z.ltb_spec total 0); [lia |].
      destruct (Z.ltb_spec (Z.of_nat (Z.to_nat (total * 1))) (0 + total * 1)); [lia |].
      reflexivity.
    - intros b' Hb'. cbn [ta_buffer result] in Hb'. unfold bufs0. split.
      + apply lookup_insert_ne. congruence.
      + rewrite buffer_at_insert. destruct (decide (b = b')); [congruence | reflexivity]. }
  assert (Hsrc' : Forall (fun a => ta_kind a = ta_kind result
                                   /\ is_Some (bufs !! ta_buffer a)) arrays)
    by exact Hsrc.
  split.
  - intros Hin.
    destruct (set_each_in_bounds bufs result Hfresh arrays total bufs0 [] Hsrc' Hin Hfill)
      as (bufs' & Hrun & (Hor & Hlr & Hrest) & Hcells).
    { intros j e Hj. rewrite lookup_nil in Hj. discriminate Hj. }
    { cbn [length]. unfold total. lia. }
    cbn [length] in Hrun. change (Z.of_nat 0) with 0 in Hrun.
    exists result, bufs'. rewrite Hrun.
    split; [reflexivity |]. split; [reflexivity |]. split; [exact Hfresh |].
    split; [exact Hor |]. split.
    + apply raw_elements_of_cells; [exact Hcells |].
      rewrite Hlr. reflexivity.
    + intros b' [x Hx]. apply Hrest. cbn [ta_buffer result]. intros Heq.
      rewrite Heq in Hx. unfold b in Hx.
      pose proof (eq_trans (eq_sym (fresh_buffer_is_fresh bufs)) Hx) as Hno.
      discriminate Hno.
  - intros Hout.
    pose proof (set_each_out_of_bounds bufs result Hfresh arrays total bufs0 0 Hsrc' Hout
                  Hfill ltac:(lia) ltac:(unfold total; lia)) as Hthrow.
    destruct (set_each result arrays 0 bufs0) as [[[] | e] bufs']; cbn [fst] in *.
    + discriminate Hthrow.
    + injection Hthrow as ->. reflexivity.
Qed.

Lemma concatUint8Arrays_concatenates_witness :
  (exists result bufs',
     concatUint8Arrays two_views eight_bytes = (Ret result, bufs')
     /\ raw_elements bufs' result = [1; 2; 3; 5; 6])
  /\ fst (concatUint8Arrays two_views eight_bytes_detached) = Throw TypeError.
Proof.
  assert (Hsrc : forall bufs : gmap nat Buffer, is_Some (bufs !! 1%nat) ->
            Forall (fun a => ta_kind a = Uint8 /\ is_Some (bufs !! ta_buffer a)) two_views).
  { intros bufs Hb. repeat constructor; exact Hb. }
  split.
  - destruct (concatUint8Arrays_concatenates eight_bytes two_views) as [Hin _].
    { apply Hsrc. eexists. reflexivity. }
    destruct Hin as (result & bufs' & Hrun & _ & _ & _ & Hraw & _).
    { repeat constructor. }
    exists result, bufs'. split; [exact Hrun |]. rewrite Hraw. reflexivity.
  - destruct (concatUint8Arrays_concatenates eight_bytes_detached two_views) as [_ Hout].
    { apply Hsrc. eexists. reflexivity. }
    apply Hout. left. reflexivity.
Defined.
